(* ===== verification/_CoqProject ===== *)
-Q . S2P
Prelude.v
Json.v
Commands.v
Adapter.v
Socket.v
Locks.v
LockUse.v
Fragment.v
World.v
Lifecycle.v
Protocol.v
Link.v
Net.v
IPSwitch.v
Frame.v
MACSwitch.v
WebSocket.v
WebTransport.v
Transports.v
Tunnel.v
Ready.v
Ping.v
Negotiation.v
IPText.v
VPNNet.v
Shared.v
Server.v
ServerState.v
LeasePool.v
Closers.v
Http.v
Upgraders.v
Auth.v
AuthSpec.v
AuthDemo.v
WebAPI.v
Iface.v
IfaceSpec.v
Serving.v
Client.v
ClientSpec.v
Reconnect.v
Handshake.v
Firewall.v
Reload.v
Http3.v
ReloadSpec.v
ClientReload.v
ClientReloadSpec.v
Entry.v
