(* ===== verification/Prelude.v ===== *)
(** * A verification library for WSVPN

    WSVPN is a VPN over WebSocket and WebTransport.  A client dials a server;
    over the connection both send control messages (commands, as JSON) and data
    messages (packets, whole or in fragments).  The server gives each client an
    address, moves packets between the clients and its own network interface by
    a switch, and can be reconfigured while it runs.  This library models the Go
    code of both sides and proves what makes it correct, or shows by a theorem
    where it is not.

    ** How the model reads

    Every operation of the code is a definition with the name it has there.  A
    struct is a record, updated with [<| field := value |>]; fallible code
    returns a sum or an option of [error]; code that can panic, or a loop that
    needs fuel, returns an [outcome].  Operations that reach several objects are
    programs over an explicit state ([prog], World.v), in which sockets,
    interfaces and the packet handler are named by identifiers, so that aliasing
    is kept.  Goroutines are values of that state, and their interleavings are
    runs of a transition system.  Go's integers are [Z], cut to their width
    ([u8], [u16], [u64]) where the code computes at a width; byte slices are lists
    of [Z]; maps are [gmap], and where the order of going through one matters it
    is an argument.  A definition is one critical section, and where the code has
    no lock (setServeError in Serving.v) the steps are separate; what is locked
    while is a model of its own (LockUse.v), in which the same operations are
    the mutexes they take and give back.  Messages to the log are left out.

    Code that is not in the repository is a class: what it does is a method, and
    what the program relies on is a law in a second class, which a closed
    instance in the same file or a demonstration file satisfies.

    ** The parts

    The protocol of one connection (src/shared):
    - Json.v: encoding/json as far as the commands use it; Commands.v:
      shared/features and shared/commands; Negotiation.v: the HTTP headers of
      connectors/util.go and upgraders/util.go that choose a serialization.
    - Adapter.v: the interface of sockets/adapters/base.go; WebSocket.v and
      WebTransport.v: its two implementations.
    - Socket.v, World.v: sockets/base.go, data_message.go, commands.go, vpnnet.go;
      Ping.v: ping.go as a timed transition system; Ready.v: WaitReady and setReady
      as interleaved steps on a condition variable.
    - Net.v, IPText.v, VPNNet.v, Shared.v: addresses, their text, the network of
      vpn_net.go, modes, TLS names, event scripts.
    - Iface.v: shared/iface, with one Module per platform.

    The server (src/server):
    - IPSwitch.v, MACSwitch.v: the two packet handlers, each the environment of
      the sockets' world, and each proved to be a packet handler for Lifecycle.v.
    - Server.v: slots, users, one connection from upgrade to end, settings
      (servers/base.go, sockets.go, main_iface.go); Serving.v: Serve and
      listener.go.
    - Http.v, Upgraders.v, Auth.v, WebAPI.v: from an HTTP request to a user, an
      upgraded connection, a file or the API (servers/auth.go, web.go, web_api.go,
      authenticators, upgraders, and the client's connectors and auth.go).
    - Http3.v: the configuration of the HTTP/3 server (upgraders/webtransport.go),
      with TLS configurations as objects of a store, since the code shares them.
    - Reload.v: cli/base.go, reloadConfig.

    The client (src/client): Client.v (clients/), Reconnect.v (its loop over
    connections, as a transition system), ClientReload.v (cli/base.go), Firewall.v
    (connection_linux.go, dial.go).

    The mutexes: Locks.v (goroutines with mutexes, and what an order of taking
    them gives), LockUse.v (those of sockets, adapters, switches and server, and
    every operation of the code by what it does with them, in its Module locking).

    The processes: Entry.v (the three main.go, shared/cli, shared/config.go, the
    two cli.Main with their start, their signals and their end).

    Files that hold proofs only: Link.v, Fragment.v, Lifecycle.v, Protocol.v,
    Frame.v, Transports.v, Tunnel.v, ServerState.v, LeasePool.v, Closers.v,
    AuthSpec.v, IfaceSpec.v, ClientSpec.v, Handshake.v, ReloadSpec.v, ClientReloadSpec.v;
    AuthDemo.v has closed instances.

    ** How the parts are composed

    Link.v puts the sender of one socket and the receiver of another together,
    over any adapter that keeps [SocketAdapterSpec]; Transports.v shows that both
    transports, and a process that uses both (the sum of two adapters), do.
    Tunnel.v adds the switches and the loop of the client's interface: a packet
    goes from the interface of one client over its link, the server's switch and
    a second link, of another transport, to the interface of the other client.
    Handshake.v composes the server's init command, its text on the wire, the
    client's handler and the reply.  Firewall.v composes the connectors with the
    client that enhances their connections; Entry.v the configuration with the
    life of the process.

    ** What the theorems show

    - End to end (Link.v, Tunnel.v, Handshake.v): a packet for another client
      arrives unchanged and once, whatever the order of its messages, in TUN and
      in TAP mode; after the init command the client uses the address, network,
      mode and MTU that the server chose.
    - Packets (Fragment.v, WebSocket.v, WebTransport.v): what is sent is put
      together again from its messages in any order; the retry loop ends; any
      bytes keep the buffers well formed and bounded; control messages arrive
      whole; where 16-bit arithmetic makes the code fail.
    - Commands (Commands.v, Protocol.v, Negotiation.v): they survive the wire, are
      issued only by the side and to the version they are meant for, and are
      answered once; both sides agree on serialization and features; no packet
      passes before that.
    - The life of a socket (Lifecycle.v, Ping.v): by induction on all runs, the
      channel is closed once, the WaitGroup counts what still runs, the up and
      down events come in pairs; a silent peer is noticed, a live one is not
      disconnected; waiting until ready ends, but for a wakeup that can be lost
      (Ready.v).
    - Switching (IPSwitch.v, MACSwitch.v): packets reach the socket of their
      destination and no other; a client cannot send from an address that is not
      its own; tables and caches agree in all states.
    - The server (ServerState.v, LeasePool.v, Serving.v): addresses are exclusive,
      the limit on a user's connections holds; the server refines an abstract pool
      of addresses and turns a client away only when the pool is empty; Serve ends
      once an error is recorded, and the race by which it panics instead; the list
      of closers only grows (Closers.v).
    - Access (AuthSpec.v, WebAPI.v, Http.v): a request acts as a user exactly if
      an abstract policy entitles it to; tokens let in until they expire; files
      stay inside the website directory; what the API can change.
    - Configuration and client (ReloadSpec.v, ClientReloadSpec.v, ClientSpec.v): a
      reload of the server fails no type assertion and changes nothing that is
      fixed at the start; one of the client leaves its connection alone, and its
      result depends on the new configuration, but for what that leaves out; the
      client's scripts alternate; its connections never overlap, its wait for one
      comes to its end, and its loop ends once it is closed (Reconnect.v).
    - Mutexes (LockUse.v): they exclude each other, some goroutine can always go
      on and all can come to their end; what does not hold if a write stalls.
    - Processes and system (Entry.v, Http3.v, Firewall.v, IfaceSpec.v): what no
      signal changes and what every end of a server process has done; the TLS
      settings of every QUIC handshake; which connections carry the firewall
      mark; the commands that configure an interface on Linux.

    The commands, the reply and the state invariants are proved once against
    interfaces: [SocketAdapterSpec] for adapters, [PacketHandlerSpec] for switches,
    [ClientHandlersSpec] for the client; the files of the implementations
    discharge them.

    ** Fuel

    The retry loop of WritePacket lowers a 16-bit limit at every turn, so 65537
    turns are enough (Fragment.write_retry_delivers).  The slot loop passes only
    used slots, so one turn more than there are is enough
    (ServerState.slot_loop_spec).  The stream loop of WebTransport consumes a byte
    a turn, the JSON parser at most two turns a byte, the clean-up of a cache one
    entry a turn; for each there is a theorem that the fuel given is enough.

    ** Not modelled

    - Memory ordering, and the locks inside the standard library and third-party
      packages; sync.Cond but for Ready.v; the handshake of TLS and what
      third-party servers do between two calls.
    - Addresses and TLS states that are only read for the log.
    - Parsing of flags, the delivery of signals, YAML, and printing: the standard
      library or packages the code calls.
    - Running commands and scripts, opening interfaces, socket options: operating
      system; what they answer is an input or a class.  The embedded wintun
      library is data.
    - Compression: the code declares the feature and does not implement it. *)

From stdpp Require Export base gmap sets list list_numbers strings.
From Stdlib Require Export ZArith Lia.

#[global] Open Scope Z_scope.

(** ** Go's machine integers: the value of a conversion is its residue *)

Definition u8 (x : Z) : Z := x mod 2 ^ 8.
Definition u16 (x : Z) : Z := x mod 2 ^ 16.
Definition u32 (x : Z) : Z := x mod 2 ^ 32.
Definition u64 (x : Z) : Z := x mod 2 ^ 64.

(** A Go [[]byte]; every element of a well-formed one lies in [0, 256). *)
Abbreviation bytes := (list Z).
Definition is_byte (b : Z) : Prop := 0 <= b < 256.

(** Go's [len]. *)
Definition len {A} (l : list A) : Z := Z.of_nat (length l).

(** Indexing that the code guards by a length test. *)
Definition byte_at (l : bytes) (i : nat) : Z := default 0 (l !! i).

(** ** Results of code that can panic

    [Exhausted] is the result of a bounded loop that used up its fuel; no
    program behaviour corresponds to it, and the theorems rule it out. *)

Inductive outcome (R : Type) : Type :=
| Ret (r : R)
| Panic (why : string)
| Exhausted.

Arguments Ret {_} _.
Arguments Panic {_} _.
Arguments Exhausted {_}.

#[export] Instance outcome_ret : MRet outcome := λ _ r, Ret r.
#[export] Instance outcome_bind : MBind outcome := λ _ _ k m,
  match m with
  | Ret r => k r
  | Panic why => Panic why
  | Exhausted => Exhausted
  end.

Definition is_Ret {R} (o : outcome R) : Prop := ∃ r, o = Ret r.

(** Go's [data[a:b]] on a slice whose capacity is its length. *)
Definition go_slice {A} (l : list A) (a b : Z) : outcome (list A) :=
  if (0 <=? a) && (a <=? b) && (b <=? len l)
  then Ret (take (Z.to_nat (b - a)) (drop (Z.to_nat a) l))
  else Panic "slice bounds out of range".

(** ** Errors

    The sentinels are compared by identity ([errors.Is]); every other error of
    the code is built from a text by [errors.New] or [fmt.Errorf("...%v")],
    and [%v] does not wrap, so such an error is none of the sentinels. *)

Inductive error : Type :=
| ErrDataPayloadLimitReduced
| ErrCommandNotSupported
| ErrText (text : string).

#[export] Instance error_eq_dec : EqDecision error.
Proof. solve_decision. Defined.

(** The method [Error()] of an error value. *)
Definition error_text (e : error) : string :=
  match e with
  | ErrDataPayloadLimitReduced => "data payload limit reduced"
  | ErrCommandNotSupported => "command not supported by peer"
  | ErrText t => t
  end.

(** ** Functional record update: [r <| field := v |>]

    A record type declares its eta-expansion as an instance of [Etable]; the
    update function of a projection is then found by abstracting that
    projection in the eta-expanded record. *)

Class Etable (R : Type) := eta_record : R → R.
Class Updatable {R T : Type} (proj : R → T) := MkUpdatable { upd_field : (T → T) → R → R }.
Arguments upd_field {R T} proj {_} f r /.

Ltac find_update :=
  match goal with
  | |- @Updatable ?R ?T ?proj =>
      let r := fresh "r" in
      let f := fresh "f" in
      refine (MkUpdatable R T proj (λ (f : T → T) (r : R), _));
      let body := eval hnf in (@eta_record R _ r) in
      let body := eval pattern (proj r) in body in
      match body with
      | ?g _ =>
          lazymatch g with
          | (fun _ => ?b) => fail "the field does not occur in the record"
          | _ => let b := eval cbv beta in (g (f (proj r))) in exact b
          end
      end
  end.

#[export] Hint Extern 1 (Updatable _) => find_update : typeclass_instances.

Declare Scope record_scope.
#[global] Open Scope record_scope.
Notation "r <| proj := v |>" := (upd_field proj (λ _, v) r)
  (at level 1, left associativity, format "r <| proj  :=  v |>") : record_scope.

(** ** Strings as the bytes Go holds in them *)

Definition ascii_code (c : Ascii.ascii) : Z := Z.of_N (Ascii.N_of_ascii c).
Definition code_ascii (z : Z) : Ascii.ascii := Ascii.ascii_of_N (Z.to_N z).

#[global] Arguments String.append !_ _ : simpl nomatch.

(** The conversions [[]byte(s)] and [string(b)]. *)
Fixpoint string_to_bytes (s : string) : bytes :=
  match s with
  | EmptyString => []
  | String c s => ascii_code c :: string_to_bytes s
  end.
Fixpoint bytes_to_string (b : bytes) : string :=
  match b with
  | [] => EmptyString
  | z :: b => String (code_ascii z) (bytes_to_string b)
  end.

(** strings.Split with a separator of one byte *)
Fixpoint split_on (sep : Ascii.ascii) (s : string) : list string :=
  match s with
  | EmptyString => [EmptyString]
  | String c s =>
      if bool_decide (c = sep) then EmptyString :: split_on sep s
      else match split_on sep s with
           | w :: ws => String c w :: ws
           | [] => [String c EmptyString]
           end
  end.

(** strings.Join *)
Fixpoint join (sep : string) (l : list string) : string :=
  match l with
  | [] => EmptyString
  | [s] => s
  | s :: l => s +:+ sep +:+ join sep l
  end.

(** ** Lemmas on lengths and integers *)

Create HintDb go.
Create Rewrite HintDb go.

Lemma len_nonneg {A} (l : list A) : 0 <= len l.
Proof. unfold len. lia. Qed.

Lemma len_app {A} (l k : list A) : len (l ++ k) = len l + len k.
Proof. unfold len. rewrite length_app. lia. Qed.

Lemma len_cons {A} (x : A) (l : list A) : len (x :: l) = 1 + len l.
Proof. unfold len. simpl length. lia. Qed.

Lemma len_nil {A} : len (@nil A) = 0.
Proof. reflexivity. Qed.

#[export] Hint Rewrite @len_app @len_cons @len_nil : go.
#[export] Hint Resolve len_nonneg : go.

Lemma u8_small x : 0 <= x < 256 → u8 x = x.
Proof. intros. unfold u8. apply Z.mod_small. lia. Qed.
Lemma u16_small x : 0 <= x < 65536 → u16 x = x.
Proof. intros. unfold u16. apply Z.mod_small. lia. Qed.
Lemma u32_small x : 0 <= x < 4294967296 → u32 x = x.
Proof. intros. unfold u32. apply Z.mod_small. lia. Qed.
Lemma u64_small x : 0 <= x < 18446744073709551616 → u64 x = x.
Proof. intros. unfold u64. apply Z.mod_small. lia. Qed.

Lemma u8_range x : 0 <= u8 x < 256.
Proof. apply Z.mod_pos_bound. lia. Qed.
Lemma u16_range x : 0 <= u16 x < 65536.
Proof. apply Z.mod_pos_bound. lia. Qed.
Lemma u32_range x : 0 <= u32 x < 4294967296.
Proof. apply Z.mod_pos_bound. lia. Qed.
Lemma u64_range x : 0 <= u64 x < 18446744073709551616.
Proof. apply Z.mod_pos_bound. lia. Qed.

#[export] Hint Resolve u8_range u16_range u32_range u64_range : go.

(** Turn boolean comparisons into their propositions and close by [lia]. *)
Ltac bool_lia :=
  repeat match goal with
  | H : (_ && _) = true |- _ => apply andb_true_iff in H as [? ?]
  | H : (_ || _) = false |- _ => apply orb_false_iff in H as [? ?]
  | H : negb _ = true |- _ => apply negb_true_iff in H
  | H : negb _ = false |- _ => apply negb_false_iff in H
  | H : (_ <=? _) = true |- _ => apply Z.leb_le in H
  | H : (_ <=? _) = false |- _ => apply Z.leb_gt in H
  | H : (_ <? _) = true |- _ => apply Z.ltb_lt in H
  | H : (_ <? _) = false |- _ => apply Z.ltb_ge in H
  | H : (_ =? _) = true |- _ => apply Z.eqb_eq in H
  | H : (_ =? _) = false |- _ => apply Z.eqb_neq in H
  end; try lia.

(** Inversion of a computation of [outcome] that returned. *)
Lemma bind_Ret_inv {A B} (m : outcome A) (k : A → outcome B) b :
  (m ≫= k) = Ret b → ∃ a, m = Ret a ∧ k a = Ret b.
Proof. destruct m; simpl; naive_solver. Qed.

Ltac inv_bind :=
  repeat match goal with
  | H : (_ ≫= _) = Ret _ |- _ =>
      let a := fresh "a" in let E := fresh "E" in
      apply bind_Ret_inv in H as (a & E & H)
  | H : Ret _ = Ret _ |- _ => injection H as H; subst
  end.

(** Case analysis on the tests and matches of the hypotheses and goal. *)
Ltac split_tests :=
  repeat (case_match; simplify_eq/=; try done).

(** A test on the integers below a bound, decided by running it on each. *)
Lemma forall_range (P : Z → bool) n :
  forallb P (map Z.of_nat (seq 0 n)) = true → ∀ z, 0 <= z < Z.of_nat n → P z = true.
Proof.
  rewrite forallb_forall. intros Hp z Hz. apply Hp, in_map_iff.
  exists (Z.to_nat z). split; [lia|]. apply in_seq. lia.
Qed.

(** ** Slices *)

Lemma go_slice_ok {A} (l : list A) a b :
  0 <= a → a <= b → b <= len l →
  go_slice l a b = Ret (take (Z.to_nat (b - a)) (drop (Z.to_nat a) l)).
Proof.
  intros. unfold go_slice.
  rewrite (proj2 (Z.leb_le 0 a)), (proj2 (Z.leb_le a b)), (proj2 (Z.leb_le b _))
    by lia. done.
Qed.

Lemma go_slice_bad {A} (l : list A) a b :
  b < a → go_slice l a b = Panic "slice bounds out of range".
Proof.
  intros. unfold go_slice. rewrite (proj2 (Z.leb_gt a b)) by lia.
  by rewrite andb_false_r.
Qed.

Lemma length_string_to_bytes s :
  length (string_to_bytes s) = String.length s.
Proof. induction s; simpl; congruence. Qed.

Lemma bytes_to_string_to_bytes s : bytes_to_string (string_to_bytes s) = s.
Proof.
  induction s as [|c s IH]; simpl; [done|].
  rewrite IH. unfold code_ascii, ascii_code.
  by rewrite N2Z.id, Ascii.ascii_N_embedding.
Qed.

Lemma ascii_code_range c : 0 <= ascii_code c < 256.
Proof.
  unfold ascii_code. pose proof (Ascii.N_ascii_bounded c). lia.
Qed.

Lemma string_to_bytes_range s : Forall is_byte (string_to_bytes s).
Proof.
  induction s; simpl; constructor; [apply ascii_code_range|done].
Qed.

(** ** Lists *)

Lemma filter_all {A} (P : A → Prop) `{!∀ x, Decision (P x)} (l : list A) :
  Forall P l → filter P l = l.
Proof.
  induction 1; [done|]. rewrite filter_cons, decide_True by done. congruence.
Qed.

Lemma filter_none {A} (P : A → Prop) `{!∀ x, Decision (P x)} (l : list A) :
  Forall (λ x, ¬ P x) l → filter P l = [].
Proof.
  induction 1; [done|]. by rewrite filter_cons, decide_False.
Qed.

Lemma elem_of_concat {A} (x : A) (ls : list (list A)) :
  x ∈ concat ls ↔ ∃ l, x ∈ l ∧ l ∈ ls.
Proof.
  induction ls as [|l ls IH]; simpl; [|rewrite elem_of_app, IH]; set_solver.
Qed.

Lemma elem_of_take_in {A} (x : A) n (l : list A) : x ∈ take n l → x ∈ l.
Proof. rewrite elem_of_take. intros (i & Hi & _). by eapply list_elem_of_lookup_2. Qed.

(** ** Splitting strings *)

Fixpoint string_all (p : Ascii.ascii → bool) (s : string) : bool :=
  match s with EmptyString => true | String c s => p c && string_all p s end.

Lemma split_on_whole sep s :
  string_all (λ c, negb (bool_decide (c = sep))) s = true → split_on sep s = [s].
Proof.
  induction s as [|c s IH]; simpl; [done|]. intros [Hc Hs]%andb_true_iff.
  apply negb_true_iff in Hc. by rewrite Hc, IH.
Qed.

Lemma split_on_app sep s rest :
  string_all (λ c, negb (bool_decide (c = sep))) s = true →
  split_on sep (s +:+ String sep rest) = s :: split_on sep rest.
Proof.
  induction s as [|c s IH]; simpl; [by rewrite bool_decide_eq_true_2|].
  intros [Hc Hs]%andb_true_iff. apply negb_true_iff in Hc. by rewrite Hc, IH.
Qed.
