(* ===== verification/Json.v ===== *)
(** * The part of [encoding/json] the command layer uses

    WSVPN exchanges its commands as JSON texts produced by [json.Marshal] and
    read by [json.Unmarshal] (shared/commands/serialize.go).  This file models
    what those two functions do on the types the program passes to them: the
    document tree, the printer with Go's string escaping, the parser, and the
    filling of a struct from an object.  Strings are Go strings: sequences of
    bytes, valid UTF-8 or not.  Go's limit of 10000 nested brackets is not
    modelled. *)

From Stdlib Require Import DecimalString DecimalZ.
From Stdlib Require Ascii.
From S2P Require Import Prelude.

#[local] Set Warnings "-register-all".

Inductive json : Type :=
| JNull
| JBool (b : bool)
| JNum (lit : string)
| JStr (s : string)
| JArr (l : list json)
| JObj (l : list (string * json)).

(** ** UTF-8 *)

(** [utf8.DecodeRune]: the rune at the head of a non-empty string and its
    width; an invalid sequence gives U+FFFD with width 1. *)
Definition runeError : Z := 65533.

Definition between (lo x hi : Z) : bool := (lo <=? x) && (x <=? hi).

Definition decode_rune (s : string) : Z * nat :=
  match s with
  | String c0 r0 =>
      let b0 := ascii_code c0 in
      if b0 <? 128 then (b0, 1%nat)
      else match r0 with
      | String c1 r1 =>
          let b1 := ascii_code c1 in
          if between 194 b0 223 then
            if between 128 b1 191
            then ((b0 - 192) * 64 + (b1 - 128), 2%nat) else (runeError, 1%nat)
          else match r1 with
          | String c2 r2 =>
              let b2 := ascii_code c2 in
              if between 224 b0 239 then
                let lo := if b0 =? 224 then 160 else 128 in
                let hi := if b0 =? 237 then 159 else 191 in
                if between lo b1 hi && between 128 b2 191
                then ((b0 - 224) * 4096 + (b1 - 128) * 64 + (b2 - 128), 3%nat)
                else (runeError, 1%nat)
              else match r2 with
              | String c3 _ =>
                  let b3 := ascii_code c3 in
                  let lo := if b0 =? 240 then 144 else 128 in
                  let hi := if b0 =? 244 then 143 else 191 in
                  if between 240 b0 244 && between lo b1 hi
                     && between 128 b2 191 && between 128 b3 191
                  then ((b0 - 240) * 262144 + (b1 - 128) * 4096
                        + (b2 - 128) * 64 + (b3 - 128), 4%nat)
                  else (runeError, 1%nat)
              | EmptyString => (runeError, 1%nat)
              end
          | EmptyString => (runeError, 1%nat)
          end
      | EmptyString => (runeError, 1%nat)
      end
  | EmptyString => (runeError, 0%nat)
  end.

(** [utf8.AppendRune] on a valid rune. *)
Definition encode_rune (r : Z) (rest : string) : string :=
  let ch z := String (code_ascii z) in
  if r <? 128 then ch r rest
  else if r <? 2048 then ch (192 + r / 64) (ch (128 + r mod 64) rest)
  else if r <? 65536 then
    ch (224 + r / 4096) (ch (128 + r / 64 mod 64) (ch (128 + r mod 64) rest))
  else ch (240 + r / 262144) (ch (128 + r / 4096 mod 64)
         (ch (128 + r / 64 mod 64) (ch (128 + r mod 64) rest))).

(** [utf8.ValidString]; [skip] counts the continuation bytes of the current
    rune that were already examined. *)
Fixpoint valid_utf8 (skip : nat) (s : string) : bool :=
  match s with
  | EmptyString => true
  | String c r =>
      match skip with
      | S k => valid_utf8 k r
      | O => let '(_, size) := decode_rune s in
             if (ascii_code c <? 128) then valid_utf8 0 r
             else if Nat.eqb size 1 then false
             else valid_utf8 (pred size) r
      end
  end.

(** ** Printing *)

Definition dquote : Ascii.ascii := code_ascii 34.
Definition backslash : Ascii.ascii := code_ascii 92.

Definition hex_digit (z : Z) : Ascii.ascii :=
  code_ascii (if z <? 10 then 48 + z else 87 + z).

(** [\u00XY] *)
Definition escape_u00 (z : Z) (rest : string) : string :=
  String backslash (String (code_ascii 117) (String (code_ascii 48)
    (String (code_ascii 48) (String (hex_digit (z / 16))
      (String (hex_digit (z mod 16)) rest))))).

(** The ASCII case of [appendString] with HTML escaping. *)
Definition escape_ascii (c : Ascii.ascii) (rest : string) : string :=
  let z := ascii_code c in
  let two e := String backslash (String (code_ascii e) rest) in
  if z =? 34 then two 34
  else if z =? 92 then two 92
  else if z =? 8 then two 98
  else if z =? 12 then two 102
  else if z =? 10 then two 110
  else if z =? 13 then two 114
  else if z =? 9 then two 116
  else if (z <? 32) || (z =? 60) || (z =? 62) || (z =? 38) then escape_u00 z rest
  else String c rest.

(** The body of a JSON string and its closing quote.  [skip] counts the bytes
    of the current rune still to pass, [emit] says whether they are copied. *)
Fixpoint quote_body (emit : bool) (skip : nat) (s : string) : string :=
  match s with
  | EmptyString => String dquote EmptyString
  | String c r =>
      match skip with
      | S k => let t := quote_body emit k r in if emit then String c t else t
      | O =>
          if ascii_code c <? 128 then escape_ascii c (quote_body true 0 r)
          else let '(rune, size) := decode_rune s in
          if Nat.eqb size 1 then ("\ufffd" ++ quote_body true 0 r)%string
          else if rune =? 8232 then ("\u2028" ++ quote_body false (pred size) r)%string
          else if rune =? 8233 then ("\u2029" ++ quote_body false (pred size) r)%string
          else String c (quote_body true (pred size) r)
      end
  end.

Definition quote (s : string) : string := String dquote (quote_body true 0 s).

(** [strconv.AppendInt(_, z, 10)] *)
Definition itoa (z : Z) : string := NilZero.string_of_int (Z.to_int z).

Fixpoint print_json (j : json) : string :=
  match j with
  | JNull => "null"
  | JBool true => "true"
  | JBool false => "false"
  | JNum lit => lit
  | JStr s => quote s
  | JArr l => ("[" ++ String.concat "," (map print_json l) ++ "]")%string
  | JObj l =>
      ("{" ++ String.concat ","
                (map (λ m, (quote m.1 ++ ":" ++ print_json m.2)%string) l)
           ++ "}")%string
  end.

(** ** Parsing *)

Definition is_ws (c : Ascii.ascii) : bool :=
  let z := ascii_code c in (z =? 32) || (z =? 9) || (z =? 10) || (z =? 13).

Fixpoint skip_ws (s : string) : string :=
  match s with
  | String c r => if is_ws c then skip_ws r else s
  | EmptyString => EmptyString
  end.

Definition hex_value (c : Ascii.ascii) : option Z :=
  let z := ascii_code c in
  if between 48 z 57 then Some (z - 48)
  else if between 97 z 102 then Some (z - 87)
  else if between 65 z 70 then Some (z - 55)
  else None.

(** [getu4]: four hexadecimal digits. *)
Definition hex4 (a b c d : Ascii.ascii) : option Z :=
  a ← hex_value a; b ← hex_value b; c ← hex_value c; d ← hex_value d;
  Some (a * 4096 + b * 256 + c * 16 + d).

Definition cons_fst (f : string → string) (o : option (string * string)) :
  option (string * string) :=
  match o with Some (s, rest) => Some (f s, rest) | None => None end.

(** One-letter escapes: the byte denoted after the backslash. *)
Definition simple_escape (z : Z) : option Z :=
  if (z =? 34) || (z =? 92) || (z =? 47) then Some z
  else if z =? 98 then Some 8
  else if z =? 102 then Some 12
  else if z =? 110 then Some 10
  else if z =? 114 then Some 13
  else if z =? 116 then Some 9
  else None.

(** The string literal whose opening quote was read: its value and the text
    after the closing quote.  [None] is a syntax error. *)
Fixpoint unquote_body (skip : nat) (s : string) : option (string * string) :=
  match s with
  | EmptyString => None
  | String c r =>
      let z := ascii_code c in
      match skip with
      | S k => cons_fst (String c) (unquote_body k r)
      | O =>
          if z =? 34 then Some (EmptyString, r)
          else if z <? 32 then None
          else if z =? 92 then
            match r with
            | String e r1 =>
                match simple_escape (ascii_code e) with
                | Some y => cons_fst (String (code_ascii y)) (unquote_body 0 r1)
                | None =>
                    if ascii_code e =? 117 then
                      match r1 with
                      | String h1 (String h2 (String h3 (String h4 r2))) =>
                          match hex4 h1 h2 h3 h4 with
                          | None => None
                          | Some u =>
                              if negb (between 55296 u 57343)
                              then cons_fst (encode_rune u) (unquote_body 0 r2)
                              else
                                let plain :=
                                  cons_fst (encode_rune runeError) (unquote_body 0 r2) in
                                match r2 with
                                | String b2 (String u2 (String g1 (String g2
                                    (String g3 (String g4 r3))))) =>
                                    if (ascii_code b2 =? 92) && (ascii_code u2 =? 117) then
                                      match hex4 g1 g2 g3 g4 with
                                      | Some v =>
                                          if (u <? 56320) && between 56320 v 57343
                                          then cons_fst
                                            (encode_rune ((u - 55296) * 1024 + (v - 56320) + 65536))
                                            (unquote_body 0 r3)
                                          else plain
                                      | None => plain
                                      end
                                    else plain
                                | _ => plain
                                end
                          end
                      | _ => None
                      end
                    else None
                end
            | EmptyString => None
            end
          else if z <? 128 then cons_fst (String c) (unquote_body 0 r)
          else let '(_, size) := decode_rune s in
          if Nat.eqb size 1
          then cons_fst (encode_rune runeError) (unquote_body 0 r)
          else cons_fst (String c) (unquote_body (pred size) r)
      end
  end.

Definition is_digit (c : Ascii.ascii) : bool := between 48 (ascii_code c) 57.

Fixpoint span_digits (s : string) : string * string :=
  match s with
  | String c r =>
      if is_digit c then let '(d, rest) := span_digits r in (String c d, rest)
      else (EmptyString, s)
  | EmptyString => (EmptyString, EmptyString)
  end.

Definition is_empty (s : string) : bool :=
  match s with EmptyString => true | _ => false end.

(** A number: an optional minus sign, a digit run without a leading zero, an
    optional fraction and an optional exponent. *)
Definition scan_int_part (s : string) : option (string * string) :=
  match s with
  | String c r =>
      if ascii_code c =? 48 then Some (String c EmptyString, r)
      else if is_digit c then Some (span_digits s) else None
  | EmptyString => None
  end.

Definition scan_frac (s : string) : option (string * string) :=
  match s with
  | String c r =>
      if ascii_code c =? 46 then
        let '(d, rest) := span_digits r in
        if is_empty d then None else Some (String c d, rest)
      else Some (EmptyString, s)
  | EmptyString => Some (EmptyString, s)
  end.

Definition scan_exp (s : string) : option (string * string) :=
  match s with
  | String c r =>
      if (ascii_code c =? 101) || (ascii_code c =? 69) then
        let '(sign, r1) :=
          match r with
          | String g r' => if (ascii_code g =? 43) || (ascii_code g =? 45)
                           then (String g EmptyString, r') else (EmptyString, r)
          | EmptyString => (EmptyString, r)
          end in
        let '(d, rest) := span_digits r1 in
        if is_empty d then None else Some (String c (sign ++ d)%string, rest)
      else Some (EmptyString, s)
  | EmptyString => Some (EmptyString, s)
  end.

Definition scan_number (s : string) : option (string * string) :=
  let '(sign, s1) :=
    match s with
    | String c r => if ascii_code c =? 45 then (String c EmptyString, r) else (EmptyString, s)
    | EmptyString => (EmptyString, s)
    end in
  '(i, s2) ← scan_int_part s1;
  '(f, s3) ← scan_frac s2;
  '(e, s4) ← scan_exp s3;
  Some ((sign ++ i ++ f ++ e)%string, s4).

(** [strconv.ParseInt(_, 10, 64)] on the text of a scanned number. *)
Definition parse_int64 (lit : string) : option Z :=
  i ← NilZero.int_of_string lit;
  let z := Z.of_int i in
  if (- 2 ^ 63 <=? z) && (z <? 2 ^ 63) then Some z else None.

(** The literals [true], [false] and [null]. *)
Fixpoint strip_prefix (p s : string) : option string :=
  match p, s with
  | EmptyString, _ => Some s
  | String a p, String b s => if Ascii.eqb a b then strip_prefix p s else None
  | String _ _, EmptyString => None
  end.

(** The value at the head of a text, and the text after it.  The result
    [Ret None] is a syntax error; [Exhausted] means too little fuel. *)
Fixpoint parse_value (fuel : nat) (s : string) : outcome (option (json * string)) :=
  match fuel with
  | O => Exhausted
  | S n =>
      let s := skip_ws s in
      match s with
      | EmptyString => Ret None
      | String c r =>
          let z := ascii_code c in
          if z =? 34 then
            Ret ('(v, rest) ← unquote_body 0 r; Some (JStr v, rest))
          else if z =? 91 then
            match skip_ws r with
            | String d r' =>
                if ascii_code d =? 93 then Ret (Some (JArr [], r'))
                else o ← parse_elems n r;
                     Ret ('(l, rest) ← o; Some (JArr l, rest))
            | EmptyString => Ret None
            end
          else if z =? 123 then
            match skip_ws r with
            | String d r' =>
                if ascii_code d =? 125 then Ret (Some (JObj [], r'))
                else o ← parse_members n r;
                     Ret ('(l, rest) ← o; Some (JObj l, rest))
            | EmptyString => Ret None
            end
          else if z =? 116 then Ret (rest ← strip_prefix "true" s; Some (JBool true, rest))
          else if z =? 102 then Ret (rest ← strip_prefix "false" s; Some (JBool false, rest))
          else if z =? 110 then Ret (rest ← strip_prefix "null" s; Some (JNull, rest))
          else Ret ('(lit, rest) ← scan_number s; Some (JNum lit, rest))
      end
  end
with parse_elems (fuel : nat) (s : string) : outcome (option (list json * string)) :=
  match fuel with
  | O => Exhausted
  | S n =>
      o ← parse_value n s;
      match o with
      | None => Ret None
      | Some (v, rest) =>
          match skip_ws rest with
          | String d r =>
              if ascii_code d =? 93 then Ret (Some ([v], r))
              else if ascii_code d =? 44 then
                o ← parse_elems n r;
                Ret ('(l, rest) ← o; Some (v :: l, rest))
              else Ret None
          | EmptyString => Ret None
          end
      end
  end
with parse_members (fuel : nat) (s : string) :
  outcome (option (list (string * json) * string)) :=
  match fuel with
  | O => Exhausted
  | S n =>
      match skip_ws s with
      | String q r =>
          if ascii_code q =? 34 then
            match unquote_body 0 r with
            | None => Ret None
            | Some (k, r1) =>
                match skip_ws r1 with
                | String d r2 =>
                    if ascii_code d =? 58 then
                      o ← parse_value n r2;
                      match o with
                      | None => Ret None
                      | Some (v, r3) =>
                          match skip_ws r3 with
                          | String e r4 =>
                              if ascii_code e =? 125 then Ret (Some ([(k, v)], r4))
                              else if ascii_code e =? 44 then
                                o ← parse_members n r4;
                                Ret ('(l, rest) ← o; Some ((k, v) :: l, rest))
                              else Ret None
                          | EmptyString => Ret None
                          end
                      end
                    else Ret None
                | EmptyString => Ret None
                end
            end
          else Ret None
      | EmptyString => Ret None
      end
  end.

(** Fuel that suffices for a text: every call consumes a character or is
    followed by one that does. *)
Definition parse_fuel (s : string) : nat := S (S (2 * String.length s)).

(** A complete document. *)
Definition parse_json (s : string) : outcome (option json) :=
  o ← parse_value (parse_fuel s) s;
  Ret ('(v, rest) ← o; if is_empty (skip_ws rest) then Some v else None).

(** ** Documents the printer is used on *)

Fixpoint wf_json (j : json) : Prop :=
  match j with
  | JNull | JBool _ => True
  | JNum lit => ∃ z, lit = itoa z
  | JStr s => valid_utf8 0 s = true
  | JArr l => foldr (λ v P, wf_json v ∧ P) True l
  | JObj l => foldr (λ '(k, v) P, (valid_utf8 0 k = true ∧ wf_json v) ∧ P) True l
  end.

(** A text that cannot continue a number literal. *)
Definition ends_number (s : string) : Prop :=
  match s with
  | EmptyString => True
  | String c _ => is_digit c = false ∧ ascii_code c ≠ 46
                  ∧ ascii_code c ≠ 101 ∧ ascii_code c ≠ 69
  end.

(** ** Strings *)

Lemma code_ascii_code c : code_ascii (ascii_code c) = c.
Proof. unfold code_ascii, ascii_code. by rewrite N2Z.id, Ascii.ascii_N_embedding. Qed.

Lemma ascii_code_code z : 0 <= z < 256 → ascii_code (code_ascii z) = z.
Proof.
  intros. unfold code_ascii, ascii_code.
  rewrite Ascii.N_ascii_embedding; lia.
Qed.

Lemma ascii_code_inj c d : ascii_code c = ascii_code d → c = d.
Proof. intros E. by rewrite <- (code_ascii_code c), E, code_ascii_code. Qed.

Lemma app_assoc_s (a b c : string) : ((a ++ b) ++ c)%string = (a ++ (b ++ c))%string.
Proof. induction a; simpl; congruence. Qed.

Lemma app_nil_s (a : string) : (a ++ "")%string = a.
Proof. induction a; simpl; congruence. Qed.

Lemma quote_body_emit s : quote_body false 0 s = quote_body true 0 s.
Proof. destruct s; reflexivity. Qed.

(** The 128 ASCII cases, by evaluation: only the shape of the escape matters,
    not the text behind it. *)
Lemma unquote_escape_ascii c t :
  ascii_code c < 128 →
  unquote_body 0 (escape_ascii c t) = cons_fst (String c) (unquote_body 0 t).
Proof.
  intros Hc. destruct c as [b0 b1 b2 b3 b4 b5 b6 b7].
  destruct b7; [exfalso; destruct b0, b1, b2, b3, b4, b5, b6; vm_compute in Hc; done|].
  destruct b0, b1, b2, b3, b4, b5, b6; reflexivity.
Qed.

Lemma ascii_code_ge c : (ascii_code c <? 128) = false →
  (ascii_code c =? 34) = false ∧ (ascii_code c <? 32) = false
  ∧ (ascii_code c =? 92) = false.
Proof. intros. repeat split; bool_lia. Qed.

(** The width of a valid multi-byte rune decides how many bytes follow; they
    alone decide the rune, and encoding it gives them back. *)
Lemma decode_rune_width c r rune size :
  (ascii_code c <? 128) = false →
  decode_rune (String c r) = (rune, size) → size ≠ 1%nat →
  (∃ c1 r1, r = String c1 r1 ∧ size = 2%nat ∧ rune < 2048
     ∧ ∀ t, decode_rune (String c (String c1 t)) = (rune, size))
  ∨ (∃ c1 c2 r1, r = String c1 (String c2 r1) ∧ size = 3%nat
     ∧ (∀ t, rune = 8232 ∨ rune = 8233 →
             encode_rune rune t = String c (String c1 (String c2 t)))
     ∧ ∀ t, decode_rune (String c (String c1 (String c2 t))) = (rune, size))
  ∨ (∃ c1 c2 c3 r1, r = String c1 (String c2 (String c3 r1)) ∧ size = 4%nat
     ∧ 65536 <= rune
     ∧ ∀ t, decode_rune (String c (String c1 (String c2 (String c3 t)))) = (rune, size)).
Proof.
  intros Hc Hd Hs. cbn [decode_rune] in Hd. rewrite Hc in Hd.
  destruct r as [|c1 r1]; [simplify_eq|].
  destruct (between 194 (ascii_code c) 223) eqn:E2.
  { destruct (between 128 (ascii_code c1) 191) eqn:E2'; simplify_eq.
    left. exists c1, r1. unfold between in *. split_and!; [done..|bool_lia|].
    intros t. simpl. unfold between. by rewrite Hc, E2, E2'. }
  destruct r1 as [|c2 r2]; [simplify_eq|].
  destruct (between 224 (ascii_code c) 239) eqn:E3.
  { destruct (_ && _) eqn:E3' in Hd; simplify_eq.
    right; left. exists c1, c2, r2. split_and!; [done..| |].
    2:{ intros t. cbn [decode_rune]. by rewrite Hc, E2, E3, E3'. }
    intros t Hr. unfold between in *.
    assert (Hb : ascii_code c = 226 ∧ ascii_code c1 = 128
            ∧ (ascii_code c2 = 168 ∨ ascii_code c2 = 169)).
    { destruct (_ =? 224), (_ =? 237) in E3'; bool_lia. }
    destruct Hb as (Hb0 & Hb1 & Hb2).
    rewrite Hb0, Hb1.
    apply (f_equal code_ascii) in Hb0, Hb1. rewrite code_ascii_code in Hb0, Hb1.
    subst c c1.
    destruct Hb2 as [Hb2|Hb2]; rewrite Hb2;
      apply (f_equal code_ascii) in Hb2; rewrite code_ascii_code in Hb2;
      subst c2; reflexivity. }
  destruct r2 as [|c3 r3]; [simplify_eq|].
  destruct (_ && _) eqn:E4' in Hd; simplify_eq.
  right; right. exists c1, c2, c3, r3. split_and!; [done..| |].
  - unfold between in *. destruct (ascii_code c =? 240) eqn:E0; bool_lia.
  - intros t. cbn [decode_rune]. by rewrite Hc, E2, E3, E4'.
Qed.

(** The step of the round trip for a rune whose bytes are copied. *)
Ltac copied_rune Hc Ht IH :=
  let H := fresh in
  pose proof (ascii_code_ge _ Hc) as H; destruct H as (? & ? & ?);
  cbn [pred quote_body String.append unquote_body];
  repeat match goal with E : (ascii_code _ =? _) = false |- _ => rewrite E; clear E end;
  repeat match goal with E : (ascii_code _ <? 32) = false |- _ => rewrite E; clear E end;
  rewrite Hc, Ht; simpl; rewrite IH; [done|simpl; lia|done].

Lemma unquote_quote_body s rest :
  valid_utf8 0 s = true →
  unquote_body 0 (quote_body true 0 s ++ rest) = Some (s, rest).
Proof.
  revert s. apply (induction_ltof1 _ String.length (λ s, valid_utf8 0 s = true →
    unquote_body 0 (quote_body true 0 s ++ rest) = Some (s, rest))).
  unfold ltof. intros [|c r] IH Hv; [reflexivity|].
  destruct (ascii_code c <? 128) eqn:Hc.
  { cbn [valid_utf8 quote_body] in *. rewrite Hc in *.
    destruct (decode_rune (String c r)).
    replace (escape_ascii c (quote_body true 0 r) ++ rest)%string
      with (escape_ascii c (quote_body true 0 r ++ rest)).
    2:{ unfold escape_ascii, escape_u00. repeat case_match; reflexivity. }
    rewrite unquote_escape_ascii by lia.
    rewrite IH; [done|simpl; lia|done]. }
  destruct (decode_rune (String c r)) as [rune size] eqn:Hd.
  assert (Hw : size ≠ 1%nat).
  { intros ->. cbn [valid_utf8] in Hv. by rewrite Hd, Hc in Hv. }
  cbn [valid_utf8] in Hv. rewrite Hd, Hc in Hv.
  assert (Hw' : Nat.eqb size 1 = false) by (by apply Nat.eqb_neq).
  rewrite Hw' in Hv.
  cbn [quote_body]. rewrite Hc, Hd, Hw'.
  destruct (decode_rune_width c r rune size Hc Hd Hw)
    as [(c1&r1&->&->&Hr&Ht)|[(c1&c2&r1&->&->&Hr&Ht)|(c1&c2&c3&r1&->&->&Hr&Ht)]];
    simpl in Hv.
  - destruct (rune =? 8232) eqn:E1; [bool_lia|].
    destruct (rune =? 8233) eqn:E2; [bool_lia|].
    copied_rune Hc Ht IH.
  - destruct (rune =? 8232) eqn:E1; [|destruct (rune =? 8233) eqn:E2].
    + bool_lia. subst rune. simpl. rewrite quote_body_emit, IH; [|simpl; lia|done].
      simpl. by rewrite <- Hr by auto.
    + bool_lia. subst rune. simpl. rewrite quote_body_emit, IH; [|simpl; lia|done].
      simpl. by rewrite <- Hr by auto.
    + copied_rune Hc Ht IH.
  - destruct (rune =? 8232) eqn:E1; [bool_lia|].
    destruct (rune =? 8233) eqn:E2; [bool_lia|].
    copied_rune Hc Ht IH.
Qed.

(** ** Numbers *)

Lemma uint_digits_span u rest :
  (match rest with String c _ => is_digit c = false | EmptyString => True end) →
  span_digits (NilEmpty.string_of_uint u ++ rest) = (NilEmpty.string_of_uint u, rest).
Proof.
  intros Hr. induction u; simpl;
    [destruct rest as [|c r]; simpl; [done|by rewrite Hr]|by rewrite IHu..].
Qed.

(** The decimal digits of a positive number start with a non-zero one. *)
Lemma to_uint_no_leading_zero p u : Pos.to_uint p ≠ Decimal.D0 u.
Proof.
  intros E.
  pose proof (DecimalPos.Unsigned.to_of (Decimal.D0 u)) as H.
  assert (Hn : N.to_uint (N.of_uint (Decimal.D0 u)) = Decimal.D0 u).
  { rewrite <- E. change (Pos.to_uint p) with (N.to_uint (N.pos p)).
    by rewrite DecimalN.Unsigned.of_to. }
  rewrite DecimalN.Unsigned.to_of in Hn. unfold Decimal.unorm in Hn.
  simpl in Hn. assert (Hz : ∀ w, match Decimal.nzhead w with Decimal.D0 _ => False | _ => True end).
  { induction w; simpl; done. }
  specialize (Hz u). destruct (Decimal.nzhead u) eqn:E'; try done.
  injection Hn as <-. apply (DecimalPos.Unsigned.to_uint_nonzero p). rewrite E. done.
Qed.

Lemma to_uint_not_nil p : Pos.to_uint p ≠ Decimal.Nil.
Proof.
  intros E. pose proof (DecimalPos.Unsigned.of_to p) as H. by rewrite E in H.
Qed.

Lemma scan_frac_exp_none rest :
  ends_number rest →
  scan_frac rest = Some (EmptyString, rest) ∧ scan_exp rest = Some (EmptyString, rest).
Proof.
  intros Hr. destruct rest as [|c r]; [done|]. destruct Hr as (_ & H1 & H2 & H3).
  simpl. rewrite (proj2 (Z.eqb_neq _ _) H1), (proj2 (Z.eqb_neq _ _) H2),
    (proj2 (Z.eqb_neq _ _) H3). done.
Qed.

Lemma scan_int_part_pos p rest :
  ends_number rest →
  scan_int_part (NilEmpty.string_of_uint (Pos.to_uint p) ++ rest)
  = Some (NilEmpty.string_of_uint (Pos.to_uint p), rest).
Proof.
  intros Hr.
  pose proof (uint_digits_span (Pos.to_uint p) rest) as Hs.
  assert (Hd : match rest with String c _ => is_digit c = false | EmptyString => True end)
    by (destruct rest; [done|by destruct Hr]).
  specialize (Hs Hd).
  pose proof (to_uint_not_nil p) as Hn.
  pose proof (to_uint_no_leading_zero p) as Hz.
  destruct (Pos.to_uint p) eqn:E; try done; [by destruct (Hz u)|..];
    cbn [NilEmpty.string_of_uint String.append scan_int_part] in Hs |- *;
    rewrite Hs; reflexivity.
Qed.

Lemma itoa_pos p : itoa (Zpos p) = NilEmpty.string_of_uint (Pos.to_uint p).
Proof.
  unfold itoa. simpl. pose proof (to_uint_not_nil p).
  by destruct (Pos.to_uint p).
Qed.

Lemma itoa_neg p : itoa (Zneg p) = String (code_ascii 45) (NilEmpty.string_of_uint (Pos.to_uint p)).
Proof.
  unfold itoa. simpl. pose proof (to_uint_not_nil p).
  by destruct (Pos.to_uint p).
Qed.

Lemma scan_itoa z rest :
  ends_number rest → scan_number (itoa z ++ rest) = Some (itoa z, rest).
Proof.
  intros Hr. destruct (scan_frac_exp_none rest Hr) as [Hf He].
  unfold scan_number. destruct z as [|p|p].
  - simpl. by rewrite Hf; simpl; rewrite He.
  - rewrite itoa_pos.
    pose proof (scan_int_part_pos p rest Hr) as Hp.
    assert (Hs : ∀ s, (NilEmpty.string_of_uint (Pos.to_uint p) ++ rest)%string = s →
      match s with String c r => (ascii_code c =? 45) = false | EmptyString => True end).
    { intros s <-. pose proof (to_uint_not_nil p).
      by destruct (Pos.to_uint p). }
    destruct (_ ++ rest)%string as [|c r] eqn:E; [done|].
    rewrite (Hs _ eq_refl). cbv beta iota. rewrite Hp. simpl. rewrite Hf. simpl.
    rewrite He. simpl. by rewrite app_nil_s.
  - rewrite itoa_neg. simpl. rewrite (scan_int_part_pos p rest Hr). simpl.
    rewrite Hf. simpl. rewrite He. simpl. by rewrite app_nil_s.
Qed.

Lemma parse_int64_itoa z : - 2 ^ 63 <= z < 2 ^ 63 → parse_int64 (itoa z) = Some z.
Proof.
  intros Hz. unfold parse_int64, itoa.
  rewrite NilZero.isi.
  - simpl. rewrite DecimalZ.of_to.
    rewrite (proj2 (Z.leb_le _ _)), (proj2 (Z.ltb_lt _ _)) by lia. done.
  - destruct z; simpl; [done| |done]. intros [= E]. by apply to_uint_not_nil in E.
  - destruct z; simpl; [done|done|]. intros [= E]. by apply to_uint_not_nil in E.
Qed.

(** ** Documents *)

Lemma json_nested_ind (P : json → Prop)
  (Hnull : P JNull) (Hbool : ∀ b, P (JBool b)) (Hnum : ∀ n, P (JNum n))
  (Hstr : ∀ s, P (JStr s)) (Harr : ∀ l, Forall P l → P (JArr l))
  (Hobj : ∀ l, Forall (P ∘ snd) l → P (JObj l)) : ∀ j, P j.
Proof.
  fix IH 1. intros [|b|n|s|l|l].
  - apply Hnull.
  - apply Hbool.
  - apply Hnum.
  - apply Hstr.
  - apply Harr. induction l; constructor; [apply IH|assumption].
  - apply Hobj. induction l as [|[]]; constructor; [apply IH|assumption].
Qed.

Lemma digit_head_itoa z :
  ∃ c r, itoa z = String c r ∧ (is_digit c = true ∨ ascii_code c = 45).
Proof.
  destruct z as [|p|p].
  - do 2 eexists. split; [reflexivity|]. by left.
  - rewrite itoa_pos. pose proof (to_uint_not_nil p).
    destruct (Pos.to_uint p); try done;
      (do 2 eexists; split; [reflexivity|by left]).
  - rewrite itoa_neg. do 2 eexists. split; [reflexivity|by right].
Qed.

Lemma print_head v :
  wf_json v →
  ∃ c r, print_json v = String c r ∧ is_ws c = false ∧ (ascii_code c =? 93) = false.
Proof.
  destruct v as [|[]|lit|s|l|l]; intros Hv;
    try (do 2 eexists; split; [reflexivity|done]).
  destruct Hv as [z ->]. destruct (digit_head_itoa z) as (c & r & E & Hc).
  exists c, r.
  split; [done|]. unfold is_ws, is_digit, between in *.
  destruct Hc as [Hc|Hc]; [|by rewrite Hc].
  apply andb_true_iff in Hc as [H1%Z.leb_le H2%Z.leb_le].
  split; [|apply Z.eqb_neq; lia].
  repeat (apply orb_false_iff; split); apply Z.eqb_neq; lia.
Qed.

Lemma skip_ws_head c r : is_ws c = false → skip_ws (String c r) = String c r.
Proof. intros E. simpl. by rewrite E. Qed.

Lemma length_app_s a b :
  String.length (a ++ b) = (String.length a + String.length b)%nat.
Proof. induction a; simpl; lia. Qed.

Definition print_member (m : string * json) : string :=
  (quote m.1 ++ ":" ++ print_json m.2)%string.

Definition parses (v : json) : Prop :=
  wf_json v → ∀ fuel rest,
    (2 * String.length (print_json v ++ rest) + 1 <= fuel)%nat → ends_number rest →
    parse_value fuel (print_json v ++ rest) = Ret (Some (v, rest)).

Lemma concat_cons sep a l :
  String.concat sep (a :: l)
  = match l with [] => a | _ => (a ++ sep ++ String.concat sep l)%string end.
Proof. by destruct l. Qed.
Lemma parse_elems_print l :
  Forall parses l → foldr (λ v P, wf_json v ∧ P) True l → l ≠ [] →
  ∀ fuel rest,
    (2 * String.length (String.concat "," (map print_json l) ++ "]" ++ rest) + 2
       <= fuel)%nat →
    parse_elems fuel (String.concat "," (map print_json l) ++ "]" ++ rest)
    = Ret (Some (l, rest)).
Proof.
  induction 1 as [|v l Hv Hl IH]; [done|].
  simpl foldr. intros (Hwv & Hwl) _ fuel rest Hf.
  destruct fuel as [|fuel]; [lia|]. cbn [parse_elems].
  change (map print_json (v :: l)) with (print_json v :: map print_json l) in *.
  rewrite concat_cons in *.
  destruct l as [|v' l].
  - cbn [map] in *. rewrite Hv; [done|done|lia|done].
  - cbn [map] in *. rewrite !app_assoc_s in *.
    rewrite Hv; [|done|lia|done].
    change (print_json v' :: map print_json l) with (map print_json (v' :: l)) in *.
    specialize (IH Hwl ltac:(done) fuel rest).
    set (X := (String.concat "," (map print_json (v' :: l)) ++ "]" ++ rest)%string) in *.
    clearbody X. lazy -[parse_elems]. rewrite IH; [done|].
    rewrite !length_app_s in *. simpl String.length in *. lia.
Qed.

Lemma parse_members_print l :
  Forall (parses ∘ snd) l →
  foldr (λ '(k, v) P, (valid_utf8 0 k = true ∧ wf_json v) ∧ P) True l → l ≠ [] →
  ∀ fuel rest,
    (2 * String.length (String.concat "," (map print_member l) ++ "}" ++ rest) + 2
       <= fuel)%nat →
    parse_members fuel (String.concat "," (map print_member l) ++ "}" ++ rest)
    = Ret (Some (l, rest)).
Proof.
  induction 1 as [|[k v] l Hv Hl IH]; [done|].
  simpl foldr. intros ((Hwk & Hwv) & Hwl) _ fuel rest Hf.
  destruct fuel as [|fuel]; [lia|]. simpl in Hv.
  change (map print_member ((k, v) :: l)) with (print_member (k, v) :: map print_member l) in *.
  assert (Hstep : ∀ t, ends_number t →
    (2 * String.length (print_member (k, v) ++ t) + 2 <= S fuel)%nat →
    parse_members (S fuel) (print_member (k, v) ++ t)
    = match skip_ws t with
      | String e r4 =>
          if ascii_code e =? 125 then Ret (Some ([(k, v)], r4))
          else if ascii_code e =? 44 then
            o ← parse_members fuel r4;
            Ret ('(l, rest) ← o; Some ((k, v) :: l, rest))
          else Ret None
      | EmptyString => Ret None
      end).
  { intros t Ht Hft.
    set (Q := (quote_body true 0 k ++ ":" ++ print_json v ++ t)%string).
    assert (EQ : (print_member (k, v) ++ t)%string = String dquote Q).
    { unfold print_member, quote, Q. simpl fst. simpl snd.
      by rewrite !app_assoc_s. }
    assert (HQ : unquote_body 0 Q = Some (k, (":" ++ print_json v ++ t)%string))
      by (by apply unquote_quote_body).
    assert (Hfv : (2 * String.length (print_json v ++ t) + 1 <= fuel)%nat).
    { rewrite EQ in Hft. unfold Q in Hft. simpl String.length in Hft.
      rewrite length_app_s in Hft. simpl String.length in Hft.
      rewrite length_app_s in Hft |- *. lia. }
    rewrite EQ. clearbody Q. cbn [parse_members].
    rewrite skip_ws_head by done. change (ascii_code dquote =? 34) with true.
    cbv beta iota. rewrite HQ.
    change (skip_ws (":" ++ ?Y)%string) with (String (code_ascii 58) Y).
    change (ascii_code (code_ascii 58) =? 58) with true.
    cbv beta iota. by rewrite Hv. }
  rewrite concat_cons in *. destruct l as [|m l].
  - cbn [map] in *. by rewrite Hstep.
  - cbn [map] in *. rewrite !app_assoc_s in *.
    rewrite Hstep; [|done|lia].
    change (print_member m :: map print_member l) with (map print_member (m :: l)) in *.
    specialize (IH Hwl ltac:(done) fuel rest).
    set (X := (String.concat "," (map print_member (m :: l)) ++ "}" ++ rest)%string) in *.
    clearbody X. lazy -[parse_members]. rewrite IH; [done|].
    rewrite !length_app_s in *. simpl String.length in *.
    unfold print_member, quote in *. simpl String.length in *. lia.
Qed.

Lemma concat_head {T} (f : T → string) x l (P : Ascii.ascii → Prop) :
  (∃ c r, f x = String c r ∧ P c) → ∃ c r, String.concat "," (map f (x :: l)) = String c r ∧ P c.
Proof.
  intros (c & r & E & Hc). cbn [map]. rewrite concat_cons, E.
  destruct (map f l); simpl; eauto.
Qed.

Lemma parse_print_head c r n :
  is_ws c = false →
  parse_value (S n) (String c r)
  = let z := ascii_code c in
    if z =? 34 then Ret ('(v, rest) ← unquote_body 0 r; Some (JStr v, rest))
    else if z =? 91 then
      match skip_ws r with
      | String d r' =>
          if ascii_code d =? 93 then Ret (Some (JArr [], r'))
          else o ← parse_elems n r; Ret ('(l, rest) ← o; Some (JArr l, rest))
      | EmptyString => Ret None
      end
    else if z =? 123 then
      match skip_ws r with
      | String d r' =>
          if ascii_code d =? 125 then Ret (Some (JObj [], r'))
          else o ← parse_members n r; Ret ('(l, rest) ← o; Some (JObj l, rest))
      | EmptyString => Ret None
      end
    else if z =? 116 then Ret (rest ← strip_prefix "true" (String c r); Some (JBool true, rest))
    else if z =? 102 then Ret (rest ← strip_prefix "false" (String c r); Some (JBool false, rest))
    else if z =? 110 then Ret (rest ← strip_prefix "null" (String c r); Some (JNull, rest))
    else Ret ('(lit, rest) ← scan_number (String c r); Some (JNum lit, rest)).
Proof. intros Hc. cbn [parse_value]. by rewrite skip_ws_head. Qed.

(** Evaluate the dispatch on a concrete character. *)
Ltac eval_chars :=
  cbv zeta;
  repeat match goal with
  | |- context [ascii_code ?c =? ?n] =>
      let t := constr:(ascii_code c =? n) in
      let v := eval vm_compute in t in
      lazymatch v with true => idtac | false => idtac end;
      change t with v
  end; cbv iota.

(** Reading back what was printed: the value, and the text behind it. *)
Lemma parse_value_print v : parses v.
Proof.
  induction v as [|b|lit|s|l Hl|l Hl] using json_nested_ind;
    intros Hv [|n] rest Hf Hr; try lia.
  - by cbn [print_json String.append]; rewrite parse_print_head.
  - by destruct b; cbn [print_json String.append]; rewrite parse_print_head.
  - destruct Hv as [z ->]. cbn [print_json].
    destruct (digit_head_itoa z) as (c & r & E & Hc).
    pose proof (scan_itoa z rest Hr) as Hs. rewrite E in *.
    cbn [String.append] in *.
    assert (H : 48 <= ascii_code c <= 57 ∨ ascii_code c = 45).
    { unfold is_digit, between in Hc. destruct Hc as [Hc|Hc]; [left|by right].
      apply andb_true_iff in Hc as [H1%Z.leb_le H2%Z.leb_le]. lia. }
    rewrite parse_print_head.
    + cbv zeta. rewrite !(proj2 (Z.eqb_neq (ascii_code c) _)) by lia. by rewrite Hs.
    + unfold is_ws. repeat (apply orb_false_iff; split); apply Z.eqb_neq; lia.
  - cbn [print_json]. unfold quote. cbn [String.append].
    rewrite parse_print_head by done. eval_chars.
    by rewrite unquote_quote_body.
  - cbn [print_json] in *. rewrite !app_assoc_s in *. destruct l as [|v l]; [done|].
    assert (P : parse_elems n (String.concat "," (map print_json (v :: l)) ++ "]" ++ rest)
                = Ret (Some (v :: l, rest))).
    { apply parse_elems_print; [done..|]. cbn [String.append String.length] in *. lia. }
    cbn [String.append]. rewrite parse_print_head by done. eval_chars.
    destruct (concat_head print_json v l (λ c, is_ws c = false ∧ (ascii_code c =? 93) = false))
      as (c & r & E & Hc & Hc').
    { destruct Hv as [Hv _]. by apply print_head. }
    rewrite E in *. cbn [String.append] in *. rewrite skip_ws_head by done.
    by rewrite Hc', P.
  - change (print_json (JObj l)) with ("{" ++ String.concat "," (map print_member l) ++ "}")%string in *.
    rewrite !app_assoc_s in *. destruct l as [|m l]; [done|].
    assert (P : parse_members n (String.concat "," (map print_member (m :: l)) ++ "}" ++ rest)
                = Ret (Some (m :: l, rest))).
    { apply parse_members_print; [done..|]. cbn [String.append String.length] in *. lia. }
    cbn [String.append]. rewrite parse_print_head by done. eval_chars.
    destruct (concat_head print_member m l (λ c, c = dquote)) as (c & r & E & ->).
    { do 2 eexists. split; [reflexivity|done]. }
    rewrite E in *. cbn [String.append] in *. rewrite skip_ws_head by done.
    eval_chars. by rewrite P.
Qed.

Lemma parse_json_print v :
  wf_json v → parse_json (print_json v) = Ret (Some v).
Proof.
  intros Hv. unfold parse_json.
  pose proof (parse_value_print v Hv (parse_fuel (print_json v)) "") as H.
  rewrite app_nil_s in H. rewrite H; [done|unfold parse_fuel; lia|done].
Qed.

(** ** The parser terminates on every text *)

Lemma cons_fst_Some f o v rest :
  cons_fst f o = Some (v, rest) → ∃ v', o = Some (v', rest).
Proof. destruct o as [[]|]; simpl; naive_solver. Qed.

Lemma unquote_body_shorter k s v rest :
  unquote_body k s = Some (v, rest) → (String.length rest < String.length s)%nat.
Proof.
  revert k v. apply (induction_ltof1 _ String.length (λ s, ∀ k v,
    unquote_body k s = Some (v, rest) → (String.length rest < String.length s)%nat)).
  clear s. unfold ltof. intros s IH k v H.
  assert (Hrec : ∀ k f t, (String.length t < String.length s)%nat →
    cons_fst f (unquote_body k t) = Some (v, rest) →
    (String.length rest < String.length s)%nat).
  { intros k' f t Ht (v' & E)%cons_fst_Some. apply IH in E; lia. }
  destruct s as [|c r]; [done|]. cbn [unquote_body] in H.
  repeat (case_match; try discriminate H; subst);
    first [ by injection H as <- <-; simpl; lia
          | by eapply Hrec; [|exact H]; simpl; lia ].
Qed.

Lemma span_digits_shorter s d rest :
  span_digits s = (d, rest) → (String.length rest <= String.length s)%nat.
Proof.
  revert d. induction s as [|c r IH]; intros d H; simpl in H; [by simplify_eq|].
  destruct (is_digit c); [|simplify_eq; simpl; lia].
  destruct (span_digits r) eqn:E. simplify_eq. specialize (IH _ eq_refl). simpl. lia.
Qed.

Lemma scan_number_shorter s lit rest :
  scan_number s = Some (lit, rest) → (String.length rest < String.length s)%nat.
Proof.
  unfold scan_number. intros H.
  assert (Hi : ∀ s x t, scan_int_part s = Some (x, t) → (String.length t < String.length s)%nat).
  { intros [|c r] x t; simpl; [done|].
    destruct (_ =? _); [intros; simplify_eq; lia|]. destruct (is_digit c) eqn:E; [|done].
    destruct (span_digits r) eqn:Es. apply span_digits_shorter in Es.
    intros; simplify_eq. lia. }
  assert (Hf : ∀ s x t, scan_frac s = Some (x, t) → (String.length t <= String.length s)%nat).
  { intros [|c r] x t; simpl; [intros; by simplify_eq|].
    destruct (_ =? _); [|intros; simplify_eq; simpl; lia].
    destruct (span_digits r) eqn:Es. apply span_digits_shorter in Es.
    destruct (is_empty _); intros; simplify_eq. lia. }
  assert (He : ∀ s x t, scan_exp s = Some (x, t) → (String.length t <= String.length s)%nat).
  { intros [|c r] x t; simpl; [intros; by simplify_eq|].
    destruct (_ || _); [|intros; simplify_eq; simpl; lia].
    destruct r as [|g r']; [done|].
    destruct ((_ =? _) || _);
      [destruct (span_digits r') eqn:Es|destruct (span_digits (String g r')) eqn:Es];
      apply span_digits_shorter in Es; destruct (is_empty _); intros; simplify_eq;
      simpl in *; lia. }
  assert (Hs : ∀ sign t, match s with
    | String c r => if ascii_code c =? 45 then (String c EmptyString, r) else (EmptyString, s)
    | EmptyString => (EmptyString, s) end = (sign, t) → (String.length t <= String.length s)%nat).
  { intros sign t. destruct s; [intros; by simplify_eq|].
    destruct (_ =? _); intros; simplify_eq; simpl; lia. }
  destruct (match s with EmptyString => _ | _ => _ end) as [sign s1] eqn:E1.
  specialize (Hs _ _ eq_refl).
  destruct (scan_int_part s1) as [[i s2]|] eqn:E2; [|done]. simpl in H.
  destruct (scan_frac s2) as [[f s3]|] eqn:E3; [|done]. simpl in H.
  destruct (scan_exp s3) as [[e s4]|] eqn:E4; [|done]. simpl in H. simplify_eq.
  apply Hi in E2. apply Hf in E3. apply He in E4. lia.
Qed.

Lemma skip_ws_shorter s : (String.length (skip_ws s) <= String.length s)%nat.
Proof. induction s; simpl; [done|]. destruct (is_ws _); simpl; lia. Qed.

Lemma strip_prefix_shorter p s rest :
  p ≠ EmptyString → strip_prefix p s = Some rest →
  (String.length rest < String.length s)%nat.
Proof.
  revert s. induction p as [|a p IH]; intros [|b s] Hp H; try done.
  simpl in H. destruct (Ascii.eqb a b); [|done].
  destruct p; simpl in *; [simplify_eq; lia|].
  assert (String.length rest < String.length s)%nat by (apply IH; done). lia.
Qed.

(** A parser result that is not [Exhausted] and consumed some of [s]. *)
Definition consumed {T} (s : string) (o : outcome (option (T * string))) : Prop :=
  ∃ r, o = Ret r ∧ ∀ v rest, r = Some (v, rest) → (String.length rest < String.length s)%nat.

Lemma consumed_None {T} s : consumed (T:=T) s (Ret None).
Proof. by exists None. Qed.

Lemma consumed_map {T U} (f : T → U) t s (o : outcome (option (T * string))) :
  consumed t o → (String.length t <= String.length s)%nat →
  consumed s (o ≫= λ o, Ret ('(l, rest) ← o; Some (f l, rest))).
Proof.
  intros (r & -> & Hr) Hts. eexists. split; [reflexivity|].
  destruct r as [[l rest]|]; simpl; intros; simplify_eq.
  specialize (Hr _ _ eq_refl). lia.
Qed.

Lemma consumed_lift {T U} (f : T → U) s (o : option (T * string)) :
  (∀ v rest, o = Some (v, rest) → (String.length rest < String.length s)%nat) →
  consumed s (Ret ('(l, rest) ← o; Some (f l, rest))).
Proof.
  intros Ho. eexists. split; [reflexivity|].
  destruct o as [[l rest]|]; simpl; intros; simplify_eq. by apply (Ho l).
Qed.

Lemma consumed_lift' {U} (u : U) s (o : option string) :
  (∀ rest, o = Some rest → (String.length rest < String.length s)%nat) →
  consumed s (Ret (rest ← o; Some (u, rest))).
Proof.
  intros Ho. eexists. split; [reflexivity|].
  destruct o as [rest|]; simpl; intros; simplify_eq. by apply Ho.
Qed.

Lemma consumed_skip {T} s o : consumed (T:=T) (skip_ws s) o → consumed s o.
Proof.
  intros (r & -> & Hr). exists r. split; [done|]. intros v rest E.
  specialize (Hr _ _ E). pose proof (skip_ws_shorter s). lia.
Qed.
#[local] Hint Resolve consumed_None : core.

Lemma parsers_consume n :
  (∀ s, (2 * String.length s + 1 <= n)%nat → consumed s (parse_value n s))
  ∧ (∀ s, (2 * String.length s + 2 <= n)%nat → consumed s (parse_elems n s))
  ∧ (∀ s, (2 * String.length s + 2 <= n)%nat → consumed s (parse_members n s)).
Proof.
  induction n as [|n (IHv & IHe & IHm)]; [split_and!; intros; lia|].
  split_and!; intros s Hn.
  - cbn [parse_value]. apply consumed_skip. pose proof (skip_ws_shorter s).
    destruct (skip_ws s) as [|c r]; [done|]. simpl String.length in *. cbv zeta.
    pose proof (skip_ws_shorter r).
    repeat case_match; simpl String.length in *; try done.
    + apply consumed_lift. intros v rest E%unquote_body_shorter. simpl. lia.
    + exists (Some (JArr [], s0)). split; [done|]. intros; simplify_eq. simpl. lia.
    + apply (consumed_map _ r); [apply IHe; lia|simpl; lia].
    + exists (Some (JObj [], s0)). split; [done|]. intros; simplify_eq. simpl. lia.
    + apply (consumed_map _ r); [apply IHm; lia|simpl; lia].
    + apply consumed_lift'. intros rest E%strip_prefix_shorter; done.
    + apply consumed_lift'. intros rest E%strip_prefix_shorter; done.
    + apply consumed_lift'. intros rest E%strip_prefix_shorter; done.
    + apply consumed_lift. intros v rest E%scan_number_shorter. done.
  - cbn [parse_elems]. destruct (IHv s) as (o & -> & Ho); [lia|]. simpl.
    destruct o as [[v rest]|]; [|done]. specialize (Ho _ _ eq_refl).
    pose proof (skip_ws_shorter rest).
    destruct (skip_ws rest) as [|d r]; [done|]. simpl String.length in *.
    repeat case_match; [|apply (consumed_map _ r); [apply IHe; lia|lia]|done].
    eexists. split; [done|]. intros; simplify_eq. lia.
  - cbn [parse_members]. pose proof (skip_ws_shorter s).
    destruct (skip_ws s) as [|q r]; [done|]. simpl String.length in *.
    destruct (_ =? 34); [|done].
    destruct (unquote_body 0 r) as [[k r1]|] eqn:E1; [|done].
    apply unquote_body_shorter in E1. pose proof (skip_ws_shorter r1).
    destruct (skip_ws r1) as [|d r2]; [done|]. simpl String.length in *.
    destruct (_ =? 58); [|done].
    destruct (IHv r2) as (o & -> & Ho); [lia|]. simpl.
    destruct o as [[v r3]|]; [|done]. specialize (Ho _ _ eq_refl).
    pose proof (skip_ws_shorter r3).
    destruct (skip_ws r3) as [|e r4]; [done|]. simpl String.length in *.
    repeat case_match; [|apply (consumed_map _ r4); [apply IHm; lia|lia]|done].
    eexists. split; [done|]. intros; simplify_eq. lia.
Qed.

Lemma parse_json_total s : ∃ r, parse_json s = Ret r.
Proof.
  unfold parse_json, parse_fuel.
  destruct (proj1 (parsers_consume (S (S (2 * String.length s)))) s) as (r & -> & _);
    [lia|]. by eexists.
Qed.
