(* ===== verification/Commands.v ===== *)
(** * The commands exchanged over the control channel

    shared/features and shared/commands: the feature names, the six parameter
    structs with what each side may issue, the command envelopes, their JSON
    encoding, and the registry of serializations. *)

From S2P Require Import Prelude Json.

(** ** shared/features *)

Module features.

Definition Fragmentation : string := "fragmentation".
Definition Compression : string := "compression".

Definition IsFeatureSupported (feat : string) : bool :=
  bool_decide (feat = Fragmentation).

End features.

(** ** shared/commands *)

Module commands.

Record AddRouteParameters := mkAddRoute { Route : string }.
Record InitParameters := mkInit {
  Mode : string; DoIPConfig : bool; IPAddress : string; MTU : Z;
  ServerID : string; ClientID : string; EnableFragmentation : bool }.
Record MessageParameters := mkMessage { Type_ : string; Message : string }.
Record ReplyParameters := mkReply { Ok : bool; ReplyMessage : string }.
Record SetMTUParameters := mkSetMTU { SetMTU : Z }.

(** [EnabledFeatures] is [None] for a nil slice. *)
Record VersionParameters := mkVersion {
  ProtocolVersion : Z; Version : string; EnabledFeatures : option (list string) }.

#[export] Instance eta_init : Etable InitParameters := λ r,
  mkInit (Mode r) (DoIPConfig r) (IPAddress r) (MTU r) (ServerID r) (ClientID r)
    (EnableFragmentation r).
#[export] Instance eta_message : Etable MessageParameters := λ r,
  mkMessage (Type_ r) (Message r).
#[export] Instance eta_reply : Etable ReplyParameters := λ r,
  mkReply (Ok r) (ReplyMessage r).
#[export] Instance eta_version : Etable VersionParameters := λ r,
  mkVersion (ProtocolVersion r) (Version r) (EnabledFeatures r).

(** The implementations of the interface [CommandParameters]. *)
Inductive CommandParameters : Type :=
| AddRoute (p : AddRouteParameters)
| Init (p : InitParameters)
| MessageCmd (p : MessageParameters)
| Reply (p : ReplyParameters)
| SetMTUCmd (p : SetMTUParameters)
| VersionCmd (p : VersionParameters).

Definition AddRouteCommandName : string := "add_route".
Definition InitCommandName : string := "init".
Definition MessageCommandName : string := "message".
Definition ReplyCommandName : string := "reply".
Definition SetMTUCommandName : string := "set_mtu".
Definition VersionCommandName : string := "version".

(** The methods of the structs: the name that [MakeCommand] passes on,
    [MinProtocolVersion], [ServerCanIssue] and [ClientCanIssue]. *)
Record command_methods := mkMethods {
  m_name : string; m_min_version : Z; m_server : bool; m_client : bool }.

Definition AddRoute_methods : command_methods := mkMethods AddRouteCommandName 1 true false.
Definition Init_methods : command_methods := mkMethods InitCommandName 1 true false.
Definition Message_methods : command_methods := mkMethods MessageCommandName 8 true true.
Definition Reply_methods : command_methods := mkMethods ReplyCommandName 0 true true.
Definition SetMTU_methods : command_methods := mkMethods SetMTUCommandName 7 true false.
Definition Version_methods : command_methods := mkMethods VersionCommandName 0 true true.

(** Calling a method through the interface. *)
Definition methods (p : CommandParameters) : command_methods :=
  match p with
  | AddRoute _ => AddRoute_methods
  | Init _ => Init_methods
  | MessageCmd _ => Message_methods
  | Reply _ => Reply_methods
  | SetMTUCmd _ => SetMTU_methods
  | VersionCmd _ => Version_methods
  end.

Definition command_name (p : CommandParameters) : string := m_name (methods p).
Definition MinProtocolVersion (p : CommandParameters) : Z := m_min_version (methods p).
Definition ServerCanIssue (p : CommandParameters) : bool := m_server (methods p).
Definition ClientCanIssue (p : CommandParameters) : bool := m_client (methods p).

(** [Parameters] of an incoming command is a [json.RawMessage]: the text of a
    sub-document, which only [json.Unmarshal] reads; it is kept as the document
    it parses to, [None] for the empty text of a missing field. *)
Record IncomingCommand := mkIncoming {
  InID : string; InCommand : string; InParameters : option json }.
Record OutgoingCommand := mkOutgoing {
  ID : string; Command : string; Parameters : CommandParameters }.

#[export] Instance eta_incoming : Etable IncomingCommand := λ r,
  mkIncoming (InID r) (InCommand r) (InParameters r).

(** [uuid.NewRandom()] is a parameter: the drawn identifier, or its error. *)
Definition makeCommand (uuid : string + error) (name id : string)
    (parameters : CommandParameters) : OutgoingCommand * option error :=
  if bool_decide (id = EmptyString) then
    match uuid with
    | inr err => (mkOutgoing id name parameters, Some err)
    | inl u => (mkOutgoing u name parameters, None)
    end
  else (mkOutgoing id name parameters, None).

Definition MakeCommand (uuid : string + error) (p : CommandParameters) (id : string)
    : OutgoingCommand * option error :=
  makeCommand uuid (command_name p) id p.

(** *** json.Marshal on the command structs: fields in declaration order *)

Definition parameters_json (p : CommandParameters) : json :=
  match p with
  | AddRoute p => JObj [("route", JStr (Route p))]
  | Init p => JObj [
      ("mode", JStr (Mode p)); ("do_ip_config", JBool (DoIPConfig p));
      ("ip_address", JStr (IPAddress p)); ("mtu", JNum (itoa (MTU p)));
      ("server_id", JStr (ServerID p)); ("client_id", JStr (ClientID p));
      ("enable_fragmentation", JBool (EnableFragmentation p))]
  | MessageCmd p => JObj [("type", JStr (Type_ p)); ("message", JStr (Message p))]
  | Reply p => JObj [("ok", JBool (Ok p)); ("message", JStr (ReplyMessage p))]
  | SetMTUCmd p => JObj [("mtu", JNum (itoa (SetMTU p)))]
  | VersionCmd p => JObj [
      ("protocol_version", JNum (itoa (ProtocolVersion p)));
      ("version", JStr (Version p));
      ("enabled_features",
        match EnabledFeatures p with
        | None => JNull
        | Some l => JArr (map JStr l)
        end)]
  end.

Definition command_json (c : OutgoingCommand) : json :=
  JObj [("id", JStr (ID c)); ("command", JStr (Command c));
        ("parameters", parameters_json (Parameters c))].

(** *** json.Unmarshal into a struct

    A field is found by its exact name, else by its name up to case folding;
    unknown keys are ignored; a later occurrence of a key is decoded over an
    earlier one; [null] leaves scalars alone. *)

Definition field (T : Type) : Type := string * (json → T → option T).

(** Go's folding of a key: letters to upper case, the two non-ASCII runes that
    fold to ASCII letters (U+017F and U+212A) to those. *)
Definition upper (c : Ascii.ascii) : Ascii.ascii :=
  let z := ascii_code c in if between 97 z 122 then code_ascii (z - 32) else c.

Fixpoint fold_name (s : string) : string :=
  match s with
  | EmptyString => EmptyString
  | String c r =>
      match r with
      | String c1 r1 =>
          if (ascii_code c =? 197) && (ascii_code c1 =? 191)
          then String (code_ascii 83) (fold_name r1)
          else match r1 with
          | String c2 r2 =>
              if (ascii_code c =? 226) && (ascii_code c1 =? 132) && (ascii_code c2 =? 170)
              then String (code_ascii 75) (fold_name r2)
              else String (upper c) (fold_name r)
          | EmptyString => String (upper c) (fold_name r)
          end
      | EmptyString => String (upper c) (fold_name r)
      end
  end.

Definition find_field {T} (fs : list (field T)) (key : string) : option (field T) :=
  match list_find (λ f, f.1 = key) fs with
  | Some (_, f) => Some f
  | None => snd <$> list_find (λ f, fold_name f.1 = fold_name key) fs
  end.

(** [None] is an error of the decoder. *)
Fixpoint decode_members {T} (fs : list (field T)) (l : list (string * json)) (t : T)
    : option T :=
  match l with
  | [] => Some t
  | (key, v) :: l =>
      match find_field fs key with
      | None => decode_members fs l t
      | Some f => t ← f.2 v t; decode_members fs l t
      end
  end.

Definition decode_struct {T} (fs : list (field T)) (j : json) (zero : T) : option T :=
  match j with
  | JNull => Some zero
  | JObj l => decode_members fs l zero
  | _ => None
  end.

Definition set_string {T} (set : string → T → T) (j : json) (t : T) : option T :=
  match j with JStr s => Some (set s t) | JNull => Some t | _ => None end.
Definition set_bool {T} (set : bool → T → T) (j : json) (t : T) : option T :=
  match j with JBool b => Some (set b t) | JNull => Some t | _ => None end.
Definition set_int {T} (set : Z → T → T) (j : json) (t : T) : option T :=
  match j with
  | JNum lit => z ← parse_int64 lit; Some (set z t)
  | JNull => Some t
  | _ => None
  end.
Definition json_string (j : json) : option string :=
  match j with JStr s => Some s | JNull => Some EmptyString | _ => None end.
Definition set_strings {T} (set : option (list string) → T → T) (j : json) (t : T) : option T :=
  match j with
  | JArr l => l ← mapM json_string l; Some (set (Some l) t)
  | JNull => Some (set None t)
  | _ => None
  end.

Definition addroute_fields : list (field AddRouteParameters) :=
  [("route"%string, set_string (λ s _, mkAddRoute s))].
Definition init_fields : list (field InitParameters) := [
  ("mode"%string, set_string (λ s p, p <| Mode := s |>));
  ("do_ip_config"%string, set_bool (λ b p, p <| DoIPConfig := b |>));
  ("ip_address"%string, set_string (λ s p, p <| IPAddress := s |>));
  ("mtu"%string, set_int (λ z p, p <| MTU := z |>));
  ("server_id"%string, set_string (λ s p, p <| ServerID := s |>));
  ("client_id"%string, set_string (λ s p, p <| ClientID := s |>));
  ("enable_fragmentation"%string, set_bool (λ b p, p <| EnableFragmentation := b |>))].
Definition message_fields : list (field MessageParameters) := [
  ("type"%string, set_string (λ s p, p <| Type_ := s |>));
  ("message"%string, set_string (λ s p, p <| Message := s |>))].
Definition reply_fields : list (field ReplyParameters) := [
  ("ok"%string, set_bool (λ b p, p <| Ok := b |>));
  ("message"%string, set_string (λ s p, p <| ReplyMessage := s |>))].
Definition setmtu_fields : list (field SetMTUParameters) :=
  [("mtu"%string, set_int (λ z _, mkSetMTU z))].
Definition version_fields : list (field VersionParameters) := [
  ("protocol_version"%string, set_int (λ z p, p <| ProtocolVersion := z |>));
  ("version"%string, set_string (λ s p, p <| Version := s |>));
  ("enabled_features"%string, set_strings (λ l p, p <| EnabledFeatures := l |>))].
Definition incoming_fields : list (field IncomingCommand) := [
  ("id"%string, set_string (λ s c, c <| InID := s |>));
  ("command"%string, set_string (λ s c, c <| InCommand := s |>));
  ("parameters"%string, λ j c, Some (c <| InParameters := Some j |>))].

(** The error values of the decoder carry texts the code only logs or sends
    back; one text stands for them. *)
Definition json_error : error := ErrText "json: cannot unmarshal".

(** [DeserializeParameters(&parameters)], [parameters] being a zero struct. *)
Definition DeserializeParameters {T} (fs : list (field T)) (zero : T)
    (c : IncomingCommand) : T + error :=
  match j ← InParameters c; decode_struct fs j zero with
  | Some t => inl t
  | None => inr json_error
  end.

Definition zero_addroute := mkAddRoute "".
Definition zero_init := mkInit "" false "" 0 "" "" false.
Definition zero_message := mkMessage "" "".
Definition zero_reply := mkReply false "".
Definition zero_setmtu := mkSetMTU 0.
Definition zero_version := mkVersion 0 "" None.

(** *** shared/commands/serialize.go *)

Definition SerializationTypeInvalid : Z := 0.
Definition SerializationTypeJSON : Z := 1.

Definition Serialize (c : OutgoingCommand) (serializationType : Z) : bytes + error :=
  if serializationType =? SerializationTypeJSON
  then inl (string_to_bytes (print_json (command_json c)))
  else inr (ErrText "unknown serialization type").

Definition DeserializeCommand (message : bytes) (serializationType : Z)
    : outcome (IncomingCommand + error) :=
  if serializationType =? SerializationTypeJSON then
    o ← parse_json (bytes_to_string message);
    Ret (match j ← o; decode_struct incoming_fields j (mkIncoming "" "" None) with
         | Some c => inl c
         | None => inr json_error
         end)
  else Ret (inr (ErrText "unknown serialization type")).

(** [strings.ToLower] on ASCII; a name with other runes is in no map either way
    unless it folds to one, which no rune outside ASCII does for these names. *)
Definition lower (c : Ascii.ascii) : Ascii.ascii :=
  let z := ascii_code c in if between 65 z 90 then code_ascii (z + 32) else c.
Fixpoint to_lower (s : string) : string :=
  match s with
  | EmptyString => EmptyString
  | String c r => String (lower c) (to_lower r)
  end.

(** The package-level maps and the [sync.Once] that guards filling them; before
    that they are nil maps, which read as empty. *)
Record SerState := mkSer {
  serializationInit : bool;
  serializationTypeMap : gmap string Z;
  serializationTypeReverseMap : gmap Z string;
  serializationTypePriorityMap : gmap Z Z }.

#[export] Instance eta_ser : Etable SerState := λ r,
  mkSer (serializationInit r) (serializationTypeMap r)
    (serializationTypeReverseMap r) (serializationTypePriorityMap r).

Definition ser_start : SerState := mkSer false ∅ ∅ ∅.

Definition addSerializationType (stype : Z) (name : string) (priority : Z)
    (st : SerState) : SerState :=
  st <| serializationTypeMap := <[name := stype]> (serializationTypeMap st) |>
     <| serializationTypeReverseMap := <[stype := name]> (serializationTypeReverseMap st) |>
     <| serializationTypePriorityMap := <[stype := priority]> (serializationTypePriorityMap st) |>.

Definition initSerializationTypeMaps (st : SerState) : SerState :=
  addSerializationType SerializationTypeJSON "json" 1
    (mkSer (serializationInit st) ∅ ∅ ∅).

Definition initSerializationTypeMapsOnce (st : SerState) : SerState :=
  if serializationInit st then st
  else initSerializationTypeMaps st <| serializationInit := true |>.

Definition SerializationTypeToString (stype : Z) (st : SerState) : SerState * string :=
  let st := initSerializationTypeMapsOnce st in
  (st, default EmptyString (serializationTypeReverseMap st !! stype)).

Definition SerializationTypePriority (stype : Z) (st : SerState) : SerState * Z :=
  let st := initSerializationTypeMapsOnce st in
  (st, default 0 (serializationTypePriorityMap st !! stype)).

Definition SerializationTypeFromString (name : string) (st : SerState) : SerState * Z :=
  let st := initSerializationTypeMapsOnce st in
  (st, default SerializationTypeInvalid (serializationTypeMap st !! to_lower name)).

(** The two listings do not run the initialization. *)
Definition GetSupportedSerializationTypes (st : SerState) : list Z :=
  (map_to_list (serializationTypeMap st)).*2.
Definition GetSupportedSerializationTypeNames (st : SerState) : list string :=
  (map_to_list (serializationTypeMap st)).*1.

(** ** Well-formed parameters: Go strings that are UTF-8, Go ints *)

Definition is_int64 (z : Z) : Prop := - 2 ^ 63 <= z < 2 ^ 63.
Definition utf8 (s : string) : Prop := valid_utf8 0 s = true.

Definition wf_parameters (p : CommandParameters) : Prop :=
  match p with
  | AddRoute p => utf8 (Route p)
  | Init p => utf8 (Mode p) ∧ utf8 (IPAddress p) ∧ is_int64 (MTU p)
              ∧ utf8 (ServerID p) ∧ utf8 (ClientID p)
  | MessageCmd p => utf8 (Type_ p) ∧ utf8 (Message p)
  | Reply p => utf8 (ReplyMessage p)
  | SetMTUCmd p => is_int64 (SetMTU p)
  | VersionCmd p => is_int64 (ProtocolVersion p) ∧ utf8 (Version p)
                    ∧ Forall utf8 (default [] (EnabledFeatures p))
  end.

(** What the handler of the command reads from the envelope. *)
Definition reads_back (p : CommandParameters) (c : IncomingCommand) : Prop :=
  match p with
  | AddRoute p => DeserializeParameters addroute_fields zero_addroute c = inl p
  | Init p => DeserializeParameters init_fields zero_init c = inl p
  | MessageCmd p => DeserializeParameters message_fields zero_message c = inl p
  | Reply p => DeserializeParameters reply_fields zero_reply c = inl p
  | SetMTUCmd p => DeserializeParameters setmtu_fields zero_setmtu c = inl p
  | VersionCmd p => DeserializeParameters version_fields zero_version c = inl p
  end.

Lemma wf_parameters_json p : wf_parameters p → wf_json (parameters_json p).
Proof.
  destruct p as [p|p|p|p|p|p]; simpl; unfold utf8; intros H;
    split_and?; destruct_and?; eauto.
  destruct (EnabledFeatures p) as [l|]; simpl in *; [|done].
  induction l as [|s l IH]; simpl; [done|]. inversion_clear H2. auto.
Qed.

Lemma mapM_json_string l : mapM json_string (map JStr l) = Some l.
Proof. induction l; simpl; [done|]. by rewrite IHl. Qed.

Lemma find_field_exact {T} (fs : list (field T)) key f i :
  list_find (λ f, f.1 = key) fs = Some (i, f) → find_field fs key = Some f.
Proof. unfold find_field. by intros ->. Qed.

(** Every struct is read back from its own JSON object. *)
Lemma parameters_json_reads_back p id name :
  wf_parameters p →
  reads_back p (mkIncoming id name (Some (parameters_json p))).
Proof.
  destruct p as [[]|[]|[]|[]|[]|[? ? []]]; simpl; intros H; destruct_and?;
    unfold DeserializeParameters; simpl; rewrite ?parse_int64_itoa by done;
    simpl; rewrite ?mapM_json_string; done.
Qed.

Lemma serialize_reads_back id name p :
  utf8 id → utf8 name → wf_parameters p →
  ∃ msg c, Serialize (mkOutgoing id name p) SerializationTypeJSON = inl msg
    ∧ DeserializeCommand msg SerializationTypeJSON = Ret (inl c)
    ∧ InID c = id ∧ InCommand c = name ∧ reads_back p c.
Proof.
  intros Hid Hname Hp. eexists _, (mkIncoming id name (Some (parameters_json p))).
  split; [reflexivity|]. unfold DeserializeCommand. simpl (_ =? _). cbv iota.
  rewrite bytes_to_string_to_bytes, parse_json_print.
  - split_and!; [done..|]. by apply parameters_json_reads_back.
  - simpl. split_and!; auto using wf_parameters_json.
Qed.

(** C13. The two sides speak one format, JSON.  Every command whose strings are
    UTF-8 and whose numbers are 64-bit integers is serialized to a message that
    deserializes to the same identifier and name, and from which the handler
    of the command reads back the same parameters; under any other
    serialization type both directions report an error. *)
Theorem command_roundtrip id name p t :
  utf8 id → utf8 name → wf_parameters p →
  if t =? SerializationTypeJSON
  then ∃ msg c, Serialize (mkOutgoing id name p) t = inl msg
    ∧ DeserializeCommand msg t = Ret (inl c)
    ∧ InID c = id ∧ InCommand c = name ∧ reads_back p c
  else (∃ err, Serialize (mkOutgoing id name p) t = inr err)
    ∧ ∀ msg, ∃ err, DeserializeCommand msg t = Ret (inr err).
Proof.
  intros Hid Hname Hp. destruct (Z.eqb_spec t SerializationTypeJSON) as [->|Ht].
  - by apply serialize_reads_back.
  - unfold Serialize, DeserializeCommand. rewrite (proj2 (Z.eqb_neq _ _)) by done. eauto.
Qed.

Lemma command_roundtrip_witness :
  ∃ msg c, Serialize (mkOutgoing "7" "init" (Init (mkInit "TUN" true "10.0.0.2/24" 1280 "a" "b" true))) 1
    = inl msg
    ∧ DeserializeCommand msg 1 = Ret (inl c)
    ∧ InID c = "7"%string ∧ InCommand c = "init"%string
    ∧ reads_back (Init (mkInit "TUN" true "10.0.0.2/24" 1280 "a" "b" true)) c.
Proof.
  apply (command_roundtrip "7" "init" _ 1); [reflexivity|reflexivity|].
  repeat split; vm_compute; congruence.
Defined.

End commands.
