(* ===== verification/Adapter.v ===== *)
(** * The interface between a socket and its transport

    shared/sockets/adapters/base.go: the methods of [SocketAdapter] that the
    socket calls, as a class over the adapter's state, and what the socket
    relies on, as a second class that each adapter's file discharges. *)

From S2P Require Import Prelude.

Module adapters.

Class SocketAdapter (A : Type) := {
  Close : A → A * option error;
  WriteControlMessage : bytes → A → A * option error;
  WriteDataMessage : bytes → A → A * option error;
  WritePingMessage : A → outcome (A * option error);
  IsServer : A → bool;
  MaxDataPayloadLen : A → Z;
  RefreshFeatures : A → A;
  GetCommandSerializationType : A → Z;
  Name : A → string;
}.

(** What an adapter promises.  [sent_data] and [sent_control] observe what was
    handed to the transport. *)
Class SocketAdapterSpec (A : Type) `{SocketAdapter A} := {
  sent_data : A → list bytes;
  sent_control : A → list bytes;
  max_range a : 0 <= MaxDataPayloadLen a < 65536;
  data_ok a a' m :
    WriteDataMessage m a = (a', None) →
    sent_data a' = sent_data a ++ [m] ∧ MaxDataPayloadLen a' = MaxDataPayloadLen a
    ∧ sent_control a' = sent_control a;
  data_err a a' m e :
    WriteDataMessage m a = (a', Some e) →
    sent_data a' = sent_data a ∧ sent_control a' = sent_control a;
  data_reduced a a' m :
    WriteDataMessage m a = (a', Some ErrDataPayloadLimitReduced) →
    MaxDataPayloadLen a' < MaxDataPayloadLen a;
  control_ok a a' m :
    WriteControlMessage m a = (a', None) →
    sent_control a' = sent_control a ++ [m] ∧ sent_data a' = sent_data a;
  control_err a a' m e :
    WriteControlMessage m a = (a', Some e) →
    sent_control a' = sent_control a ∧ sent_data a' = sent_data a;
  close_sends_nothing a :
    sent_data (Close a).1 = sent_data a ∧ sent_control (Close a).1 = sent_control a;
  refresh_sends_nothing a :
    sent_data (RefreshFeatures a) = sent_data a
    ∧ sent_control (RefreshFeatures a) = sent_control a;
  write_keeps_side a m : IsServer (WriteDataMessage m a).1 = IsServer a;
  control_keeps_type a m :
    GetCommandSerializationType (WriteControlMessage m a).1 = GetCommandSerializationType a;
}.

(** A transport that records what it is given and takes [limit] bytes per data
    message; the closed instances of the theorems use it. *)
Record recorder := mkRecorder {
  recorded_data : list bytes;
  recorded_control : list bytes;
  recorded_pings : nat;
  recorder_limit : Z;
  recorder_server : bool;
  recorder_open : bool }.

#[export] Instance eta_recorder : Etable recorder := λ r,
  mkRecorder (recorded_data r) (recorded_control r) (recorded_pings r)
    (recorder_limit r) (recorder_server r) (recorder_open r).

#[export] Instance recorder_adapter : SocketAdapter recorder := {
  Close r := (r <| recorder_open := false |>, None);
  WriteControlMessage m r :=
    if recorder_open r
    then (r <| recorded_control := recorded_control r ++ [m] |>, None)
    else (r, Some (ErrText "closed"));
  WriteDataMessage m r :=
    if recorder_open r
    then (r <| recorded_data := recorded_data r ++ [m] |>, None)
    else (r, Some (ErrText "closed"));
  WritePingMessage r := Ret (r <| recorded_pings := S (recorded_pings r) |>, None);
  IsServer r := recorder_server r;
  MaxDataPayloadLen r := u16 (recorder_limit r);
  RefreshFeatures r := r;
  GetCommandSerializationType r := 1;
  Name r := "recorder";
}.

#[export] Instance recorder_spec : SocketAdapterSpec recorder.
Proof.
  refine {| sent_data := recorded_data; sent_control := recorded_control |};
    intros; cbn [Close WriteControlMessage WriteDataMessage IsServer MaxDataPayloadLen
      RefreshFeatures GetCommandSerializationType recorder_adapter] in *;
    try case_match; simplify_eq; try done; apply u16_range.
Defined.

(** A transport that takes every message and claims the limit a WebTransport
    adapter starts with. *)
Record tape := mkTape { taped_data : list bytes; taped_control : list bytes }.

#[export] Instance tape_adapter : SocketAdapter tape := {
  Close r := (r, None);
  WriteControlMessage m r := (mkTape (taped_data r) (taped_control r ++ [m]), None);
  WriteDataMessage m r := (mkTape (taped_data r ++ [m]) (taped_control r), None);
  WritePingMessage r := Ret (r, None);
  IsServer _ := true;
  MaxDataPayloadLen _ := 1184;
  RefreshFeatures r := r;
  GetCommandSerializationType _ := 1;
  Name _ := "tape";
}.

#[export] Instance tape_spec : SocketAdapterSpec tape.
Proof.
  refine {| sent_data := taped_data; sent_control := taped_control |};
    intros; cbn [Close WriteControlMessage WriteDataMessage IsServer MaxDataPayloadLen
      RefreshFeatures tape_adapter] in *; simplify_eq; done.
Defined.

End adapters.

(** ** The part both adapters embed *)
Module adapter_base.

(** The functions the socket gives the adapter, unset at first. *)
Record adapterBase (M P F : Type) := mkBase {
  controlMessageHandler : option M;
  dataMessageHandler : option M;
  pongHandler : option P;
  featuresContainer : option F }.

Arguments mkBase {M P F}. Arguments controlMessageHandler {M P F}. Arguments dataMessageHandler {M P F}.
Arguments pongHandler {M P F}. Arguments featuresContainer {M P F}.

#[export] Instance eta_base {M P F} : Etable (adapterBase M P F) := λ r,
  mkBase (controlMessageHandler r) (dataMessageHandler r) (pongHandler r) (featuresContainer r).

Section Base.
Context {M P F : Type}.
Implicit Types b : adapterBase M P F.

Definition SetControlMessageHandler (handler : M) b := b <| controlMessageHandler := Some handler |>.
Definition SetDataMessageHandler (handler : M) b := b <| dataMessageHandler := Some handler |>.
Definition SetPongHandler (handler : P) b := b <| pongHandler := Some handler |>.
Definition SetFeaturesContainer (container : F) b := b <| featuresContainer := Some container |>.

(** What [Serve] of the socket does with it before it starts to serve the
    adapter. *)
Definition Serve_wires (container : F) (data control : M) (pong : P) b : adapterBase M P F :=
  SetPongHandler pong
    (SetControlMessageHandler control (SetDataMessageHandler data (SetFeaturesContainer container b))).

(** No message finds a function unset, whatever was set before. *)
Lemma Serve_wires_all container data control pong b :
  Serve_wires container data control pong b
  = mkBase (Some control) (Some data) (Some pong) (Some container).
Proof. done. Qed.
End Base.

End adapter_base.
