(* ===== verification/Socket.v ===== *)
(** * The socket: its state and the operations local to it

    shared/sockets/base.go and data_message.go: the [Socket] struct, the feature
    negotiation, splitting an outgoing packet into fragments, reassembling
    incoming ones and forgetting stale ones.  The operations that reach other
    objects (the packet handler, the interfaces, spawned goroutines) are in the
    file [World]. *)

From S2P Require Import Prelude Commands Adapter.
Import adapters.

(** net.IP is a byte slice of length 0 (nil), 4 or 16. *)
Abbreviation netIP := bytes.

(** The goroutine-shared objects of the program are named by identifiers. *)
Abbreviation SocketId := nat.
Abbreviation IfaceId := nat.

Definition UndeterminedProtocolVersion : Z := 0.
Definition fragmentationMinProtocol : Z := 10.
Definition fragmentationNegotiatedMinProtocol : Z := 11.
Definition featureFieldMinProtocol : Z := 12.

(** [shared.ProtocolVersion] and [shared.Version] *)
Definition SharedProtocolVersion : Z := 12.
Definition SharedVersion : string := "dev".

(** Times and durations are nanoseconds. *)
Definition Second : Z := 1000000000.
Definition fragmentExpiryTime : Z := Second * 30.

(** [lastIndex] is -1000 until the last fragment was seen. *)
Record fragmentsInfo := mkFragments {
  lastIndex : Z;
  data : gmap Z bytes;
  time : Z }.

#[export] Instance eta_fragments : Etable fragmentsInfo := λ r,
  mkFragments (lastIndex r) (data r) (time r).

(** The closures the program registers as command handlers: three by the socket
    itself, three by the client. *)
Inductive CommandHandler : Type :=
| VersionHandler | ReplyHandler | MessageHandler
| AddRouteHandler | InitHandler | SetMTUHandler.

(** The mutexes of the struct are not represented: every definition below is a
    section the code runs under the lock in question, or under none.
    [packetHandler] and [eventPusher] say whether the pointer is non-nil; the
    objects behind them belong to the surrounding world. *)
Record Socket (A : Type) := mkSocket {
  AssignedIP : netIP;
  lastFragmentID : Z;
  defragBuffer : gmap Z fragmentsInfo;
  fragmentCleanupTicker : bool;
  fragmentationEnabled : bool;
  compressionEnabled : bool;
  remoteProtocolVersion : Z;
  adapter : A;
  iface : option IfaceId;
  ifaceManaged : bool;
  wg : Z;                                  (* the counter of the WaitGroup *)
  handlers : gmap string CommandHandler;
  closeChan : bool;                        (* closed *)
  closeChanOpen : bool;
  packetBufferSize : Z;
  packetHandler : bool;
  pingInterval : Z;
  pingTimeout : Z;
  isReady : bool;
  isClosing : bool;
  localFeatures : gmap string bool;
  remoteFeatures : gmap string bool;
  usedFeatures : gmap string bool;
  eventPusher : bool;
  upEventSent : bool;
  Metadata : gmap string string }.

Arguments mkSocket {A}.
Arguments AssignedIP {A}. Arguments lastFragmentID {A}. Arguments defragBuffer {A}.
Arguments fragmentCleanupTicker {A}. Arguments fragmentationEnabled {A}.
Arguments compressionEnabled {A}. Arguments remoteProtocolVersion {A}.
Arguments adapter {A}. Arguments iface {A}. Arguments ifaceManaged {A}. Arguments wg {A}.
Arguments handlers {A}. Arguments closeChan {A}. Arguments closeChanOpen {A}.
Arguments packetBufferSize {A}. Arguments packetHandler {A}.
Arguments pingInterval {A}. Arguments pingTimeout {A}. Arguments isReady {A}.
Arguments isClosing {A}. Arguments localFeatures {A}. Arguments remoteFeatures {A}.
Arguments usedFeatures {A}. Arguments eventPusher {A}. Arguments upEventSent {A}.
Arguments Metadata {A}.

#[export] Instance eta_socket {A} : Etable (Socket A) := λ r,
  mkSocket (AssignedIP r) (lastFragmentID r) (defragBuffer r)
    (fragmentCleanupTicker r) (fragmentationEnabled r) (compressionEnabled r)
    (remoteProtocolVersion r) (adapter r) (iface r) (ifaceManaged r) (wg r) (handlers r)
    (closeChan r) (closeChanOpen r) (packetBufferSize r) (packetHandler r)
    (pingInterval r) (pingTimeout r) (isReady r) (isClosing r) (localFeatures r)
    (remoteFeatures r) (usedFeatures r) (eventPusher r) (upEventSent r) (Metadata r).

(** net.IPv6unspecified *)
Definition IPv6unspecified : netIP := replicate 16 0.

Definition MakeSocket {A} (ad : A) (ifc : option IfaceId) (managed pusher : bool) : Socket A :=
  mkSocket IPv6unspecified 0 ∅ true false false UndeterminedProtocolVersion ad ifc
    managed 0 ∅ false true 2000 false 0 0 false false ∅ ∅ ∅ pusher false ∅.

(** A Go [map[Feature]bool] read: the zero value where there is no key. *)
Definition feature_get (m : gmap string bool) (f : string) : bool := default false (m !! f).

Section Socket.
Context {A : Type} `{SocketAdapter A}.
Implicit Types s : Socket A.

Definition ConfigurePing (interval timeout : Z) s : Socket A :=
  s <| pingInterval := interval |> <| pingTimeout := timeout |>.

Definition SetLocalFeature (feature : string) (enabled : bool) s : Socket A :=
  if enabled
  then s <| localFeatures := <[feature := true]> (localFeatures s) |>
  else s <| localFeatures := delete feature (localFeatures s) |>.

Definition IsLocalFeature s (feature : string) : bool := feature_get (localFeatures s) feature.

Definition IsFeatureEnabled s (feature : string) : bool := feature_get (usedFeatures s) feature.

Definition AddCommandHandler (command : string) (h : CommandHandler) s : Socket A :=
  s <| handlers := <[command := h]> (handlers s) |>.

(** shared.GetPacketBufferSizeByMTU *)
Definition GetPacketBufferSizeByMTU (mtu : Z) : Z := mtu + 18 + 64.

Definition SetMTU (mtu : Z) s : Socket A :=
  s <| packetBufferSize := GetPacketBufferSizeByMTU mtu |>.

(** The interface that is the socket's own, if it has one. *)
Definition GetInterfaceIfManaged s : option IfaceId := if ifaceManaged s then iface s else None.

Definition SetPacketHandler s : Socket A := s <| packetHandler := true |>.

Definition GetAdapter s : A := adapter s.

(** The loop of [featureCheck] over [localFeatures]. *)
Definition used_of (local remote : gmap string bool) : gmap string bool :=
  map_fold (λ feat en used,
    if negb en then used
    else if feature_get remote feat then <[feat := true]> used
    else used) ∅ local.

Definition featureCheck s : Socket A :=
  if remoteProtocolVersion s =? UndeterminedProtocolVersion then s
  else
    let s := s <| usedFeatures := used_of (localFeatures s) (remoteFeatures s) |> in
    let s := s <| fragmentationEnabled :=
      if (fragmentationMinProtocol <=? remoteProtocolVersion s)
         && (remoteProtocolVersion s <? fragmentationNegotiatedMinProtocol)
      then true
      else if (fragmentationNegotiatedMinProtocol <=? remoteProtocolVersion s)
              && (remoteProtocolVersion s <? featureFieldMinProtocol)
      then feature_get (localFeatures s) features.Fragmentation
      else IsFeatureEnabled s features.Fragmentation |> in
    let s := s <| compressionEnabled := IsFeatureEnabled s features.Compression |> in
    s <| adapter := RefreshFeatures (adapter s) |>.

Definition HandleInitPacketFragmentation (enabled : bool) s : Socket A :=
  if featureFieldMinProtocol <=? remoteProtocolVersion s then s
  else
    let s := SetLocalFeature features.Fragmentation true s in
    let s := s <| remoteFeatures :=
      if enabled then <[features.Fragmentation := true]> (remoteFeatures s)
      else delete features.Fragmentation (remoteFeatures s) |> in
    featureCheck s.

(** [setReady] also wakes the waiters of [WaitReady], which test [isReady]. *)
Definition setReady s : Socket A := s <| isReady := true |>.

(** The body of the version handler after its parameters were read. *)
Definition handleVersion (p : commands.VersionParameters) s : Socket A :=
  let s := s <| remoteProtocolVersion := commands.ProtocolVersion p |> in
  let s := s <| remoteFeatures :=
    foldl (λ m v, <[v := true]> m) ∅ (default [] (commands.EnabledFeatures p)) |> in
  setReady (featureCheck s).

(** [sendDefaultWelcome]: the parameters of the version command. *)
Definition localFeaturesArray s : list string :=
  foldr (λ '(feat, en) l, if negb en then l else feat :: l) []
    (map_to_list (localFeatures s)).

Definition welcome s : commands.CommandParameters :=
  commands.VersionCmd
    (commands.mkVersion SharedProtocolVersion SharedVersion (Some (localFeaturesArray s))).

(** "Ignore all packets before version negotiation" *)
Definition ignores_data s : bool :=
  (remoteProtocolVersion s =? UndeterminedProtocolVersion) || negb (isReady s) || isClosing s.

(** ** Sending: writePacketFragmented *)

(** The bytes of the identifier as the code takes them: remainders by 255. *)
Definition packetID_bytes (packetID : Z) : bytes :=
  [ u8 (Z.shiftr packetID 24 mod 255); u8 (Z.shiftr packetID 16 mod 255);
    u8 (Z.shiftr packetID 8 mod 255); u8 (packetID mod 255) ].

Definition fragFlag (frag fragmentCount : Z) : Z :=
  if frag =? u16 (fragmentCount - 1) then Z.lor (u8 frag) 128 else u8 frag.

(** One iteration: the message for fragment [frag]. *)
Definition fragment_message (packetID dataLen maxLen fragmentCount : Z) (packet : bytes)
    (frag : Z) : outcome bytes :=
  let fragStart := u16 (frag * maxLen) in
  let fragEnd := u16 (fragStart + maxLen) in
  let fragEnd := if dataLen <? fragEnd then dataLen else fragEnd in
  payload ← go_slice packet fragStart fragEnd;
  Ret (fragFlag frag fragmentCount :: packetID_bytes packetID ++ payload).

(** The loop from [frag] on, with [n] iterations left. *)
Fixpoint write_fragments (packetID dataLen maxLen fragmentCount : Z) (packet : bytes)
    (n : nat) (frag : Z) s : outcome (Socket A * option error) :=
  match n with
  | O => Ret (s, None)
  | S n =>
      m ← fragment_message packetID dataLen maxLen fragmentCount packet frag;
      let '(ad, err) := WriteDataMessage m (adapter s) in
      let s := s <| adapter := ad |> in
      match err with
      | Some e => Ret (s, Some e)
      | None => write_fragments packetID dataLen maxLen fragmentCount packet n
                  (u16 (frag + 1)) s
      end
  end.

Definition writePacketFragmented (packet : bytes) (maxLen : Z) s
    : outcome (Socket A * option error) :=
  let dataLen := u16 (len packet) in
  if u16 (dataLen + 1) <=? maxLen then
    let '(ad, err) := WriteDataMessage (128 :: packet) (adapter s) in
    Ret (s <| adapter := ad |>, err)
  else
    let packetID := u32 (lastFragmentID s + 1) in
    let s := s <| lastFragmentID := packetID |> in
    let maxLen := u16 (maxLen - 5) in
    if maxLen =? 0 then Panic "integer divide by zero"
    else
      let fragmentCount := u16 (dataLen / maxLen) in
      let fragmentCount :=
        if negb (dataLen mod maxLen =? 0) then u16 (fragmentCount + 1) else fragmentCount in
      write_fragments packetID dataLen maxLen fragmentCount packet
        (Z.to_nat fragmentCount) 0 s.

(** The retry loop of [WritePacket]; a limit that was reduced is tried again. *)
Fixpoint write_retry (fuel : nat) (packet : bytes) s : outcome (Socket A * option error) :=
  match fuel with
  | O => Exhausted
  | S fuel =>
      '(s, err) ← writePacketFragmented packet (MaxDataPayloadLen (adapter s)) s;
      if bool_decide (err = Some ErrDataPayloadLimitReduced)
      then write_retry fuel packet s
      else Ret (s, err)
  end.

(** ** Receiving: the defragmentation part of dataMessageHandler *)

Definition packet_id_of (message : bytes) : Z :=
  Z.lor (Z.lor (Z.lor (Z.shiftl (byte_at message 1) 24) (Z.shiftl (byte_at message 2) 16))
    (Z.shiftl (byte_at message 3) 8)) (byte_at message 4).

(** The loop that concatenates the pieces 0 .. lastIndex. *)
Definition assemble (info : fragmentsInfo) : bytes :=
  concat (map (λ i, default [] (data info !! Z.of_nat i))
    (seq 0 (Z.to_nat (u8 (lastIndex info) + 1)))).

(** What the handler does with a data message once it knows it: drop it and go
    on, refuse it, or pass a packet on. *)
Inductive verdict : Type :=
| Keep
| Refuse
| Deliver (packet : bytes).

(** The part of the handler that stores a fragment; the time is [time.Now()]. *)
Definition store_fragment (now : Z) (message : bytes) s : Socket A * verdict :=
  let fragHeader := byte_at message 0 in
  let fragIndex := Z.land fragHeader 127 in
  let isLastFragment := Z.land fragHeader 128 =? 128 in
  let packetID := packet_id_of message in
  let fragInfo := default (mkFragments (-1000) ∅ 0) (defragBuffer s !! packetID) in
  let fragInfo := fragInfo <| time := now |> in
  let fragInfo := fragInfo <| data := <[fragIndex := drop 5 message]> (data fragInfo) |> in
  let fragInfo := if isLastFragment then fragInfo <| lastIndex := fragIndex |> else fragInfo in
  if Z.of_nat (size (data fragInfo)) =? lastIndex fragInfo + 1
  then (s <| defragBuffer := delete packetID (defragBuffer s) |>, Deliver (assemble fragInfo))
  else (s <| defragBuffer := <[packetID := fragInfo]> (defragBuffer s) |>, Keep).

(** [dataMessageHandler] up to its calls of [processPacket]. *)
Definition receive_data (now : Z) (message : bytes) s : Socket A * verdict :=
  if ignores_data s then (s, Keep)
  else if negb (fragmentationEnabled s) then (s, Deliver message)
  else if len message <? 2 then (s, Refuse)
  else if byte_at message 0 =? 128 then (s, Deliver (drop 1 message))
  else if len message <? 6 then (s, Refuse)
  else store_fragment now message s.

(** [cleanupFragments] at time [now]. *)
Definition cleanupFragments (now : Z) s : Socket A :=
  let deleteIndices :=
    foldr (λ '(idx, info) l, if fragmentExpiryTime <? now - time info then idx :: l else l)
      [] (map_to_list (defragBuffer s)) in
  s <| defragBuffer := foldl (λ m idx, delete idx m) (defragBuffer s) deleteIndices |>.

End Socket.
