(* ===== verification/Locks.v ===== *)
(** * Mutexes: threads that take locks in order never block each other

    Code is reduced to what it does with locks.  A thread is a sequence of
    events; a pool of threads runs by interleaving, new threads may start at any
    time.  If every thread takes locks of increasing rank and gives back what
    it took, then in every reachable state some thread can go on, whatever the
    policy by which a lock is granted, and all can run to their end. *)

From S2P Require Import Prelude.

Inductive mode : Type := Exclusive | Shared.

#[export] Instance mode_dec : EqDecision mode.
Proof. solve_decision. Defined.

(** [Other] is anything that takes no lock, which may take long and returns. *)
Inductive event (L : Type) : Type :=
| Lock (m : mode) (l : L)
| Unlock (m : mode) (l : L)
| Other.
Arguments Lock {L}. Arguments Unlock {L}. Arguments Other {L}.

#[export] Instance event_dec {L} `{EqDecision L} : EqDecision (event L).
Proof. solve_decision. Defined.

Inductive code (L : Type) : Type :=
| Skip
| Act (e : event L)
| Seq (c1 c2 : code L)
| Choose (c1 c2 : code L).
Arguments Skip {L}. Arguments Act {L}. Arguments Seq {L}. Arguments Choose {L}.

Declare Scope code_scope.
Delimit Scope code_scope with code.
Bind Scope code_scope with code.
Notation "c1 ⨾ c2" := (Seq c1 c2) (at level 60, right associativity) : code_scope.
Notation "c1 <|> c2" := (Choose c1 c2) (at level 58, right associativity) : code_scope.

(** What the code may do, one choice after the other. *)
Fixpoint traces {L} (c : code L) : list (list (event L)) :=
  match c with
  | Skip => [[]]
  | Act e => [[e]]
  | Seq c1 c2 => t1 ← traces c1; t2 ← traces c2; [t1 ++ t2]
  | Choose c1 c2 => traces c1 ++ traces c2
  end.

Section Codes.
Context {L : Type}.
Open Scope code_scope.

Definition other : code L := Act Other.
Definition lock (m : mode) (l : L) : code L := Act (Lock m l).
Definition unlock (m : mode) (l : L) : code L := Act (Unlock m l).

(** [Lock] with a deferred [Unlock]. *)
Definition guard (m : mode) (l : L) (c : code L) : code L := lock m l ⨾ c ⨾ unlock m l.

Definition maybe (c : code L) : code L := Skip <|> c.

Fixpoint rep (n : nat) (c : code L) : code L :=
  match n with O => Skip | S n => c ⨾ rep n c end.

(** A loop over a list that may return before its end. *)
Fixpoint each {X} (f : X → code L) (l : list X) : code L :=
  match l with [] => Skip | x :: l => maybe (f x ⨾ each f l) end.

End Codes.

Section Discipline.
Context {L : Type} `{EqDecision L} (rank : L → nat).
Abbreviation locks := (list (mode * L)).
Open Scope code_scope.

(** The locks held after a trace, if each lock taken ranks above those held and
    each lock given back is the last one taken. *)
Fixpoint check (held : locks) (tr : list (event L)) : option locks :=
  match tr with
  | [] => Some held
  | Lock m l :: tr =>
      if forallb (λ x, Nat.ltb (rank x.2) (rank l)) held then check ((m, l) :: held) tr else None
  | Unlock m l :: tr =>
      match held with
      | x :: held => if decide (x = (m, l)) then check held tr else None
      | [] => None
      end
  | Other :: tr => check held tr
  end.

Definition below (r : nat) (held : locks) : Prop := Forall (λ x, (rank x.2 < r)%nat) held.

(** [c] takes only locks of rank [r] or more, and gives them back. *)
Definition disciplined (r : nat) (c : code L) : Prop :=
  ∀ held tr, below r held → tr ∈ traces c → check held tr = Some held.

(** [c] is run with [l] as the last lock taken, and gives it back. *)
Definition closes (r : nat) (m : mode) (l : L) (c : code L) : Prop :=
  ∀ held tr, below r held → tr ∈ traces c → check ((m, l) :: held) tr = Some held.

Lemma check_app held t1 t2 : check held (t1 ++ t2) = check held t1 ≫= λ h, check h t2.
Proof.
  revert held. induction t1 as [|[m l|m l|] t1 IH]; intros held; cbn [app check]; [done|..].
  - case_match; [apply IH|done].
  - destruct held as [|x held]; [done|]. case_decide; [apply IH|done].
  - apply IH.
Qed.

Lemma below_mono r r' held : (r <= r')%nat → below r held → below r' held.
Proof. intros Hr Hb. eapply Forall_impl; [exact Hb|]. intros x Hx. simpl in *. lia. Qed.

Lemma below_forallb l held : below (rank l) held ↔
  forallb (λ x, Nat.ltb (rank x.2) (rank l)) held = true.
Proof. unfold below. rewrite Forall_forall, forallb_forall. setoid_rewrite list_elem_of_In. by setoid_rewrite Nat.ltb_lt. Qed.

Lemma disciplined_skip r : disciplined r Skip.
Proof. intros held tr _ ->%list_elem_of_singleton. done. Qed.

Lemma disciplined_other r : disciplined r other.
Proof. intros held tr _ ->%list_elem_of_singleton. done. Qed.

Lemma seq_elem (c1 c2 : code L) tr : tr ∈ traces (c1 ⨾ c2) ↔
  ∃ t1 t2, tr = t1 ++ t2 ∧ t1 ∈ traces c1 ∧ t2 ∈ traces c2.
Proof.
  cbn [traces]. rewrite list_elem_of_bind. split.
  - intros (t1 & Ht & H1). apply list_elem_of_bind in Ht as (t2 & ->%list_elem_of_singleton & H2). eauto.
  - intros (t1 & t2 & -> & H1 & H2). exists t1. split; [|done]. apply list_elem_of_bind.
    exists t2. split; [|done]. by apply list_elem_of_singleton.
Qed.

Lemma disciplined_seq r c1 c2 : disciplined r c1 → disciplined r c2 → disciplined r (c1 ⨾ c2).
Proof.
  intros H1 H2 held tr Hb (t1 & t2 & -> & Ht1 & Ht2)%seq_elem.
  rewrite check_app, (H1 held t1) by done. by apply H2.
Qed.

Lemma disciplined_choose r c1 c2 : disciplined r c1 → disciplined r c2 → disciplined r (c1 <|> c2).
Proof. intros H1 H2 held tr Hb [Ht|Ht]%elem_of_app; auto. Qed.

Lemma disciplined_weaken r r' c : (r <= r')%nat → disciplined r' c → disciplined r c.
Proof. intros Hr Hc held tr Hb. apply Hc. by eapply below_mono. Qed.

Lemma closes_unlock r m l : closes r m l (unlock m l).
Proof. intros held tr _ ->%list_elem_of_singleton. cbn. by rewrite decide_True. Qed.

Lemma closes_then r m l c1 c2 : closes r m l c1 → disciplined r c2 → closes r m l (c1 ⨾ c2).
Proof.
  intros H1 H2 held tr Hb (t1 & t2 & -> & Ht1 & Ht2)%seq_elem.
  rewrite check_app, (H1 held t1) by done. by apply H2.
Qed.

Lemma closes_choose r m l c1 c2 : closes r m l c1 → closes r m l c2 → closes r m l (c1 <|> c2).
Proof. intros H1 H2 held tr Hb [Ht|Ht]%elem_of_app; auto. Qed.

Lemma closes_body r m l c1 c2 :
  (r <= S (rank l))%nat → disciplined (S (rank l)) c1 → closes r m l c2 → closes r m l (c1 ⨾ c2).
Proof.
  intros Hr H1 H2 held tr Hb (t1 & t2 & -> & Ht1 & Ht2)%seq_elem.
  rewrite check_app, (H1 _ t1); [by apply H2| |done].
  constructor; [simpl; lia|]. by eapply below_mono.
Qed.

Lemma disciplined_lock r m l c : (r <= rank l)%nat → closes r m l c → disciplined r (lock m l ⨾ c).
Proof.
  intros Hr Hc held tr Hb (t1 & t2 & -> & ->%list_elem_of_singleton & Ht2)%seq_elem. cbn [app check].
  rewrite (proj1 (below_forallb l held)); [by apply Hc|]. by eapply below_mono.
Qed.

Lemma disciplined_guard r m l c :
  (r <= rank l)%nat → disciplined (S (rank l)) c → disciplined r (guard m l c).
Proof.
  intros Hr Hc. apply disciplined_lock; [done|].
  apply closes_body; [lia|done|apply closes_unlock].
Qed.

Lemma disciplined_maybe r c : disciplined r c → disciplined r (maybe c).
Proof. intros Hc. apply disciplined_choose; [apply disciplined_skip|done]. Qed.

Lemma disciplined_rep r n c : disciplined r c → disciplined r (rep n c).
Proof. intros Hc. induction n as [|n IH]; [apply disciplined_skip|by apply disciplined_seq]. Qed.

Lemma disciplined_each {X} r (f : X → code L) l : (∀ x, disciplined r (f x)) → disciplined r (each f l).
Proof.
  intros Hf. induction l as [|x l IH]; [apply disciplined_skip|].
  apply disciplined_maybe, disciplined_seq; auto.
Qed.

(** ** Pools of threads *)

Record thread := mkThread { held : locks; todo : list (event L) }.

Definition holds (ts : list thread) (x : mode * L) : Prop := Exists (λ t, x ∈ held t) ts.

(** A mutex is free if no thread has it; a reader only waits for a writer. *)
Definition available (ts : list thread) (m : mode) (l : L) : Prop :=
  ¬ holds ts (Exclusive, l) ∧ (m = Exclusive → ¬ holds ts (Shared, l)).

Fixpoint release (x : mode * L) (h : locks) : locks :=
  match h with [] => [] | y :: h => if decide (y = x) then h else y :: release x h end.

Inductive thread_step (ts : list thread) : thread → thread → Prop :=
| thread_lock h m l tr :
    available ts m l → thread_step ts (mkThread h (Lock m l :: tr)) (mkThread ((m, l) :: h) tr)
| thread_unlock h m l tr :
    thread_step ts (mkThread h (Unlock m l :: tr)) (mkThread (release (m, l) h) tr)
| thread_other h tr : thread_step ts (mkThread h (Other :: tr)) (mkThread h tr).

Inductive run_step : list thread → list thread → Prop :=
| run_one ts i t t' : ts !! i = Some t → thread_step ts t t' → run_step ts (<[i := t']> ts).

Context (operation : code L → Prop).

(** New threads start an operation whenever they like. *)
Inductive pool_step : list thread → list thread → Prop :=
| pool_run ts ts' : run_step ts ts' → pool_step ts ts'
| pool_start ts c tr : operation c → tr ∈ traces c → pool_step ts (ts ++ [mkThread [] tr]).

Definition finished (t : thread) : Prop := todo t = [].

(** A thread that every policy of granting locks lets go on: it asks for no
    lock, or for one that nobody has. *)
Definition can_go (ts : list thread) (t : thread) : Prop :=
  match todo t with
  | [] => False
  | Lock _ l :: _ => ∀ m, ¬ holds ts (m, l)
  | _ => True
  end.

(** ** No deadlock *)

Context (Hops : ∀ c, operation c → disciplined 0 c).
Context (bound : nat) (Hbound : ∀ l, (rank l < bound)%nat).

(** Every thread will have given back what it holds. *)
Definition orderly (t : thread) : Prop := check (held t) (todo t) = Some [].

Lemma orderly_step ts t t' : orderly t → thread_step ts t t' → orderly t'.
Proof.
  unfold orderly. intros Ho Hs. revert Ho.
  destruct Hs as [h m l tr Ha|h m l tr|h tr]; cbn [held todo check]; intros Ho.
  - by destruct (forallb _ h).
  - destruct h as [|x h]; [done|]. destruct (decide (x = (m, l))) as [->|]; [|done]. cbn. by rewrite decide_True.
  - done.
Qed.

Lemma run_orderly ts ts' : run_step ts ts' → Forall orderly ts → Forall orderly ts'.
Proof.
  intros Hs Ho. revert Ho. destruct Hs as [ts1 i t t' Hi Hs]. intros Ho. apply Forall_insert; [done|].
  eapply orderly_step; [|done]. by eapply Forall_lookup_1.
Qed.

Lemma pool_orderly ts ts' : pool_step ts ts' → Forall orderly ts → Forall orderly ts'.
Proof.
  intros Hs Ho. revert Ho. destruct Hs as [ts1 ts2 Hr|ts1 c tr Hc Htr]; intros Ho; [by eapply run_orderly|].
  apply Forall_app. split; [done|]. constructor; [|done].
  apply (Hops c Hc); [constructor|done].
Qed.

Lemma holder_busy t x : orderly t → x ∈ held t → todo t ≠ [].
Proof.
  unfold orderly. intros Ho Hx E. rewrite E in Ho. injection Ho as Ho. rewrite Ho in Hx.
  by apply elem_of_nil in Hx.
Qed.

#[export] Instance holds_dec ts x : Decision (holds ts x).
Proof. unfold holds. apply _. Defined.

(** From a thread that waits for [l] to one that can go on, upwards in rank. *)
Lemma someone_goes ts n t m l tr :
  Forall orderly ts → t ∈ ts → todo t = Lock m l :: tr → (bound <= n + rank l)%nat →
  ∃ t', t' ∈ ts ∧ can_go ts t'.
Proof.
  intros Ho. revert t m l tr. induction n as [|n IH]; intros t m l tr Ht Etodo Hn.
  { specialize (Hbound l). lia. }
  destruct (decide (holds ts (Exclusive, l) ∨ holds ts (Shared, l))) as [Hh|Hfree].
  2: { exists t. split; [done|]. unfold can_go. rewrite Etodo.
       intros [] Hh; apply Hfree; auto. }
  assert (Hx : ∃ m', holds ts (m', l)) by (destruct Hh; eauto). destruct Hx as [m' Hx].
  apply Exists_exists in Hx as (t2 & Ht2 & Hheld).
  pose proof (proj1 (Forall_forall _ _) Ho t2 Ht2) as Ho2.
  destruct (todo t2) as [|[m2 l2|m2 l2|] tr2] eqn:E2; [by destruct (holder_busy t2 _ Ho2 Hheld)|..].
  - apply (IH t2 m2 l2 tr2); [done|done|].
    unfold orderly in Ho2. rewrite E2 in Ho2. cbn [check] in Ho2.
    destruct (forallb _ (held t2)) eqn:Ef; [|done].
    apply below_forallb in Ef. unfold below in Ef. rewrite Forall_forall in Ef.
    specialize (Ef _ Hheld). simpl in Ef. lia.
  - exists t2. split; [done|]. unfold can_go. by rewrite E2.
  - exists t2. split; [done|]. unfold can_go. by rewrite E2.
Qed.

Lemma orderly_progress ts :
  Forall orderly ts → Exists (λ t, ¬ finished t) ts → ∃ t, t ∈ ts ∧ can_go ts t.
Proof.
  intros Ho (t & Ht & Hf)%Exists_exists. unfold finished in Hf.
  destruct (todo t) as [|[m l|m l|] tr] eqn:E; [done|..].
  - apply (someone_goes ts bound t m l tr); auto. lia.
  - exists t. split; [done|]. unfold can_go. by rewrite E.
  - exists t. split; [done|]. unfold can_go. by rewrite E.
Qed.

Definition work (ts : list thread) : nat := sum_list_with (λ t, length (todo t)) ts.

Lemma work_insert ts i t t' : ts !! i = Some t → length (todo t) = S (length (todo t')) →
  work ts = S (work (<[i := t']> ts)).
Proof.
  unfold work. revert i. induction ts as [|t0 ts IH]; intros [|i] Hi Hl; try done; simpl in *.
  - injection Hi as ->. lia.
  - rewrite (IH i Hi Hl). lia.
Qed.

Lemma can_go_step ts t : can_go ts t → ∃ t', thread_step ts t t' ∧ length (todo t) = S (length (todo t')).
Proof.
  destruct t as [h [|[m l|m l|] tr]]; unfold can_go; simpl; [done|..]; intros Hg.
  - eexists. split; [apply thread_lock|done]. split; [apply Hg|]. intros _. apply Hg.
  - eexists. split; [apply thread_unlock|done].
  - eexists. split; [apply thread_other|done].
Qed.

(** All threads can come to their end, and then no lock is held. *)
Lemma orderly_completes ts :
  Forall orderly ts → ∃ ts', rtc run_step ts ts' ∧ Forall (λ t, t = mkThread [] []) ts'.
Proof.
  remember (work ts) as n eqn:En. revert ts En. induction n as [|n IH]; intros ts En Ho.
  - exists ts. split; [apply rtc_refl|]. apply Forall_forall. intros t Ht.
    pose proof (proj1 (Forall_forall _ _) Ho t Ht) as Hot. destruct t as [h tr].
    assert (tr = []) as ->.
    { apply list_elem_of_lookup in Ht as [i Hi]. destruct tr as [|e tr]; [done|].
      pose proof (work_insert ts i _ (mkThread h tr) Hi eq_refl). lia. }
    by injection Hot as ->.
  - destruct (decide (Exists (λ t, ¬ finished t) ts)) as [Hx|Hx].
    + destruct (orderly_progress ts Ho Hx) as (t & Ht & Hg).
      destruct (can_go_step ts t Hg) as (t' & Hs & Hl). apply list_elem_of_lookup in Ht as [i Hi].
      destruct (IH (<[i := t']> ts)) as (ts' & Hr & Hd).
      { rewrite (work_insert ts i t t' Hi Hl) in En. by injection En. }
      { eapply run_orderly; [by econstructor|done]. }
      exists ts'. split; [|done]. eapply rtc_l; [|exact Hr]. by econstructor.
    + exfalso. assert (Hz : work ts = 0%nat); [|lia]. unfold work. clear -Hx.
      induction ts as [|t ts IH]; [done|]. rewrite Exists_cons in Hx. simpl.
      rewrite IH by tauto. destruct (todo t) eqn:E; [done|]. destruct Hx. left. unfold finished. by rewrite E.
Qed.

Lemma pool_reachable ts0 ts : Forall orderly ts0 → rtc pool_step ts0 ts → Forall orderly ts.
Proof. intros Ho Hr. induction Hr as [|x y z Hs _ IH]; [done|]. apply IH. by eapply pool_orderly. Qed.

(** ** Mutual exclusion *)

(** What one thread has exclusively, no other thread has. *)
Definition exclusive (ts : list thread) : Prop :=
  ∀ i j t1 t2 m l, ts !! i = Some t1 → ts !! j = Some t2 →
    (Exclusive, l) ∈ held t1 → (m, l) ∈ held t2 → i = j.

Lemma release_subset x y h : y ∈ release x h → y ∈ h.
Proof.
  induction h as [|z h IH]; [done|]. cbn [release]. case_decide; [by right|].
  intros [->|Hy]%elem_of_cons; [by left|]. right. auto.
Qed.

(** What a thread has after a step it had before, or it was available. *)
Lemma step_held ts t t' m l :
  thread_step ts t t' → (m, l) ∈ held t' → (m, l) ∈ held t ∨ available ts m l.
Proof.
  intros [h m' l' tr Ha|h m' l' tr|h tr]; simpl; [|intros Hx; left; by eapply release_subset|by left].
  intros [[= -> ->]|Hx]%elem_of_cons; auto.
Qed.

Lemma exclusive_step ts i t t' :
  exclusive ts → ts !! i = Some t → thread_step ts t t' → exclusive (<[i := t']> ts).
Proof.
  intros He Hi Hs.
  assert (Hother : ∀ j tj m l m', j ≠ i → ts !! j = Some tj → (m', l) ∈ held tj → available ts m l →
    m = Shared ∧ m' = Shared).
  { intros j tj m l m' Hj Htj Hx [Ha1 Ha2]. assert (Hh : holds ts (m', l)).
    { apply Exists_exists. exists tj. split; [by eapply list_elem_of_lookup_2|done]. }
    destruct m'; [by destruct (Ha1 Hh)|]. destruct m; [by destruct (Ha2 eq_refl)|done]. }
  intros a b t1 t2 m l Ha Hb H1 H2. destruct (decide (a = i)) as [->|Hai], (decide (b = i)) as [->|Hbi];
    [done|..]; rewrite ?list_lookup_insert_ne in Ha by done;
    rewrite ?list_lookup_insert_ne in Hb by done.
  - rewrite list_lookup_insert_eq in Ha by (by eapply lookup_lt_Some). injection Ha as <-.
    destruct (step_held _ _ _ _ _ Hs H1) as [Hx|Hx]; [exact (He i b t t2 m l Hi Hb Hx H2)|].
    by destruct (Hother b t2 Exclusive l m Hbi Hb H2 Hx).
  - rewrite list_lookup_insert_eq in Hb by (by eapply lookup_lt_Some). injection Hb as <-.
    destruct (step_held _ _ _ _ _ Hs H2) as [Hx|Hx]; [exact (He a i t1 t m l Ha Hi H1 Hx)|].
    by destruct (Hother a t1 m l Exclusive Hai Ha H1 Hx).
  - exact (He a b t1 t2 m l Ha Hb H1 H2).
Qed.

Lemma pool_exclusive ts ts' : pool_step ts ts' → exclusive ts → exclusive ts'.
Proof.
  intros Hs He. revert He. destruct Hs as [ts1 ts2 Hr|ts1 c tr Hc Htr].
  - intros He. revert He. destruct Hr as [ts1 i t t' Hi Hs]. intros He. by eapply exclusive_step.
  - intros He i j t1 t2 m l Hi Hj H1 H2.
    apply lookup_app_Some in Hi as [Hi|[_ Hi]], Hj as [Hj|[_ Hj]]; [exact (He i j t1 t2 m l Hi Hj H1 H2)|..];
      exfalso;
      repeat match goal with H : [_] !! _ = Some _ |- _ =>
        apply list_lookup_singleton_Some in H as [_ <-] end;
      by apply elem_of_nil in H1 || by apply elem_of_nil in H2.
Qed.

Lemma reachable_exclusive ts : rtc pool_step [] ts → exclusive ts.
Proof.
  intros Hr. assert (He : exclusive []) by (by intros i j t1 t2 m l).
  remember (@nil thread) as ts0 eqn:E. clear E.
  induction Hr as [|x y z Hs _ IH]; [done|]. apply IH. by eapply pool_exclusive.
Qed.

(** ** Threads that stall

    What follows from a thread that is never run again, because what it does
    with [Other] does not return. *)

Inductive run_without (i : nat) : list thread → list thread → Prop :=
| run_rest ts j t t' :
    j ≠ i → ts !! j = Some t → thread_step ts t t' → run_without i ts (<[j := t']> ts).

(** Thread [j] of the pool never moves again. *)
Definition stuck (i : nat) (ts : list thread) (j : nat) (t : thread) : Prop :=
  ∀ ts', rtc (run_without i) ts ts' → ts' !! j = Some t.

Lemma stuck_self i ts t : ts !! i = Some t → stuck i ts i t.
Proof.
  intros Hi ts' Hr. revert Hi. induction Hr as [|x y z Hs _ IH]; [done|]. intros Hi. apply IH.
  destruct Hs as [ts1 j t1 t' Hj _ _]. by rewrite list_lookup_insert_ne.
Qed.

Lemma stuck_holds i ts j t x : stuck i ts j t → x ∈ held t → ∀ ts', rtc (run_without i) ts ts' → holds ts' x.
Proof.
  intros Hst Hx ts' Hr. apply Exists_exists. exists t. split; [|done].
  eapply list_elem_of_lookup_2. by apply Hst.
Qed.

(** Whoever waits for what a stuck thread has exclusively is stuck. *)
Lemma stuck_waiter i ts j t k t2 m l tr :
  stuck i ts j t → (Exclusive, l) ∈ held t → ts !! k = Some t2 → todo t2 = Lock m l :: tr →
  stuck i ts k t2.
Proof.
  intros Hst Hx Hk E ts' Hr. pose proof (stuck_holds _ _ _ _ _ Hst Hx) as Hh. revert Hk.
  clear Hst Hx. induction Hr as [|x y z Hs Hr IH]; [done|]. intros Hk. apply IH.
  { intros w Hw. apply Hh. by eapply rtc_l. }
  pose proof (Hh x (rtc_refl _ _)) as Hx. revert Hk Hx. destruct Hs as [ts1 n t1 t' Hn Ht1 Hs].
  intros Hk Hx. destruct (decide (n = k)) as [->|Hne]; [|by rewrite list_lookup_insert_ne].
  rewrite Hk in Ht1. injection Ht1 as <-. destruct Hs as [h m' l' tr' [Ha _]|h m' l' tr'|h tr']; simpl in E; [|done..].
  injection E as -> -> ->. done.
Qed.

(** Whoever has to take it at some time never comes to its end. *)
Lemma stuck_needs i ts j t k t2 m l :
  stuck i ts j t → (Exclusive, l) ∈ held t → ts !! k = Some t2 → Lock m l ∈ todo t2 →
  ∀ ts', rtc (run_without i) ts ts' → ∃ t', ts' !! k = Some t' ∧ Lock m l ∈ todo t'.
Proof.
  intros Hst Hx Hk E ts' Hr. pose proof (stuck_holds _ _ _ _ _ Hst Hx) as Hh. revert t2 Hk E.
  clear Hst Hx. induction Hr as [|x y z Hs Hr IH]; [by eauto|]. intros t2 Hk E.
  assert (Hh' : ∀ w, rtc (run_without i) y w → holds w (Exclusive, l)) by (intros w Hw; apply Hh; by eapply rtc_l).
  pose proof (Hh x (rtc_refl _ _)) as Hx. revert Hk Hx IH Hh'. destruct Hs as [ts1 n t1 t' Hn Ht1 Hs].
  intros Hk Hx IH Hh'. destruct (decide (n = k)) as [->|Hne].
  2: { apply (IH Hh' t2); [by rewrite list_lookup_insert_ne|done]. }
  rewrite Hk in Ht1. injection Ht1 as <-. apply (IH Hh' t').
  { rewrite list_lookup_insert_eq; [done|]. by eapply lookup_lt_Some. }
  destruct Hs as [h m' l' tr' [Ha _]|h m' l' tr'|h tr']; simpl in *;
    apply elem_of_cons in E as [E|E]; try done. by injection E as -> ->.
Qed.

End Discipline.
