(* ===== verification/LockUse.v ===== *)
(** * The mutexes of the program

    What each operation does with the program's mutexes: those of a socket and
    its adapter (src/shared/sockets), of the switches (src/server/ipswitch and
    macswitch) and of the server (src/server/servers).  Branches of the code are
    choices and everything else is [other], so the runs include those of the
    program.  A goroutine is an operation of its own.  Numbers stand for how
    often a loop goes round.  [sync.Cond] and the locks inside the standard
    library and of third parties are left out. *)

From S2P Require Import Prelude Socket Locks.

Inductive mutex : Type :=
| CloserLock | SocketsLock | SlotMutex | IfaceCreationMutex
| CloseLock (s : nat) | DefragLock (s : nat) | WriteLock (s : nat)
| SwitchLock.

#[export] Instance mutex_dec : EqDecision mutex.
Proof. solve_decision. Defined.

(** The order in which they are taken. *)
Definition mutex_rank (l : mutex) : nat :=
  match l with
  | CloserLock | SlotMutex | IfaceCreationMutex => 0
  | SocketsLock => 1
  | CloseLock _ => 2
  | DefragLock _ | WriteLock _ | SwitchLock => 3
  end.

Module locking.
Open Scope code_scope.
Implicit Types (s : nat).

(** ** The adapters: WebSocket locks, WebTransport does not *)

Definition ws_write s : code mutex := guard Exclusive (WriteLock s) other.
Definition adapter_write s : code mutex := ws_write s <|> other.

Definition ws_Close s : code mutex := guard Exclusive (WriteLock s) other.
Definition adapter_Close s : code mutex := ws_Close s <|> other.

Definition ws_WaitReady s : code mutex := guard Exclusive (WriteLock s) Skip.
Definition adapter_WaitReady s : code mutex := ws_WaitReady s <|> other.

(** ** The tables of the switches *)

(** The cache evicts [n] addresses. *)
Definition onMACEvicted : code mutex := guard Exclusive SwitchLock other.
Definition evictions (n : nat) : code mutex := rep n onMACEvicted.

Definition ip_UnregisterSocket : code mutex := guard Exclusive SwitchLock other.
Definition mac_UnregisterSocket (n : nat) : code mutex :=
  lock Exclusive SwitchLock ⨾ other ⨾
  (unlock Exclusive SwitchLock <|> (other ⨾ unlock Exclusive SwitchLock ⨾ evictions n)).

(** ** Closing a socket: sockets/base.go *)

Definition close s (closeAdapter : bool) (n : nat) : code mutex :=
  (if closeAdapter then adapter_Close s else Skip) ⨾ other ⨾
  maybe (ip_UnregisterSocket <|> mac_UnregisterSocket n) ⨾ other.

(** The goroutine that it may start is [error_goroutine]. *)
Definition CloseError s (n : nat) : code mutex :=
  guard Exclusive (CloseLock s) (close s false n ⨾ maybe (adapter_Close s)).

Definition CloseSocket s (n : nat) : code mutex :=
  guard Exclusive (CloseLock s) (maybe (close s true n)).

Definition rawMakeAndSendCommand s (n : nat) : code mutex :=
  other ⨾ maybe (CloseError s n <|> (adapter_write s ⨾ maybe (CloseError s n))).

Definition error_goroutine s (n : nat) : code mutex := rawMakeAndSendCommand s n ⨾ adapter_Close s.

(** ** Packets: data_message.go, packet_handler.go, iptable.go, mactable.go *)

Definition WritePacket s (n : nat) : code mutex :=
  other ⨾ maybe ((adapter_write s ⨾ maybe (CloseError s n)) <|> CloseError s n <|> rep n (adapter_write s)).

Definition broadcastDataMessage (n : nat) (targets : list nat) : code mutex :=
  guard Shared SwitchLock other ⨾ each (λ d, WritePacket d n) targets.

Definition findSocket : code mutex := guard Shared SwitchLock other.

Definition forward (n : nat) (dest : nat) (targets : list nat) : code mutex :=
  maybe ((findSocket ⨾ maybe (WritePacket dest n)) <|> broadcastDataMessage n targets).

Definition ip_HandlePacket (n : nat) (dest : nat) (targets : list nat) : code mutex :=
  other ⨾ forward n dest targets.

Definition setMACFrom s (n : nat) : code mutex :=
  maybe (guard Shared SwitchLock other ⨾ other ⨾
    maybe (lock Exclusive SwitchLock ⨾ other ⨾
      ((unlock Exclusive SwitchLock ⨾ CloseError s n)
       <|> (unlock Exclusive SwitchLock ⨾ evictions n)))).

Definition mac_HandlePacket (from : option nat) (n : nat) (dest : nat) (targets : list nat) : code mutex :=
  other ⨾ (if from is Some s then setMACFrom s n else Skip) ⨾ forward n dest targets.

Definition processPacket (from : option nat) (n : nat) (dest : nat) (targets : list nat) : code mutex :=
  maybe (ip_HandlePacket n dest targets <|> mac_HandlePacket from n dest targets) ⨾ other.

Definition dataMessageHandler s (n : nat) (dest : nat) (targets : list nat) : code mutex :=
  maybe (processPacket (Some s) n dest targets
    <|> (lock Exclusive (DefragLock s) ⨾ other ⨾
          ((unlock Exclusive (DefragLock s) ⨾ processPacket (Some s) n dest targets)
           <|> unlock Exclusive (DefragLock s)))).

Definition cleanupFragments s : code mutex := guard Exclusive (DefragLock s) other.

Definition ip_RegisterSocket (old : nat) (n : nat) : code mutex :=
  guard Exclusive SwitchLock other ⨾ maybe (CloseError old n).
Definition mac_RegisterSocket : code mutex := guard Exclusive SwitchLock other.

(** The clean-up of the addresses and a change of the configuration. *)
Definition each_cache (n : nat) : code mutex := guard Shared SwitchLock other ⨾ evictions n.

(** ** Serving a socket *)

Definition Serve s (old : nat) (n : nat) : code mutex :=
  other ⨾ maybe (ip_RegisterSocket old n <|> mac_RegisterSocket) ⨾
  other ⨾ adapter_WaitReady s ⨾ other ⨾ maybe (guard Exclusive (CloseLock s) other).

Definition controlMessageHandler s (n : nat) : code mutex :=
  other ⨾ maybe (rawMakeAndSendCommand s n).

Definition ping_turn s : code mutex := other ⨾ maybe (adapter_write s) ⨾ other.

(** ** The server: sockets.go, base.go, web_api.go, main_iface.go *)

Definition addCloser : code mutex := guard Exclusive CloserLock other.

(** A closer is an adapter, or something without locks. *)
Definition closeAll (closers : list (option nat)) : code mutex :=
  guard Exclusive CloserLock
    (foldr (λ c k, (if c is Some s then adapter_Close s else other) ⨾ k) Skip closers).

Definition release_slot : code mutex := guard Exclusive SlotMutex other.

Definition connection_iface : code mutex :=
  lock Exclusive IfaceCreationMutex ⨾ other ⨾ unlock Exclusive IfaceCreationMutex ⨾ other.

Definition forget_socket : code mutex := guard Exclusive SocketsLock other.

(** What is done with the socket that was made, under [socketsLock] first. *)
Definition serve_socket s (oldest old : nat) (n : nat) : code mutex :=
  (lock Exclusive SocketsLock ⨾ other ⨾
    ((unlock Exclusive SocketsLock ⨾ CloseError s n)
     <|> (maybe (CloseError oldest n) ⨾ other ⨾ unlock Exclusive SocketsLock ⨾
          (CloseError s n <|> (Serve s old n ⨾ other ⨾ rawMakeAndSendCommand s n ⨾ maybe (CloseError s n) ⨾ other)) ⨾
          forget_socket))) ⨾
  CloseSocket s n.

(** [serveSocket] after the upgrade, with its deferred functions. *)
Definition serveSocket s (oldest old : nat) (n : nat) : code mutex :=
  other ⨾ addCloser ⨾ other ⨾
  (lock Exclusive SlotMutex ⨾ other ⨾
    (unlock Exclusive SlotMutex
     <|> (unlock Exclusive SlotMutex ⨾
          maybe (maybe connection_iface ⨾ maybe (serve_socket s oldest old n) ⨾ other) ⨾
          release_slot))) ⨾
  adapter_Close s.

Definition SetMTU (sockets : list nat) (n : nat) : code mutex :=
  other ⨾ maybe (guard Exclusive SocketsLock (each (λ s, other ⨾ rawMakeAndSendCommand s n) sockets ⨾ other)).

Definition UpdateSocketConfig : code mutex := maybe (guard Exclusive SocketsLock other).

Definition api_clients : code mutex := guard Exclusive SocketsLock other ⨾ other.

Definition api_client s (n : nat) : code mutex :=
  guard Exclusive SocketsLock other ⨾ other ⨾ maybe (CloseSocket s n).

(** [createMainIface], by how far it comes: to an error under the lock or on. *)
Definition createMainIface (fails : bool) : code mutex :=
  lock Exclusive IfaceCreationMutex ⨾ other ⨾
  (if fails then Skip else unlock Exclusive IfaceCreationMutex ⨾ other).

(** ** The client: clients/base.go, which has no mutex of its own *)

Definition closeInternal s (n : nat) : code mutex :=
  other ⨾ maybe (CloseSocket s n) ⨾ maybe (adapter_Close s) ⨾ other.

(** One turn of [ServeLoop] up to its wait: the last socket is closed, the new one served. *)
Definition client_turn s (old : nat) (n : nat) : code mutex :=
  closeInternal old n ⨾ other ⨾ maybe (Serve s old n).

End locking.
Import locking.
Open Scope code_scope.

(** Everything that some goroutine of the program does on its own, the main
    interface having been created. *)
Inductive operation : code mutex → Prop :=
| op_serveSocket s oldest old n : operation (serveSocket s oldest old n)
| op_data s n dest targets : operation (dataMessageHandler s n dest targets)
| op_control s n : operation (controlMessageHandler s n)
| op_pong s : operation (adapter_write s)
| op_ping s : operation (ping_turn s)
| op_iface_read s n : operation (WritePacket s n)
| op_main_iface n dest targets : operation (processPacket None n dest targets)
| op_welcome s n : operation (rawMakeAndSendCommand s n)
| op_error s n : operation (error_goroutine s n)
| op_close_later s n : operation (CloseError s n)
| op_done s n : operation (CloseSocket s n)
| op_cleanup s : operation (cleanupFragments s)
| op_caches n : operation (each_cache n)
| op_api_list : operation api_clients
| op_api s n : operation (api_client s n)
| op_mtu sockets n : operation (SetMTU sockets n)
| op_config : operation UpdateSocketConfig
| op_close_all closers : operation (closeAll closers)
| op_add_closer : operation addCloser
| op_client_close s n : operation (closeInternal s n)
| op_client_turn s old n : operation (client_turn s old n)
| op_main_created : operation (createMainIface false).

(** ** Every operation keeps the order *)

Create HintDb locks.
Abbreviation disc := (disciplined mutex_rank).

Ltac lock_step :=
  match goal with
  | |- disciplined _ _ Skip => apply disciplined_skip
  | |- disciplined _ _ other => apply disciplined_other
  | |- disciplined _ _ (guard _ _ _) => apply disciplined_guard; [cbn; lia|cbn [mutex_rank]]
  | |- disciplined _ _ (lock _ _ ⨾ _) => apply disciplined_lock; [cbn; lia|]
  | |- disciplined _ _ (_ ⨾ _) => apply disciplined_seq
  | |- disciplined _ _ (_ <|> _) => apply disciplined_choose
  | |- disciplined _ _ (maybe _) => apply disciplined_maybe
  | |- disciplined _ _ (rep _ _) => apply disciplined_rep
  | |- disciplined _ _ (each _ _) => apply disciplined_each; intros ?
  | |- disciplined _ _ (match ?x with _ => _ end) => destruct x
  | |- closes _ _ _ _ (unlock _ _) => apply closes_unlock
  | |- closes _ _ _ _ (unlock _ _ ⨾ _) => apply closes_then; [apply closes_unlock|]
  | |- closes _ _ _ _ (_ <|> _) => apply closes_choose
  | |- closes _ _ _ _ (_ ⨾ _) => apply closes_body; [cbn; lia|cbn [mutex_rank]|]
  end.
Ltac locks := repeat first [lock_step | solve [eauto with locks]].

Section Ranks.
Implicit Types (r s n : nat).

Lemma disc_leaf r m l : mutex_rank l = 3%nat → (r <= 3)%nat → disc r (guard m l other).
Proof. intros Hl Hr. apply disciplined_guard; [lia|apply disciplined_other]. Qed.

Lemma disc_write r s : (r <= 3)%nat → disc r (adapter_write s).
Proof. intros Hr. unfold adapter_write, ws_write. locks. Qed.
Lemma disc_Close r s : (r <= 3)%nat → disc r (adapter_Close s).
Proof. intros Hr. unfold adapter_Close, ws_Close. locks. Qed.
Lemma disc_WaitReady r s : (r <= 3)%nat → disc r (adapter_WaitReady s).
Proof. intros Hr. unfold adapter_WaitReady, ws_WaitReady. locks. Qed.
Lemma disc_evictions r n : (r <= 3)%nat → disc r (evictions n).
Proof. intros Hr. unfold evictions, onMACEvicted. locks. Qed.
#[local] Hint Resolve disc_write disc_Close disc_WaitReady disc_evictions : locks.
#[local] Hint Extern 1 (_ <= _)%nat => lia : locks.

Lemma disc_unregister r n : (r <= 3)%nat → disc r (maybe (ip_UnregisterSocket <|> mac_UnregisterSocket n)).
Proof. intros Hr. unfold ip_UnregisterSocket, mac_UnregisterSocket. locks. Qed.
#[local] Hint Resolve disc_unregister : locks.

Lemma disc_close r s b n : (r <= 3)%nat → disc r (close s b n).
Proof.
  intros Hr. unfold close. apply disciplined_seq; [locks|]. apply disciplined_seq; [locks|].
  apply disciplined_seq; [by apply disc_unregister|locks].
Qed.
#[local] Hint Resolve disc_close : locks.
Lemma disc_CloseError r s n : (r <= 2)%nat → disc r (CloseError s n).
Proof. intros Hr. unfold CloseError. locks. Qed.
Lemma disc_CloseSocket r s n : (r <= 2)%nat → disc r (CloseSocket s n).
Proof. intros Hr. unfold CloseSocket. locks. Qed.
#[local] Hint Resolve disc_CloseError disc_CloseSocket : locks.
Lemma disc_command r s n : (r <= 2)%nat → disc r (rawMakeAndSendCommand s n).
Proof. intros Hr. unfold rawMakeAndSendCommand. locks. Qed.
Lemma disc_WritePacket r s n : (r <= 2)%nat → disc r (WritePacket s n).
Proof. intros Hr. unfold WritePacket. locks. Qed.
#[local] Hint Resolve disc_command disc_WritePacket : locks.
Lemma disc_forward r n dest targets : (r <= 2)%nat → disc r (forward n dest targets).
Proof. intros Hr. unfold forward, findSocket, broadcastDataMessage. locks. Qed.
Lemma disc_setMACFrom r s n : (r <= 2)%nat → disc r (setMACFrom s n).
Proof. intros Hr. unfold setMACFrom. locks. Qed.
#[local] Hint Resolve disc_forward disc_setMACFrom : locks.
Lemma disc_process r from n dest targets : (r <= 2)%nat → disc r (processPacket from n dest targets).
Proof. intros Hr. unfold processPacket, ip_HandlePacket, mac_HandlePacket. locks. Qed.
#[local] Hint Resolve disc_process : locks.
Lemma disc_data r s n dest targets : (r <= 2)%nat → disc r (dataMessageHandler s n dest targets).
Proof. intros Hr. unfold dataMessageHandler. locks. Qed.
Lemma disc_Serve r s old n : (r <= 2)%nat → disc r (Serve s old n).
Proof. intros Hr. unfold Serve, ip_RegisterSocket, mac_RegisterSocket. locks. Qed.
#[local] Hint Resolve disc_data disc_Serve : locks.
Lemma disc_serve_socket r s oldest old n : (r <= 1)%nat → disc r (serve_socket s oldest old n).
Proof. intros Hr. unfold serve_socket, forget_socket. locks. Qed.
#[local] Hint Resolve disc_serve_socket : locks.
Lemma disc_closeAll r closers : (r <= 0)%nat → disc r (closeAll closers).
Proof.
  intros Hr. unfold closeAll. apply disciplined_guard; [done|]. cbn [mutex_rank].
  induction closers as [|c closers IH]; simpl; locks.
Qed.
#[local] Hint Resolve disc_closeAll : locks.

Lemma operation_disciplined c : operation c → disc 0 c.
Proof.
  intros [s oldest old n|s n d ts|s n|s|s|s n|n d ts|s n|s n|s n|s n|s|n| |s n|ss n| |cs| |s n|s old n|].
  all: unfold serveSocket, addCloser, connection_iface, release_slot, controlMessageHandler, ping_turn,
    error_goroutine, cleanupFragments, each_cache, api_clients, api_client, SetMTU, UpdateSocketConfig, createMainIface, client_turn, closeInternal.
  all: locks.
Qed.
End Ranks.

(** ** The properties *)

Lemma mutex_rank_bound l : (mutex_rank l < 4)%nat.
Proof. destruct l; cbn; lia. Qed.

Abbreviation runs := (rtc (pool_step operation)).

(** C19. However the operations of the program interleave, and whenever new ones
    start: what one has locked exclusively no other has; as long as one of them
    is not at its end, some can go on, asking for no mutex or for one that nobody
    has; and if no more start, all can come to their end, with no mutex locked. *)
Theorem no_deadlock ts :
  runs [] ts →
  exclusive ts
  ∧ (Exists (λ t, ¬ finished t) ts → ∃ t, t ∈ ts ∧ can_go ts t)
  ∧ (∃ ts', rtc run_step ts ts' ∧ Forall (λ t, t = mkThread [] []) ts').
Proof.
  intros Hr. split; [by eapply reachable_exclusive|].
  assert (Ho : Forall (orderly mutex_rank) ts).
  { eapply pool_reachable; [exact operation_disciplined| |exact Hr]. done. }
  split; [by apply (orderly_progress mutex_rank 4 mutex_rank_bound)|].
  by apply (orderly_completes mutex_rank 4 mutex_rank_bound).
Qed.

(** The writes of a WebSocket connection are done under its mutex and have no
    deadline, and closing the connection takes the same mutex: while a peer does
    not read, thread [i] stalls in a write, and nothing that must lock the mutex
    comes to its end, closing the connection included.  A thread that waits for
    it stays where it is with what it has locked, which then blocks others: a
    change of the MTU holds the list of sockets, so that no connection can be
    entered or removed. *)
Lemma stalled_write ts i s stalled :
  ts !! i = Some stalled → (Exclusive, WriteLock s) ∈ held stalled →
  (∀ k t m, ts !! k = Some t → Lock m (WriteLock s) ∈ todo t →
     ∀ ts', rtc (run_without i) ts ts' → ∃ t', ts' !! k = Some t' ∧ ¬ finished t')
  ∧ (∀ j waiter m tr l, ts !! j = Some waiter → todo waiter = Lock m (WriteLock s) :: tr →
       (Exclusive, l) ∈ held waiter →
       ∀ k t m', ts !! k = Some t → Lock m' l ∈ todo t →
         ∀ ts', rtc (run_without i) ts ts' → ∃ t', ts' !! k = Some t' ∧ ¬ finished t').
Proof.
  intros Hi Hx. assert (Hst := stuck_self i ts stalled Hi).
  assert (Hf : ∀ (t : thread) m (l : mutex), Lock m l ∈ todo t → ¬ finished t).
  { intros t m l Hin E. rewrite E in Hin. by apply elem_of_nil in Hin. }
  split.
  - intros k t m Hk Hn ts' Hr.
    destruct (stuck_needs _ _ _ _ _ _ _ _ Hst Hx Hk Hn ts' Hr) as (t' & ? & ?). eauto.
  - intros j waiter m tr l Hj E Hl k t m' Hk Hn ts' Hr.
    pose proof (stuck_waiter _ _ _ _ _ _ _ _ _ Hst Hx Hj E) as Hsj.
    destruct (stuck_needs _ _ _ _ _ _ _ _ Hsj Hl Hk Hn ts' Hr) as (t' & ? & ?). eauto.
Qed.

(** [createMainIface] returns its first two errors with the mutex locked: it is
    not given back, and whoever needs it waits for ever. *)
Lemma main_iface_leak :
  ¬ disc 0 (createMainIface true)
  ∧ ∀ ts i, ts !! i = Some (mkThread [(Exclusive, IfaceCreationMutex)] []) →
    ∀ k t m, ts !! k = Some t → Lock m IfaceCreationMutex ∈ todo t →
    ∀ ts', rtc (run_without i) ts ts' → ∃ t', ts' !! k = Some t' ∧ Lock m IfaceCreationMutex ∈ todo t'.
Proof.
  split.
  - intros Hd. specialize (Hd [] [Lock Exclusive IfaceCreationMutex; Other]).
    assert (E : Some [(Exclusive, IfaceCreationMutex)] = Some ([] : list (mode * mutex))); [|done].
    apply Hd; [constructor|]. cbn. set_solver.
  - intros ts i Hi k t m Hk Hn. eapply stuck_needs; [by apply stuck_self|by left|done|done].
Qed.

(** ** A closed instance: a packet for socket 1, a change of the MTU, the web API *)

#[export] Instance available_dec (ts : list (thread (L := mutex))) m l : Decision (available ts m l).
Proof. unfold available. apply _. Defined.

(** Thread [i] takes a step, if it can. *)
Definition advance (i : nat) (ts : list (thread (L := mutex))) : option (list (thread (L := mutex))) :=
  match ts !! i with
  | Some (mkThread h (Lock m l :: tr)) =>
      if decide (available ts m l) then Some (<[i := mkThread ((m, l) :: h) tr]> ts) else None
  | Some (mkThread h (Unlock m l :: tr)) => Some (<[i := mkThread (release (m, l) h) tr]> ts)
  | Some (mkThread h (Other :: tr)) => Some (<[i := mkThread h tr]> ts)
  | _ => None
  end.

Fixpoint advances (order : list nat) (ts : list (thread (L := mutex))) : option (list (thread (L := mutex))) :=
  match order with [] => Some ts | i :: order => advance i ts ≫= advances order end.

Lemma pool_advance i ts ts' : advance i ts = Some ts' → run_step ts ts'.
Proof.
  unfold advance. destruct (ts !! i) as [[h [|[m l|m l|] tr]]|] eqn:E; try done.
  - case_decide as Ha; [|done]. intros [= <-]. econstructor; [done|]. by constructor.
  - intros [= <-]. econstructor; [done|]. constructor.
  - intros [= <-]. econstructor; [done|]. constructor.
Qed.

Lemma pool_advances order ts ts' : advances order ts = Some ts' → runs ts ts'.
Proof.
  revert ts. induction order as [|i order IH]; intros ts; cbn [advances].
  - intros [= ->]. apply rtc_refl.
  - destruct (advance i ts) as [ts1|] eqn:E; [|done]. intros Hr.
    eapply rtc_l; [|by apply IH]. apply pool_run. by eapply pool_advance.
Qed.

Definition write_trace : list (event mutex) :=
  [Other; Lock Exclusive (WriteLock 1); Other; Unlock Exclusive (WriteLock 1)].
Definition mtu_trace : list (event mutex) :=
  [Other; Lock Exclusive SocketsLock; Other; Other; Lock Exclusive (WriteLock 1); Other;
   Unlock Exclusive (WriteLock 1); Other; Unlock Exclusive SocketsLock].
Definition api_trace : list (event mutex) :=
  [Lock Exclusive SocketsLock; Other; Unlock Exclusive SocketsLock; Other].
Definition close_trace : list (event mutex) :=
  [Lock Exclusive (CloseLock 1); Lock Exclusive (WriteLock 1); Other; Unlock Exclusive (WriteLock 1);
   Other; Other; Unlock Exclusive (CloseLock 1)].

Definition demo_pool : list (thread (L := mutex)) :=
  [mkThread [] write_trace; mkThread [] mtu_trace; mkThread [] api_trace; mkThread [] close_trace].

Lemma demo_started : runs [] demo_pool.
Proof.
  eapply rtc_l.
  { apply (pool_start operation [] (WritePacket 1 0) write_trace); [constructor|].
    apply (bool_decide_unpack _). vm_compute. exact Logic.I. }
  eapply rtc_l.
  { apply (pool_start operation _ (SetMTU [1%nat] 0) mtu_trace); [constructor|].
    apply (bool_decide_unpack _). vm_compute. exact Logic.I. }
  eapply rtc_l.
  { apply (pool_start operation _ (api_client 2 0) api_trace); [constructor|].
    apply (bool_decide_unpack _). vm_compute. exact Logic.I. }
  eapply rtc_l.
  { apply (pool_start operation _ (CloseSocket 1 0) close_trace); [constructor|].
    apply (bool_decide_unpack _). vm_compute. exact Logic.I. }
  exact (rtc_refl _ demo_pool).
Qed.

(** The packet is being written, the MTU has the list of sockets and asks for the
    mutex of the connection. *)
Definition stalled_pool : list (thread (L := mutex)) :=
  default [] (advances [0%nat; 0%nat; 1%nat; 1%nat; 1%nat; 1%nat] demo_pool).

Lemma stalled_reached : runs [] stalled_pool.
Proof.
  etrans; [exact demo_started|]. apply (pool_advances [0%nat; 0%nat; 1%nat; 1%nat; 1%nat; 1%nat]).
  vm_compute. reflexivity.
Qed.

Lemma no_deadlock_witness :
  exclusive stalled_pool
  ∧ (Exists (λ t, ¬ finished t) stalled_pool → ∃ t, t ∈ stalled_pool ∧ can_go stalled_pool t)
  ∧ (∃ ts', rtc run_step stalled_pool ts' ∧ Forall (λ t, t = mkThread [] []) ts').
Proof. exact (no_deadlock stalled_pool stalled_reached). Defined.

(** If the write stalls, neither the close of the connection nor the request to
    the API comes to its end. *)
Lemma stalled_write_witness :
  (∀ ts', rtc (run_without 0) stalled_pool ts' → ∃ t', ts' !! 3%nat = Some t' ∧ ¬ finished t')
  ∧ (∀ ts', rtc (run_without 0) stalled_pool ts' → ∃ t', ts' !! 2%nat = Some t' ∧ ¬ finished t').
Proof.
  destruct (stalled_write stalled_pool 0 1
    (mkThread [(Exclusive, WriteLock 1)] [Other; Unlock Exclusive (WriteLock 1)]) eq_refl
    ltac:(by left)) as [H1 H2].
  split.
  - apply (H1 3%nat (mkThread [] close_trace) Exclusive eq_refl). right. by left.
  - apply (H2 1%nat (mkThread [(Exclusive, SocketsLock)] (drop 4 mtu_trace)) Exclusive
      (drop 5 mtu_trace) SocketsLock eq_refl eq_refl ltac:(by left)
      2%nat (mkThread [] api_trace) Exclusive eq_refl). by left.
Defined.
