(* ===== verification/Fragment.v ===== *)
(** * Fragmentation: what is sent, and that it is put together again

    The messages a packet becomes are given by a reference function; the
    sending loop of data_message.go is shown to send exactly those where its
    16-bit arithmetic does not overflow, and the receiving side is shown to
    give the packets back from their fragments in any order. *)

From S2P Require Import Prelude Commands Adapter Socket.
Import adapters.

(** ** The reference: cutting a packet into pieces *)

(** The [i]-th piece of [p] bytes. *)
Definition chunk (p : nat) (packet : bytes) (i : nat) : bytes :=
  take p (drop (i * p) packet).

(** The number of pieces: the quotient rounded up. *)
Definition chunk_count (p : nat) (packet : bytes) : nat :=
  ((length packet + p - 1) / p)%nat.

(** The value of the identifier a receiver reads in a fragment's header. *)
Definition header_id (packetID : Z) : Z :=
  packetID / 16777216 mod 255 * 16777216 + packetID / 65536 mod 255 * 65536
  + packetID / 256 mod 255 * 256 + packetID mod 255.

Definition fragment_header (count i : nat) : Z :=
  if Nat.eqb (S i) count then Z.of_nat i + 128 else Z.of_nat i.

Definition fragment (packetID : Z) (p : nat) (packet : bytes) (i : nat) : bytes :=
  fragment_header (chunk_count p packet) i :: packetID_bytes packetID ++ chunk p packet i.

(** The messages of a packet for a transport that takes [maxLen] bytes. *)
Definition wire_messages (packetID maxLen : Z) (packet : bytes) : list bytes :=
  if len packet + 1 <=? maxLen then [128 :: packet]
  else
    let p := Z.to_nat (maxLen - 5) in
    map (fragment packetID p packet) (seq 0 (chunk_count p packet)).

(** The packets the code can send: the fragments fit the 7 bits of the index
    and the end of the last one the 16 bits of the offset. *)
Definition sendable (maxLen : Z) (packet : bytes) : Prop :=
  0 < len packet < 65535 ∧ maxLen < 65536 ∧
  (maxLen < len packet + 1 →
     5 < maxLen ∧ (chunk_count (Z.to_nat (maxLen - 5)) packet <= 128)%nat
     ∧ Z.of_nat (chunk_count (Z.to_nat (maxLen - 5)) packet) * (maxLen - 5) < 65536).

(** Feeding messages, each with its time of arrival, to [receive_data]; the
    packets passed on, in order. *)
Fixpoint receive_all {A} (msgs : list (Z * bytes)) (s : Socket A) : Socket A * list bytes :=
  match msgs with
  | [] => (s, [])
  | (now, m) :: msgs =>
      let '(s, v) := receive_data now m s in
      let '(s, out) := receive_all msgs s in
      (s, match v with Deliver p => p :: out | _ => out end)
  end.

(** A socket that takes data and defragments it. *)
Definition accepts_fragments {A} (s : Socket A) : Prop :=
  ignores_data s = false ∧ fragmentationEnabled s = true.

(** ** Pieces *)

Lemma chunk_count_bounds p packet :
  (0 < p)%nat →
  (length packet <= chunk_count p packet * p < length packet + p)%nat.
Proof.
  intros Hp. unfold chunk_count.
  pose proof (Nat.div_mod_eq (length packet + p - 1) p).
  pose proof (Nat.mod_upper_bound (length packet + p - 1) p). nia.
Qed.

Lemma concat_chunks p packet n :
  concat (map (chunk p packet) (seq 0 n)) = take (n * p) packet.
Proof.
  induction n as [|n IH]; [done|].
  rewrite seq_S, map_app, concat_app, IH. simpl. rewrite app_nil_r.
  unfold chunk. rewrite take_take_drop. f_equal. lia.
Qed.

Lemma concat_all_chunks p packet :
  (0 < p)%nat →
  concat (map (chunk p packet) (seq 0 (chunk_count p packet))) = packet.
Proof.
  intros Hp. rewrite concat_chunks. apply take_ge.
  pose proof (chunk_count_bounds p packet Hp). lia.
Qed.

(** ** Header bits *)

Lemma lor_mul_add a b n :
  0 <= n → 0 <= b < 2 ^ n → Z.lor (a * 2 ^ n) b = a * 2 ^ n + b.
Proof.
  intros Hn Hb. rewrite <- Z.shiftl_mul_pow2 by done.
  rewrite <- Z.add_nocarry_lor; [done|].
  apply Z.bits_inj'. intros i Hi. rewrite Z.land_spec, Z.bits_0.
  destruct (Z.lt_ge_cases i n).
  - by rewrite Z.shiftl_spec_low.
  - apply andb_false_intro2. destruct (Z.eq_dec b 0) as [->|]; [apply Z.bits_0|].
    apply Z.bits_above_log2; [lia|].
    apply Z.log2_lt_pow2; [lia|].
    pose proof (Z.pow_le_mono_r 2 n i). lia.
Qed.

(** The seven index bits and the flag, by evaluation of the 128 cases. *)
Lemma header_bits_all :
  forallb (λ i, let i := Z.of_nat i in
    (Z.land i 127 =? i) && (Z.land (i + 128) 127 =? i) && negb (Z.land i 128 =? 128)
    && (Z.land (i + 128) 128 =? 128) && (Z.lor i 128 =? i + 128)) (seq 0 128) = true.
Proof. vm_compute. reflexivity. Qed.

Lemma header_bits (i : nat) :
  (i < 128)%nat →
  Z.land (Z.of_nat i) 127 = Z.of_nat i ∧ Z.land (Z.of_nat i + 128) 127 = Z.of_nat i
  ∧ (Z.land (Z.of_nat i) 128 =? 128) = false
  ∧ (Z.land (Z.of_nat i + 128) 128 =? 128) = true
  ∧ Z.lor (Z.of_nat i) 128 = Z.of_nat i + 128.
Proof.
  intros Hi. pose proof header_bits_all as Hall. rewrite forallb_forall in Hall.
  specialize (Hall i). rewrite in_seq in Hall. specialize (Hall ltac:(lia)). cbv zeta in Hall.
  repeat (apply andb_true_iff in Hall as [Hall ?]).
  bool_lia.
Qed.

Lemma u8_mod_255 x : u8 (x mod 255) = x mod 255.
Proof. apply u8_small. pose proof (Z.mod_pos_bound x 255). lia. Qed.

Lemma packet_id_of_fragment f id payload :
  packet_id_of (f :: packetID_bytes id ++ payload) = header_id id.
Proof.
  unfold packet_id_of, byte_at, packetID_bytes, header_id. cbn [lookup list_lookup app default].
  rewrite !u8_mod_255, !Z.shiftr_div_pow2 by lia.
  change (2 ^ 24) with 16777216. change (2 ^ 16) with 65536. change (2 ^ 8) with 256.
  pose proof (Z.mod_pos_bound id 255 eq_refl).
  pose proof (Z.mod_pos_bound (id / 256) 255 eq_refl).
  pose proof (Z.mod_pos_bound (id / 65536) 255 eq_refl).
  pose proof (Z.mod_pos_bound (id / 16777216) 255 eq_refl).
  set (a := id / 16777216 mod 255) in *. set (b := id / 65536 mod 255) in *.
  set (c := id / 256 mod 255) in *. set (d := id mod 255) in *.
  cbn [from_option Datatypes.id]. rewrite !Z.shiftl_mul_pow2 by lia.
  assert (Hp : 2 ^ 24 = 16777216 ∧ 2 ^ 16 = 65536 ∧ 2 ^ 8 = 256) by done.
  rewrite lor_mul_add by lia.
  replace (a * 2 ^ 24 + b * 2 ^ 16) with ((a * 256 + b) * 2 ^ 16) by lia.
  rewrite lor_mul_add by lia.
  replace ((a * 256 + b) * 2 ^ 16 + c * 2 ^ 8)
    with ((a * 65536 + b * 256 + c) * 2 ^ 8) by lia.
  rewrite lor_mul_add by lia. lia.
Qed.

(** ** Sending *)

(** The count the code computes with a division and a remainder. *)
Lemma fragmentCount_ok packet (p : nat) :
  (0 < p)%nat → len packet < 65536 →
  (if negb (len packet mod Z.of_nat p =? 0) then u16 (u16 (len packet / Z.of_nat p) + 1)
   else u16 (len packet / Z.of_nat p))
  = Z.of_nat (chunk_count p packet).
Proof.
  intros Hp Hlen. pose proof (chunk_count_bounds p packet Hp) as Hb.
  set (n := chunk_count p packet) in *. unfold len in *.
  pose proof (Z.div_mod (Z.of_nat (length packet)) (Z.of_nat p) ltac:(lia)) as Hd.
  pose proof (Z.mod_pos_bound (Z.of_nat (length packet)) (Z.of_nat p) ltac:(lia)) as Hm.
  set (q := Z.of_nat (length packet) / Z.of_nat p) in *.
  set (r := Z.of_nat (length packet) mod Z.of_nat p) in *.
  assert (0 <= q) by nia.
  destruct (Z.eqb_spec r 0); simpl.
  - rewrite u16_small; nia.
  - rewrite (u16_small q) by nia. rewrite u16_small; nia.
Qed.

Section Sending.
Context (packet : bytes) (maxLen : Z).
Hypothesis Hsend : sendable maxLen packet.
Hypothesis Hlong : maxLen < len packet + 1.

Lemma payload_nat : Z.of_nat (Z.to_nat (maxLen - 5)) = maxLen - 5.
Proof. destruct Hsend as (? & ? & H3). specialize (H3 Hlong). lia. Qed.

Lemma fragment_message_ok id i :
  (i < chunk_count (Z.to_nat (maxLen - 5)) packet)%nat →
  fragment_message id (len packet) (maxLen - 5)
    (Z.of_nat (chunk_count (Z.to_nat (maxLen - 5)) packet)) packet (Z.of_nat i)
  = Ret (fragment id (Z.to_nat (maxLen - 5)) packet i).
Proof.
  intros Hi. destruct Hsend as (H1 & H2 & H3). specialize (H3 Hlong).
  destruct H3 as (H5 & Hc & Hw). pose proof payload_nat as Hp.
  set (p := Z.to_nat (maxLen - 5)) in *. set (n := chunk_count p packet) in *.
  pose proof (chunk_count_bounds p packet ltac:(lia)) as Hb. fold n in Hb.
  unfold len in *. rewrite <- Hp in *. unfold fragment_message.
  rewrite (u16_small (Z.of_nat i * Z.of_nat p)) by nia.
  rewrite (u16_small (_ + Z.of_nat p)) by nia.
  assert (Hs : go_slice packet (Z.of_nat i * Z.of_nat p)
      (if Z.of_nat (length packet) <? Z.of_nat i * Z.of_nat p + Z.of_nat p
       then Z.of_nat (length packet) else Z.of_nat i * Z.of_nat p + Z.of_nat p)
      = Ret (chunk p packet i)).
  { rewrite go_slice_ok; unfold len; try (destruct (Z.ltb_spec (Z.of_nat (length packet))
      (Z.of_nat i * Z.of_nat p + Z.of_nat p)); nia).
    f_equal. unfold chunk. rewrite <- Nat2Z.inj_mul, Nat2Z.id.
    destruct (Z.ltb_spec (Z.of_nat (length packet))
      (Z.of_nat (i * p) + Z.of_nat p)).
    - rewrite !take_ge; [done| |]; rewrite length_drop; lia.
    - f_equal. lia. }
  rewrite Hs. simpl. unfold fragment. f_equal. f_equal.
  unfold fragFlag, fragment_header. fold n.
  rewrite (u16_small (Z.of_nat n - 1)), (u8_small (Z.of_nat i)) by lia.
  destruct (Nat.eqb_spec (S i) n).
  - rewrite (proj2 (Z.eqb_eq _ _)) by lia. by apply header_bits; lia.
  - by rewrite (proj2 (Z.eqb_neq _ _)) by lia.
Qed.

End Sending.

Section Adapter.
Context {A : Type} `{SocketAdapterSpec A}.
Implicit Types s : Socket A.

(** The loop sends the fragments from [i] on until the transport fails. *)
Lemma write_fragments_sends packet maxLen id n i s :
  sendable maxLen packet → maxLen < len packet + 1 →
  (i + n = chunk_count (Z.to_nat (maxLen - 5)) packet)%nat →
  ∃ ad err k,
    write_fragments id (len packet) (maxLen - 5)
      (Z.of_nat (chunk_count (Z.to_nat (maxLen - 5)) packet)) packet n (Z.of_nat i) s
    = Ret (s <| adapter := ad |>, err)
    ∧ sent_data ad = sent_data (adapter s)
        ++ take k (map (fragment id (Z.to_nat (maxLen - 5)) packet) (seq i n))
    ∧ (err = None → k = n)
    ∧ (err = Some ErrDataPayloadLimitReduced →
         MaxDataPayloadLen ad < MaxDataPayloadLen (adapter s)).
Proof.
  intros Hs Hl. revert i s. induction n as [|n IH]; intros i s Hi.
  { exists (adapter s), None, 0%nat. simpl. rewrite app_nil_r. split_and!; try done.
    by destruct s. }
  cbn [write_fragments]. rewrite fragment_message_ok by (done || lia). simpl.
  destruct (WriteDataMessage _ (adapter s)) as [ad [e|]] eqn:E; simpl.
  - exists ad, (Some e), 0%nat. simpl. rewrite app_nil_r.
    pose proof (data_err _ _ _ _ E) as [? ?].
    split_and!; [done..|]. intros [= ->]. by apply data_reduced in E.
  - pose proof (data_ok _ _ _ E) as (Ed & Em & _).
    destruct Hs as (? & ? & Hs'). destruct (Hs' Hl) as (? & ? & ?).
    rewrite u16_small by lia.
    replace (Z.of_nat i + 1) with (Z.of_nat (S i)) by lia.
    destruct (IH (S i) (s <| adapter := ad |>)) as (ad' & err & k & E' & Ed' & Hk & Hr);
      [lia|].
    exists ad', err, (S k). simpl in *. split_and!; [done| | |].
    + rewrite Ed', Ed, <- app_assoc. done.
    + intros ->. by rewrite Hk.
    + intros ->. rewrite <- Em. auto.
Qed.

Lemma writePacketFragmented_sends packet maxLen s :
  sendable maxLen packet →
  ∃ ad id err k,
    writePacketFragmented packet maxLen s
    = Ret (s <| adapter := ad |> <| lastFragmentID := id |>, err)
    ∧ id = (if len packet + 1 <=? maxLen then lastFragmentID s
            else u32 (lastFragmentID s + 1))
    ∧ sent_data ad = sent_data (adapter s)
        ++ take k (wire_messages (u32 (lastFragmentID s + 1)) maxLen packet)
    ∧ (err = None → k = length (wire_messages (u32 (lastFragmentID s + 1)) maxLen packet))
    ∧ (err = Some ErrDataPayloadLimitReduced →
         MaxDataPayloadLen ad < MaxDataPayloadLen (adapter s)).
Proof.
  intros Hs. unfold writePacketFragmented, wire_messages.
  pose proof Hs as (Hlen & Hmax & _).
  rewrite (u16_small (len packet)), (u16_small (len packet + 1)) by lia.
  destruct (Z.leb_spec (len packet + 1) maxLen) as [Hle|Hgt].
  - destruct (WriteDataMessage _ (adapter s)) as [ad [e|]] eqn:E.
    + exists ad, (lastFragmentID s), (Some e), 0%nat. simpl. rewrite app_nil_r.
      pose proof (data_err _ _ _ _ E) as [? ?].
      split_and!; try done. intros [= ->]. by apply data_reduced in E.
    + exists ad, (lastFragmentID s), None, 1%nat. simpl.
      by pose proof (data_ok _ _ _ E) as (? & ? & _).
  - pose proof Hs as (_ & _ & Hs'). destruct (Hs' Hgt) as (H5 & Hc & Hw).
    rewrite (u16_small (maxLen - 5)) by lia.
    rewrite (proj2 (Z.eqb_neq (maxLen - 5) 0)) by lia.
    cbv zeta. pose proof (payload_nat packet maxLen Hs Hgt) as Hp.
    pose proof (fragmentCount_ok packet (Z.to_nat (maxLen - 5)) ltac:(lia) ltac:(lia)) as Hn.
    rewrite Hp in Hn. rewrite Hn, Nat2Z.id.
    destruct (write_fragments_sends packet maxLen (u32 (lastFragmentID s + 1))
      (chunk_count (Z.to_nat (maxLen - 5)) packet) 0
      (s <| lastFragmentID := u32 (lastFragmentID s + 1) |>)) as (ad & err & k & E & Ed & Hk & Hr);
      [done..|].
    exists ad, (u32 (lastFragmentID s + 1)), err, k.
    rewrite length_map, length_seq. split_and!; done.
Qed.

(** Whatever the packet, a reported reduction of the limit is one. *)
Lemma write_fragments_reduced id dataLen p count packet n i s s' :
  write_fragments id dataLen p count packet n i s
    = Ret (s', Some ErrDataPayloadLimitReduced) →
  MaxDataPayloadLen (adapter s') < MaxDataPayloadLen (adapter s).
Proof.
  revert i s. induction n as [|n IH]; intros i s; cbn [write_fragments]; [done|].
  intros E. inv_bind. destruct (WriteDataMessage _ _) as [ad [e|]] eqn:Ew.
  - injection E as <- ->. by apply data_reduced in Ew.
  - apply IH in E. simpl in E. apply data_ok in Ew as (_ & <- & _). done.
Qed.

Lemma writePacketFragmented_reduced packet maxLen s s' :
  writePacketFragmented packet maxLen s = Ret (s', Some ErrDataPayloadLimitReduced) →
  MaxDataPayloadLen (adapter s') < MaxDataPayloadLen (adapter s).
Proof.
  unfold writePacketFragmented. case_match.
  - destruct (WriteDataMessage _ _) as [ad e] eqn:Ew. intros [= <- ->].
    by apply data_reduced in Ew.
  - cbv zeta. case_match; [done|]. intros E. by apply write_fragments_reduced in E.
Qed.

Lemma write_fragments_not_exhausted id dataLen p count packet n i s :
  write_fragments id dataLen p count packet n i s ≠ Exhausted.
Proof.
  revert i s. induction n as [|n IH]; intros i s; cbn [write_fragments]; [done|].
  unfold fragment_message, go_slice. case_match; simpl; [|done].
  destruct (WriteDataMessage _ _) as [ad [e|]]; [done|]. apply IH.
Qed.

Lemma writePacketFragmented_not_exhausted packet maxLen s :
  writePacketFragmented packet maxLen s ≠ Exhausted.
Proof.
  unfold writePacketFragmented. case_match; [by destruct (WriteDataMessage _ _)|].
  cbv zeta. case_match; [done|]. apply write_fragments_not_exhausted.
Qed.

Lemma write_retry_fuel fuel packet s :
  MaxDataPayloadLen (adapter s) < Z.of_nat fuel → write_retry fuel packet s ≠ Exhausted.
Proof.
  revert s. induction fuel as [|fuel IH]; intros s Hf.
  { pose proof (max_range (adapter s)). lia. }
  cbn [write_retry].
  destruct (writePacketFragmented packet _ s) as [[s' err]| |] eqn:E; simpl; [|done|].
  - case_bool_decide; [|done]. subst err. apply IH.
    apply writePacketFragmented_reduced in E. lia.
  - by apply writePacketFragmented_not_exhausted in E.
Qed.

(** A transport that refuses nothing. *)
Definition never_fails : Prop := ∀ m (a : A), (WriteDataMessage m a).2 = None.

(** When the end of the last fragment passes 65535, its offset wraps around
    and the slice expression of the loop panics. *)
Lemma write_fragments_wraps packet p count c id n i s :
  never_fails → 0 < p → 0 < len packet < 65535 → p < len packet →
  (Z.of_nat count - 1) * p < len packet → 65536 <= Z.of_nat count * p →
  (i + S n = count)%nat →
  write_fragments id (len packet) p c packet (S n) (Z.of_nat i) s
  = Panic "slice bounds out of range".
Proof.
  intros Hok Hp Hlen Hpl Hlast Hwrap. revert i s.
  induction n as [|n IH]; intros i s Hi.
  - cbn [write_fragments]. unfold fragment_message.
    assert (Z.of_nat i = Z.of_nat count - 1) by lia.
    rewrite (u16_small (Z.of_nat i * p)) by nia.
    assert (Hu : u16 (Z.of_nat i * p + p) = Z.of_nat count * p - 65536).
    { replace (Z.of_nat i * p + p) with (Z.of_nat count * p - 65536 + 1 * 65536) by nia.
      unfold u16. change (2 ^ 16) with 65536. rewrite Z_mod_plus_full.
      apply Z.mod_small. nia. }
    rewrite Hu. rewrite go_slice_bad; [done|].
    case_match; bool_lia; nia.
  - remember (S n) as m. cbn [write_fragments]. unfold fragment_message.
    assert (Hip : (Z.of_nat i + 1) * p <= (Z.of_nat count - 1) * p)
      by (apply Z.mul_le_mono_nonneg_r; lia).
    rewrite (u16_small (Z.of_nat i * p)) by nia.
    rewrite (u16_small (_ + p)) by nia.
    rewrite (proj2 (Z.ltb_ge _ _)) by nia.
    rewrite go_slice_ok by nia. simpl.
    match goal with |- context [WriteDataMessage ?m ?a] => pose proof (Hok m a) as Hw end.
    destruct (WriteDataMessage _ _) as [ad e]. simpl in Hw. subst e.
    rewrite u16_small by nia. replace (Z.of_nat i + 1) with (Z.of_nat (S i)) by lia.
    subst m. apply IH. lia.
Qed.

Lemma writePacketFragmented_wraps packet maxLen s :
  never_fails → 5 < maxLen < 65536 → maxLen < len packet + 1 → len packet < 65535 →
  65536 <= Z.of_nat (chunk_count (Z.to_nat (maxLen - 5)) packet) * (maxLen - 5) →
  writePacketFragmented packet maxLen s = Panic "slice bounds out of range".
Proof.
  intros Hok Hm Hl Hlen Hw. unfold writePacketFragmented.
  pose proof (len_nonneg packet).
  rewrite (u16_small (len packet)), (u16_small (len packet + 1)) by lia.
  rewrite (proj2 (Z.leb_gt _ _)) by lia.
  rewrite (u16_small (maxLen - 5)) by lia.
  rewrite (proj2 (Z.eqb_neq (maxLen - 5) 0)) by lia.
  set (p := Z.to_nat (maxLen - 5)) in *.
  assert (Hp : Z.of_nat p = maxLen - 5) by lia. rewrite <- Hp in *.
  pose proof (chunk_count_bounds p packet ltac:(lia)) as Hb.
  cbv zeta. rewrite fragmentCount_ok, Nat2Z.id by lia.
  destruct (chunk_count p packet) as [|n] eqn:Ec; [unfold len in *; lia|].
  apply (write_fragments_wraps packet (Z.of_nat p) (S n) _ _ n 0);
    unfold len in *; try done; nia.
Qed.

End Adapter.

(** ** Receiving *)

(** A message read as fragment [i] of the pieces [ps] of the packet that the
    header calls [k]. *)
Definition is_fragment (k : Z) (ps : list bytes) (i : nat) (m : bytes) : Prop :=
  6 <= len m ∧ byte_at m 0 ≠ 128 ∧ packet_id_of m = k
  ∧ Z.land (byte_at m 0) 127 = Z.of_nat i
  ∧ (Z.land (byte_at m 0) 128 =? 128) = Nat.eqb (S i) (length ps)
  ∧ ps !! i = Some (drop 5 m).

(** A packet in reassembly: its pieces and those stored so far. *)
Definition full (ps : list bytes) : gmap Z bytes := map_seqZ 0 ps.

Definition last_index (ps : list bytes) (d : gmap Z bytes) : Z :=
  if decide (is_Some (d !! (len ps - 1))) then len ps - 1 else -1000.

Definition entry_of (ps : list bytes) (d : gmap Z bytes) (e : option fragmentsInfo) : Prop :=
  if decide (d = ∅) then e = None
  else ∃ t, e = Some (mkFragments (last_index ps d) d t).

Lemma lookup_full ps (i : nat) : full ps !! Z.of_nat i = ps !! i.
Proof.
  apply option_eq. intros x. unfold full. rewrite lookup_map_seqZ_Some.
  rewrite Z.sub_0_r, Nat2Z.id. split; [by intros [_ ?]|intros; split; [lia|done]].
Qed.

Lemma full_last ps : (1 <= length ps)%nat → is_Some (full ps !! (len ps - 1)).
Proof.
  intros Hn. unfold len. replace (Z.of_nat (length ps) - 1) with (Z.of_nat (length ps - 1)) by lia.
  rewrite lookup_full. apply lookup_lt_is_Some_2. lia.
Qed.

Lemma size_full_from ps start : size (map_seqZ start ps : gmap Z bytes) = length ps.
Proof.
  revert start. induction ps as [|x ps IH]; intros start; [done|].
  rewrite map_seqZ_cons, map_size_insert_None, IH; [done|].
  apply lookup_map_seqZ_None. lia.
Qed.

Lemma assemble_full ps t :
  (1 <= length ps <= 128)%nat →
  assemble (mkFragments (len ps - 1) (full ps) t) = concat ps.
Proof.
  intros Hn. unfold assemble. simpl. unfold len.
  rewrite u8_small by lia. replace (Z.to_nat _) with (length ps) by lia.
  f_equal. apply list_eq. intros i. rewrite list_lookup_fmap.
  destruct (decide (i < length ps)%nat) as [Hi|Hi].
  - rewrite lookup_seq_lt by done. simpl. rewrite lookup_full.
    destruct (lookup_lt_is_Some_2 _ _ Hi) as [x ->]. done.
  - rewrite lookup_seq_ge by lia. simpl. symmetry. apply lookup_ge_None. lia.
Qed.

(** Storing one more piece: the packet when it was the last one missing. *)
Lemma store_fragment_step {A} (s : Socket A) now k ps i m (d : gmap Z bytes) :
  is_fragment k ps i m → (2 <= length ps <= 128)%nat →
  d ⊆ full ps → d !! Z.of_nat i = None → entry_of ps d (defragBuffer s !! k) →
  let d' := <[Z.of_nat i := drop 5 m]> d in
  d' ⊆ full ps ∧
  if decide (d' = full ps)
  then store_fragment now m s
       = (s <| defragBuffer := delete k (defragBuffer s) |>, Deliver (concat ps))
  else ∃ info, entry_of ps d' (Some info) ∧ store_fragment now m s
       = (s <| defragBuffer := <[k := info]> (defragBuffer s) |>, Keep).
Proof.
  intros (H6 & Hh & Hk & Hi & Hl & Hp) Hn Hd Hdi He d'.
  assert (Hd' : d' ⊆ full ps).
  { apply insert_subseteq_l; [by rewrite lookup_full|done]. }
  split; [done|].
  assert (Hprev : ∃ t, default (mkFragments (-1000) ∅ 0) (defragBuffer s !! k)
                       = mkFragments (last_index ps d) d t).
  { unfold entry_of in He. case_decide; [|destruct He as [t ->]; by exists t].
    rewrite He. subst d. unfold last_index. rewrite lookup_empty.
    rewrite decide_False by (by intros [? ?]). by exists 0. }
  destruct Hprev as [t Hprev].
  set (info := mkFragments (last_index ps d') d' now).
  assert (Hinfo : let fragInfo := mkFragments (last_index ps d) d t in
      let fragInfo := fragInfo <| time := now |> in
      let fragInfo := fragInfo <| data := <[Z.of_nat i := drop 5 m]> (data fragInfo) |> in
      (if Nat.eqb (S i) (length ps)
       then fragInfo <| lastIndex := Z.of_nat i |> else fragInfo) = info).
  { cbv zeta. unfold info, d', last_index, len. destruct (Nat.eqb_spec (S i) (length ps)) as [E|E]; simpl.
    - replace (Z.of_nat (length ps) - 1) with (Z.of_nat i) by lia.
      rewrite lookup_insert_eq, decide_True by (eexists; reflexivity). done.
    - rewrite lookup_insert_ne by lia. done. }
  assert (Hsize : Z.of_nat (size d') = last_index ps d' + 1 ↔ d' = full ps).
  { assert (Hsf : size (full ps) = length ps) by apply size_full_from.
    unfold last_index. split.
    - intros E. destruct (decide _); [|lia].
      unfold len in E. apply map_subseteq_size_eq; [done|]. rewrite Hsf. lia.
    - intros ->. rewrite Hsf, decide_True by (apply full_last; lia). unfold len. lia. }
  unfold store_fragment. rewrite Hk, Hi, Hl, Hprev, Hinfo. simpl.
  case_decide as Hfull.
  - rewrite (proj2 (Z.eqb_eq _ _)) by (by apply Hsize).
    f_equal. f_equal. unfold info. rewrite Hfull. unfold last_index.
    rewrite decide_True by (apply full_last; lia). apply assemble_full. lia.
  - exists info. rewrite (proj2 (Z.eqb_neq _ _)) by (by rewrite Hsize).
    split; [|done]. unfold entry_of. rewrite decide_False by apply insert_non_empty.
    by exists now.
Qed.

Abbreviation pending := (gmap Z (list bytes * gmap Z bytes)).

(** The buffer holds the packets of [pend], and [rest] otherwise. *)
Definition buffer_ok (rest B : gmap Z fragmentsInfo) (pend : pending) : Prop :=
  (∀ k ps d, pend !! k = Some (ps, d) →
     (2 <= length ps <= 128)%nat ∧ d ⊆ full ps ∧ d ≠ full ps
     ∧ entry_of ps d (B !! k) ∧ rest !! k = None)
  ∧ (∀ k, pend !! k = None → B !! k = rest !! k).

(** The fragments still to come, each named by its packet and index. *)
Definition missing (pend : pending) (ks : list (Z * nat)) : Prop :=
  NoDup ks ∧ ∀ k i, (k, i) ∈ ks ↔
    ∃ ps d, pend !! k = Some (ps, d) ∧ (i < length ps)%nat ∧ d !! Z.of_nat i = None.

Definition names (pend : pending) (m : bytes) (k : Z * nat) : Prop :=
  ∃ ps d, pend !! k.1 = Some (ps, d) ∧ is_fragment k.1 ps k.2 m.

Lemma receive_data_fragment {A} (s : Socket A) now k ps i m :
  accepts_fragments s → is_fragment k ps i m →
  receive_data now m s = store_fragment now m s.
Proof.
  intros [Hi Hf] (H6 & Hh & _). unfold receive_data. rewrite Hi, Hf. simpl.
  rewrite (proj2 (Z.ltb_ge (len m) 2)), (proj2 (Z.ltb_ge (len m) 6)) by lia.
  by rewrite (proj2 (Z.eqb_neq _ _)).
Qed.

Lemma full_ext ps d : d ⊆ full ps →
  (∀ i, (i < length ps)%nat → d !! Z.of_nat i ≠ None) → d = full ps.
Proof.
  intros Hd Hall. apply (map_subseteq_po.(partial_order_anti_symm)); [done|].
  apply map_subseteq_spec. intros z x Hz.
  pose proof Hz as Hz'. apply lookup_map_seqZ_Some in Hz' as [Hz0 Hz'].
  rewrite Z.sub_0_r in Hz'. specialize (Hall (Z.to_nat z)).
  apply lookup_lt_Some in Hz'. specialize (Hall Hz'). rewrite Z2Nat.id in Hall by lia.
  destruct (d !! z) as [y|] eqn:E; [|done].
  eapply lookup_weaken in E; [|exact Hd]. congruence.
Qed.

(** One fragment updates the bookkeeping; the packet leaves it when complete. *)
Lemma missing_step pend k i ks ps d m :
  missing pend ((k, i) :: ks) → pend !! k = Some (ps, d) →
  let d' := <[Z.of_nat i := m]> d in
  d' ≠ full ps → missing (<[k := (ps, d')]> pend) ks.
Proof.
  intros [Hnd Hm] Hk d' Hd'. apply NoDup_cons in Hnd as [Hnin Hnd].
  split; [done|]. intros k' i'.
  assert (Hin : (k', i') ∈ ks ↔ (k', i') ∈ (k, i) :: ks ∧ (k', i') ≠ (k, i)).
  { rewrite elem_of_cons. split; [|naive_solver]. intros ?. split; [by right|]. congruence. }
  rewrite Hin, Hm. destruct (decide (k = k')) as [<-|Hne].
  - rewrite lookup_insert_eq, Hk. unfold d'.
    split.
    + intros [(? & ? & [= <- <-] & Hi' & Hn) Hne']. do 2 eexists. split; [done|].
      split; [done|]. rewrite lookup_insert_ne; [done|]. intros ?%(inj _). congruence.
    + intros (? & ? & [= <- <-] & Hi' & Hn). rewrite lookup_insert in Hn.
      case_decide as E; [done|]. split; [eauto|]. congruence.
  - rewrite lookup_insert_ne by done. split; [naive_solver|].
    intros ?. split; [done|]. congruence.
Qed.

Lemma missing_done pend k i ks ps d m :
  missing pend ((k, i) :: ks) → pend !! k = Some (ps, d) →
  <[Z.of_nat i := m]> d = full ps → missing (delete k pend) ks.
Proof.
  intros [Hnd Hm] Hk Hd'. apply NoDup_cons in Hnd as [Hnin Hnd].
  split; [done|]. intros k' i'.
  assert (Hin : (k', i') ∈ ks ↔ (k', i') ∈ (k, i) :: ks ∧ (k', i') ≠ (k, i)).
  { rewrite elem_of_cons. split; [|naive_solver]. intros ?. split; [by right|]. congruence. }
  rewrite Hin, Hm. destruct (decide (k = k')) as [<-|Hne].
  - rewrite lookup_delete_eq, Hk. split; [|naive_solver].
    intros [(? & ? & [= <- <-] & Hi' & Hn) Hne']. exfalso.
    assert (Hf : full ps !! Z.of_nat i' = d !! Z.of_nat i').
    { rewrite <- Hd'. rewrite lookup_insert_ne; [done|]. intros ?%(inj _). congruence. }
    rewrite lookup_full, Hn in Hf. apply lookup_ge_None in Hf. lia.
  - rewrite lookup_delete_ne by done. split; [naive_solver|].
    intros ?. split; [done|]. congruence.
Qed.

Lemma names_insert pend k ps d d' fs ks :
  pend !! k = Some (ps, d) →
  Forall2 (names pend) fs ks → Forall2 (names (<[k := (ps, d')]> pend)) fs ks.
Proof.
  intros Hk Hall. eapply Forall2_impl; [exact Hall|].
  intros f [k1 i1] (ps1 & d1 & Hk1 & Hf). simpl in *.
  destruct (decide (k = k1)) as [<-|Hne].
  - rewrite Hk in Hk1. injection Hk1 as <- <-. exists ps, d'.
    by rewrite lookup_insert_eq.
  - exists ps1, d1. by rewrite lookup_insert_ne.
Qed.

Lemma names_delete pend k ps d fs ks :
  pend !! k = Some (ps, d) → missing (delete k pend) ks →
  Forall2 (names pend) fs ks → Forall2 (names (delete k pend)) fs ks.
Proof.
  intros Hk [_ Hm] Hf. eapply Forall2_same_length_lookup_2; [by eapply Forall2_length|].
  intros j f [k1 i1] Hj Hj'. pose proof (Forall2_lookup_lr _ _ _ _ _ _ Hf Hj Hj') as Hn.
  destruct Hn as (ps1 & d1 & Hk1 & Hfr). simpl in *.
  apply list_elem_of_lookup_2 in Hj'. apply Hm in Hj' as (ps2 & d2 & Hk2 & _).
  exists ps1, d1. simpl. apply lookup_delete_Some in Hk2 as [Hne _].
  by rewrite lookup_delete_ne.
Qed.

(** What the pending packets become, in some order. *)
Definition packets_of (pend : pending) : list bytes :=
  map (λ e, concat e.2.1) (map_to_list pend).

Lemma packets_of_delete pend k ps d :
  pend !! k = Some (ps, d) →
  concat ps :: packets_of (delete k pend) ≡ₚ packets_of pend.
Proof.
  intros Hk. unfold packets_of. rewrite <- (map_to_list_delete pend k (ps, d)) by done. done.
Qed.

Lemma packets_of_insert pend k ps d d' :
  pend !! k = Some (ps, d) →
  packets_of (<[k := (ps, d')]> pend) ≡ₚ packets_of pend.
Proof.
  intros Hk. rewrite <- (packets_of_delete pend k ps d) by done.
  rewrite <- (packets_of_delete (<[k := (ps, d')]> pend) k ps d')
    by apply lookup_insert_eq.
  by rewrite delete_insert_eq.
Qed.

Lemma receive_fragments {A} rest fs ks pend (s : Socket A) :
  accepts_fragments s → Forall2 (names pend) fs.*2 ks → missing pend ks →
  buffer_ok rest (defragBuffer s) pend →
  ∃ out, receive_all fs s = (s <| defragBuffer := rest |>, out) ∧ out ≡ₚ packets_of pend.
Proof.
  intros Ha Hf. revert ks pend s Ha Hf.
  induction fs as [|[now m] fs IH]; intros ks pend s Ha Hf Hm [Hb Hr].
  - apply Forall2_nil_inv_l in Hf as ->. exists [].
    assert (pend = ∅) as ->.
    { apply map_empty. intros k. destruct (pend !! k) as [[ps d]|] eqn:E; [|done].
      destruct (Hb _ _ _ E) as (_ & Hd & Hdf & _). destruct Hdf. apply full_ext; [done|].
      intros i Hi Hn. destruct Hm as [_ Hm].
      assert ((k, i) ∈ []) as []%not_elem_of_nil by (apply Hm; eauto). }
    split; [|done]. simpl. f_equal.
    assert (defragBuffer s = rest) as <- by (apply map_eq; intros; apply Hr; apply lookup_empty).
    by destruct s.
  - apply Forall2_cons_inv_l in Hf as ([k i] & ks' & (ps & d & Hk & Hfr) & Hf & ->).
    simpl in Hk, Hfr. cbn [receive_all fst snd] in *.
    rewrite (receive_data_fragment s now k ps i m) by done.
    destruct (Hb _ _ _ Hk) as (Hn & Hd & Hdf & He & Hrest).
    assert (Hdi : d !! Z.of_nat i = None).
    { destruct Hm as [_ Hm]. destruct (proj1 (Hm k i)) as (? & ? & ? & _ & ?); [by left|].
      congruence. }
    destruct (store_fragment_step s now k ps i m d Hfr Hn Hd Hdi He) as [Hd' Hstep].
    case_decide as Hfull.
    + rewrite Hstep. clear Hstep.
      pose proof (missing_done _ _ _ _ _ _ _ Hm Hk Hfull) as Hm'.
      destruct (IH ks' (delete k pend) (s <| defragBuffer := delete k (defragBuffer s) |>))
        as (out & E & Hout); [done|by eapply names_delete|done| |].
      { split; simpl.
        - intros k' ps' d'' [Hne Hk']%lookup_delete_Some. rewrite lookup_delete_ne by done.
          by apply Hb.
        - intros k' Hk'. destruct (decide (k = k')) as [<-|Hne].
          + by rewrite lookup_delete_eq.
          + rewrite lookup_delete_ne in Hk' by done. rewrite lookup_delete_ne by done.
            by apply Hr. }
      rewrite E. eexists. split; [reflexivity|].
      by rewrite Hout, packets_of_delete.
    + destruct Hstep as (info & Hinfo & Hstep). rewrite Hstep. clear Hstep.
      pose proof (missing_step _ _ _ _ _ _ _ Hm Hk Hfull) as Hm'.
      set (d' := <[Z.of_nat i := drop 5 m]> d) in *.
      destruct (IH ks' (<[k := (ps, d')]> pend)
          (s <| defragBuffer := <[k := info]> (defragBuffer s) |>))
        as (out & E & Hout); [done|by eapply names_insert|done| |].
      { split; simpl.
        - intros k' ps' d'' Hk'. destruct (decide (k = k')) as [<-|Hne].
          + rewrite lookup_insert_eq in Hk'. injection Hk' as <- <-.
            rewrite lookup_insert_eq. auto.
          + rewrite lookup_insert_ne in Hk' by done. rewrite lookup_insert_ne by done.
            by apply Hb.
        - intros k' Hk'. apply lookup_insert_None in Hk' as [Hk' Hne].
          rewrite lookup_insert_ne by done. by apply Hr. }
      rewrite E. eexists. split; [reflexivity|].
      rewrite Hout. by apply packets_of_insert with d.
Qed.

(** ** From the packets sent to the fragments received *)

Definition pieces (maxLen : Z) (packet : bytes) : list bytes :=
  let p := Z.to_nat (maxLen - 5) in
  map (chunk p packet) (seq 0 (chunk_count p packet)).

Lemma length_pieces maxLen packet :
  length (pieces maxLen packet) = chunk_count (Z.to_nat (maxLen - 5)) packet.
Proof. unfold pieces. by rewrite length_map, length_seq. Qed.

Lemma pieces_count maxLen packet :
  sendable maxLen packet → maxLen < len packet + 1 →
  (2 <= length (pieces maxLen packet) <= 128)%nat.
Proof.
  intros (_ & _ & H3) Hl. destruct (H3 Hl) as (H5 & Hc & _).
  rewrite length_pieces. split; [|done].
  pose proof (chunk_count_bounds (Z.to_nat (maxLen - 5)) packet ltac:(lia)).
  unfold len in Hl. nia.
Qed.

Lemma concat_pieces maxLen packet :
  sendable maxLen packet → maxLen < len packet + 1 →
  concat (pieces maxLen packet) = packet.
Proof.
  intros (_ & _ & H3) Hl. destruct (H3 Hl) as (H5 & _). apply concat_all_chunks. lia.
Qed.

(** The receiver reads back what [fragment] wrote. *)
Lemma fragment_is_fragment id maxLen packet i :
  sendable maxLen packet → maxLen < len packet + 1 →
  (i < length (pieces maxLen packet))%nat →
  is_fragment (header_id id) (pieces maxLen packet) i
    (fragment id (Z.to_nat (maxLen - 5)) packet i).
Proof.
  intros Hs Hl Hi. pose proof (pieces_count _ _ Hs Hl) as Hn.
  rewrite length_pieces in Hi. set (p := Z.to_nat (maxLen - 5)) in *.
  assert (Hp : (0 < p)%nat).
  { destruct Hs as (_ & _ & H3). destruct (H3 Hl) as (H5 & _). lia. }
  pose proof (chunk_count_bounds p packet Hp) as Hb.
  pose proof (header_bits i) as Hbits. rewrite length_pieces in Hn. fold p in Hn.
  specialize (Hbits ltac:(lia)) as (B1 & B2 & B3 & B4 & _).
  unfold is_fragment, fragment, fragment_header. rewrite length_pieces. fold p.
  split_and!.
  - rewrite len_cons, len_app. change (len (packetID_bytes id)) with 4.
    enough (1 <= length (chunk p packet i))%nat by (unfold len; lia).
    assert (i * p < length packet)%nat by nia.
    unfold chunk. rewrite length_take, length_drop. apply Nat.min_glb; lia.
  - unfold byte_at. cbn [lookup list_lookup from_option Datatypes.id].
    destruct (Nat.eqb_spec (S i) (chunk_count p packet)); lia.
  - apply packet_id_of_fragment.
  - unfold byte_at. cbn [lookup list_lookup from_option Datatypes.id].
    by destruct (Nat.eqb_spec (S i) (chunk_count p packet)).
  - unfold byte_at. cbn [lookup list_lookup from_option Datatypes.id].
    by destruct (Nat.eqb_spec (S i) (chunk_count p packet)).
  - unfold pieces. fold p. rewrite list_lookup_fmap, lookup_seq_lt by done. done.
Qed.

(** A message that needs no reassembly, by the test of the handler. *)
Definition unfragmented (m : bytes) : bool := byte_at m 0 =? 128.

Lemma store_fragment_accepts {A} (s s' : Socket A) now m v :
  store_fragment now m s = (s', v) → accepts_fragments s → accepts_fragments s'.
Proof.
  unfold store_fragment, accepts_fragments. intros E Ha.
  case_match; injection E as <- <-; done.
Qed.

(** Unfragmented messages pass between the fragments without disturbing them. *)
Lemma receive_all_split {A} (fs : list (Z * bytes)) (s s' : Socket A) out :
  accepts_fragments s →
  Forall (λ f, unfragmented f.2 = true → 2 <= len f.2) fs →
  receive_all (filter (λ f, unfragmented f.2 = false) fs) s = (s', out) →
  ∃ out', receive_all fs s = (s', out')
    ∧ out' ≡ₚ out ++ map (drop 1) (filter (λ m, unfragmented m = true) fs.*2).
Proof.
  revert s s' out. induction fs as [|[now m] fs IH]; intros s s' out Ha Hall E.
  { injection E as <- <-. by exists []. }
  apply Forall_cons in Hall as [Hm Hall]. simpl in Hm.
  rewrite fmap_cons, !filter_cons in *. simpl in E |- *.
  destruct (unfragmented m) eqn:Em.
  - rewrite decide_False in E by done. rewrite decide_True by done.
    destruct (IH _ _ _ Ha Hall E) as (out' & E' & Hp).
    assert (receive_data now m s = (s, Deliver (drop 1 m))) as ->.
    { unfold receive_data. destruct Ha as [-> ->]. simpl.
      rewrite (proj2 (Z.ltb_ge _ _)) by auto. unfold unfragmented in Em. by rewrite Em. }
    rewrite E'. eexists. split; [reflexivity|]. rewrite Hp. simpl.
    apply Permutation_middle.
  - rewrite decide_True in E by done. rewrite decide_False by done.
    cbn [receive_all] in E.
    destruct (receive_data now m s) as [s1 v] eqn:Er.
    destruct (receive_all _ s1) as [s2 out2] eqn:E2. injection E as <- <-.
    assert (Ha1 : accepts_fragments s1).
    { unfold receive_data in Er. repeat case_match; simplify_eq; try done.
      by eapply store_fragment_accepts. }
    destruct (IH _ _ _ Ha1 Hall E2) as (out' & E' & Hp). rewrite E'.
    eexists. split; [reflexivity|]. destruct v; rewrite Hp; done.
Qed.

(** A packet as it was sent: under an identifier and a limit. *)
Abbreviation transmission := (Z * Z * bytes)%type.

Definition messages_of (sent : list transmission) : list bytes :=
  concat (map (λ '(id, maxLen, packet), wire_messages id maxLen packet) sent).

Definition in_pieces (t : transmission) : bool :=
  let '(_, maxLen, packet) := t in negb (len packet + 1 <=? maxLen).

Definition header_of (t : transmission) : Z := header_id t.1.1.
Definition packet_of (t : transmission) : bytes := t.2.
Definition can_send (t : transmission) : Prop := sendable t.1.2 t.2.
Definition pieces_of (t : transmission) : list bytes := pieces t.1.2 t.2.
Definition fragments_of (t : transmission) : list bytes := wire_messages t.1.1 t.1.2 t.2.

Definition pending_of (sent : list transmission) : pending :=
  list_to_map (map (λ t, (header_of t, (pieces_of t, ∅))) sent).

Definition names_of (sent : list transmission) : list (Z * nat) :=
  concat (map (λ t, map (pair (header_of t)) (seq 0 (length (pieces_of t)))) sent).

(** What can be sent and told apart: the limits of [sendable], and different
    identifiers in the headers of packets that travel in pieces. *)
Definition transmissible (sent : list transmission) : Prop :=
  Forall can_send sent
  ∧ NoDup (map header_of (filter in_pieces sent)).

Lemma fragments_of_pieces t :
  can_send t → in_pieces t = true →
  Forall2 (λ m k, k.1 = header_of t ∧ is_fragment k.1 (pieces_of t) k.2 m)
    (fragments_of t) (map (pair (header_of t)) (seq 0 (length (pieces_of t)))).
Proof.
  destruct t as [[id maxLen] packet]. simpl. intros Hs Hl%negb_true_iff.
  unfold fragments_of, wire_messages, pieces_of, header_of. simpl. rewrite Hl.
  apply Z.leb_gt in Hl. rewrite length_pieces.
  apply Forall2_fmap_2, Forall_Forall2_diag, Forall_forall. intros i Hi. simpl.
  split; [done|]. apply fragment_is_fragment; [done|lia|].
  rewrite length_pieces. apply elem_of_seq in Hi. lia.
Qed.

Lemma fragments_of_flags t :
  can_send t →
  Forall (λ m, unfragmented m = negb (in_pieces t) ∧ 2 <= len m) (fragments_of t).
Proof.
  destruct (in_pieces t) eqn:E; intros Hs.
  - pose proof (fragments_of_pieces t Hs E) as Hf. apply Forall_forall.
    intros m (j & Hj)%list_elem_of_lookup_1.
    pose proof (Forall2_lookup_l _ _ _ _ _ Hf Hj) as (k & _ & _ & H6 & Hne & _).
    split; [by apply Z.eqb_neq|lia].
  - destruct t as [[id maxLen] packet]. simpl in *. apply negb_false_iff in E.
    unfold fragments_of, wire_messages. simpl. rewrite E.
    repeat constructor. destruct Hs as (Hs & _). simpl in Hs. rewrite len_cons. lia.
Qed.

Lemma filter_messages_fragments sent :
  Forall can_send sent →
  filter (λ m, unfragmented m = false) (messages_of sent)
  = concat (map fragments_of (filter in_pieces sent)).
Proof.
  induction 1 as [|[[id maxLen] packet] sent Hs Hall IH]; [done|].
  unfold messages_of. simpl. rewrite filter_app. fold (messages_of sent). rewrite IH.
  rewrite filter_cons. pose proof (fragments_of_flags (id, maxLen, packet) Hs) as Hfl.
  destruct (decide (in_pieces (id, maxLen, packet))) as [E|E%Is_true_false].
  - apply Is_true_true in E. rewrite E in Hfl. simpl. f_equal. apply filter_all.
    eapply Forall_impl; [exact Hfl|]. by intros m [-> _].
  - rewrite E in Hfl. change (wire_messages id maxLen packet) with
      (fragments_of (id, maxLen, packet)). rewrite filter_none; [done|].
    eapply Forall_impl; [exact Hfl|]. by intros m [-> _].
Qed.

Lemma filter_messages_whole sent :
  Forall can_send sent →
  map (drop 1) (filter (λ m, unfragmented m = true) (messages_of sent))
  = map packet_of (filter (λ t, in_pieces t = false) sent).
Proof.
  induction 1 as [|[[id maxLen] packet] sent Hs Hall IH]; [done|].
  unfold messages_of. simpl. rewrite filter_app, map_app. fold (messages_of sent). rewrite IH.
  rewrite filter_cons. pose proof (fragments_of_flags (id, maxLen, packet) Hs) as Hfl.
  change (wire_messages id maxLen packet) with (fragments_of (id, maxLen, packet)).
  destruct (in_pieces (id, maxLen, packet)) eqn:E.
  - rewrite decide_False by done. rewrite filter_none; [done|].
    eapply Forall_impl; [exact Hfl|]. by intros m [-> _].
  - rewrite decide_True by done. rewrite filter_all.
    + simpl. apply negb_false_iff in E. unfold fragments_of, wire_messages. simpl. by rewrite E.
    + eapply Forall_impl; [exact Hfl|]. by intros m [-> _].
Qed.

Lemma names_of_elem sent k i :
  (k, i) ∈ names_of sent ↔
  ∃ t, t ∈ sent ∧ k = header_of t ∧ (i < length (pieces_of t))%nat.
Proof.
  unfold names_of. rewrite elem_of_concat. split.
  - intros (l & Hl & (t & -> & Ht)%list_elem_of_fmap).
    apply list_elem_of_fmap in Hl as (j & [= -> ->] & Hj%elem_of_seq).
    exists t. split_and!; [done|done|lia].
  - intros (t & Ht & -> & Hi). eexists. split; [|apply list_elem_of_fmap; by exists t].
    apply list_elem_of_fmap. exists i. split; [done|]. apply elem_of_seq. lia.
Qed.

Lemma names_of_NoDup sent : NoDup (map header_of sent) → NoDup (names_of sent).
Proof.
  induction sent as [|t sent IH]; simpl; intros Hnd; [constructor|].
  apply NoDup_cons in Hnd as [Hnin Hnd]. unfold names_of. simpl. apply NoDup_app. split_and!.
  - apply NoDup_fmap; [|apply NoDup_seq]. by intros ? ? [= ?].
  - intros [k i] (j & [= -> ->] & _)%list_elem_of_fmap Hin.
    apply (names_of_elem sent) in Hin as (t' & Ht' & E & _).
    apply Hnin, list_elem_of_fmap. by exists t'.
  - by apply IH.
Qed.

Lemma pending_of_lookup sent t :
  NoDup (map header_of sent) → t ∈ sent →
  pending_of sent !! header_of t = Some (pieces_of t, ∅).
Proof.
  intros Hnd Ht. apply elem_of_list_to_map_1.
  - by rewrite <- list_fmap_compose.
  - apply list_elem_of_fmap. by exists t.
Qed.

Lemma pending_of_inv sent k ps d :
  pending_of sent !! k = Some (ps, d) →
  ∃ t, t ∈ sent ∧ k = header_of t ∧ ps = pieces_of t ∧ d = ∅.
Proof.
  intros Hk%elem_of_list_to_map_2.
  apply list_elem_of_fmap in Hk as (t & [= -> -> ->] & Ht). by exists t.
Qed.

Lemma missing_all sent :
  NoDup (map header_of sent) → missing (pending_of sent) (names_of sent).
Proof.
  intros Hnd. split; [by apply names_of_NoDup|]. intros k i. rewrite names_of_elem. split.
  - intros (t & Ht & -> & Hi). exists (pieces_of t), ∅.
    rewrite pending_of_lookup by done. split_and!; [done|done|]. apply lookup_empty.
  - intros (ps & d & Hk & Hi & _). apply pending_of_inv in Hk as (t & Ht & -> & -> & _).
    by exists t.
Qed.

Lemma names_all sent :
  Forall can_send sent →
  Forall (λ t, in_pieces t = true) sent → NoDup (map header_of sent) →
  Forall2 (names (pending_of sent))
    (concat (map fragments_of sent)) (names_of sent).
Proof.
  intros Hs Hp Hnd.
  assert (Hg : ∀ l, (∀ t, t ∈ l → t ∈ sent) →
    Forall2 (names (pending_of sent)) (concat (map fragments_of l)) (names_of l)).
  { intros l. induction l as [|t l IH]; intros Hin; [constructor|].
    unfold names_of. simpl. apply Forall2_app; [|apply IH; set_solver].
    rewrite Forall_forall in Hs, Hp. pose proof (Hin t ltac:(set_solver)) as Ht.
    eapply Forall2_impl; [apply fragments_of_pieces; by auto|].
    intros m [k i] [E Hf]. simpl in *. subst k. exists (pieces_of t), ∅.
    split; [by apply pending_of_lookup|done]. }
  by apply Hg.
Qed.

Lemma missing_perm pend ks ks' : ks ≡ₚ ks' → missing pend ks → missing pend ks'.
Proof.
  intros Hp [Hnd Hm]. split; [by rewrite <- Hp|]. intros k i. by rewrite <- Hp.
Qed.

Lemma packets_of_pending sent :
  Forall can_send sent →
  Forall (λ t, in_pieces t = true) sent → NoDup (map header_of sent) →
  packets_of (pending_of sent) ≡ₚ map packet_of sent.
Proof.
  intros Hs Hp Hnd. unfold packets_of, pending_of.
  rewrite map_to_list_to_map by (by rewrite <- list_fmap_compose).
  rewrite map_map. simpl.
  apply reflexive_eq, map_ext_in. intros t Ht%list_elem_of_In.
  rewrite Forall_forall in Hs, Hp. specialize (Hs t Ht). specialize (Hp t Ht).
  destruct t as [[id maxLen] packet]. unfold pieces_of, packet_of. simpl in *.
  apply negb_true_iff, Z.leb_gt in Hp. apply concat_pieces; [done|lia].
Qed.

Lemma messages_long sent :
  Forall can_send sent →
  Forall (λ m, 2 <= len m ∨ unfragmented m = false) (messages_of sent).
Proof.
  intros Hs. unfold messages_of. apply Forall_concat, Forall_fmap.
  eapply Forall_impl; [exact Hs|]. intros [[id maxLen] packet] Ht. simpl.
  eapply Forall_impl; [apply (fragments_of_flags (id, maxLen, packet) Ht)|]. naive_solver.
Qed.

(** Reassembly: the messages of any packets, delivered in any order and mixed
    with each other, give the packets back and leave the buffer as it was. *)
Lemma reassembly {A} (r : Socket A) (sent : list transmission) (arrivals : list (Z * bytes)) :
  accepts_fragments r → transmissible sent →
  Forall (λ t, defragBuffer r !! header_of t = None) (filter in_pieces sent) →
  arrivals.*2 ≡ₚ messages_of sent →
  ∃ out, receive_all arrivals r = (r, out) ∧ out ≡ₚ map packet_of sent.
Proof.
  intros Ha [Hs Hnd] Hfree Hperm.
  set (long := filter in_pieces sent) in *.
  assert (Hsl : Forall can_send long).
  { rewrite Forall_forall in *. intros t [_ Ht]%list_elem_of_filter. by apply Hs. }
  assert (Hlong : Forall (λ t, in_pieces t = true) long).
  { apply Forall_forall. intros t [Ht _]%list_elem_of_filter. by apply Is_true_true. }
  pose proof (names_all long Hsl Hlong Hnd) as Hnames.
  pose proof (missing_all long Hnd) as Hmiss.
  assert (Hfp : (filter (λ f : Z * bytes, unfragmented f.2 = false) arrivals).*2
    ≡ₚ concat (map fragments_of long)).
  { unfold long. rewrite <- filter_messages_fragments by done. rewrite <- Hperm.
    apply reflexive_eq. clear. induction arrivals as [|[t m] l IH]; [done|].
    rewrite fmap_cons, !filter_cons. simpl. case_decide; rewrite ?fmap_cons; by rewrite IH. }
  symmetry in Hfp. destruct (Permutation_Forall2 Hfp Hnames) as (ks & Hks & Hf).
  destruct (receive_fragments (defragBuffer r)
    (filter (λ f : Z * bytes, unfragmented f.2 = false) arrivals) ks (pending_of long) r)
    as (out & E & Hout).
  - done.
  - done.
  - by apply (missing_perm _ (names_of long)).
  - split; [|done]. intros k ps d Hk.
    apply pending_of_inv in Hk as (t & Ht & -> & -> & ->).
    rewrite Forall_forall in Hfree, Hsl, Hlong. specialize (Hsl t Ht). specialize (Hlong t Ht).
    specialize (Hfree t Ht). destruct t as [[id maxLen] packet]. simpl in *.
    apply negb_true_iff, Z.leb_gt in Hlong.
    pose proof (pieces_count maxLen packet Hsl ltac:(lia)) as Hn.
    unfold pieces_of. simpl. split_and!; try done; try lia.
    + apply map_empty_subseteq.
    + intros Hemp. pose proof (full_last (pieces maxLen packet) ltac:(lia)) as [x Hx].
      by rewrite <- Hemp, lookup_empty in Hx.
  - assert (Hl : Forall (λ f : Z * bytes, unfragmented f.2 = true → 2 <= len f.2) arrivals).
    { pose proof (messages_long sent Hs) as Hl. rewrite <- Hperm in Hl.
      apply Forall_fmap in Hl. eapply Forall_impl; [exact Hl|].
      intros f [?|?]; simpl in *; congruence. }
    destruct (receive_all_split arrivals r _ out Ha Hl E) as (out' & E' & Hp).
    exists out'. split; [rewrite E'; f_equal; by destruct r|].
    rewrite Hp, Hout, Hperm, filter_messages_whole, packets_of_pending by done.
    rewrite <- map_app. apply Permutation_map. unfold long.
    rewrite <- (filter_app_complement in_pieces sent) at 3. f_equiv.
    apply reflexive_eq, list_filter_iff. intros t. by rewrite Is_true_false.
Qed.

(** ** Identifiers *)

Lemma header_id_low id : header_id id mod 256 = id mod 255.
Proof.
  unfold header_id. pose proof (Z.mod_pos_bound id 255 eq_refl).
  rewrite Z.add_mod by lia.
  replace (id / 16777216 mod 255 * 16777216 + id / 65536 mod 255 * 65536
    + id / 256 mod 255 * 256) with
    ((id / 16777216 mod 255 * 65536 + id / 65536 mod 255 * 256 + id / 256 mod 255) * 256) by lia.
  rewrite Z_mod_mult, Z.add_0_l, Z.mod_mod by lia. apply Z.mod_small. lia.
Qed.

Lemma header_id_window a b : a < b < a + 255 → header_id a ≠ header_id b.
Proof.
  intros Hab E. pose proof (header_id_low a) as Ha. pose proof (header_id_low b) as Hb.
  rewrite E, Hb in Ha.
  pose proof (Z.div_mod a 255 ltac:(lia)). pose proof (Z.div_mod b 255 ltac:(lia)). nia.
Qed.

(** The transmissions of packets sent one after the other at a fixed limit. *)
Fixpoint numbered (last maxLen : Z) (packets : list bytes) : list transmission :=
  match packets with
  | [] => []
  | packet :: packets =>
      (u32 (last + 1), maxLen, packet)
        :: numbered (if len packet + 1 <=? maxLen then last else u32 (last + 1)) maxLen packets
  end.

Lemma packets_numbered last maxLen packets :
  map packet_of (numbered last maxLen packets) = packets.
Proof. revert last. induction packets; intros; simpl; congruence. Qed.

Lemma numbered_ids last maxLen packets t :
  0 <= last → last + len packets < 4294967296 →
  t ∈ filter in_pieces (numbered last maxLen packets) →
  last < t.1.1 <= last + len packets.
Proof.
  revert last. induction packets as [|packet packets IH]; intros last H0 Hn Ht.
  { by apply not_elem_of_nil in Ht. }
  cbn [numbered] in Ht. rewrite len_cons in *. pose proof (len_nonneg packets).
  rewrite u32_small in Ht by lia.
  apply list_elem_of_filter in Ht as [Hp Ht]. apply elem_of_cons in Ht as [->|Ht]; simpl.
  - lia.
  - specialize (IH (if len packet + 1 <=? maxLen then last else last + 1)).
    assert (Hin : t ∈ filter in_pieces (numbered
      (if len packet + 1 <=? maxLen then last else last + 1) maxLen packets))
      by (by apply list_elem_of_filter).
    case_match; specialize (IH ltac:(lia) ltac:(lia) Hin); lia.
Qed.

Lemma numbered_NoDup last maxLen packets :
  0 <= last → last + len packets < 4294967296 → len packets < 256 →
  NoDup (map header_of (filter in_pieces (numbered last maxLen packets))).
Proof.
  revert last. induction packets as [|packet packets IH]; intros last H0 Hn Hlt;
    [constructor|].
  cbn [numbered]. rewrite len_cons in *. pose proof (len_nonneg packets).
  rewrite u32_small by lia. rewrite filter_cons. simpl.
  destruct (len packet + 1 <=? maxLen) eqn:E; simpl.
  - apply IH; lia.
  - constructor; [|apply IH; lia].
    intros (t & Eh & Ht)%list_elem_of_fmap.
    apply numbered_ids in Ht; [|lia..]. revert Eh. unfold header_of at 1. simpl.
    apply header_id_window. lia.
Qed.

Section EndToEnd.
Context {A : Type} `{SocketAdapterSpec A}.
Implicit Types s : Socket A.

(** A run of successful sends; the first error ends it. *)
Fixpoint send_all (packets : list bytes) s : outcome (Socket A * option error) :=
  match packets with
  | [] => Ret (s, None)
  | packet :: packets =>
      '(s, err) ← writePacketFragmented packet (MaxDataPayloadLen (adapter s)) s;
      match err with
      | None => send_all packets s
      | Some e => Ret (s, Some e)
      end
  end.

Lemma write_fragments_limit id dataLen p count packet n i s s' :
  write_fragments id dataLen p count packet n i s = Ret (s', None) →
  MaxDataPayloadLen (adapter s') = MaxDataPayloadLen (adapter s).
Proof.
  revert i s. induction n as [|n IH]; intros i s; cbn [write_fragments].
  { by intros [= ->]. }
  intros E. inv_bind. destruct (WriteDataMessage _ _) as [ad [e|]] eqn:Ew; [done|].
  apply IH in E. rewrite E. simpl. by apply data_ok in Ew as (_ & -> & _).
Qed.

Lemma writePacketFragmented_limit packet maxLen s s' :
  writePacketFragmented packet maxLen s = Ret (s', None) →
  MaxDataPayloadLen (adapter s') = MaxDataPayloadLen (adapter s).
Proof.
  unfold writePacketFragmented. case_match.
  - destruct (WriteDataMessage _ _) as [ad e] eqn:Ew. intros [= <- ->].
    simpl. by apply data_ok in Ew as (_ & -> & _).
  - cbv zeta. case_match; [done|]. intros E. by apply write_fragments_limit in E.
Qed.

Lemma send_all_messages packets s :
  Forall (sendable (MaxDataPayloadLen (adapter s))) packets →
  ∃ s' err, send_all packets s = Ret (s', err) ∧
    (err = None → sent_data (adapter s') = sent_data (adapter s) ++
       messages_of (numbered (lastFragmentID s) (MaxDataPayloadLen (adapter s)) packets)).
Proof.
  revert s. induction packets as [|packet packets IH]; intros s Hs; cbn [send_all].
  { exists s, None. split; [done|]. intros _. by rewrite app_nil_r. }
  apply Forall_cons in Hs as [Hp Hs].
  destruct (writePacketFragmented_sends packet _ s Hp) as (ad & id & err & k & E & Hid & Ed & Hk & _).
  rewrite E. simpl. destruct err as [e|].
  { exists (s <| adapter := ad |> <| lastFragmentID := id |>), (Some e). done. }
  apply writePacketFragmented_limit in E. simpl in E.
  destruct (IH (s <| adapter := ad |> <| lastFragmentID := id |>)) as (s' & err & E' & Hm).
  { simpl. by rewrite E. }
  exists s', err. split; [done|]. intros Herr. rewrite (Hm Herr). simpl.
  rewrite Ed, E, Hk, firstn_all, <- app_assoc by done. f_equal. unfold messages_of. simpl.
  by rewrite Hid.
Qed.

Lemma numbered_can_send last maxLen packets :
  Forall (sendable maxLen) packets → Forall can_send (numbered last maxLen packets).
Proof. intros Hs. revert last. induction Hs; intros; simpl; constructor; auto. Qed.

End EndToEnd.

(** ** Retrying under a smaller limit *)

Section Retry.
Context {A : Type} `{SocketAdapterSpec A}.
Implicit Types s : Socket A.

(** The transport never lowers its limit below [low]. *)
Definition limit_at_least (low : Z) : Prop :=
  ∀ m (a : A), low <= MaxDataPayloadLen a → low <= MaxDataPayloadLen (WriteDataMessage m a).1.

Lemma write_fragments_low low id dataLen p count packet n i s s' err :
  limit_at_least low → low <= MaxDataPayloadLen (adapter s) →
  write_fragments id dataLen p count packet n i s = Ret (s', err) →
  low <= MaxDataPayloadLen (adapter s').
Proof.
  intros Hlow. revert i s. induction n as [|n IH]; intros i s Hs; cbn [write_fragments].
  { by intros [= <- _]. }
  intros E. inv_bind. destruct (WriteDataMessage _ _) as [ad e] eqn:Ew.
  apply (f_equal fst) in Ew. simpl in Ew.
  assert (low <= MaxDataPayloadLen ad) by (subst ad; by apply Hlow).
  destruct e; [by injection E as <- _|]. by eapply IH; [|exact E].
Qed.

Lemma writePacketFragmented_low low packet maxLen s s' err :
  limit_at_least low → low <= MaxDataPayloadLen (adapter s) →
  writePacketFragmented packet maxLen s = Ret (s', err) →
  low <= MaxDataPayloadLen (adapter s').
Proof.
  intros Hlow Hs. unfold writePacketFragmented. case_match.
  - destruct (WriteDataMessage _ _) as [ad e] eqn:Ew. intros [= <- ->].
    apply (f_equal fst) in Ew. simpl in *. subst ad. by apply Hlow.
  - cbv zeta. case_match; [done|]. intros E. by eapply write_fragments_low; [..|exact E].
Qed.

Lemma write_retry_sends low fuel packet s :
  limit_at_least low → low <= MaxDataPayloadLen (adapter s) < Z.of_nat fuel →
  (∀ maxLen, low <= maxLen <= MaxDataPayloadLen (adapter s) → sendable maxLen packet) →
  ∃ s' err, write_retry fuel packet s = Ret (s', err)
    ∧ err ≠ Some ErrDataPayloadLimitReduced
    ∧ (err = None → ∃ before id maxLen,
         sent_data (adapter s')
         = sent_data (adapter s) ++ before ++ wire_messages id maxLen packet
         ∧ low <= maxLen <= MaxDataPayloadLen (adapter s)).
Proof.
  intros Hlow. revert s. induction fuel as [|fuel IH]; intros s Hf Hs.
  { pose proof (max_range (adapter s)). lia. }
  cbn [write_retry].
  destruct (writePacketFragmented_sends packet (MaxDataPayloadLen (adapter s)) s)
    as (ad & id & err & k & E & _ & Ed & Hk & Hr); [apply Hs; lia|].
  rewrite E. simpl. case_bool_decide as Herr.
  - apply (writePacketFragmented_low low) in E as Hl; [|done|lia].
    specialize (Hr Herr). simpl in Hl.
    destruct (IH (s <| adapter := ad |> <| lastFragmentID := id |>))
      as (s' & err' & E' & Hne & Hm); simpl; [lia|intros; apply Hs; lia|].
    exists s', err'. split_and!; [done|done|]. intros Hn.
    destruct (Hm Hn) as (before & id' & maxLen' & Hb & Hlen). simpl in Hb, Hlen.
    rewrite Hb, Ed. eexists (take k _ ++ before), id', maxLen'.
    split; [by rewrite <- !app_assoc|lia].
  - exists (s <| adapter := ad |> <| lastFragmentID := id |>), err. simpl.
    split_and!; [done|done|]. intros Hn.
    exists [], (u32 (lastFragmentID s + 1)), (MaxDataPayloadLen (adapter s)). split; [|lia].
    simpl. rewrite Ed, Hk, firstn_all by done. done.
Qed.

End Retry.

(** ** What any message does to the buffer *)

(** A packet in reassembly as the handler can leave it: indices of 7 bits, and
    never the state in which it would have been passed on. *)
Definition info_ok (info : fragmentsInfo) : Prop :=
  (∀ i, is_Some (data info !! i) → 0 <= i < 128)
  ∧ (lastIndex info = -1000 ∨ 0 <= lastIndex info < 128)
  ∧ Z.of_nat (size (data info)) ≠ lastIndex info + 1.

Definition buffer_wf {A} (s : Socket A) : Prop := map_Forall (λ _, info_ok) (defragBuffer s).

Lemma land_127_range x : 0 <= Z.land x 127 < 128.
Proof.
  change 127 with (Z.ones 7). rewrite Z.land_ones by lia. apply Z.mod_pos_bound. lia.
Qed.

Lemma store_fragment_wf {A} (s s' : Socket A) now m v :
  buffer_wf s → store_fragment now m s = (s', v) → buffer_wf s'.
Proof.
  intros Hwf. unfold store_fragment. cbv zeta.
  set (old := default _ (defragBuffer s !! packet_id_of m)).
  assert (Hold : (∀ i, is_Some (data old !! i) → 0 <= i < 128)
    ∧ (lastIndex old = -1000 ∨ 0 <= lastIndex old < 128)).
  { unfold old. destruct (defragBuffer s !! packet_id_of m) as [info|] eqn:E.
    - by destruct (Hwf _ _ E) as (? & ? & _).
    - simpl. split; [|by left]. intros i. rewrite lookup_empty. by intros []. }
  clearbody old. destruct Hold as [Hd Hl]. pose proof (land_127_range (byte_at m 0)) as Hr.
  set (i := Z.land (byte_at m 0) 127) in *. set (flag := Z.land _ 128 =? 128). clearbody flag i.
  set (new := if flag then _ else _).
  assert (Hnew : (∀ j, is_Some (data new !! j) → 0 <= j < 128)
    ∧ (lastIndex new = -1000 ∨ 0 <= lastIndex new < 128)).
  { unfold new. destruct flag; simpl; (split; [|auto; lia]); intros j;
      rewrite lookup_insert; case_decide; subst; auto. }
  case_match eqn:E; intros [= <- <-]; unfold buffer_wf; simpl.
  - by apply map_Forall_delete.
  - apply map_Forall_insert_2; [|done]. apply Z.eqb_neq in E.
    destruct Hnew. by split_and!.
Qed.

Lemma info_ok_size (d : gmap Z bytes) :
  (∀ i, is_Some (d !! i) → 0 <= i < 128) → (size d <= 128)%nat.
Proof.
  intros Hd. rewrite <- size_dom.
  assert (dom d ⊆ (set_map Z.of_nat (set_seq 0 128 : gset nat) : gset Z)).
  { intros i Hi%elem_of_dom. apply elem_of_map. exists (Z.to_nat i).
    specialize (Hd i Hi). split; [lia|]. apply elem_of_set_seq. lia. }
  etransitivity; [by apply subseteq_size|]. apply Nat.leb_le. vm_compute. reflexivity.
Qed.

(** ** Deleting the keys of a list *)

Lemma foldl_delete_lookup {V} (m : gmap Z V) (l : list Z) k :
  foldl (λ m idx, delete idx m) m l !! k = if decide (k ∈ l) then None else m !! k.
Proof.
  revert m. induction l as [|x l IH]; intros m; cbn [foldl].
  { rewrite decide_False; [done|]. apply not_elem_of_nil. }
  rewrite IH, lookup_delete. repeat case_decide; set_solver.
Qed.

Lemma expired_elem (m : gmap Z fragmentsInfo) now k :
  k ∈ foldr (λ '(idx, info) l, if fragmentExpiryTime <? now - time info then idx :: l else l)
        [] (map_to_list m)
  ↔ ∃ info, m !! k = Some info ∧ fragmentExpiryTime < now - time info.
Proof.
  assert (Hg : ∀ l : list (Z * fragmentsInfo),
    k ∈ foldr (λ '(idx, info) l, if fragmentExpiryTime <? now - time info then idx :: l else l) [] l
    ↔ ∃ info, (k, info) ∈ l ∧ fragmentExpiryTime < now - time info).
  { intros l. induction l as [|[idx info] l IH]; simpl; [set_solver|].
    destruct (Z.ltb_spec fragmentExpiryTime (now - time info)).
    - rewrite elem_of_cons, IH. setoid_rewrite elem_of_cons. naive_solver.
    - rewrite IH. setoid_rewrite elem_of_cons. split; [naive_solver|].
      intros (i & [[= -> ->]|?] & ?); [lia|eauto]. }
  rewrite Hg. setoid_rewrite elem_of_map_to_list. done.
Qed.

(** ** The properties *)


(** C1. A run of successful sends of up to 255 packets, each within the
    limits of [sendable], puts messages on the transport that give exactly
    these packets back to a receiver whatever the order in which the messages
    arrive, with nothing left in its reassembly buffer; no send panics. *)
Theorem packets_travel_intact {A} `{SocketAdapterSpec A} (s : Socket A) (packets : list bytes)
    {B} (r : Socket B) :
  Forall (sendable (MaxDataPayloadLen (adapter s))) packets →
  0 <= lastFragmentID s → lastFragmentID s + len packets < 4294967296 → len packets < 256 →
  accepts_fragments r →
  (∀ id, lastFragmentID s < id <= lastFragmentID s + len packets →
     defragBuffer r !! header_id id = None) →
  ∃ s' err, send_all packets s = Ret (s', err) ∧
    (err = None →
     ∃ msgs, sent_data (adapter s') = sent_data (adapter s) ++ msgs ∧
     ∀ arrivals, arrivals.*2 ≡ₚ msgs →
       ∃ out, receive_all arrivals r = (r, out) ∧ out ≡ₚ packets).
Proof.
  intros Hs Hpos Hn Hlt Ha Hfree.
  destruct (send_all_messages packets s Hs) as (s' & err & E & Hm).
  exists s', err. split; [done|]. intros Herr. eexists. split; [by apply Hm|].
  intros arrivals Harr.
  rewrite <- (packets_numbered (lastFragmentID s) (MaxDataPayloadLen (adapter s)) packets).
  apply reassembly; [done| | |done].
  - split; [by apply numbered_can_send|by apply numbered_NoDup].
  - apply Forall_forall. intros t Ht. apply Hfree. by apply numbered_ids in Ht.
Qed.

(** Three packets, over a transport of 8 bytes: 3, 1 and 3 messages. *)
Definition sample_packets : list bytes := [[1;2;3;4;5;6;7]; [9;9]; [8;7;6;5;4;3;2;1]].
Definition sample_sender : Socket recorder :=
  MakeSocket (mkRecorder [] [] 0 8 false true) None true false.
Definition sample_receiver : Socket recorder :=
  (MakeSocket (mkRecorder [] [] 0 8 true true) None true false)
    <| fragmentationEnabled := true |> <| isReady := true |> <| remoteProtocolVersion := 12 |>.

Lemma packets_travel_intact_witness :
  Forall (sendable 8) sample_packets ∧
  ∃ s' err, send_all sample_packets sample_sender = Ret (s', err) ∧
    (err = None →
     ∃ msgs, sent_data (adapter s') = sent_data (adapter sample_sender) ++ msgs ∧
     ∀ arrivals, arrivals.*2 ≡ₚ msgs →
       ∃ out, receive_all arrivals sample_receiver = (sample_receiver, out)
         ∧ out ≡ₚ sample_packets).
Proof.
  assert (Hs : Forall (sendable 8) sample_packets).
  { repeat constructor; vm_compute; intros; try discriminate; repeat split; try discriminate; lia. }
  split; [exact Hs|].
  apply (packets_travel_intact sample_sender sample_packets sample_receiver);
    [exact Hs|vm_compute; discriminate|vm_compute; reflexivity|vm_compute; reflexivity|
     split; reflexivity|intros id _; reflexivity].
Defined.



(** C14. The end of the last fragment is computed in 16 bits: a packet of at most
    65534 bytes whose fragments together cover 65536 bytes or more makes the
    sending loop panic. *)
Theorem write_wraps_panics {A} `{SocketAdapterSpec A} (packet : bytes) (maxLen : Z)
    (s : Socket A) :
  never_fails (A := A) → 5 < maxLen < 65536 → maxLen < len packet + 1 → len packet < 65535 →
  65536 <= Z.of_nat (chunk_count (Z.to_nat (maxLen - 5)) packet) * (maxLen - 5) →
  writePacketFragmented packet maxLen s = Panic "slice bounds out of range".
Proof. apply writePacketFragmented_wraps. Qed.

Lemma write_wraps_panics_witness :
  writePacketFragmented (replicate (Z.to_nat 65000) 0) 1184 (MakeSocket (mkTape [] []) None true false)
  = Panic "slice bounds out of range".
Proof.
  assert (Hl : len (replicate (Z.to_nat 65000) 0) = 65000).
  { unfold len. rewrite length_replicate. lia. }
  apply write_wraps_panics.
  - intros m a. reflexivity.
  - lia.
  - rewrite Hl. lia.
  - rewrite Hl. lia.
  - unfold chunk_count. rewrite length_replicate.
    rewrite Nat2Z.inj_div, Nat2Z.inj_sub, Nat2Z.inj_add, !Z2Nat.id by lia. vm_compute. discriminate.
Defined.

(** The length test adds one in 16 bits: a packet of 65535 bytes is sent as
    one message of 65536 bytes whatever the limit of the transport. *)
Theorem write_65535 {A} `{SocketAdapter A} (packet : bytes) (maxLen : Z) (s : Socket A) :
  len packet = 65535 → 0 <= maxLen →
  writePacketFragmented packet maxLen s
  = Ret (s <| adapter := (WriteDataMessage (128 :: packet) (adapter s)).1 |>,
         (WriteDataMessage (128 :: packet) (adapter s)).2).
Proof.
  intros Hl Hm. unfold writePacketFragmented. rewrite Hl.
  change (u16 (u16 65535 + 1)) with 0. rewrite (proj2 (Z.leb_le _ _)) by done.
  by destruct (WriteDataMessage _ _).
Qed.

Lemma write_65535_witness :
  ∃ s', writePacketFragmented (replicate (Z.to_nat 65535) 0) 1184
    (MakeSocket (mkTape [] []) None true false) = Ret (s', None).
Proof.
  eexists. rewrite write_65535; [reflexivity| |lia].
  unfold len. rewrite length_replicate. lia.
Defined.

(** Identifiers are written as remainders by 255, not as bytes: two
    identifiers less than 255 apart never look alike, and 255 is the best
    bound, because the first and last of every block of 256 do. *)
Theorem packet_ids :
  (∀ a b, a < b < a + 255 → packetID_bytes a ≠ packetID_bytes b)
  ∧ (∀ h, packetID_bytes (256 * h) = packetID_bytes (256 * h + 255)).
Proof.
  split.
  - intros a b Hab E. apply (header_id_window a b Hab).
    rewrite <- (packet_id_of_fragment 0 a []), <- (packet_id_of_fragment 0 b []). congruence.
  - intros h. unfold packetID_bytes. rewrite !Z.shiftr_div_pow2 by lia.
    assert (Hd : ∀ n, 8 <= n → (256 * h + 255) / 2 ^ n = 256 * h / 2 ^ n).
    { intros n Hn. replace (2 ^ n) with (2 ^ 8 * 2 ^ (n - 8))
        by (rewrite <- Z.pow_add_r by lia; f_equal; lia).
      rewrite <- !Z.div_div by (try apply Z.pow_pos_nonneg; lia). f_equal.
      change (2 ^ 8) with 256. rewrite (Z.mul_comm 256), Z_div_plus_full_l, Z_div_mult by lia.
      change (255 / 256) with 0. lia. }
    rewrite !Hd by lia. f_equal. f_equal. f_equal. f_equal. f_equal.
    replace (256 * h + 255) with (256 * h + 1 * 255) by lia. by rewrite Z_mod_plus_full.
Qed.



(** The clean-up forgets exactly the packets whose last fragment came more
    than 30 seconds ago, and touches nothing else. *)
Theorem cleanup_exact {A} (now : Z) (s : Socket A) :
  cleanupFragments now s
  = s <| defragBuffer := filter (λ e, now - time e.2 <= 30 * Second) (defragBuffer s) |>.
Proof.
  unfold cleanupFragments. cbv zeta.
  match goal with |- ?a = ?b => enough (defragBuffer a = defragBuffer b) as E end.
  { cbn [defragBuffer upd_field] in E. cbn [upd_field]. by rewrite E. }
  simpl. apply map_eq. intros k. rewrite foldl_delete_lookup.
  destruct (defragBuffer s !! k) as [info|] eqn:Ek.
  - case_decide as Hin.
    + apply expired_elem in Hin as (info' & Hk & Hold). rewrite Hk in Ek. injection Ek as ->.
      symmetry. apply map_lookup_filter_None_2. right. intros ? E. rewrite Hk in E.
      injection E as <-. simpl. unfold fragmentExpiryTime in Hold. lia.
    + symmetry. apply map_lookup_filter_Some_2; [done|]. simpl.
      destruct (Z.le_gt_cases (now - time info) (30 * Second)); [done|].
      destruct Hin. apply expired_elem. exists info. unfold fragmentExpiryTime. split; [done|lia].
  - symmetry. etransitivity; [apply map_lookup_filter_None_2; by left|]. by case_decide.
Qed.
