(* ===== verification/World.v ===== *)
(** * A socket among its neighbours

    shared/sockets: the operations of [Socket] that reach other objects.  The
    objects are named by identifiers in a [World], which every operation takes
    and returns, so that aliasing is kept: closing one socket changes the
    packet handler's tables, forwarding a packet may close another socket.
    Goroutines are values of [task] in the world; the steps of the loops they
    run are definitions of their own. *)

From S2P Require Import Prelude Json Commands Adapter Socket.
Import adapters.

(** ** Programs over a state *)

Definition prog (W R : Type) : Type := W → outcome (W * R).

#[export] Instance prog_ret {W} : MRet (prog W) := λ _ r w, Ret (w, r).
#[export] Instance prog_bind {W} : MBind (prog W) := λ _ _ k m w,
  match m w with
  | Ret (w, r) => k r w
  | Panic why => Panic why
  | Exhausted => Exhausted
  end.

Definition panic {W R} (why : string) : prog W R := λ _, Panic why.
Definition gets {W R} (f : W → R) : prog W R := λ w, Ret (w, f w).
Definition modify {W} (f : W → W) : prog W unit := λ w, Ret (f w, tt).

(** What is known of a program that returned. *)
Lemma prog_bind_inv {W R R'} (m : prog W R) (k : R → prog W R') w w' r :
  (m ≫= k) w = Ret (w', r) → ∃ w1 r1, m w = Ret (w1, r1) ∧ k r1 w1 = Ret (w', r).
Proof. unfold mbind, prog_bind. destruct (m w) as [[w1 r1]| |]; [|done..]. eauto. Qed.

Lemma run_bind {W R R'} (m : prog W R) (k : R → prog W R') w w' r :
  m w = Ret (w', r) → (m ≫= k) w = k r w'.
Proof. unfold mbind, prog_bind. by intros ->. Qed.

Ltac prog_inv :=
  repeat match goal with
  | H : (_ ≫= _) _ = Ret _ |- _ =>
      let w := fresh "sw" in let r := fresh "r" in let E := fresh "E" in
      apply prog_bind_inv in H as (w & r & E & H)
  | H : mret _ _ = Ret _ |- _ => injection H as <- <-
  | H : gets _ _ = Ret _ |- _ => injection H as <- <-
  end.

(** [water.Interface], a third-party type: its operations on an abstract state. *)
Class WaterInterface (I : Type) := {
  iface_write : bytes → I → I * option error;
  iface_close : I → I * option error;
  iface_set_mtu : Z → I → I * option error;
}.

(** The goroutines the socket and the packet handlers start. *)
Inductive task : Type :=
| AdapterServe (sid : SocketId)
| PingLoop (sid : SocketId)
| IfaceRead (sid : SocketId)
| CleanupFragments (sid : SocketId)
| SendDefaultWelcome (sid : SocketId)
| SendErrorAndClose (sid : SocketId) (text : string)
| CloseErrorLater (sid : SocketId) (err : error).

#[export] Instance task_eq_dec : EqDecision task.
Proof. solve_decision. Defined.

(** [env] is the state of the program around the sockets, the packet handler in
    particular; [draws] counts the identifiers drawn from [uuid.NewRandom]. *)
Record World (A I E : Type) := mkWorld {
  socks : gmap SocketId (Socket A);
  ifaces : gmap IfaceId I;
  env : E;
  tasks : list task;
  events : list (SocketId * string);
  now : Z;
  draws : nat }.

Arguments mkWorld {A I E}.
Arguments socks {A I E}. Arguments ifaces {A I E}. Arguments env {A I E}.
Arguments tasks {A I E}. Arguments events {A I E}. Arguments now {A I E}.
Arguments draws {A I E}.

#[export] Instance eta_world {A I E} : Etable (World A I E) := λ r,
  mkWorld (socks r) (ifaces r) (env r) (tasks r) (events r) (now r) (draws r).

Definition EventUp : string := "up".
Definition EventDown : string := "down".

(** What closing a socket asks of the packet handler: forgetting it, under the
    handler's own lock, which reaches no socket. *)
Class Unregister (E : Type) :=
  UnregisterSocket : SocketId → netIP → E → outcome E.

(** [uuid.NewRandom], a third-party function: the [n]-th identifier drawn. *)
Class NewRandom := uuid_NewRandom : nat → string + error.

Section World.
Context {A I E : Type} `{SocketAdapter A} `{WaterInterface I} `{Unregister E} `{NewRandom}.
Abbreviation P := (prog (World A I E)).

(** The object behind a pointer; a dangling one does not occur in Go. *)
Definition sock (sid : SocketId) : P (Socket A) := λ w,
  match socks w !! sid with
  | Some s => Ret (w, s)
  | None => Panic "nil pointer dereference"
  end.

Definition upd (sid : SocketId) (f : Socket A → Socket A) : P unit :=
  modify (λ w, w <| socks := alter f sid (socks w) |>).

(** A call of a method of the socket's adapter. *)
Definition adapter_call (sid : SocketId) (f : A → A * option error) : P (option error) :=
  s ← sock sid;
  let '(ad, err) := f (adapter s) in
  upd sid (λ s, s <| adapter := ad |>);;
  mret err.

Definition iface_call (iid : IfaceId) (f : I → I * option error) : P (option error) :=
  o ← gets (λ w, ifaces w !! iid);
  match o with
  | None => panic "nil pointer dereference"
  | Some i =>
      let '(i, err) := f i in
      modify (λ w, w <| ifaces := <[iid := i]> (ifaces w) |>);;
      mret err
  end.

Definition spawn (t : task) : P unit := modify (λ w, w <| tasks := tasks w ++ [t] |>).

Definition push_event (sid : SocketId) (evt : string) : P unit :=
  modify (λ w, w <| events := events w ++ [(sid, evt)] |>).

(** ** Closing *)

(** The channel operation [close(s.closeChan)]. *)
Definition close_channel (sid : SocketId) : P unit :=
  s ← sock sid;
  if closeChan s then panic "close of closed channel"
  else upd sid (λ s, s <| closeChan := true |>).

Definition unregister (sid : SocketId) : P unit := λ w,
  match socks w !! sid with
  | None => Panic "nil pointer dereference"
  | Some s =>
      match UnregisterSocket sid (AssignedIP s) (env w) with
      | Ret e => Ret (w <| env := e |>, tt)
      | Panic why => Panic why
      | Exhausted => Exhausted
      end
  end.

Definition close (sid : SocketId) (closeAdapter : bool) : P unit :=
  upd sid (λ s, s <| isClosing := true |>);;
  (if closeAdapter then adapter_call sid Close else mret None);;
  s ← sock sid;
  (match iface s with
   | Some iid => if ifaceManaged s then iface_call iid iface_close else mret None
   | None => mret None
   end);;
  (if closeChanOpen s
   then upd sid (λ s, s <| closeChanOpen := false |>);; close_channel sid
   else mret tt);;
  (if packetHandler s then unregister sid else mret tt);;
  upd sid setReady;;
  upd sid (λ s, s <| fragmentCleanupTicker := false |>);;
  s ← sock sid;
  if eventPusher s && upEventSent s
  then upd sid (λ s, s <| upEventSent := false |>);; push_event sid EventDown
  else mret tt.

Definition CloseError (sid : SocketId) (err : error) : P unit :=
  s ← sock sid;
  let wasClosing := isClosing s in
  close sid false;;
  if negb wasClosing then spawn (SendErrorAndClose sid (error_text err))
  else adapter_call sid Close;; mret tt.

Definition CloseSocket (sid : SocketId) : P unit :=
  s ← sock sid;
  if isClosing s then mret tt else close sid true.

(** [wg.Add] and [wg.Done]; a negative counter panics. *)
Definition wg_add (sid : SocketId) (n : Z) : P unit :=
  s ← sock sid;
  if wg s + n <? 0 then panic "sync: negative WaitGroup counter"
  else upd sid (λ s, s <| wg := wg s + n |>).

Definition closeDone (sid : SocketId) : P unit :=
  wg_add sid (-1);; CloseSocket sid.

(** [s.wg.Add(1); go f()] *)
Definition go_waited (sid : SocketId) (t : task) : P unit := wg_add sid 1;; spawn t.

(** ** Sending commands *)

(** [parameters.MakeCommand(id)], drawing an identifier where [id] is empty. *)
Definition make_command (p : commands.CommandParameters) (id : string)
    : P (commands.OutgoingCommand * option error) := λ w,
  let r := commands.MakeCommand (uuid_NewRandom (draws w)) p id in
  Ret (if bool_decide (id = EmptyString) then w <| draws := S (draws w) |> else w, r).

Definition rawMakeAndSendCommand (sid : SocketId) (p : commands.CommandParameters)
    (id : string) : P (option error) :=
  s ← sock sid;
  if negb (if IsServer (adapter s) then commands.ServerCanIssue p
           else commands.ClientCanIssue p)
  then mret (Some ErrCommandNotSupported)
  else if remoteProtocolVersion s <? commands.MinProtocolVersion p
  then mret (Some ErrCommandNotSupported)
  else
    '(cmd, err) ← make_command p id;
    match err with
    | Some err =>
        CloseError sid (ErrText ("error preparing command: " +:+ error_text err));;
        mret (Some err)
    | None =>
        match commands.Serialize cmd (GetCommandSerializationType (adapter s)) with
        | inr err =>
            CloseError sid (ErrText ("error serializing command: " +:+ error_text err));;
            mret (Some err)
        | inl cmdBytes =>
            err ← adapter_call sid (WriteControlMessage cmdBytes);
            match err with
            | Some err =>
                CloseError sid (ErrText ("error sending command: " +:+ error_text err));;
                mret (Some err)
            | None => mret None
            end
        end
    end.

Definition MakeAndSendCommand (sid : SocketId) (p : commands.CommandParameters)
    : P (option error) :=
  rawMakeAndSendCommand sid p EmptyString.

Definition SendMessage (sid : SocketId) (msgType message : string) : P (option error) :=
  MakeAndSendCommand sid (commands.MessageCmd (commands.mkMessage msgType message)).

(** The goroutine started by [CloseError]. *)
Definition sendErrorAndClose (sid : SocketId) (text : string) : P unit :=
  SendMessage sid "error" text;;
  adapter_call sid Close;;
  mret tt.

Definition sendDefaultWelcome (sid : SocketId) : P unit :=
  s ← sock sid;
  MakeAndSendCommand sid (welcome s);;
  mret tt.

(** ** Sending packets *)

(** An operation on the socket alone that can panic. *)
Definition local_call {R} (sid : SocketId) (f : Socket A → outcome (Socket A * R)) : P R := λ w,
  match socks w !! sid with
  | None => Panic "nil pointer dereference"
  | Some s =>
      match f s with
      | Ret (s, r) => Ret (w <| socks := <[sid := s]> (socks w) |>, r)
      | Panic why => Panic why
      | Exhausted => Exhausted
      end
  end.

(** The fuel of the retry loop exceeds any limit of 16 bits. *)
Definition retry_fuel : nat := Z.to_nat 65537.

Definition WritePacket (sid : SocketId) (packet : bytes) : P (option error) :=
  s ← sock sid;
  if ignores_data s then mret None
  else if negb (fragmentationEnabled s) then
    err ← adapter_call sid (WriteDataMessage packet);
    match err with
    | Some e =>
        CloseError sid (ErrText ("error unfragmented data message: " +:+ error_text e));;
        mret (Some e)
    | None => mret None
    end
  else
    let dataLen := len packet in
    if (dataLen <=? 0) || (65535 <? dataLen) then
      let err := ErrText "packet size out of bounds (0 < size <= 65535)" in
      CloseError sid err;;
      mret (Some err)
    else local_call sid (write_retry retry_fuel packet).

End World.

(** ** The packet handler, and the other party to a socket's packets *)

(** What [Socket] asks of a [PacketHandler] besides [UnregisterSocket].  The
    server passes packets of its own interface with a nil socket. *)
Class PacketHandler (A I E : Type) := {
  HandlePacket : option SocketId → bytes → prog (World A I E) (bool * option error);
  RegisterSocket : SocketId → prog (World A I E) unit;
}.

(** The command handlers that the client adds. *)
Class ClientHandlers (A I E : Type) :=
  client_handler : SocketId → CommandHandler → commands.IncomingCommand
    → prog (World A I E) (option error).

Section Handlers.
Context {A I E : Type} `{SocketAdapter A} `{WaterInterface I} `{Unregister E} `{NewRandom}
  `{PacketHandler A I E} `{ClientHandlers A I E}.
Abbreviation P := (prog (World A I E)).

(** ** Receiving packets *)

Definition processPacket (sid : SocketId) (packet : bytes) : P bool :=
  if len packet <? 1 then mret false
  else
    s ← sock sid;
    '(res, err) ← (if packetHandler s then HandlePacket (Some sid) packet else mret (false, None));
    match err with
    | Some _ => mret false
    | None =>
        if (res : bool) then mret true
        else
          s ← sock sid;
          match iface s with
          | None => mret true
          | Some iid =>
              err ← iface_call iid (iface_write packet);
              mret (if err is Some _ then false else true)
          end
    end.

Definition dataMessageHandler (sid : SocketId) (message : bytes) : P bool :=
  t ← gets now;
  v ← local_call sid (λ s, Ret (receive_data t message s));
  match v with
  | Keep => mret true
  | Refuse => mret false
  | Deliver packet => processPacket sid packet
  end.

(** ** Receiving commands *)

(** [handler(command)]. *)
Definition run_handler (sid : SocketId) (h : CommandHandler) (command : commands.IncomingCommand)
    : P (option error) :=
  match h with
  | VersionHandler =>
      match commands.DeserializeParameters commands.version_fields commands.zero_version command with
      | inr err => mret (Some err)
      | inl parameters => upd sid (handleVersion parameters);; mret None
      end
  | ReplyHandler =>
      match commands.DeserializeParameters commands.reply_fields commands.zero_reply command with
      | inr err => mret (Some err)
      | inl _ => mret None
      end
  | MessageHandler =>
      match commands.DeserializeParameters commands.message_fields commands.zero_message command with
      | inr err => mret (Some err)
      | inl _ => mret None
      end
  | AddRouteHandler | InitHandler | SetMTUHandler => client_handler sid h command
  end.

Definition registerDefaultCommandHandlers (sid : SocketId) : P unit :=
  upd sid (AddCommandHandler commands.VersionCommandName VersionHandler);;
  upd sid (AddCommandHandler commands.ReplyCommandName ReplyHandler);;
  upd sid (AddCommandHandler commands.MessageCommandName MessageHandler).

(** The closure that [registerControlMessageHandler] installs. *)
Definition controlMessageHandler (sid : SocketId) (message : bytes) : P bool :=
  s ← sock sid;
  match commands.DeserializeCommand message (GetCommandSerializationType (adapter s)) with
  | Panic why => panic why
  | Exhausted => λ _, Exhausted
  | Ret (inr _) => mret false
  | Ret (inl command) =>
      err ← match handlers s !! commands.InCommand command with
            | None => mret (Some (ErrText "unknown command"))
            | Some h => run_handler sid h command
            end;
      let replyOk := if err is Some _ then false else true in
      let replyStr := if err is Some e then error_text e else "OK"%string in
      (if bool_decide (commands.InCommand command = commands.ReplyCommandName) then mret None
       else rawMakeAndSendCommand sid
              (commands.Reply (commands.mkReply replyOk replyStr)) (commands.InID command));;
      mret replyOk
  end.

(** ** Serving *)

Definition tryServeIfaceRead (sid : SocketId) : P unit :=
  s ← sock sid;
  match iface s with
  | Some _ => if ifaceManaged s then go_waited sid (IfaceRead sid) else mret tt
  | None => mret tt
  end.

Definition installPingPongHandlers (sid : SocketId) : P unit :=
  go_waited sid (PingLoop sid).

Definition Serve (sid : SocketId) : P unit :=
  registerDefaultCommandHandlers sid;;
  s ← sock sid;
  (if packetHandler s then RegisterSocket sid else mret tt);;
  installPingPongHandlers sid;;
  go_waited sid (AdapterServe sid);;
  tryServeIfaceRead sid;;
  spawn (CleanupFragments sid);;
  spawn (SendDefaultWelcome sid);;
  s ← sock sid;
  if eventPusher s && closeChanOpen s
  then upd sid (λ s, s <| upEventSent := true |>);; push_event sid EventUp
  else mret tt.

(** One turn of [cleanupFragmentsLoop]: the select took the ticker, or the
    channel, which ends the loop. *)
Definition cleanupFragmentsLoop_turn (sid : SocketId) (ticked : bool) : P bool :=
  if ticked then t ← gets now; upd sid (cleanupFragments t);; mret true
  else mret false.

Definition SetInterface (sid : SocketId) (iid : IfaceId) : P (option error) :=
  s ← sock sid;
  match iface s with
  | Some _ => mret (Some (ErrText "cannot re-define interface: Already set"))
  | None =>
      upd sid (λ s, s <| iface := Some iid |>);;
      tryServeIfaceRead sid;;
      mret None
  end.

(** One turn of the loop that reads a managed interface: the result of the read
    is the input; the answer is whether the loop goes on. *)
Definition iface_read_step (sid : SocketId) (read : bytes + error) : P bool :=
  s ← sock sid;
  match read with
  | inr _ => mret false
  | inl packet =>
      if (len packet <? 1) || (packetBufferSize s <=? len packet) then mret true
      else
        err ← WritePacket sid packet;
        mret (if err is Some _ then false else true)
  end.

(** The body of a goroutine that needs no input runs as a whole. *)
Definition run_task (t : task) : P unit :=
  match t with
  | SendDefaultWelcome sid => sendDefaultWelcome sid
  | SendErrorAndClose sid text => sendErrorAndClose sid text
  | CloseErrorLater sid err => CloseError sid err
  | AdapterServe sid | PingLoop sid | IfaceRead sid => closeDone sid
  | CleanupFragments _ => mret tt
  end.

End Handlers.
