(* ===== verification/Lifecycle.v ===== *)
(** * The life of a socket: what every run of the program keeps

    A run is a sequence of the actions that the program's goroutines perform
    on the sockets of a [World]: serving, closing, handling data and control
    messages, writing packets, running a spawned goroutine.  The invariants
    are proved by induction on runs, against the interface of the packet
    handler and of the client's command handlers. *)

From S2P Require Import Prelude Json Commands Adapter Socket Fragment World.
Import adapters.

(** A panic that is not one of the two the invariant excludes. *)
Definition other_panic (why : string) : Prop :=
  why ≠ "close of closed channel"%string ∧ why ≠ "sync: negative WaitGroup counter"%string.

(** [m] run in a state of [pre] ends in a state of [post], or panics for a
    reason outside the invariant; it never runs out of fuel. *)
Definition triple {W R} (pre : W → Prop) (m : prog W R) (post : R → W → Prop) : Prop :=
  ∀ w, pre w →
    match m w with
    | Ret (w', r) => post r w'
    | Panic why => other_panic why
    | Exhausted => False
    end.

Definition keeps {W R} (inv : W → Prop) (m : prog W R) : Prop := triple inv m (λ _, inv).

Lemma triple_ret {W R} (pre : W → Prop) (r : R) (post : R → W → Prop) :
  (∀ w, pre w → post r w) → triple pre (mret r) post.
Proof. intros Hp w Hw. by apply Hp. Qed.

Lemma triple_bind {W R R'} (pre : W → Prop) (mid : R → W → Prop) (post : R' → W → Prop)
    (m : prog W R) (k : R → prog W R') :
  triple pre m mid → (∀ r, triple (mid r) (k r) post) → triple pre (m ≫= k) post.
Proof.
  intros Hm Hk w Hw. specialize (Hm w Hw). unfold mbind, prog_bind. destruct (m w) as [[w' r]| |]; try done.
  exact (Hk r w' Hm).
Qed.

Lemma triple_pre {W R} (pre pre' : W → Prop) (m : prog W R) post :
  triple pre' m post → (∀ w, pre w → pre' w) → triple pre m post.
Proof. intros Hm Hp w Hw. apply Hm. auto. Qed.

Lemma triple_post {W R} (pre : W → Prop) (m : prog W R) post post' :
  triple pre m post' → (∀ r w, post' r w → post r w) → triple pre m post.
Proof.
  intros Hm Hp w Hw. specialize (Hm w Hw). destruct (m w) as [[]| |]; auto.
Qed.

Lemma triple_panic {W R} (pre : W → Prop) why (post : R → W → Prop) :
  other_panic why → triple pre (panic why) post.
Proof. by intros Hw w _. Qed.

Lemma keeps_ret {W R} (inv : W → Prop) (r : R) : keeps inv (mret r).
Proof. by apply triple_ret. Qed.

Lemma keeps_bind {W R R'} (inv : W → Prop) (m : prog W R) (k : R → prog W R') :
  keeps inv m → (∀ r, keeps inv (k r)) → keeps inv (m ≫= k).
Proof. intros Hm Hk. by eapply triple_bind. Qed.

Lemma keeps_gets {W R} (inv : W → Prop) (f : W → R) : keeps inv (gets f).
Proof. by intros w Hw. Qed.

Lemma keeps_modify {W} (inv : W → Prop) f : (∀ w, inv w → inv (f w)) → keeps inv (modify f).
Proof. intros Hf w Hw. by apply Hf. Qed.

Section Invariant.
Context {A I E : Type}.
Implicit Types w : World A I E.

(** The goroutines of a socket that its WaitGroup counts. *)
Definition waits_for (sid : SocketId) (t : task) : Prop :=
  t = AdapterServe sid ∨ t = PingLoop sid ∨ t = IfaceRead sid.

#[export] Instance waits_for_dec sid t : Decision (waits_for sid t).
Proof. unfold waits_for. apply _. Defined.

Definition waiting (sid : SocketId) w : Z := len (filter (waits_for sid) (tasks w)).

Definition events_of (sid : SocketId) w : list string :=
  (filter (λ e : SocketId * string, e.1 = sid) (events w)).*2.

(** [U] is a set of sockets known not to have sent an up event: those about to
    be served.  The channel is open as long as the flag says so, which is until the socket
    starts to close; the WaitGroup counts the goroutines; an up event is sent
    at most once, and followed by a down event when the socket closes. *)
Record socket_inv (U : gset SocketId) (sid : SocketId) w (s : Socket A) : Prop := {
  inv_chan : closeChan s = negb (closeChanOpen s);
  inv_closing : isClosing s = negb (closeChanOpen s);
  inv_wg : wg s = waiting sid w;
  inv_events :
    match upEventSent s, closeChanOpen s with
    | true, open => events_of sid w = [EventUp] ∧ open = true ∧ eventPusher s = true
    | false, true => events_of sid w = []
    | false, false => events_of sid w = [] ∨ events_of sid w = [EventUp; EventDown]
    end;
  inv_unsent : sid ∈ U → upEventSent s = false }.

Definition world_inv (U : gset SocketId) w : Prop :=
  map_Forall (λ sid s, socket_inv U sid w s) (socks w).

End Invariant.

(** ** Symbolic execution: a world with the socket in question in hand *)

Section Execution.
Context {A I E : Type} `{SocketAdapter A} `{WaterInterface I} `{Unregister E} `{NewRandom}.
Implicit Types w : World A I E.

Definition put w (sid : SocketId) (s : Socket A) : World A I E :=
  w <| socks := <[sid := s]> (socks w) |>.

Lemma put_lookup w sid s : socks w !! sid = Some s → put w sid s = w.
Proof. intros Hs. unfold put. simpl. rewrite insert_id by done. by destruct w. Qed.

Lemma run_ret {R} (r : R) w : mret (M := prog (World A I E)) r w = Ret (w, r).
Proof. done. Qed.

Lemma run_sock w sid s : sock sid (put w sid s) = Ret (put w sid s, s).
Proof. unfold sock. simpl. by rewrite lookup_insert_eq. Qed.

Lemma run_sock_at w sid s : socks w !! sid = Some s → sock sid w = Ret (w, s).
Proof. intros Hs. unfold sock. by rewrite Hs. Qed.

Lemma sock_None {R} w sid (k : Socket A → prog (World A I E) R) :
  socks w !! sid = None → (sock sid ≫= k) w = Panic "nil pointer dereference".
Proof. intros Hs. unfold mbind, prog_bind, sock. by rewrite Hs. Qed.

Lemma run_upd w sid s f : upd sid f (put w sid s) = Ret (put w sid (f s), tt).
Proof.
  unfold upd, modify, put. simpl. by rewrite alter_insert_eq.
Qed.

Lemma run_adapter w sid s f :
  adapter_call sid f (put w sid s)
  = Ret (put w sid (s <| adapter := (f (adapter s)).1 |>), (f (adapter s)).2).
Proof.
  unfold adapter_call. erewrite run_bind by apply run_sock.
  destruct (f (adapter s)) as [ad err]. erewrite run_bind by apply run_upd. done.
Qed.

Lemma run_iface w sid s iid f :
  match iface_call iid f (put w sid s) with
  | Ret (w', _) => ∃ i, w' = put (w <| ifaces := i |>) sid s
  | Panic why => why = "nil pointer dereference"%string
  | Exhausted => False
  end.
Proof.
  unfold iface_call. erewrite run_bind by done. simpl.
  destruct (ifaces w !! iid) as [i|]; [|done]. destruct (f i) as [i' err].
  cbn. by eexists.
Qed.

Lemma run_unregister w sid s :
  unregister sid (put w sid s) =
    match UnregisterSocket sid (AssignedIP s) (env w) with
    | Ret e => Ret (put (w <| env := e |>) sid s, tt)
    | Panic why => Panic why
    | Exhausted => Exhausted
    end.
Proof. unfold unregister. simpl. rewrite lookup_insert_eq. done. Qed.

End Execution.

(** What closing relies on: the handler's own code raises neither panic. *)
Class UnregisterSpec (E : Type) `{Unregister E} : Prop :=
  unregister_panics sid ip (e : E) :
    match UnregisterSocket sid ip e with
    | Ret _ => True
    | Panic why => other_panic why
    | Exhausted => False
    end.

(** The part of a socket its life depends on. *)
Definition lifecycle {A} (s : Socket A) : bool * bool * bool * Z * bool * bool :=
  (isClosing s, closeChan s, closeChanOpen s, wg s, upEventSent s, eventPusher s).

Ltac other_panic_done := split; discriminate.

(** The result of an operation on the socket alone. *)
Definition local_ok {A R} (s : Socket A) (o : outcome (Socket A * R)) : Prop :=
  match o with
  | Ret (s', _) => lifecycle s' = lifecycle s
  | Panic why => other_panic why
  | Exhausted => False
  end.

Lemma local_ok_from {A R} (s s1 : Socket A) (o : outcome (Socket A * R)) :
  lifecycle s1 = lifecycle s → local_ok s1 o → local_ok s o.
Proof. unfold local_ok. intros <-. done. Qed.

Section Local.
Context {A : Type} `{SocketAdapterSpec A}.
Implicit Types s : Socket A.

Lemma write_fragments_local id dataLen p count packet n i s :
  local_ok s (write_fragments id dataLen p count packet n i s).
Proof.
  revert i s. induction n as [|n IH]; intros i s; cbn [write_fragments]; [done|].
  unfold fragment_message, go_slice. case_match; [|other_panic_done]. simpl.
  destruct (WriteDataMessage _ _) as [ad [e|]]; [done|]. eapply local_ok_from; [|apply IH]. done.
Qed.

Lemma writePacketFragmented_local packet maxLen s :
  local_ok s (writePacketFragmented packet maxLen s).
Proof.
  unfold writePacketFragmented. case_match; [by destruct (WriteDataMessage _ _)|].
  cbv zeta. case_match; [other_panic_done|].
  eapply local_ok_from; [|apply write_fragments_local]. done.
Qed.

Lemma write_retry_local fuel packet s :
  MaxDataPayloadLen (adapter s) < Z.of_nat fuel → local_ok s (write_retry fuel packet s).
Proof.
  revert s. induction fuel as [|fuel IH]; intros s Hf.
  { pose proof (max_range (adapter s)). lia. }
  cbn [write_retry]. pose proof (writePacketFragmented_local packet
    (MaxDataPayloadLen (adapter s)) s) as Hl.
  destruct (writePacketFragmented _ _ s) as [[s' err]| |] eqn:Ew; simpl in *; [|done..].
  case_bool_decide as He; [|done]. subst err. apply writePacketFragmented_reduced in Ew.
  eapply local_ok_from; [exact Hl|]. apply IH. lia.
Qed.

Lemma receive_data_local now m s : local_ok s (Ret (receive_data now m s)).
Proof.
  simpl. destruct (receive_data now m s) as [s' v] eqn:Er. unfold receive_data in Er.
  repeat case_match; simplify_eq; try done. unfold store_fragment in Er.
  by case_match; injection Er as <- <-.
Qed.

Lemma featureCheck_life s : lifecycle (featureCheck s) = lifecycle s.
Proof. unfold featureCheck. by case_match. Qed.

Lemma handleVersion_life p s : lifecycle (handleVersion p s) = lifecycle s.
Proof.
  unfold handleVersion. cbv zeta.
  match goal with |- context [featureCheck ?x] => pose proof (featureCheck_life x) as E end.
  exact E.
Qed.

Lemma HandleInit_life b s : lifecycle (HandleInitPacketFragmentation b s) = lifecycle s.
Proof.
  unfold HandleInitPacketFragmentation. case_match; [done|].
  by rewrite featureCheck_life.
Qed.

End Local.

Section Close.
Context {A I E : Type} `{SocketAdapterSpec A} `{WaterInterface I} `{!Unregister E} `{!UnregisterSpec E}
  `{NewRandom}.
Context (U : gset SocketId).
Implicit Types w : World A I E.

Tactic Notation "run" uconstr(lem) := erewrite run_bind by (apply lem); cbv beta.

(** The parts of [close], in continuation-passing style. *)
Lemma close_adapter_part (b : bool) sid w (s : Socket A) (k : option error → prog (World A I E) unit) :
  ((if b then adapter_call sid Close else mret None) ≫= k) (put w sid s)
  = k (if b then (Close (adapter s)).2 else None)
      (put w sid (s <| adapter := if b then (Close (adapter s)).1 else adapter s |>)).
Proof. destruct b; [by run run_adapter|]. run run_ret. by destruct s. Qed.

Lemma close_iface_part sid w (s : Socket A) (k : option error → prog (World A I E) unit)
    (Q : outcome (World A I E * unit) → Prop) :
  (∀ why, other_panic why → Q (Panic why)) →
  (∀ ifs r, Q (k r (put (w <| ifaces := ifs |>) sid s))) →
  Q ((match iface s with
      | Some iid => if ifaceManaged s then iface_call iid iface_close else mret None
      | None => mret None end ≫= k) (put w sid s)).
Proof.
  intros Hp Hk. assert (Hn : Q ((mret None ≫= k) (put w sid s))).
  { run run_ret. specialize (Hk (ifaces w) None). by destruct w. }
  destruct (iface s) as [iid|]; [|done]. destruct (ifaceManaged s); [|done].
  pose proof (run_iface w sid s iid iface_close) as Hr. unfold mbind, prog_bind.
  destruct (iface_call _ _ _) as [[w' r]| |]; [|subst; apply Hp; other_panic_done|done].
  destruct Hr as [ifs ->]. apply Hk.
Qed.

Lemma close_channel_part sid w (s : Socket A) (k : unit → prog (World A I E) unit)
    (Q : outcome (World A I E * unit) → Prop) :
  (closeChanOpen s && closeChan s = true → ∀ why, Q (Panic why)) →
  Q (k tt (put w sid (s <| closeChanOpen := false |>
             <| closeChan := closeChan s || closeChanOpen s |>))) →
  Q (((if closeChanOpen s
       then upd sid (λ s, s <| closeChanOpen := false |>);; close_channel sid
       else mret tt) ≫= k) (put w sid s)).
Proof.
  intros Hp Hk. destruct (closeChanOpen s) eqn:Eo.
  - unfold mbind at 1, prog_bind at 1. run run_upd. unfold close_channel. run run_sock.
    change (closeChan (s <| closeChanOpen := false |>)) with (closeChan s).
    destruct (closeChan s) eqn:Ec; [by apply Hp|]. rewrite run_upd. exact Hk.
  - run run_ret. rewrite orb_false_r in Hk. revert Hk.
    replace (s <| closeChanOpen := false |> <| closeChan := closeChan s |>) with s; [done|].
    destruct s; simpl in *. by subst.
Qed.

Lemma close_unregister_part sid w (s : Socket A) (k : unit → prog (World A I E) unit)
    (Q : outcome (World A I E * unit) → Prop) :
  (∀ why, other_panic why → Q (Panic why)) →
  (∀ e, (if packetHandler s then UnregisterSocket sid (AssignedIP s) (env w) = Ret e
         else e = env w) → Q (k tt (put (w <| env := e |>) sid s))) →
  Q (((if packetHandler s then unregister sid else mret tt) ≫= k) (put w sid s)).
Proof.
  intros Hp Hk. destruct (packetHandler s).
  - unfold mbind, prog_bind. rewrite run_unregister.
    pose proof (unregister_panics sid (AssignedIP s) (env w)) as Hu.
    destruct (UnregisterSocket _ _ _); [by apply Hk|by apply Hp|done].
  - run run_ret. specialize (Hk (env w) eq_refl). by destruct w.
Qed.

(** What [close] does to the socket and the world. *)
Lemma close_effect sid b w s :
  match close sid b (put w sid s) with
  | Ret (w', _) => ∃ s' ifs e,
      w' = put (w <| ifaces := ifs |> <| env := e |>
                  <| events := events w ++ (if eventPusher s && upEventSent s
                                            then [(sid, EventDown)] else []) |>) sid s'
      ∧ lifecycle s' = (true, closeChan s || closeChanOpen s, false, wg s,
                        upEventSent s && negb (eventPusher s), eventPusher s)
      ∧ isReady s' = true
      ∧ adapter s' = (if b then (Close (adapter s)).1 else adapter s)
      ∧ (if packetHandler s then UnregisterSocket sid (AssignedIP s) (env w) = Ret e
         else e = env w)
  | Panic why => closeChanOpen s && closeChan s = true ∨ other_panic why
  | Exhausted => False
  end.
Proof.
  unfold close. run run_upd. set (s1 := s <| isClosing := true |>).
  rewrite close_adapter_part. set (s2 := s1 <| adapter := _ |>). run run_sock.
  apply close_iface_part; [by right|]. intros ifs _. set (w1 := w <| ifaces := ifs |>).
  apply close_channel_part; [by left|]. set (s3 := s2 <| closeChanOpen := _ |> <| closeChan := _ |>).
  change (packetHandler s2) with (packetHandler s3).
  apply close_unregister_part; [by right|]. intros e Hunreg. run run_upd. run run_upd. run run_sock.
  change (eventPusher _ && upEventSent _) with (eventPusher s && upEventSent s).
  destruct (eventPusher s) eqn:Ep, (upEventSent s) eqn:Eu; cbn [andb negb].
  1: run run_upd.
  all: eexists _, ifs, e.
  all: split; [rewrite ?app_nil_r; reflexivity|].
  all: unfold lifecycle, s3, s2, s1; simpl; rewrite ?Ep, ?Eu.
  all: split; [reflexivity|split; [reflexivity|split; [reflexivity|exact Hunreg]]].
Qed.

(** ** What keeps the invariant *)

Definition same_life (f : Socket A → Socket A) : Prop := ∀ s, lifecycle (f s) = lifecycle s.

Lemma waiting_nonneg sid w : 0 <= waiting sid w.
Proof. apply len_nonneg. Qed.

Lemma inv_put w sid s s' :
  world_inv U w → socks w !! sid = Some s → lifecycle s' = lifecycle s →
  world_inv U (put w sid s').
Proof.
  intros Hinv Hs El. apply map_Forall_insert_2.
  - specialize (Hinv _ _ Hs). destruct Hinv as [Hi1 Hi2 Hi3 Hi4 Hi5].
    injection El as E1 E2 E3 E4 E5 E6.
    constructor; rewrite ?E1, ?E2, ?E3, ?E4, ?E5, ?E6; assumption.
  - intros sid' s'' Hs'. destruct (Hinv _ _ Hs'). by constructor.
Qed.

Lemma inv_ifaces w i : world_inv U w → world_inv U (w <| ifaces := i |>).
Proof. intros Hinv sid s Hs. destruct (Hinv _ _ Hs). by constructor. Qed.

Lemma inv_env w e : world_inv U w → world_inv U (w <| env := e |>).
Proof. intros Hinv sid s Hs. destruct (Hinv _ _ Hs). by constructor. Qed.

Lemma inv_draws w n : world_inv U w → world_inv U (w <| draws := n |>).
Proof. intros Hinv sid s Hs. destruct (Hinv _ _ Hs). by constructor. Qed.

Lemma keeps_sock sid : keeps (W := World A I E) (world_inv U) (sock sid).
Proof. intros w Hw. unfold sock. destruct (socks w !! sid); [done|other_panic_done]. Qed.

Lemma keeps_upd sid f : same_life f → keeps (W := World A I E) (world_inv U) (upd sid f).
Proof.
  intros Hf w Hw. simpl. destruct (socks w !! sid) as [s|] eqn:Es.
  - rewrite <- (put_lookup w sid s) by done. unfold put. simpl. rewrite alter_insert_eq.
    by apply (inv_put w sid s).
  - replace (alter f sid (socks w)) with (socks w); [by destruct w|].
    apply map_eq. intros i. destruct (decide (sid = i)) as [<-|Hne].
    + by rewrite lookup_alter_eq, Es.
    + by rewrite lookup_alter_ne.
Qed.

Lemma keeps_adapter sid f : keeps (W := World A I E) (world_inv U) (adapter_call sid f).
Proof.
  apply keeps_bind; [apply keeps_sock|]. intros s. destruct (f (adapter s)) as [ad err].
  apply keeps_bind; [by apply keeps_upd|]. intros _. apply keeps_ret.
Qed.

Lemma keeps_iface iid f : keeps (W := World A I E) (world_inv U) (iface_call iid f).
Proof.
  apply keeps_bind; [apply keeps_gets|]. intros [i|]; [|apply triple_panic; other_panic_done].
  destruct (f i) as [i' err]. apply keeps_bind; [|intros; apply keeps_ret].
  apply keeps_modify. intros w. apply inv_ifaces.
Qed.

Lemma waits_for_other sid sid' t : waits_for sid t → sid' ≠ sid → ¬ waits_for sid' t.
Proof. unfold waits_for. intros [->|[->| ->]] Hne [?|[?|?]]; congruence. Qed.

(** A goroutine no WaitGroup counts. *)
Lemma keeps_spawn t :
  (∀ sid, ¬ waits_for sid t) → keeps (W := World A I E) (world_inv U) (spawn t).
Proof.
  intros Ht w Hw sid s Hs. destruct (Hw _ _ Hs). constructor; try done.
  rewrite inv_wg0. unfold waiting. simpl. rewrite filter_app, filter_cons, decide_False by done.
  by rewrite app_nil_r.
Qed.

(** A goroutine that its socket's WaitGroup counts. *)
Lemma keeps_start sid t :
  waits_for sid t → keeps (W := World A I E) (world_inv U) (go_waited sid t).
Proof.
  intros Ht w Hw. unfold go_waited. destruct (socks w !! sid) as [s|] eqn:Es.
  2: { unfold mbind at 1, prog_bind at 1, wg_add. rewrite sock_None by done. other_panic_done. }
  rewrite <- (put_lookup w sid s) by done. unfold mbind, prog_bind, wg_add.
  erewrite run_bind by apply run_sock.
  pose proof (Hw _ _ Es) as Hs. pose proof (inv_wg _ _ _ _ Hs) as Hwg.
  pose proof (waiting_nonneg sid w).
  rewrite (proj2 (Z.ltb_ge _ _)) by lia. rewrite run_upd. simpl.
  intros sid' s' Hs'. simpl in Hs'.
  assert (Hwait : waiting sid' ((put w sid (s <| wg := wg s + 1 |>))
      <| tasks := tasks w ++ [t] |>) = waiting sid' w + (if decide (sid' = sid) then 1 else 0)).
  { unfold waiting. simpl. rewrite filter_app, len_app. f_equal. rewrite filter_cons.
    destruct (decide (sid' = sid)) as [->|Hne].
    - by rewrite decide_True.
    - rewrite decide_False; [done|]. by eapply waits_for_other. }
  apply lookup_insert_Some in Hs' as [[<- <-]|[Hne Hs']].
  - destruct Hs. constructor; try done. simpl in *. rewrite Hwait, decide_True by done. lia.
  - destruct (Hw _ _ Hs'). constructor; try done. simpl in *.
    rewrite Hwait, decide_False by done. lia.
Qed.

Lemma keeps_close sid b : keeps (W := World A I E) (world_inv U) (close sid b).
Proof.
  intros w Hw. destruct (socks w !! sid) as [s|] eqn:Es.
  2: { unfold close. erewrite run_bind by done. cbv beta.
       match goal with |- context [_ ≫= ?k] => set (w1 := w <| socks := _ |>) end.
       assert (Hn : socks w1 !! sid = None) by (simpl; by rewrite lookup_alter_eq, Es).
       destruct b.
       - unfold mbind at 1, prog_bind at 1, adapter_call. rewrite sock_None by done.
         other_panic_done.
       - erewrite run_bind by done. rewrite sock_None by done. other_panic_done. }
  pose proof (close_effect sid b w s) as He. rewrite put_lookup in He by done.
  pose proof (Hw _ _ Es) as Hs. destruct Hs as [Hc Hcl Hwg Hev Hun].
  destruct (close sid b w) as [[w' []]| |]; [|destruct He as [He|He]; [|done]|done].
  2: { rewrite Hc in He. by destruct (closeChanOpen s). }
  destruct He as (s' & ifs & e & -> & El & _). injection El as E1 E2 E3 E4 E5 E6.
  set (evs := if eventPusher s && upEventSent s then [(sid, EventDown)] else []) in *.
  assert (Hevs : ∀ sid', sid' ≠ sid → (filter (λ e : SocketId * string, e.1 = sid') evs) = []).
  { intros sid' Hne. unfold evs. destruct (eventPusher s && upEventSent s); [|done].
    rewrite filter_cons, decide_False by (simpl; congruence). done. }
  intros sid' s'' Hs''. simpl in Hs''. apply lookup_insert_Some in Hs'' as [[<- <-]|[Hne Hs'']].
  - assert (Heq : events_of sid (put (w <| ifaces := ifs |> <| env := e |>
        <| events := events w ++ evs |>) sid s')
      = events_of sid w ++ (if eventPusher s && upEventSent s then [EventDown] else [])).
    { unfold events_of. simpl. rewrite filter_app, fmap_app. f_equal. unfold evs.
      destruct (eventPusher s && upEventSent s); [|done]. rewrite filter_cons, decide_True by done. done. }
    constructor; rewrite ?E1, ?E2, ?E3, ?E4, ?E5, ?E6, ?Heq; try done.
    + rewrite Hc. by destruct (closeChanOpen s).
    + destruct (upEventSent s).
      * destruct Hev as (Hev & Ho & Hp). rewrite Hp, Hev. by right.
      * rewrite andb_false_r, app_nil_r. simpl. destruct (closeChanOpen s); auto.
    + intros Hu. by rewrite Hun.
  - destruct (Hw _ _ Hs''). constructor; try done.
    unfold events_of. simpl. rewrite filter_app, Hevs, app_nil_r by done. done.
Qed.


Lemma keeps_local {R} sid (f : Socket A → outcome (Socket A * R)) :
  (∀ s, local_ok s (f s)) → keeps (W := World A I E) (world_inv U) (local_call sid f).
Proof.
  intros Hf w Hw. unfold local_call. destruct (socks w !! sid) as [s|] eqn:Es;
    [|other_panic_done].
  specialize (Hf s). destruct (f s) as [[s' r]| |]; [|done..]. by apply (inv_put w sid s).
Qed.

Lemma keeps_make_command p id : keeps (W := World A I E) (world_inv U) (make_command p id).
Proof. intros w Hw. cbn. case_bool_decide; [by apply inv_draws|done]. Qed.

End Close.

Create HintDb keeps.
#[export] Hint Resolve keeps_ret keeps_gets keeps_sock keeps_adapter keeps_iface
  keeps_make_command keeps_close : keeps.
#[export] Hint Extern 1 (keeps _ (spawn _)) =>
  (apply keeps_spawn; intros ? [?|[?|?]]; discriminate) : keeps.
#[export] Hint Extern 1 (same_life _) => (intros ?; reflexivity) : keeps.
#[export] Hint Extern 2 (keeps _ (upd _ _)) => (apply keeps_upd) : keeps.

(** Compose the rules along the code. *)
Ltac keep_step :=
  match goal with
  | |- keeps _ (go_waited _ _) => apply keeps_start; unfold waits_for; auto
  | |- keeps _ (_ ≫= _) => apply keeps_bind; [|intros ?]
  | |- keeps _ (match ?x with _ => _ end) => destruct x eqn:?
  | |- keeps _ (panic _) => apply triple_panic; other_panic_done
  | |- keeps _ _ => solve [auto with keeps]
  end.
Ltac keep := cbv zeta; repeat keep_step.

Section Operations.
Context {A I E : Type} `{SocketAdapterSpec A} `{WaterInterface I} `{!Unregister E}
  `{!UnregisterSpec E} `{NewRandom}.
Context (U : gset SocketId).
Abbreviation keeps_inv := (keeps (W := World A I E) (world_inv U)).

Lemma keeps_CloseError sid err : keeps_inv (CloseError sid err).
Proof.
  unfold CloseError. keep.
Qed.

Lemma keeps_CloseSocket sid : keeps_inv (CloseSocket sid).
Proof. unfold CloseSocket. keep. Qed.

Hint Resolve keeps_CloseError keeps_CloseSocket : keeps.

Lemma keeps_rawMakeAndSendCommand sid p id : keeps_inv (rawMakeAndSendCommand sid p id).
Proof. unfold rawMakeAndSendCommand. keep. Qed.

Hint Resolve keeps_rawMakeAndSendCommand : keeps.

Lemma keeps_WritePacket sid packet : keeps_inv (WritePacket sid packet).
Proof.
  unfold WritePacket. keep. apply keeps_local. intros s. apply write_retry_local.
  pose proof (max_range (adapter s)). unfold retry_fuel. lia.
Qed.

End Operations.

(** ** The objects around a socket *)

(** What a property of worlds needs so that a packet handler keeps it: the
    handler changes its own state and calls these operations of sockets. *)
Record socket_api {A I E : Type} `{SocketAdapter A} `{WaterInterface I} `{Unregister E}
    `{NewRandom} (inv : World A I E → Prop) : Prop := {
  api_env w e : inv w → inv (w <| env := e |>);
  api_sock sid : keeps inv (sock sid);
  api_write sid p : keeps inv (WritePacket sid p);
  api_close sid err : keeps inv (CloseError sid err);
  api_later sid err : keeps inv (spawn (CloseErrorLater sid err)) }.

Class PacketHandlerSpec (A I E : Type) `{SocketAdapter A} `{WaterInterface I} `{Unregister E}
    `{NewRandom} `{PacketHandler A I E} : Prop := {
  handle_keeps (inv : World A I E → Prop) : socket_api inv →
    ∀ o p, keeps inv (HandlePacket o p);
  register_keeps (inv : World A I E → Prop) : socket_api inv →
    ∀ sid, keeps inv (RegisterSocket sid) }.

(** The same for the command handlers of the client. *)
Record client_api {A I E : Type} `{SocketAdapter A} `{WaterInterface I}
    (inv : World A I E → Prop) : Prop := {
  capi_env w e : inv w → inv (w <| env := e |>);
  capi_ifaces w i : inv w → inv (w <| ifaces := i |>);
  capi_events w sid evt : (∀ s, socks w !! sid ≠ Some s) → inv w →
    inv (w <| events := events w ++ [(sid, evt)] |>);
  capi_sock sid : keeps inv (sock sid);
  capi_upd sid f : same_life f → keeps inv (upd sid f);
  capi_iface iid f : keeps inv (iface_call iid f);
  capi_setiface sid iid : keeps inv (SetInterface sid iid) }.

Class ClientHandlersSpec (A I E : Type) `{SocketAdapter A} `{WaterInterface I}
    `{ClientHandlers A I E} : Prop :=
  client_keeps (inv : World A I E → Prop) : client_api inv →
    ∀ sid h c, keeps inv (client_handler sid h c).

Section Runs.
Context {A I E : Type} `{SocketAdapterSpec A} `{WaterInterface I} `{!Unregister E}
  `{!UnregisterSpec E} `{NewRandom} `{!PacketHandler A I E} `{!PacketHandlerSpec A I E}
  `{!ClientHandlers A I E} `{!ClientHandlersSpec A I E}.
Implicit Types w : World A I E.

Section Keeps.
Context (U : gset SocketId).
Abbreviation keeps_inv := (keeps (W := World A I E) (world_inv U)).

Lemma inv_events_other w sid evt :
  (∀ s, socks w !! sid ≠ Some s) → world_inv U w →
  world_inv U (w <| events := events w ++ [(sid, evt)] |>).
Proof.
  intros Hn Hinv sid' s' Hs'. destruct (Hinv _ _ Hs'). constructor; try done.
  unfold events_of. simpl. rewrite filter_app, filter_cons, decide_False, app_nil_r; [done|].
  simpl. intros ->. by destruct (Hn s').
Qed.

Lemma keeps_tryServeIfaceRead sid : keeps_inv (tryServeIfaceRead sid).
Proof. unfold tryServeIfaceRead. keep. Qed.

Lemma keeps_SetInterface sid iid : keeps_inv (SetInterface sid iid).
Proof. unfold SetInterface. keep. apply keeps_tryServeIfaceRead. Qed.

Lemma inv_socket_api : socket_api (world_inv (A := A) (I := I) (E := E) U).
Proof.
  constructor; intros.
  - by apply inv_env.
  - apply keeps_sock.
  - apply keeps_WritePacket.
  - apply keeps_CloseError.
  - auto with keeps.
Qed.

Lemma inv_client_api : client_api (world_inv (A := A) (I := I) (E := E) U).
Proof.
  constructor; intros.
  - by apply inv_env.
  - by apply inv_ifaces.
  - by apply inv_events_other.
  - apply keeps_sock.
  - by apply keeps_upd.
  - apply keeps_iface.
  - apply keeps_SetInterface.
Qed.

Hint Resolve keeps_CloseError keeps_CloseSocket keeps_rawMakeAndSendCommand keeps_WritePacket
  keeps_tryServeIfaceRead : keeps.
Hint Extern 1 (keeps _ (HandlePacket _ _)) => (apply handle_keeps, inv_socket_api) : keeps.
Hint Extern 1 (keeps _ (RegisterSocket _)) => (apply register_keeps, inv_socket_api) : keeps.
Hint Extern 1 (keeps _ (client_handler _ _ _)) => (apply client_keeps, inv_client_api) : keeps.

Lemma keeps_processPacket sid packet : keeps_inv (processPacket sid packet).
Proof. unfold processPacket. keep. Qed.

Hint Resolve keeps_processPacket : keeps.

Lemma keeps_dataMessageHandler sid message : keeps_inv (dataMessageHandler sid message).
Proof.
  unfold dataMessageHandler. keep. apply keeps_local. intros s. apply receive_data_local.
Qed.

Lemma keeps_run_handler sid h c : keeps_inv (run_handler sid h c).
Proof.
  unfold run_handler. destruct h; keep.
  apply keeps_upd. intros s. apply handleVersion_life.
Qed.

Hint Resolve keeps_run_handler : keeps.

Lemma DeserializeCommand_returns m t : is_Ret (commands.DeserializeCommand m t).
Proof.
  unfold commands.DeserializeCommand. case_match; [|by eexists].
  destruct (parse_json_total (bytes_to_string m)) as [o ->]. by eexists.
Qed.

Lemma keeps_controlMessageHandler sid message : keeps_inv (controlMessageHandler sid message).
Proof.
  unfold controlMessageHandler. apply keeps_bind; [apply keeps_sock|]. intros s.
  destruct (DeserializeCommand_returns message (GetCommandSerializationType (adapter s)))
    as [r ->]. keep.
Qed.

Lemma keeps_iface_read_step sid r : keeps_inv (iface_read_step sid r).
Proof. unfold iface_read_step. keep. Qed.

Lemma keeps_sendDefaultWelcome sid : keeps_inv (sendDefaultWelcome sid).
Proof. unfold sendDefaultWelcome, MakeAndSendCommand. keep. Qed.

Lemma keeps_sendErrorAndClose sid text : keeps_inv (sendErrorAndClose sid text).
Proof. unfold sendErrorAndClose, SendMessage, MakeAndSendCommand. keep. Qed.

End Keeps.

(** ** Serving *)

Lemma inv_weaken U w : world_inv U w → world_inv ∅ w.
Proof. intros Hinv sid s Hs. destruct (Hinv _ _ Hs). by constructor. Qed.

Lemma inv_serve sid w : world_inv ∅ w → events_of sid w = [] → world_inv {[sid]} w.
Proof.
  intros Hinv He sid' s Hs. destruct (Hinv _ _ Hs). constructor; try done.
  intros ->%elem_of_singleton. destruct (upEventSent s); [|done].
  destruct inv_events0 as (E1 & _). congruence.
Qed.

(** The last step of [Serve]. *)
Lemma serve_up sid :
  triple (W := World A I E) (world_inv {[sid]})
    (s ← sock sid;
     if eventPusher s && closeChanOpen s
     then upd sid (λ s, s <| upEventSent := true |>);; push_event sid EventUp
     else mret tt) (λ _, world_inv ∅).
Proof.
  intros w Hw. destruct (socks w !! sid) as [s|] eqn:Es;
    [|rewrite sock_None by done; other_panic_done].
  rewrite <- (put_lookup w sid s) by done. erewrite run_bind by apply run_sock.
  destruct (eventPusher s && closeChanOpen s) eqn:Eo.
  2: { rewrite run_ret, put_lookup by done. by eapply inv_weaken. }
  erewrite run_bind by apply run_upd. simpl. apply andb_true_iff in Eo as [Ep Eo].
  intros sid' s' Hs'. simpl in Hs'. apply lookup_insert_Some in Hs' as [[<- <-]|[Hne Hs']].
  - destruct (Hw _ _ Es). rewrite inv_unsent0, Eo in inv_events0 by set_solver.
    constructor; simpl; try done. unfold events_of in *. simpl.
    split; [|done]. rewrite filter_app, fmap_app, inv_events0, filter_cons, decide_True by done.
    done.
  - destruct (Hw _ _ Hs'). constructor; simpl; try done.
    unfold events_of. simpl. rewrite filter_app, filter_cons, decide_False by (simpl; congruence).
    by rewrite app_nil_r.
Qed.

Lemma keeps_Serve sid :
  triple (W := World A I E) (λ w, world_inv ∅ w ∧ events_of sid w = []) (Serve sid)
    (λ _, world_inv ∅).
Proof.
  apply triple_pre with (world_inv {[sid]}); [|intros w [? ?]; by apply inv_serve].
  unfold Serve.
  repeat (first [apply serve_up
    | match goal with
      | |- triple _ (?m ≫= ?k) _ =>
          apply (triple_bind _ (λ _, world_inv {[sid]}) _ m k); [|intros ?]
      end]).
  all: match goal with |- triple ?inv ?m _ => change (keeps inv m) end.
  all: unfold registerDefaultCommandHandlers, installPingPongHandlers, tryServeIfaceRead; keep.
  apply register_keeps, inv_socket_api.
Qed.

(** ** Goroutines that end *)

Lemma finish_task U sid t l1 l2 w :
  waits_for sid t → tasks w = l1 ++ t :: l2 → world_inv U w →
  match wg_add sid (-1) (w <| tasks := l1 ++ l2 |>) with
  | Ret (w', _) => world_inv U w'
  | Panic why => other_panic why
  | Exhausted => False
  end.
Proof.
  intros Ht El Hw. unfold wg_add. set (w1 := w <| tasks := l1 ++ l2 |>).
  assert (Hwait : ∀ sid', waiting sid' w = waiting sid' w1 + (if decide (sid' = sid) then 1 else 0)).
  { intros sid'. unfold waiting, w1. rewrite El. simpl. rewrite !filter_app, filter_cons, !len_app.
    destruct (decide (sid' = sid)) as [->|Hne].
    - rewrite decide_True, len_cons by done. lia.
    - rewrite decide_False; [lia|]. by eapply waits_for_other. }
  destruct (socks w !! sid) as [s|] eqn:Es;
    [|rewrite sock_None by done; other_panic_done].
  pose proof (Hw _ _ Es) as Hs. pose proof (inv_wg _ _ _ _ Hs) as Hwg.
  rewrite Hwait, decide_True in Hwg by done. pose proof (waiting_nonneg sid w1).
  rewrite <- (put_lookup w1 sid s) by done. erewrite run_bind by apply run_sock.
  rewrite (proj2 (Z.ltb_ge _ _)) by lia. rewrite run_upd.
  intros sid' s' Hs'. simpl in Hs'. apply lookup_insert_Some in Hs' as [[<- <-]|[Hne Hs']].
  - destruct Hs. constructor; try done. simpl. rewrite Hwg.
    unfold waiting, w1. simpl. lia.
  - destruct (Hw _ _ Hs'). constructor; try done. rewrite inv_wg0, Hwait, decide_False by done.
    unfold waiting, w1. simpl. lia.
Qed.

Lemma drop_task U t l1 l2 w :
  (∀ sid, ¬ waits_for sid t) → tasks w = l1 ++ t :: l2 → world_inv U w →
  world_inv U (w <| tasks := l1 ++ l2 |>).
Proof.
  intros Ht El Hw sid s Hs. destruct (Hw _ _ Hs). constructor; try done.
  rewrite inv_wg0. unfold waiting. rewrite El. simpl.
  by rewrite !filter_app, filter_cons, decide_False.
Qed.

(** Any goroutine run from a state of the invariant. *)
Lemma run_task_ok t l1 l2 w :
  tasks w = l1 ++ t :: l2 → world_inv ∅ w →
  match run_task t (w <| tasks := l1 ++ l2 |>) with
  | Ret (w', _) => world_inv ∅ w'
  | Panic why => other_panic why
  | Exhausted => False
  end.
Proof.
  intros El Hw. destruct t as [sid|sid|sid|sid|sid|sid text|sid err]; cbn [run_task].
  1-3: match type of El with
       | _ = _ ++ ?t :: _ =>
           pose proof (finish_task ∅ sid t l1 l2 w ltac:(unfold waits_for; auto) El Hw) as Hf
       end;
    unfold closeDone, mbind, prog_bind; destruct (wg_add sid _ _) as [[w' []]| |]; [|done..];
    by apply keeps_CloseSocket.
  all: assert (Hd : world_inv ∅ (w <| tasks := l1 ++ l2 |>))
    by (eapply drop_task; [|done..]; intros ? [?|[?|?]]; discriminate).
  - done.
  - by apply keeps_sendDefaultWelcome.
  - by apply keeps_sendErrorAndClose.
  - by apply keeps_CloseError.
Qed.

(** ** Runs *)

(** What a goroutine does to the world at once. *)
Inductive action : Type :=
| DoServe (sid : SocketId)
| DoClose (sid : SocketId)
| DoCloseError (sid : SocketId) (err : error)
| DoWritePacket (sid : SocketId) (packet : bytes)
| DoData (sid : SocketId) (message : bytes)
| DoControl (sid : SocketId) (message : bytes)
| DoCommand (sid : SocketId) (p : commands.CommandParameters)
| DoSetInterface (sid : SocketId) (iid : IfaceId)
| DoIfaceRead (sid : SocketId) (read : bytes + error)
| DoCleanup (sid : SocketId)
| DoHandlePacket (packet : bytes).

Definition perform (a : action) : prog (World A I E) unit :=
  match a with
  | DoServe sid => Serve sid
  | DoClose sid => CloseSocket sid
  | DoCloseError sid err => CloseError sid err
  | DoWritePacket sid packet => WritePacket sid packet;; mret tt
  | DoData sid message => dataMessageHandler sid message;; mret tt
  | DoControl sid message => controlMessageHandler sid message;; mret tt
  | DoCommand sid p => MakeAndSendCommand sid p;; mret tt
  | DoSetInterface sid iid => SetInterface sid iid;; mret tt
  | DoIfaceRead sid r => iface_read_step sid r;; mret tt
  | DoCleanup sid => t ← gets now; upd sid (cleanupFragments t)
  | DoHandlePacket packet => HandlePacket None packet;; mret tt
  end.

(** A socket is served once: before it has sent any event. *)
Definition enabled (a : action) w : Prop :=
  match a with DoServe sid => events_of sid w = [] | _ => True end.

Lemma perform_ok a w :
  enabled a w → world_inv ∅ w →
  match perform a w with
  | Ret (w', _) => world_inv ∅ w'
  | Panic why => other_panic why
  | Exhausted => False
  end.
Proof.
  intros He Hw. destruct a; [by apply keeps_Serve|..]; clear He; revert w Hw;
    match goal with |- ∀ w, _ w → match ?m w with _ => _ end => change (keeps (world_inv ∅) m) end;
    cbn [perform]; try (apply keeps_bind; [|intros; apply keeps_ret]).
  - apply keeps_CloseSocket.
  - apply keeps_CloseError.
  - apply keeps_WritePacket.
  - apply keeps_dataMessageHandler.
  - apply keeps_controlMessageHandler.
  - apply keeps_rawMakeAndSendCommand.
  - apply keeps_SetInterface.
  - apply keeps_iface_read_step.
  - keep.
  - apply handle_keeps, inv_socket_api.
Qed.

(** The steps of the program: an action, the run of a waiting goroutine, the
    creation of a socket, the passing of time. *)
Inductive step : World A I E → World A I E → Prop :=
| step_action a w w' :
    enabled a w → perform a w = Ret (w', tt) → step w w'
| step_task t l1 l2 w w' :
    tasks w = l1 ++ t :: l2 → run_task t (w <| tasks := l1 ++ l2 |>) = Ret (w', tt) →
    step w w'
| step_new w sid ad ifc managed pusher :
    socks w !! sid = None → events_of sid w = [] → waiting sid w = 0 →
    step w (w <| socks := <[sid := MakeSocket ad ifc managed pusher]> (socks w) |>)
| step_time w t : step w (w <| now := t |>).

(** A world in which no socket has been made. *)
Definition fresh w : Prop := socks w = ∅ ∧ tasks w = [] ∧ events w = [].

Definition reachable w : Prop := ∃ w0, fresh w0 ∧ rtc step w0 w.

Lemma step_inv w w' : step w w' → world_inv ∅ w → world_inv ∅ w'.
Proof.
  intros [a w1 w2 He Ep|t l1 l2 w1 w2 El Er|w1 sid ad ifc managed pusher Hn Hev Hwt|w1 t] Hw.
  - pose proof (perform_ok a w1 He Hw) as Hp. by rewrite Ep in Hp.
  - pose proof (run_task_ok t l1 l2 w1 El Hw) as Hp. by rewrite Er in Hp.
  - intros sid' s' Hs'. simpl in Hs'. apply lookup_insert_Some in Hs' as [[<- <-]|[Hne Hs']].
    + by constructor.
    + destruct (Hw _ _ Hs'). by constructor.
  - intros sid' s' Hs'. destruct (Hw _ _ Hs'). by constructor.
Qed.

Lemma reachable_inv w : reachable w → world_inv ∅ w.
Proof.
  intros (w0 & (Hs & _) & Hr). assert (Hw : world_inv ∅ w0).
  { unfold world_inv. rewrite Hs. apply map_Forall_empty. }
  clear Hs. revert Hw. induction Hr as [|w1 w2 w3 Hst _ IH]; [done|].
  intros Hw. apply IH. by eapply step_inv.
Qed.

End Runs.

(** ** The properties *)

Section Properties.
Context {A I E : Type} `{SocketAdapterSpec A} `{WaterInterface I} `{!Unregister E}
  `{!UnregisterSpec E} `{NewRandom} `{!PacketHandler A I E} `{!PacketHandlerSpec A I E}
  `{!ClientHandlers A I E} `{!ClientHandlersSpec A I E}.
Implicit Types w : World A I E.

(** C8. In every reachable state the events a socket has pushed are none, one up,
    or one up followed by one down; a socket that has begun to close owes no
    down event. *)
Theorem events_paired w sid s :
  reachable w → socks w !! sid = Some s →
  (events_of sid w = [] ∨ events_of sid w = [EventUp] ∨ events_of sid w = [EventUp; EventDown])
  ∧ (isClosing s = true → events_of sid w ≠ [EventUp]).
Proof.
  intros Hr Hs. destruct (reachable_inv w Hr sid s Hs) as [Hc Hcl _ He _].
  destruct (upEventSent s).
  - destruct He as (-> & Ho & _). rewrite Hcl, Ho. split; [by auto|done].
  - destruct (closeChanOpen s); [rewrite He; split; [by auto|done]|].
    destruct He as [-> | ->]; split; auto.
Qed.

(** The WaitGroup of a socket holds the number of its goroutines that have
    not ended, so that [Wait] returns when, and only when, none is left. *)
Theorem wait_is_complete w sid s :
  reachable w → socks w !! sid = Some s →
  wg s = 0 ↔ AdapterServe sid ∉ tasks w ∧ PingLoop sid ∉ tasks w ∧ IfaceRead sid ∉ tasks w.
Proof.
  intros Hr Hs. rewrite (inv_wg _ _ _ _ (reachable_inv w Hr sid s Hs)).
  unfold waiting, len. split.
  - intros Hn. assert (Hf : filter (waits_for sid) (tasks w) = []) by (apply nil_length_inv; lia).
    assert (Hnone : ∀ t, waits_for sid t → t ∉ tasks w).
    { intros t Ht Hin. assert (t ∈ filter (waits_for sid) (tasks w)) as Hm
        by (by apply list_elem_of_filter). rewrite Hf in Hm. by apply not_elem_of_nil in Hm. }
    split_and!; apply Hnone; unfold waits_for; auto.
  - intros (H1' & H2' & H3'). rewrite filter_none; [done|].
    apply Forall_forall. intros t Ht [->|[->| ->]]; contradiction.
Qed.

(** C9. Whatever goroutine runs next in a reachable state, it neither closes the
    close channel twice nor drives the WaitGroup below zero, and no loop of it
    runs on for ever. *)
Theorem no_double_close w :
  reachable w →
  (∀ a why, enabled a w → perform a w = Panic why →
     why ≠ "close of closed channel"%string
     ∧ why ≠ "sync: negative WaitGroup counter"%string)
  ∧ (∀ a, enabled a w → perform a w ≠ Exhausted)
  ∧ (∀ t l1 l2, tasks w = l1 ++ t :: l2 →
       let o := run_task t (w <| tasks := l1 ++ l2 |>) in
       o ≠ Exhausted ∧ o ≠ Panic "close of closed channel"
       ∧ o ≠ Panic "sync: negative WaitGroup counter").
Proof.
  intros Hr. pose proof (reachable_inv w Hr) as Hw. split_and!.
  - intros a why Ha E1. pose proof (perform_ok a w Ha Hw) as Hp. by rewrite E1 in Hp.
  - intros a Ha E1. pose proof (perform_ok a w Ha Hw) as Hp. by rewrite E1 in Hp.
  - intros t l1 l2 El o. pose proof (run_task_ok t l1 l2 w El Hw) as Hp. fold o in Hp.
    destruct o; try done; destruct Hp; split_and!; congruence.
Qed.

End Properties.

(** ** A closed instance: one socket, no packet handler, no client *)

#[export] Instance unit_interface : WaterInterface unit := {
  iface_write _ i := (i, None); iface_close i := (i, None); iface_set_mtu _ i := (i, None) }.
#[export] Instance unit_unregister : Unregister unit := λ _ _ e, Ret e.
#[export] Instance unit_unregister_spec : UnregisterSpec unit.
Proof. by intros sid ip e. Qed.
#[export] Instance sample_random : NewRandom := λ n, inl ("id-" +:+ itoa (Z.of_nat n)).
#[export] Instance unit_handler {A I} : PacketHandler A I unit := {
  HandlePacket _ _ := mret (false, None); RegisterSocket _ := mret tt }.
#[export] Instance unit_handler_spec {A I} `{SocketAdapter A} `{WaterInterface I} :
  PacketHandlerSpec A I unit.
Proof. constructor; intros; apply keeps_ret. Qed.
#[export] Instance unit_client {A I} : ClientHandlers A I unit :=
  λ _ _ _, mret (Some (ErrText "unknown command")).
#[export] Instance unit_client_spec {A I} `{SocketAdapter A} `{WaterInterface I} :
  ClientHandlersSpec A I unit.
Proof. intros inv _ sid h c. apply keeps_ret. Qed.

Definition no_world : World recorder unit unit := mkWorld ∅ ∅ tt [] [] 0 0.

Definition sample_adapter : recorder := mkRecorder [] [] 0 1184 true true.
Definition one_world : World recorder unit unit :=
  no_world <| socks := <[1%nat := MakeSocket sample_adapter None false true]> (socks no_world) |>.

Definition after {W} (m : prog W unit) (w : W) : W :=
  match m w with Ret (w', _) => w' | _ => w end.

Definition returns {W R} (m : prog W R) (w : W) : bool :=
  match m w with Ret _ => true | _ => false end.

Lemma after_run {W} (m : prog W unit) w : returns m w = true → m w = Ret (after m w, tt).
Proof. unfold returns, after. by destruct (m w) as [[? []]| |]. Qed.

(** The socket is served, says hello, and closes. *)
Definition served_world := after (perform (DoServe 1)) one_world.
Definition closed_world := after (perform (DoClose 1)) served_world.

Lemma served_reachable : reachable served_world.
Proof.
  exists no_world. split; [done|].
  apply rtc_l with one_world.
  { exact (step_new no_world 1 sample_adapter None false true eq_refl eq_refl eq_refl). }
  apply rtc_once.
  assert (Hr : returns (perform (DoServe 1)) one_world = true) by (vm_compute; reflexivity).
  exact (step_action (DoServe 1) one_world served_world eq_refl (after_run _ _ Hr)).
Qed.

Lemma closed_reachable : reachable closed_world.
Proof.
  destruct served_reachable as (w0 & Hf & Hr). exists w0. split; [done|].
  eapply rtc_r; [exact Hr|].
  assert (Hc : returns (perform (DoClose 1)) served_world = true) by (vm_compute; reflexivity).
  exact (step_action (DoClose 1) served_world closed_world I (after_run _ _ Hc)).
Qed.

Lemma events_paired_witness :
  ∃ s, socks closed_world !! 1%nat = Some s ∧
  (events_of 1 closed_world = [] ∨ events_of 1 closed_world = [EventUp]
   ∨ events_of 1 closed_world = [EventUp; EventDown])
  ∧ (isClosing s = true → events_of 1 closed_world ≠ [EventUp]).
Proof.
  destruct (socks closed_world !! 1%nat) as [s|] eqn:Es; [|vm_compute in Es; discriminate].
  exists s. split; [reflexivity|]. apply (events_paired closed_world 1 s).
  - exact closed_reachable.
  - exact Es.
Defined.

Lemma wait_is_complete_witness :
  ∃ s, socks served_world !! 1%nat = Some s ∧
  (wg s = 0 ↔ AdapterServe 1 ∉ tasks served_world ∧ PingLoop 1 ∉ tasks served_world
     ∧ IfaceRead 1 ∉ tasks served_world).
Proof.
  destruct (socks served_world !! 1%nat) as [s|] eqn:Es; [|vm_compute in Es; discriminate].
  exists s. split; [reflexivity|]. apply (wait_is_complete served_world 1 s).
  - exact served_reachable.
  - exact Es.
Defined.

Lemma no_double_close_witness :
  (∀ a why, enabled a closed_world → perform a closed_world = Panic why →
     why ≠ "close of closed channel"%string
     ∧ why ≠ "sync: negative WaitGroup counter"%string)
  ∧ (∀ a, enabled a closed_world → perform a closed_world ≠ Exhausted)
  ∧ (∀ t l1 l2, tasks closed_world = l1 ++ t :: l2 →
       let o := run_task t (closed_world <| tasks := l1 ++ l2 |>) in
       o ≠ Exhausted ∧ o ≠ Panic "close of closed channel"
       ∧ o ≠ Panic "sync: negative WaitGroup counter").
Proof. apply (no_double_close closed_world). exact closed_reachable. Defined.
