(* ===== verification/Protocol.v ===== *)
(** * What the operations of a socket do

    Functional theorems on the operations of [World]: which commands a side may
    send and what the peer reads, which commands are answered, how the features
    are agreed, when packets are ignored, refused, passed on, and how a socket
    closes on an error. *)

From S2P Require Import Prelude Json Commands Adapter Socket Fragment World Lifecycle.
Import adapters.

(** ** Features *)

Lemma used_of_lookup local remote f :
  used_of local remote !! f
  = if feature_get local f && feature_get remote f then Some true else None.
Proof.
  unfold used_of. revert f.
  apply (map_fold_weak_ind (λ used local, ∀ f, used !! f
    = if feature_get local f && feature_get remote f then Some true else None)).
  { intros f. unfold feature_get. by rewrite !lookup_empty. }
  intros feat en m used Hm IH f.
  assert (Hfg : feature_get (<[feat := en]> m) f
    = if decide (feat = f) then en else feature_get m f).
  { unfold feature_get. rewrite lookup_insert. by case_decide. }
  assert (Hno : feature_get m feat = false) by (unfold feature_get; by rewrite Hm).
  rewrite Hfg. destruct en; cbn [negb].
  - destruct (feature_get remote feat) eqn:Er.
    + rewrite lookup_insert. case_decide; subst; [by rewrite Er|apply IH].
    + rewrite IH. case_decide; subst; [by rewrite Hno, Er|done].
  - rewrite IH. case_decide; subst; [by rewrite Hno|done].
Qed.

Lemma features_elem (local : gmap string bool) f :
  f ∈ foldr (λ '(feat, en) l, if negb en then l else feat :: l) [] (map_to_list local)
  ↔ feature_get local f = true.
Proof.
  assert (Hg : ∀ l : list (string * bool),
    f ∈ foldr (λ '(feat, en) l, if negb en then l else feat :: l) [] l ↔ (f, true) ∈ l).
  { intros l. induction l as [|[feat en] l IH]; simpl; [set_solver|].
    destruct en; simpl; rewrite ?elem_of_cons, IH; naive_solver. }
  rewrite Hg, elem_of_map_to_list. unfold feature_get.
  destruct (local !! f) as [[]|]; simpl; split; congruence.
Qed.

Lemma remote_of_lookup (l : list string) (m : gmap string bool) f :
  foldl (λ (m : gmap string bool) v, <[v := true]> m) m l !! f
  = if decide (f ∈ l) then Some true else m !! f.
Proof.
  revert m. induction l as [|x l IH]; intros m; cbn [foldl].
  - rewrite decide_False; [done|]. apply not_elem_of_nil.
  - rewrite IH, lookup_insert. repeat case_decide; set_solver.
Qed.

(** What one side learns from the welcome of the other. *)
Lemma remote_of_welcome {A} (s : Socket A) f :
  feature_get (foldl (λ (m : gmap string bool) v, <[v := true]> m) ∅ (localFeaturesArray s)) f
  = feature_get (localFeatures s) f.
Proof.
  unfold feature_get at 1. rewrite remote_of_lookup. unfold localFeaturesArray.
  rewrite lookup_empty.
  case_decide as Hd; rewrite features_elem in Hd; simpl; [done|].
  by destruct (feature_get (localFeatures s) f).
Qed.

(** C10. After each side of a connection has handled the version command that
    the other side sends, both use the same features, namely those enabled on
    both, both have the same setting of fragmentation, and both are ready. *)
Theorem features_agree {A B} `{SocketAdapter A} `{SocketAdapter B} (a : Socket A) (b : Socket B)
    pa pb :
  welcome a = commands.VersionCmd pa → welcome b = commands.VersionCmd pb →
  let a' := handleVersion pb a in
  let b' := handleVersion pa b in
  usedFeatures a' = usedFeatures b'
  ∧ (∀ f, IsFeatureEnabled a' f = IsLocalFeature a f && IsLocalFeature b f)
  ∧ fragmentationEnabled a'
    = IsLocalFeature a features.Fragmentation && IsLocalFeature b features.Fragmentation
  ∧ fragmentationEnabled b' = fragmentationEnabled a'
  ∧ isReady a' = true ∧ isReady b' = true.
Proof.
  unfold welcome. intros [= <-] [= <-]. cbv zeta.
  assert (Hu : ∀ {X Y} `{SocketAdapter X} (x : Socket X) (y : Socket Y) p,
    p = commands.mkVersion SharedProtocolVersion SharedVersion (Some (localFeaturesArray y)) →
    (∀ f, usedFeatures (handleVersion p x) !! f
       = if IsLocalFeature x f && IsLocalFeature y f then Some true else None)
    ∧ fragmentationEnabled (handleVersion p x)
      = IsFeatureEnabled (handleVersion p x) features.Fragmentation
    ∧ isReady (handleVersion p x) = true).
  { intros X Y ? x y p ->. split_and!; [|reflexivity..]. intros f.
    etransitivity; [apply used_of_lookup|]. cbn [default localFeatures].
    unfold IsLocalFeature. simpl. by rewrite remote_of_welcome. }
  pose proof (Hu A B _ a b _ eq_refl) as (Ha & Fa & Ra).
  pose proof (Hu B A _ b a _ eq_refl) as (Hb & Fb & Rb).
  assert (Ea : ∀ f, IsFeatureEnabled (handleVersion (commands.mkVersion SharedProtocolVersion
    SharedVersion (Some (localFeaturesArray b))) a) f = IsLocalFeature a f && IsLocalFeature b f).
  { intros f. unfold IsFeatureEnabled, feature_get at 1. rewrite Ha. by case_match. }
  assert (Eq : usedFeatures (handleVersion (commands.mkVersion SharedProtocolVersion
      SharedVersion (Some (localFeaturesArray b))) a)
    = usedFeatures (handleVersion (commands.mkVersion SharedProtocolVersion
      SharedVersion (Some (localFeaturesArray a))) b)).
  { apply map_eq. intros f. by rewrite Ha, Hb, andb_comm. }
  split_and!; [done|done|by rewrite Fa, Ea| |done|done].
  rewrite Fa, Fb. unfold IsFeatureEnabled. by rewrite Eq.
Qed.

Lemma features_agree_witness :
  let a := SetLocalFeature features.Fragmentation true
    (MakeSocket (mkRecorder [] [] 0 1184 true true) None true false) in
  let b := SetLocalFeature features.Compression true
    (MakeSocket (mkRecorder [] [] 0 1184 false true) None true false) in
  let pa := commands.mkVersion 12 "dev" (Some [features.Fragmentation]) in
  let pb := commands.mkVersion 12 "dev" (Some [features.Compression]) in
  welcome a = commands.VersionCmd pa ∧ welcome b = commands.VersionCmd pb
  ∧ usedFeatures (handleVersion pb a) = usedFeatures (handleVersion pa b).
Proof.
  split; [reflexivity|]. split; [reflexivity|].
  eapply (features_agree (A := recorder) (B := recorder)); reflexivity.
Defined.

(** The flag of the init command counts only before protocol 12, and there it
    does not by itself decide: protocol 10 always fragments, protocol 11
    fragments whatever the flag says, and older ones follow the flag. *)
Theorem init_fragmentation {A} `{SocketAdapter A} (s : Socket A) (enabled : bool) :
  let s' := HandleInitPacketFragmentation enabled s in
  let v := remoteProtocolVersion s in
  remoteProtocolVersion s' = v
  ∧ (12 <= v → s' = s)
  ∧ (v = 10 ∨ v = 11 → fragmentationEnabled s' = true)
  ∧ (v < 10 → v ≠ 0 → fragmentationEnabled s' = enabled)
  ∧ (v = 0 → fragmentationEnabled s' = fragmentationEnabled s).
Proof.
  cbv zeta. unfold HandleInitPacketFragmentation, featureFieldMinProtocol.
  destruct (Z.leb_spec 12 (remoteProtocolVersion s)) as [Hv|Hv].
  { repeat split; intros; try reflexivity; exfalso; lia. }
  set (s1 := SetLocalFeature features.Fragmentation true s).
  set (s2 := s1 <| remoteFeatures := _ |>).
  assert (Hl : feature_get (localFeatures s2) features.Fragmentation = true).
  { unfold feature_get. simpl. by rewrite lookup_insert_eq. }
  assert (Hr : feature_get (remoteFeatures s2) features.Fragmentation = enabled).
  { unfold feature_get, s2. simpl.
    destruct enabled; [by rewrite lookup_insert_eq|by rewrite lookup_delete_eq]. }
  assert (Ev : remoteProtocolVersion s2 = remoteProtocolVersion s) by done.
  assert (Ef : fragmentationEnabled s2 = fragmentationEnabled s) by done.
  clearbody s2. clear s1.
  rewrite <- Ev in Hv |- *. rewrite <- Ef. clear Ev Ef.
  unfold featureCheck, UndeterminedProtocolVersion, fragmentationMinProtocol,
    fragmentationNegotiatedMinProtocol, featureFieldMinProtocol.
  destruct (Z.eqb_spec (remoteProtocolVersion s2) 0) as [E0|E0].
  { repeat split; intros; try reflexivity; exfalso; lia. }
  assert (Hu : feature_get (used_of (localFeatures s2) (remoteFeatures s2)) features.Fragmentation
    = enabled).
  { unfold feature_get at 1. rewrite used_of_lookup, Hl, Hr. by destruct enabled. }
  split; [done|]. unfold IsFeatureEnabled.
  cbn [fragmentationEnabled usedFeatures localFeatures remoteProtocolVersion upd_field].
  rewrite Hu, Hl. repeat split; intros; try (exfalso; lia).
  - destruct (Z.leb_spec 10 (remoteProtocolVersion s2)), (Z.ltb_spec (remoteProtocolVersion s2) 11),
      (Z.leb_spec 11 (remoteProtocolVersion s2)), (Z.ltb_spec (remoteProtocolVersion s2) 12);
      try reflexivity; exfalso; lia.
  - rewrite (proj2 (Z.leb_gt 10 _)), (proj2 (Z.leb_gt 11 _)) by lia. reflexivity.
Qed.

Section Operations.
Context {A I E : Type} `{SocketAdapterSpec A} `{WaterInterface I} `{!Unregister E}
  `{!UnregisterSpec E} `{NewRandom} `{!PacketHandler A I E} `{!ClientHandlers A I E}.
Implicit Types w : World A I E.

(** ** Commands *)

Definition may_issue (s : Socket A) (p : commands.CommandParameters) : bool :=
  (if IsServer (adapter s) then commands.ServerCanIssue p else commands.ClientCanIssue p)
  && (commands.MinProtocolVersion p <=? remoteProtocolVersion s).

Lemma refuse_command w sid s p id :
  socks w !! sid = Some s → may_issue s p = false →
  rawMakeAndSendCommand sid p id w = Ret (w, Some ErrCommandNotSupported).
Proof.
  intros Hs Hm. rewrite <- (put_lookup w sid s) by done. unfold rawMakeAndSendCommand.
  erewrite run_bind by apply run_sock. unfold may_issue in Hm.
  destruct (if IsServer _ then _ else _); [|done]. cbn [negb andb] in *.
  apply Z.leb_gt in Hm. rewrite (proj2 (Z.ltb_lt _ _)) by done. done.
Qed.

(** What a permitted command with an identifier does on a JSON connection. *)
Lemma send_command w sid s p id ad :
  socks w !! sid = Some s → may_issue s p = true → id ≠ ""%string →
  GetCommandSerializationType (adapter s) = commands.SerializationTypeJSON →
  commands.utf8 id → commands.wf_parameters p →
  (∀ m, (WriteControlMessage m (adapter s)).2 = None) →
  ad = (λ m, (WriteControlMessage m (adapter s)).1) →
  ∃ msg c, rawMakeAndSendCommand sid p id w = Ret (put w sid (s <| adapter := ad msg |>), None)
    ∧ commands.DeserializeCommand msg commands.SerializationTypeJSON = Ret (inl c)
    ∧ commands.InID c = id ∧ commands.InCommand c = commands.command_name p
    ∧ commands.reads_back p c.
Proof.
  intros Hs Hm Hid Hjson Hu Hp Hok ->.
  assert (Hname : commands.utf8 (commands.command_name p)) by (by destruct p).
  destruct (commands.serialize_reads_back id (commands.command_name p) p Hu Hname Hp)
    as (msg & c & Es & Ed & Hc).
  exists msg, c. split; [|done].
  rewrite <- (put_lookup w sid s) at 1 by done. unfold rawMakeAndSendCommand.
  erewrite run_bind by apply run_sock. unfold may_issue in Hm. apply andb_true_iff in Hm as [Hm Hv].
  rewrite Hm. cbn [negb]. apply Z.leb_le in Hv. rewrite (proj2 (Z.ltb_ge _ _)) by done.
  unfold make_command, commands.MakeCommand, commands.makeCommand.
  rewrite !bool_decide_eq_false_2 by done. erewrite run_bind by done. cbv beta iota.
  rewrite Hjson, Es. erewrite run_bind by apply run_adapter. rewrite Hok. done.
Qed.


(** ** Answering commands *)

(** The effect of the handlers that every socket has: the error they return and
    the socket they leave. *)
Definition default_handling (s : Socket A) (c : commands.IncomingCommand)
    : option (Socket A * option error) :=
  match handlers s !! commands.InCommand c with
  | None => Some (s, Some (ErrText "unknown command"))
  | Some VersionHandler =>
      match commands.DeserializeParameters commands.version_fields commands.zero_version c with
      | inl p => Some (handleVersion p s, None)
      | inr err => Some (s, Some err)
      end
  | Some ReplyHandler =>
      match commands.DeserializeParameters commands.reply_fields commands.zero_reply c with
      | inl _ => Some (s, None)
      | inr err => Some (s, Some err)
      end
  | Some MessageHandler =>
      match commands.DeserializeParameters commands.message_fields commands.zero_message c with
      | inl _ => Some (s, None)
      | inr err => Some (s, Some err)
      end
  | Some _ => None
  end.

Definition reply_of (err : option error) : commands.ReplyParameters :=
  commands.mkReply (if err is Some _ then false else true)
    (if err is Some e then error_text e else "OK").

(** The handler ran: what is left is the reply. *)
Lemma control_after_handler w sid s c message s1 err :
  socks w !! sid = Some s →
  commands.DeserializeCommand message (GetCommandSerializationType (adapter s)) = Ret (inl c) →
  default_handling s c = Some (s1, err) →
  controlMessageHandler sid message w =
    ((if bool_decide (commands.InCommand c = commands.ReplyCommandName) then mret None
      else rawMakeAndSendCommand sid (commands.Reply (reply_of err)) (commands.InID c));;
     mret (if err is Some _ then false else true)) (put w sid s1).
Proof.
  intros Hs Hd Hh. rewrite <- (put_lookup w sid s) at 1 by done. unfold controlMessageHandler.
  erewrite run_bind by apply run_sock. rewrite Hd. unfold default_handling in Hh.
  assert (Hr : (match handlers s !! commands.InCommand c with
      | Some h => run_handler sid h c
      | None => mret (Some (ErrText "unknown command"))
      end) (put w sid s) = Ret (put w sid s1, err)).
  { unfold run_handler. repeat case_match; simplify_eq; try done.
    erewrite run_bind by apply run_upd. done. }
  erewrite run_bind by exact Hr. by destruct err.
Qed.

(** C7. A well-formed command for the handlers that every socket has, or for none, is
    handled and then answered exactly once, by a reply with the identifier of
    the command that says whether the handler succeeded; a reply is never
    answered. *)
Theorem replies_once w sid s c message s1 err :
  socks w !! sid = Some s →
  commands.DeserializeCommand message (GetCommandSerializationType (adapter s)) = Ret (inl c) →
  default_handling s c = Some (s1, err) →
  commands.InID c ≠ ""%string → commands.utf8 (commands.InID c) →
  GetCommandSerializationType (adapter s1) = commands.SerializationTypeJSON →
  0 <= remoteProtocolVersion s1 →
  (∀ m, (WriteControlMessage m (adapter s1)).2 = None) →
  let ok := if err is Some _ then false else true in
  if bool_decide (commands.InCommand c = commands.ReplyCommandName)
  then controlMessageHandler sid message w = Ret (put w sid s1, ok)
  else ∃ msg r ad,
    controlMessageHandler sid message w = Ret (put w sid (s1 <| adapter := ad |>), ok)
    ∧ sent_control ad = sent_control (adapter s1) ++ [msg]
    ∧ commands.DeserializeCommand msg commands.SerializationTypeJSON = Ret (inl r)
    ∧ commands.InID r = commands.InID c
    ∧ commands.InCommand r = commands.ReplyCommandName
    ∧ commands.reads_back (commands.Reply (reply_of err)) r.
Proof.
  intros Hs Hd Hh Hid Hu Hj Hv Hok ok.
  rewrite (control_after_handler w sid s c message s1 err) by done.
  case_bool_decide as Hr; [by rewrite run_bind with (w' := put w sid s1) (r := None)|].
  assert (Hs1 : socks (put w sid s1) !! sid = Some s1) by (simpl; apply lookup_insert_eq).
  assert (Hm : may_issue s1 (commands.Reply (reply_of err)) = true).
  { unfold may_issue. simpl. rewrite (proj2 (Z.leb_le _ _)) by done. by destruct (IsServer _). }
  assert (Hp : commands.wf_parameters (commands.Reply (reply_of err))).
  { assert (Ht : err = None ∨ ∃ e, err = Some e ∧ commands.utf8 (error_text e)).
    { unfold default_handling in Hh. repeat case_match; simplify_eq; eauto;
        right; eexists; (split; [done|]); unfold commands.DeserializeParameters in *;
        repeat case_match; simplify_eq; done. }
    destruct Ht as [->|(e & -> & Ht)]; done. }
  destruct (send_command (put w sid s1) sid s1 _ (commands.InID c) _ Hs1 Hm Hid Hj Hu Hp Hok eq_refl)
    as (msg & r & E1 & Hc).
  destruct (WriteControlMessage msg (adapter s1)) as [ad e] eqn:Ew.
  specialize (Hok msg). rewrite Ew in Hok. simpl in Hok. subst e.
  pose proof (control_ok _ _ _ Ew) as [Hsent _].
  exists msg, r, ad. split; [|done].
  erewrite run_bind by exact E1. unfold put. simpl. by rewrite insert_insert_eq.
Qed.

(** ** Packets *)

Lemma run_local {R} w sid s (f : Socket A → outcome (Socket A * R)) s' r :
  socks w !! sid = Some s → f s = Ret (s', r) →
  local_call sid f w = Ret (put w sid s', r).
Proof. intros Hs Hf. unfold local_call. by rewrite Hs, Hf. Qed.

(** C11. Before the versions are known, and from the moment the socket starts to
    close, packets are dropped without error in both directions, and nothing
    else changes. *)
Theorem data_gate w sid s message packet :
  socks w !! sid = Some s →
  remoteProtocolVersion s = 0 ∨ isReady s = false ∨ isClosing s = true →
  dataMessageHandler sid message w = Ret (w, true)
  ∧ WritePacket sid packet w = Ret (w, None).
Proof.
  intros Hs Hg. assert (Hi : ignores_data s = true).
  { unfold ignores_data, UndeterminedProtocolVersion.
    destruct Hg as [->|[->| ->]]; cbn; by rewrite ?orb_true_r. }
  assert (Hr : receive_data (now w) message s = (s, Keep)) by (unfold receive_data; by rewrite Hi).
  split.
  - unfold dataMessageHandler. erewrite run_bind by done. cbv beta.
    erewrite run_bind by (apply (run_local w sid s); [done|by rewrite Hr]).
    by rewrite put_lookup.
  - rewrite <- (put_lookup w sid s) by done. unfold WritePacket.
    erewrite run_bind by apply run_sock. by rewrite Hi.
Qed.

(** ** Closing on an error *)

(** [CloseError] by what [close] leaves. *)
Lemma CloseError_effect w sid s err :
  socks w !! sid = Some s → closeChan s = negb (closeChanOpen s) →
  match CloseError sid err w with
  | Ret (w', _) => ∃ s1 ad ifs e,
      w' = put (w <| ifaces := ifs |> <| env := e |>
              <| events := events w ++ (if eventPusher s && upEventSent s
                                        then [(sid, EventDown)] else []) |>
              <| tasks := if isClosing s then tasks w
                          else tasks w ++ [SendErrorAndClose sid (error_text err)] |>)
            sid (s1 <| adapter := ad |>)
      ∧ lifecycle s1 = (true, true, false, wg s, upEventSent s && negb (eventPusher s), eventPusher s)
      ∧ ad = (if isClosing s then (Close (adapter s)).1 else adapter s)
      ∧ (if packetHandler s then UnregisterSocket sid (AssignedIP s) (env w) = Ret e
         else e = env w)
  | Panic why => other_panic why
  | Exhausted => False
  end.
Proof.
  intros Hs Hc. replace (CloseError sid err w) with (CloseError sid err (put w sid s))
    by (by rewrite put_lookup). unfold CloseError.
  erewrite run_bind by apply run_sock. pose proof (close_effect sid false w s) as Hcl.
  unfold mbind at 1, prog_bind at 1.
  destruct (close sid false (put w sid s)) as [[w1 []]|why|]; [| |done].
  2: { destruct Hcl as [Hp|]; [|done]. rewrite Hc in Hp. by destruct (closeChanOpen s). }
  destruct Hcl as (s1 & ifs & e & -> & El & Er & Ea & Eu).
  rewrite Hc, orb_comm, orb_negb_r in El. destruct (isClosing s); cbn [negb].
  - erewrite run_bind by apply run_adapter. rewrite Ea. eexists s1, _, ifs, e.
    split; [reflexivity|]. done.
  - exists s1, (adapter s1), ifs, e. split; [|done].
    by destruct s1.
Qed.

(** The first error on a socket closes it but leaves its transport open, and
    starts one goroutine that tells the peer and closes the transport; a
    further error closes the transport at once.  Either way the socket is left
    closed and ignores packets, and it pushes a down event exactly if it had
    pushed an up event. *)
Theorem close_error w sid s err :
  socks w !! sid = Some s → eventPusher s || negb (upEventSent s) = true →
  closeChan s = negb (closeChanOpen s) →
  match CloseError sid err w with
  | Ret (w', _) => ∃ s', socks w' !! sid = Some s'
      ∧ isClosing s' = true ∧ closeChan s' = true ∧ upEventSent s' = false
      ∧ ignores_data s' = true
      ∧ events w' = events w ++ (if upEventSent s then [(sid, EventDown)] else [])
      ∧ adapter s' = (if isClosing s then (Close (adapter s)).1 else adapter s)
      ∧ tasks w' = (if isClosing s then tasks w
                    else tasks w ++ [SendErrorAndClose sid (error_text err)])
  | Panic why => other_panic why
  | Exhausted => False
  end.
Proof.
  intros Hs He Hc. pose proof (CloseError_effect w sid s err Hs Hc) as Hce.
  destruct (CloseError sid err w) as [[w' []]| |]; [|done..].
  destruct Hce as (s1 & ad & ifs & e & -> & El & Ha & _). injection El as E1 E2 E3 E4 E5 E6.
  exists (s1 <| adapter := ad |>). split; [simpl; apply lookup_insert_eq|].
  split_and!; try done.
  - simpl. rewrite E5. destruct (eventPusher s), (upEventSent s); done.
  - unfold ignores_data. simpl. rewrite E1. by rewrite orb_true_r.
  - simpl. destruct (eventPusher s), (upEventSent s); done.
Qed.

(** Where fragmentation is in use a packet that is empty or longer than 65535
    bytes is refused: nothing of it is sent, the error is returned, and the
    socket closes with that error. *)
Theorem packet_size_gate w sid s packet :
  socks w !! sid = Some s → accepts_fragments s →
  closeChan s = negb (closeChanOpen s) →
  len packet = 0 ∨ 65535 < len packet →
  let err := ErrText "packet size out of bounds (0 < size <= 65535)" in
  match WritePacket sid packet w with
  | Ret (w', r) => r = Some err
      ∧ (∃ s', socks w' !! sid = Some s' ∧ isClosing s' = true ∧ adapter s' = adapter s)
      ∧ tasks w' = tasks w ++ [SendErrorAndClose sid (error_text err)]
  | Panic why => other_panic why
  | Exhausted => False
  end.
Proof.
  intros Hs [Hi Hf] Hc Hl err. pose proof (len_nonneg packet).
  pose proof (CloseError_effect w sid s err Hs Hc) as Hce.
  unfold WritePacket. erewrite run_bind by (by apply run_sock_at).
  rewrite Hi, Hf. cbn [negb].
  replace ((len packet <=? 0) || (65535 <? len packet)) with true.
  2: { symmetry. apply orb_true_iff. rewrite Z.leb_le, Z.ltb_lt. lia. }
  fold err. unfold mbind, prog_bind.
  destruct (CloseError sid err w) as [[w' []]| |]; [|done..].
  destruct Hce as (s1 & ad & ifs & e & -> & El & Ha & _). injection El as E1 E2 E3 E4 E5 E6.
  assert (Hcl : isClosing s = false).
  { unfold ignores_data in Hi. by apply orb_false_iff in Hi as [_ ?]. }
  rewrite Hcl in *. split_and!; [done| |done].
  exists (s1 <| adapter := ad |>). split; [simpl; apply lookup_insert_eq|done].
Qed.

(** On a client, which has no packet handler, the packet in an unfragmented
    message is written to the interface once, as it is, and the handler
    succeeds exactly if the write does; nothing else changes. *)
Theorem packet_to_interface w sid s iid i packet :
  socks w !! sid = Some s → accepts_fragments s → packetHandler s = false →
  iface s = Some iid → ifaces w !! iid = Some i → 0 < len packet →
  dataMessageHandler sid (128 :: packet) w
  = Ret (w <| ifaces := <[iid := (iface_write packet i).1]> (ifaces w) |>,
         if (iface_write packet i).2 is Some _ then false else true).
Proof.
  intros Hs [Hi Hf] Hp Hif Hii Hl. unfold dataMessageHandler.
  erewrite run_bind by done. cbv beta.
  assert (Hr : receive_data (now w) (128 :: packet) s = (s, Deliver packet)).
  { unfold receive_data. rewrite Hi, Hf, len_cons. cbn [negb].
    by rewrite (proj2 (Z.ltb_ge _ _)) by lia. }
  erewrite run_bind by (apply (run_local w sid s); [done|by rewrite Hr]). cbv beta iota.
  unfold processPacket. rewrite (proj2 (Z.ltb_ge _ _)) by lia.
  erewrite run_bind by apply run_sock. rewrite Hp.
  erewrite run_bind by done. cbv beta iota. erewrite run_bind by apply run_sock. rewrite Hif.
  unfold iface_call. unfold mbind at 1, prog_bind at 1. erewrite run_bind by done.
  simpl. rewrite Hii. destruct (iface_write packet i) as [i' err]. simpl.
  rewrite insert_id by done. done.
Qed.

End Operations.

(** ** Closed instances *)

Definition open_socket : Socket tape :=
  AddCommandHandler commands.ReplyCommandName ReplyHandler
    (AddCommandHandler commands.MessageCommandName MessageHandler
      ((MakeSocket (mkTape [] []) (Some 7%nat) true true)
        <| isReady := true |> <| remoteProtocolVersion := 12 |>
        <| fragmentationEnabled := true |>)).

Definition open_world : World tape unit unit :=
  mkWorld (<[1%nat := open_socket]> ∅) (<[7%nat := tt]> ∅) tt [] [] 0 0.


(** The peer sends a message. *)
Definition sample_message : bytes :=
  string_to_bytes (print_json (commands.command_json (commands.mkOutgoing "5" "message"
    (commands.MessageCmd (commands.mkMessage "error" "bye"))))).

Lemma replies_once_witness :
  ∃ c msg r ad,
    controlMessageHandler 1 sample_message open_world
    = Ret (put open_world 1 (open_socket <| adapter := ad |>), true)
    ∧ sent_control ad = sent_control (adapter open_socket) ++ [msg]
    ∧ commands.DeserializeCommand msg commands.SerializationTypeJSON = Ret (inl r)
    ∧ commands.InID r = commands.InID c
    ∧ commands.InCommand r = commands.ReplyCommandName
    ∧ commands.reads_back (commands.Reply (reply_of None)) r.
Proof.
  destruct (commands.serialize_reads_back "5" "message"
    (commands.MessageCmd (commands.mkMessage "error" "bye")) eq_refl eq_refl (conj eq_refl eq_refl))
    as (m & c & Em & Ed & Hid & Hname & Hc).
  injection Em as <-. exists c.
  assert (Hr : default_handling open_socket c = Some (open_socket, None)).
  { unfold default_handling. rewrite Hname. cbn [commands.reads_back] in Hc. by rewrite Hc. }
  pose proof (replies_once open_world 1 open_socket c sample_message open_socket None eq_refl Ed Hr)
    as Hw.
  rewrite Hid, Hname in *. apply Hw.
  - discriminate.
  - reflexivity.
  - reflexivity.
  - vm_compute. discriminate.
  - reflexivity.
Defined.

Lemma data_gate_witness :
  let w := open_world <| socks := <[1%nat := open_socket <| isClosing := true |>]> (socks open_world) |> in
  dataMessageHandler 1 [128; 1] w = Ret (w, true) ∧ WritePacket 1 [1; 2] w = Ret (w, None).
Proof.
  apply (data_gate _ 1 (open_socket <| isClosing := true |>)); [reflexivity|].
  right. right. reflexivity.
Defined.

Lemma close_error_witness :
  match CloseError 1 (ErrText "bad") open_world with
  | Ret (w', _) => ∃ s', socks w' !! 1%nat = Some s'
      ∧ isClosing s' = true ∧ closeChan s' = true ∧ upEventSent s' = false
      ∧ ignores_data s' = true
      ∧ events w' = events open_world ++ []
      ∧ adapter s' = adapter open_socket
      ∧ tasks w' = tasks open_world ++ [SendErrorAndClose 1 "bad"]
  | Panic why => other_panic why
  | Exhausted => False
  end.
Proof. apply (close_error open_world 1 open_socket); reflexivity. Defined.

Lemma packet_size_gate_witness :
  match WritePacket 1 [] open_world with
  | Ret (w', r) =>
      r = Some (ErrText "packet size out of bounds (0 < size <= 65535)")
      ∧ (∃ s', socks w' !! 1%nat = Some s' ∧ isClosing s' = true ∧ adapter s' = adapter open_socket)
      ∧ tasks w' = tasks open_world
          ++ [SendErrorAndClose 1 "packet size out of bounds (0 < size <= 65535)"]
  | Panic why => other_panic why
  | Exhausted => False
  end.
Proof.
  apply (packet_size_gate open_world 1 open_socket []).
  - reflexivity.
  - split; reflexivity.
  - reflexivity.
  - left. reflexivity.
Defined.

Lemma packet_to_interface_witness :
  dataMessageHandler 1 [128; 69; 0; 0] open_world
  = Ret (open_world <| ifaces := <[7%nat := (iface_write [69; 0; 0] tt).1]> (ifaces open_world) |>,
         true).
Proof.
  refine (eq_trans (packet_to_interface open_world 1 open_socket 7 tt [69; 0; 0] _ _ _ _ _ _) _);
    try reflexivity; split; reflexivity.
Defined.
