(* ===== verification/Link.v ===== *)
(** * One link: from a socket that sends to the socket of its peer

    The two ends of a connection once features are agreed: what one end is asked
    to send, in whole packets or in fragments, its peer passes on, whatever the
    order in which the transport delivers the messages.  Each end is a socket in
    a world of its own, and all that passes between them are messages. *)

From S2P Require Import Prelude Commands Adapter Socket World Lifecycle Fragment Protocol.
Import adapters.

(** ** Sending *)

Section Sender.
Context {A I E : Type} `{SocketAdapterSpec A} `{WaterInterface I} `{Unregister E} `{NewRandom}.
Implicit Types (s : Socket A) (w : World A I E).

(** A transport as long as it works: a message within its limit is sent, and it
    goes on working. *)
Definition keeps_working (W : A → Prop) : Prop :=
  ∀ a m, W a → len m <= MaxDataPayloadLen a →
    (WriteDataMessage m a).2 = None ∧ W (WriteDataMessage m a).1.

(** The socket after a packet was sent over a working transport. *)
Definition written s (packet : bytes) : Socket A :=
  if fragmentationEnabled s then
    match writePacketFragmented packet (MaxDataPayloadLen (adapter s)) s with
    | Ret (s', _) => s'
    | _ => s
    end
  else s <| adapter := (WriteDataMessage packet (adapter s)).1 |>.

(** What a sender on a working transport may be given. *)
Definition fits s (packet : bytes) : Prop :=
  0 < len packet ∧
  if fragmentationEnabled s then sendable (MaxDataPayloadLen (adapter s)) packet
  else len packet <= MaxDataPayloadLen (adapter s).

Section Working.
Context {W : A → Prop} (HW : keeps_working W).

Lemma fragment_message_len id dataLen p count packet i m :
  0 <= p → fragment_message id dataLen p count packet i = Ret m → len m <= p + 5.
Proof.
  intros Hp. unfold fragment_message, go_slice. case_match eqn:Er; [|done].
  apply andb_true_iff in Er as [Er _]. apply andb_true_iff in Er as [Hge Hle].
  apply Z.leb_le in Hge, Hle.
  cbn [mbind outcome_bind]. intros [= <-]. rewrite !len_cons. unfold len. rewrite length_take.
  set (a := u16 (i * p)) in *. assert (Hu : u16 (a + p) <= a + p) by (apply Z.mod_le; lia).
  destruct (Z.ltb_spec dataLen (u16 (a + p))); lia.
Qed.

Lemma write_fragments_works id dataLen p count packet n i s s' err :
  W (adapter s) → 0 <= p → p + 5 <= MaxDataPayloadLen (adapter s) →
  write_fragments id dataLen p count packet n i s = Ret (s', err) →
  err = None ∧ W (adapter s').
Proof.
  intros Hs Hp. revert i s Hs.
  induction n as [|n IH]; intros i s Hs Hlim; cbn [write_fragments]; [by intros [= <- <-]|].
  destruct (fragment_message _ _ _ _ _ _) as [m| |] eqn:Em; [|done..]. cbn [mbind outcome_bind].
  apply fragment_message_len in Em; [|done].
  destruct (HW (adapter s) m Hs ltac:(lia)) as [Hn Hw].
  destruct (WriteDataMessage m (adapter s)) as [ad e] eqn:Ed. simpl in Hn, Hw. subst e.
  apply data_ok in Ed as (_ & Hmax & _). apply IH; [done|]. simpl. by rewrite Hmax.
Qed.

Lemma writePacketFragmented_works packet s s' err :
  W (adapter s) → sendable (MaxDataPayloadLen (adapter s)) packet →
  writePacketFragmented packet (MaxDataPayloadLen (adapter s)) s = Ret (s', err) →
  err = None ∧ W (adapter s').
Proof.
  intros Hs (Hl & Hm & Hlong). unfold writePacketFragmented.
  rewrite (u16_small (len packet)), (u16_small (len packet + 1)) by lia. case_match eqn:Ef.
  - apply Z.leb_le in Ef. destruct (HW (adapter s) (128 :: packet) Hs) as [Hn Hw].
    { rewrite len_cons. lia. }
    destruct (WriteDataMessage _ (adapter s)) as [ad e]. by intros [= <- <-].
  - apply Z.leb_gt in Ef. destruct Hlong as (H5 & _); [lia|].
    cbv zeta. case_match; [done|]. rewrite (u16_small (_ - 5)) by lia.
    apply write_fragments_works; simpl; [done|lia..].
Qed.

(** Sending changes the adapter and the last identifier, and keeps the limit. *)
Lemma written_spec s packet :
  W (adapter s) → fits s packet →
  W (adapter (written s packet))
  ∧ MaxDataPayloadLen (adapter (written s packet)) = MaxDataPayloadLen (adapter s)
  ∧ (∃ ad id, written s packet = s <| adapter := ad |> <| lastFragmentID := id |>)
  ∧ (fragmentationEnabled s = true →
       writePacketFragmented packet (MaxDataPayloadLen (adapter s)) s = Ret (written s packet, None))
  ∧ (fragmentationEnabled s = false →
       sent_data (adapter (written s packet)) = sent_data (adapter s) ++ [packet]).
Proof.
  intros Hs [Hl Hf]. unfold written. destruct (fragmentationEnabled s).
  - destruct (writePacketFragmented_sends packet _ s Hf) as (ad & id & err & k & Ew & _).
    rewrite Ew. destruct (writePacketFragmented_works _ _ _ _ Hs Hf Ew) as [-> Hw].
    apply writePacketFragmented_limit in Ew as Hm. split_and!; try done. by eexists _, _.
  - destruct (HW (adapter s) packet Hs Hf) as [Hn Hw].
    destruct (WriteDataMessage packet (adapter s)) as [ad e] eqn:Ew. simpl in Hn, Hw. subst e.
    apply data_ok in Ew as (Ed & Em & _). split_and!; try done.
    exists ad, (lastFragmentID s). by destruct s.
Qed.

Lemma retry_once packet s s' :
  writePacketFragmented packet (MaxDataPayloadLen (adapter s)) s = Ret (s', None) →
  write_retry retry_fuel packet s = Ret (s', None).
Proof.
  intros Ew. assert (∃ n, retry_fuel = S n) as [n ->].
  { exists (Z.to_nat 65536). unfold retry_fuel. change 65537 with (Z.succ 65536).
    by rewrite Z2Nat.inj_succ by lia. }
  cbn [write_retry]. by rewrite Ew.
Qed.

(** [WritePacket] on a ready socket over a working transport. *)
Lemma run_WritePacket w sid s packet :
  socks w !! sid = Some s → ignores_data s = false → W (adapter s) → fits s packet →
  WritePacket sid packet w = Ret (put w sid (written s packet), None).
Proof.
  intros Hs Hi Hw Hfit. destruct (written_spec s packet Hw Hfit) as (_ & _ & _ & Hfrag & _).
  destruct Hfit as [Hl Hsend].
  unfold WritePacket. erewrite run_bind by (by apply run_sock_at). rewrite Hi.
  destruct (fragmentationEnabled s) eqn:Ef; cbn [negb].
  - destruct Hsend as (Hlen & _).
    rewrite (proj2 (Z.leb_gt _ _)), (proj2 (Z.ltb_ge _ _)) by lia. cbn [orb].
    apply (run_local w sid s); [done|]. apply retry_once. by apply Hfrag.
  - destruct (HW (adapter s) packet Hw Hsend) as [Hn _].
    rewrite <- (put_lookup w sid s) at 1 by done. erewrite run_bind by apply run_adapter.
    rewrite Hn. unfold written. by rewrite Ef.
Qed.

(** A ready sender stays one. *)
Definition sender s : Prop := ignores_data s = false ∧ W (adapter s).

Lemma written_sender s packet :
  sender s → fits s packet →
  sender (written s packet) ∧ (∀ p, fits s p → fits (written s packet) p).
Proof.
  intros [Hi Hw] Hfit. destruct (written_spec s packet Hw Hfit) as (Hw' & Hm & (ad & id & Es) & _).
  split; [split; [by rewrite Es|done]|]. intros p [Hp Hs]. split; [done|]. rewrite Hm. by rewrite Es.
Qed.

(** What a run of sends puts on the transport. *)
Lemma send_all_written packets s :
  sender s → Forall (fits s) packets → fragmentationEnabled s = true →
  send_all packets s = Ret (foldl written s packets, None).
Proof.
  revert s. induction packets as [|p packets IH]; intros s Hs Hf Hfrag; [done|].
  apply Forall_cons in Hf as [Hp Hf]. cbn [send_all foldl].
  destruct (written_spec s p (proj2 Hs) Hp) as (_ & _ & (ad & id & Es) & Hrun & _).
  rewrite (Hrun Hfrag). cbn [mbind outcome_bind].
  destruct (written_sender s p Hs Hp) as [Hs' Hfits]. apply IH; [done| |by rewrite Es].
  eapply Forall_impl; [exact Hf|done].
Qed.

Lemma plain_written packets s :
  sender s → Forall (fits s) packets → fragmentationEnabled s = false →
  sent_data (adapter (foldl written s packets)) = sent_data (adapter s) ++ packets.
Proof.
  revert s. induction packets as [|p packets IH]; intros s Hs Hf Hfrag; [by rewrite app_nil_r|].
  apply Forall_cons in Hf as [Hp Hf]. cbn [foldl].
  destruct (written_spec s p (proj2 Hs) Hp) as (_ & _ & (ad & id & Es) & _ & Hsent).
  destruct (written_sender s p Hs Hp) as [Hs' Hfits].
  rewrite IH; [|done|eapply Forall_impl; [exact Hf|done]|by rewrite Es].
  by rewrite (Hsent Hfrag), <- app_assoc.
Qed.

End Working.
End Sender.

(** ** Receiving *)

(** A message that a receiver that defragments does not refuse. *)
Definition acceptable (m : bytes) : Prop := 2 <= len m ∧ (byte_at m 0 = 128 ∨ 6 <= len m).

Lemma chunk_nonempty p packet i :
  (0 < p)%nat → (i < chunk_count p packet)%nat → 0 < len (chunk p packet i).
Proof.
  intros Hp Hi. unfold chunk, chunk_count, len in *. rewrite length_take, length_drop.
  assert (i * p < length packet)%nat; [|lia].
  pose proof (Nat.div_mod_eq (length packet + p - 1) p).
  pose proof (Nat.mod_upper_bound (length packet + p - 1) p). nia.
Qed.

Lemma wire_acceptable id maxLen packet :
  sendable maxLen packet → Forall acceptable (wire_messages id maxLen packet).
Proof.
  intros (Hl & Hm & Hs). unfold wire_messages. destruct (Z.leb_spec (len packet + 1) maxLen) as [Hle|Hgt].
  - constructor; [|done]. split; [rewrite len_cons; lia|by left].
  - destruct (Hs Hgt) as (H5 & _). apply Forall_fmap, Forall_forall. intros i Hi%elem_of_seq.
    simpl. unfold fragment, acceptable. rewrite len_cons, len_app.
    assert (Hc : 0 < len (chunk (Z.to_nat (maxLen - 5)) packet i)) by (apply chunk_nonempty; lia).
    change (len (packetID_bytes id)) with 4. split; [lia|right; lia].
Qed.

Section Receiver.
Context {A : Type} `{SocketAdapter A}.
Implicit Types s r : Socket A.

(** Receiving a message touches only the reassembly buffer, and one that is
    acceptable is not refused. *)
Lemma receive_data_buffer now m r :
  ∃ d, (receive_data now m r).1 = r <| defragBuffer := d |>.
Proof.
  unfold receive_data, store_fragment. exists (defragBuffer (receive_data now m r).1).
  unfold receive_data, store_fragment. repeat case_match; by destruct r.
Qed.

Lemma receive_acceptable now m r :
  (fragmentationEnabled r = true → acceptable m) → (receive_data now m r).2 ≠ Refuse.
Proof.
  intros Hm. unfold receive_data, store_fragment. destruct (ignores_data r); [done|].
  destruct (fragmentationEnabled r); [|done]. cbn [negb].
  destruct (Hm eq_refl) as [Hl Hm']. rewrite (proj2 (Z.ltb_ge _ _)) by lia.
  destruct (Z.eqb_spec (byte_at m 0) 128) as [|Hne]; [done|].
  rewrite (proj2 (Z.ltb_ge _ _)) by (destruct Hm'; lia). by case_match.
Qed.

(** A socket that does not defragment passes every message on. *)
Lemma receive_plain arrivals r :
  ignores_data r = false → fragmentationEnabled r = false → receive_all arrivals r = (r, arrivals.*2).
Proof.
  intros Hi Hf. induction arrivals as [|[now m] arrivals IH]; [done|]. cbn [receive_all].
  unfold receive_data. rewrite Hi, Hf. cbn [negb]. by rewrite IH.
Qed.

End Receiver.

(** ** The link *)

(** What both ends agree on, and what is to be sent: packets that fit and, where
    they may travel in pieces, identifiers that the receiver can tell apart. *)
Record link {A B} `{SocketAdapter A} (W : A → Prop) (s : Socket A) (r : Socket B)
    (packets : list bytes) : Prop := {
  link_sender : sender (W := W) s;
  link_receiver : ignores_data r = false;
  link_same : fragmentationEnabled r = fragmentationEnabled s;
  link_fits : Forall (fits s) packets;
  link_ids : fragmentationEnabled s = true →
    0 <= lastFragmentID s ∧ lastFragmentID s + len packets < 4294967296 ∧ len packets < 256
    ∧ ∀ id, lastFragmentID s < id <= lastFragmentID s + len packets →
        defragBuffer r !! header_id id = None }.

Lemma link_perm {A B} `{SocketAdapter A} W (s : Socket A) (r : Socket B) l l' :
  l ≡ₚ l' → link W s r l → link W s r l'.
Proof.
  intros Hp [H1' H2' H3' H4' H5']. constructor; [done..|by rewrite <- Hp|].
  intros Hf. replace (len l') with (len l) by (unfold len; by rewrite Hp). auto.
Qed.

(** What is written at one end is what arrives at the other. *)
Lemma link_carries {A B} `{SocketAdapterSpec A} W (s : Socket A) (r : Socket B) packets :
  keeps_working W → link W s r packets →
  ∃ msgs, sent_data (adapter (foldl written s packets)) = sent_data (adapter s) ++ msgs
    ∧ (fragmentationEnabled r = true → Forall acceptable msgs)
    ∧ ∀ arrivals, arrivals.*2 ≡ₚ msgs →
        ∃ out, receive_all arrivals r = (r, out) ∧ out ≡ₚ packets.
Proof.
  intros HW [Hs Hr Hsame Hf Hids]. destruct (fragmentationEnabled s) eqn:Ef.
  - destruct (Hids eq_refl) as (Hpos & Hn & Hlt & Hfree).
    assert (Hsend : Forall (sendable (MaxDataPayloadLen (adapter s))) packets).
    { eapply Forall_impl; [exact Hf|]. intros p [_ Hp]. by rewrite Ef in Hp. }
    destruct (send_all_messages packets s Hsend) as (s' & err & E & Hm).
    rewrite (send_all_written HW packets s Hs Hf Ef) in E. injection E as <- <-.
    eexists. split; [by apply Hm|].
    pose proof (numbered_can_send (lastFragmentID s) _ packets Hsend) as Hcan. split.
    + intros _. apply Forall_concat, Forall_fmap. eapply Forall_impl; [exact Hcan|].
      intros [[id maxLen] packet] Ht. by apply wire_acceptable.
    + intros arrivals Harr.
      rewrite <- (packets_numbered (lastFragmentID s) (MaxDataPayloadLen (adapter s)) packets).
      apply reassembly; [done| | |done].
      * split; [done|by apply numbered_NoDup].
      * apply Forall_forall. intros t Ht. apply Hfree. by apply numbered_ids in Ht.
  - exists packets. split; [by apply (plain_written HW)|]. split; [congruence|].
    intros arrivals Harr. exists arrivals.*2. split; [by apply receive_plain|done].
Qed.
