(* ===== verification/Net.v ===== *)
(** * Addresses: what the program uses of Go's package net

    [net.IP] is a byte slice of 4 or 16 bytes, the nil address the empty one;
    an IPv4 address has two representations.  The package waterutil, a
    third-party one, reads the headers of packets: its functions are the
    methods of a class. *)

From S2P Require Import Prelude Socket.

Definition v4InV6Prefix : bytes := replicate 10 0 ++ [255; 255].

Definition IPv4 (a b c d : Z) : netIP := v4InV6Prefix ++ [a; b; c; d].
Definition IPv4bcast : netIP := IPv4 255 255 255 255.
Definition IPv4zero : netIP := IPv4 0 0 0 0.
Definition IPv6loopback : netIP := replicate 15 0 ++ [1].

Definition To4 (ip : netIP) : netIP :=
  if Nat.eqb (length ip) 4 then ip
  else if Nat.eqb (length ip) 16 && bool_decide (take 12 ip = v4InV6Prefix) then drop 12 ip
  else [].

Definition To16 (ip : netIP) : netIP :=
  if Nat.eqb (length ip) 4 then v4InV6Prefix ++ ip
  else if Nat.eqb (length ip) 16 then ip
  else [].

(** The method [Equal]: an IPv4 address equals its 16-byte form. *)
Definition ip_equal (ip x : netIP) : bool :=
  if Nat.eqb (length ip) (length x) then bool_decide (ip = x)
  else if Nat.eqb (length ip) 4 && Nat.eqb (length x) 16 then
    bool_decide (take 12 x = v4InV6Prefix) && bool_decide (ip = drop 12 x)
  else if Nat.eqb (length ip) 16 && Nat.eqb (length x) 4 then
    bool_decide (take 12 ip = v4InV6Prefix) && bool_decide (drop 12 ip = x)
  else false.

Definition IsUnspecified (ip : netIP) : bool :=
  ip_equal ip IPv4zero || ip_equal ip IPv6unspecified.

(** Tests that look at the 4-byte form where there is one. *)
Definition IsLoopback (ip : netIP) : bool :=
  match To4 ip with
  | [] => ip_equal ip IPv6loopback
  | b :: _ => b =? 127
  end.
Definition IsMulticast (ip : netIP) : bool :=
  match To4 ip with
  | [] => Nat.eqb (length ip) 16 && (byte_at ip 0 =? 255)
  | b :: _ => Z.land b 240 =? 224
  end.
Definition IsLinkLocalUnicast (ip : netIP) : bool :=
  match To4 ip with
  | [] => Nat.eqb (length ip) 16 && (byte_at ip 0 =? 254) && (Z.land (byte_at ip 1) 192 =? 128)
  | b :: r => (b =? 169) && (byte_at r 0 =? 254)
  end.

Definition IsGlobalUnicast (ip : netIP) : bool :=
  (Nat.eqb (length ip) 4 || Nat.eqb (length ip) 16)
  && negb (ip_equal ip IPv4bcast) && negb (IsUnspecified ip) && negb (IsLoopback ip)
  && negb (IsMulticast ip) && negb (IsLinkLocalUnicast ip).

(** github.com/Doridian/water/waterutil *)
Class Waterutil := {
  IPVersion : bytes → Z;
  IPSource : bytes → netIP;
  IPDestination : bytes → netIP;
  MACSource : bytes → bytes;
  MACDestination : bytes → bytes;
  MACEthertype : bytes → Z * Z;
  IsMACUnicast : bytes → bool;
  ethertype_ARP : Z * Z;
  ethertype_IPv4 : Z * Z;
  ethertype_IPv6 : Z * Z;
}.

(** A reader of headers for the closed instances: the fields at their offsets. *)
Definition header_reader : Waterutil := {|
  IPVersion p := Z.shiftr (byte_at p 0) 4;
  IPSource p := if Z.shiftr (byte_at p 0) 4 =? 4 then take 4 (drop 12 p)
                else if Z.shiftr (byte_at p 0) 4 =? 6 then take 16 (drop 8 p) else [];
  IPDestination p := if Z.shiftr (byte_at p 0) 4 =? 4 then take 4 (drop 16 p)
                     else if Z.shiftr (byte_at p 0) 4 =? 6 then take 16 (drop 24 p) else [];
  MACSource p := take 6 (drop 6 p);
  MACDestination p := take 6 p;
  MACEthertype p := (byte_at p 12, byte_at p 13);
  IsMACUnicast a := negb (Z.testbit (byte_at a 0) 0);
  ethertype_ARP := (8, 6);
  ethertype_IPv4 := (8, 0);
  ethertype_IPv6 := (134, 221);
|}.

(** ** The two forms of an address *)

Lemma length_To16 ip : length (To16 ip) = 16%nat ∨ To16 ip = [].
Proof.
  unfold To16. destruct (Nat.eqb_spec (length ip) 4) as [E|_].
  - left. rewrite length_app, E. done.
  - destruct (Nat.eqb_spec (length ip) 16); auto.
Qed.

(** [Equal] is equality of the 16-byte forms. *)
Lemma ip_equal_To16 ip x :
  length ip = 4%nat ∨ length ip = 16%nat → length x = 4%nat ∨ length x = 16%nat →
  ip_equal ip x = true ↔ To16 ip = To16 x.
Proof.
  assert (Hsplit : ∀ l k : bytes, length l = 16%nat →
    bool_decide (take 12 l = v4InV6Prefix) && bool_decide (drop 12 l = k) = true
    ↔ l = v4InV6Prefix ++ k).
  { intros l k Hl. rewrite andb_true_iff, !bool_decide_eq_true. split.
    - intros [<- <-]. by rewrite take_drop.
    - intros ->. rewrite take_app_length', drop_app_length' by done. done. }
  unfold ip_equal, To16. intros [E|E] [F|F]; rewrite E, F; cbn [Nat.eqb andb].
  - rewrite bool_decide_eq_true. split; [by intros ->|apply app_inv_head].
  - replace (bool_decide (ip = drop 12 x)) with (bool_decide (drop 12 x = ip))
      by (apply bool_decide_ext; split; congruence).
    rewrite Hsplit by done. split; congruence.
  - by rewrite Hsplit.
  - by rewrite bool_decide_eq_true.
Qed.
