(* ===== verification/IPSwitch.v ===== *)
(** * The IP switch of the server (TUN mode)

    server/ipswitch: the table of the clients' addresses, which packets a
    client may send, and where a packet goes.  The switch is the [env] of the
    sockets' [World]; it discharges the interface of a packet handler. *)

From S2P Require Import Prelude Commands Adapter Socket Net World Lifecycle Fragment Protocol.
Import adapters.

(** The array type [ipaddr]: sixteen bytes. *)
Abbreviation ipaddr := bytes.

(** [copy(out[:], ip.To16())] into a zeroed array *)
Definition ipToIPAddr (ip : netIP) : ipaddr :=
  let src := To16 ip in src ++ replicate (16 - length src) 0.

Record IPSwitch := mkIPSwitch {
  AllowClientToClient : bool;
  ipTable : gmap ipaddr SocketId }.

#[export] Instance eta_ipswitch : Etable IPSwitch := λ r,
  mkIPSwitch (AllowClientToClient r) (ipTable r).

Definition MakeIPSwitch : IPSwitch := mkIPSwitch false ∅.

Definition UnregisterSocket (sid : SocketId) (assigned : netIP) (g : IPSwitch) : IPSwitch :=
  let ipAddr := ipToIPAddr assigned in
  match ipTable g !! ipAddr with
  | None => g
  | Some ourSocket =>
      if bool_decide (ourSocket ≠ sid) then g
      else g <| ipTable := delete ipAddr (ipTable g) |>
  end.

#[export] Instance ipswitch_unregister : Unregister IPSwitch :=
  λ sid ip g, Ret (UnregisterSocket sid ip g).

#[export] Instance ipswitch_unregister_spec : UnregisterSpec IPSwitch.
Proof. by intros sid ip g. Qed.

Definition findSocketByIP (g : IPSwitch) (ip : netIP) : option SocketId :=
  ipTable g !! ipToIPAddr ip.

(** The sockets a broadcast goes to; Go visits a map in no fixed order, the
    model in one. *)
Definition targetList (g : IPSwitch) (skip : option SocketId) : list SocketId :=
  filter (λ v, Some v ≠ skip) (map_to_list (ipTable g)).*2.

Section IPSwitch.
Context {A I : Type} `{SocketAdapter A} `{WaterInterface I} `{NewRandom} `{Waterutil}.
Abbreviation P := (prog (World A I IPSwitch)).

(** The loop of the broadcasts; errors of single sockets are ignored. *)
Fixpoint write_all (targets : list SocketId) (data : bytes) : P unit :=
  match targets with
  | [] => mret tt
  | socket :: targets => WritePacket socket data;; write_all targets data
  end.

Definition broadcastDataMessage (data : bytes) (skip : option SocketId) : P unit :=
  g ← gets env;
  write_all (targetList g skip) data.

Definition expectedMinLen (packet : bytes) : Z :=
  let v := IPVersion packet in
  if v =? 4 then 20 else if v =? 6 then 40 else 0.

(** The part of [HandlePacket] after the checks of the source. *)
Definition forward (socket : option SocketId) (packet : bytes) (destIP : netIP)
    : P (bool * option error) :=
  g ← gets env;
  if (if socket is None then true else false) || AllowClientToClient g then
    if IsGlobalUnicast destIP then
      match findSocketByIP g destIP with
      | Some socketDest => WritePacket socketDest packet;; mret (true, None)
      | None => mret (false, None)
      end
    else broadcastDataMessage packet socket;; mret (true, None)
  else mret (false, None).

Definition HandlePacket (socket : option SocketId) (packet : bytes) : P (bool * option error) :=
  if len packet <? 1 then mret (true, None)
  else if (expectedMinLen packet <? 1) || (len packet <? expectedMinLen packet)
  then mret (true, None)
  else
    let srcIP := IPSource packet in
    let destIP := IPDestination packet in
    if bool_decide (srcIP = []) || bool_decide (destIP = []) then mret (true, None)
    else
      match socket with
      | None => forward socket packet destIP
      | Some sid =>
          s ← sock sid;
          if negb (ip_equal srcIP (AssignedIP s)) then mret (true, None)
          else forward socket packet destIP
      end.

Definition RegisterSocket (sid : SocketId) : P unit :=
  s ← sock sid;
  let ipAddr := ipToIPAddr (AssignedIP s) in
  g ← gets env;
  modify (λ w, w <| env := g <| ipTable := <[ipAddr := sid]> (ipTable g) |> |>);;
  match ipTable g !! ipAddr with
  | Some oldSocket => CloseError oldSocket (ErrText "IP conflict")
  | None => mret tt
  end.

#[export] Instance ipswitch_handler : PacketHandler A I IPSwitch := {
  HandlePacket := HandlePacket;
  RegisterSocket := RegisterSocket }.

(** ** The switch keeps what its sockets' operations keep *)

Lemma keeps_write_all (inv : World A I IPSwitch → Prop) targets data :
  socket_api inv → keeps inv (write_all targets data).
Proof.
  intros Ha. induction targets as [|t targets IH]; [apply keeps_ret|].
  apply keeps_bind; [apply (api_write _ Ha)|]. by intros _.
Qed.

#[export] Instance ipswitch_handler_spec : PacketHandlerSpec A I IPSwitch.
Proof.
  constructor.
  - intros inv Ha o p. cbn. unfold HandlePacket, forward, broadcastDataMessage.
    pose proof (api_sock _ Ha). pose proof (api_write _ Ha).
    pose proof (keeps_write_all inv) as Hall.
    keep; repeat first [apply Hall; done | keep_step].
  - intros inv Ha sid. cbn. unfold RegisterSocket.
    pose proof (api_sock _ Ha). pose proof (api_close _ Ha).
    keep. apply keeps_modify. intros w. apply (api_env _ Ha).
Qed.

End IPSwitch.

(** ** Addresses as keys *)

Lemma ipToIPAddr_16 ip :
  length ip = 4%nat ∨ length ip = 16%nat → ipToIPAddr ip = To16 ip.
Proof.
  intros Hl. unfold ipToIPAddr. destruct (length_To16 ip) as [->|E].
  - by rewrite app_nil_r.
  - exfalso. revert E. unfold To16, v4InV6Prefix. destruct Hl as [Hl|Hl]; rewrite Hl; cbn.
    + done.
    + intros ->. done.
Qed.

(** ** Sending to several sockets *)

Section Broadcast.
Context {A I : Type} `{SocketAdapterSpec A} `{WaterInterface I} `{NewRandom} `{Waterutil}.
Implicit Types w : World A I IPSwitch.

(** A socket that takes a packet as one message, and whose transport works. *)
Definition takes (s : Socket A) (data : bytes) : Prop :=
  ignores_data s = false ∧ fragmentationEnabled s = false
  ∧ (WriteDataMessage data (adapter s)).2 = None.

Lemma write_one w sid s data :
  socks w !! sid = Some s → takes s data →
  ∃ s', WritePacket sid data w = Ret (put w sid s', None)
    ∧ sent_data (adapter s') = sent_data (adapter s) ++ [data].
Proof.
  intros Hs (Hi & Hf & Hok). exists (s <| adapter := (WriteDataMessage data (adapter s)).1 |>).
  split.
  - unfold WritePacket. erewrite run_bind by (by apply run_sock_at).
    rewrite Hi, Hf. cbn [negb]. rewrite <- (put_lookup w sid s) at 1 by done.
    erewrite run_bind by apply run_adapter. by rewrite Hok.
  - simpl. destruct (WriteDataMessage data (adapter s)) as [ad e] eqn:Ew. simpl in *. subst e.
    by apply data_ok in Ew as [-> _].
Qed.

Lemma write_all_reaches targets data w :
  NoDup targets →
  (∀ sid, sid ∈ targets → ∃ s, socks w !! sid = Some s ∧ takes s data) →
  ∃ w', write_all targets data w = Ret (w', tt)
    ∧ env w' = env w ∧ tasks w' = tasks w ∧ events w' = events w
    ∧ ∀ sid s, socks w !! sid = Some s → ∃ s', socks w' !! sid = Some s'
        ∧ sent_data (adapter s') = sent_data (adapter s)
            ++ (if decide (sid ∈ targets) then [data] else [])
        ∧ (sid ∉ targets → s' = s).
Proof.
  revert w. induction targets as [|t targets IH]; intros w Hnd Hall.
  { exists w. split_and!; try done. intros sid s Hs. exists s. rewrite decide_False by set_solver.
    by rewrite app_nil_r. }
  apply NoDup_cons in Hnd as [Hnin Hnd].
  destruct (Hall t ltac:(set_solver)) as (st & Hst & Htk).
  destruct (write_one w t st data Hst Htk) as (st' & Ew & Esent).
  destruct (IH (put w t st') Hnd) as (w' & Ew' & Ee & Et & Ev & Hrest).
  { intros sid Hin. destruct (Hall sid ltac:(set_solver)) as (s & Hs & Hk).
    exists s. split; [|done]. simpl. rewrite lookup_insert_ne; [done|]. by intros ->. }
  exists w'. cbn [write_all]. erewrite run_bind by exact Ew. split_and!; try done.
  intros sid s Hs. destruct (decide (sid = t)) as [->|Hne].
  - destruct (Hrest t st') as (s' & Hs' & Esent' & Hsame); [simpl; apply lookup_insert_eq|].
    exists s'. split; [done|]. rewrite Hs in Hst. injection Hst as ->.
    rewrite Esent', Esent. rewrite decide_False, decide_True, app_nil_r by set_solver.
    split; [done|set_solver].
  - destruct (Hrest sid s) as (s' & Hs' & Esent' & Hsame); [simpl; by rewrite lookup_insert_ne|].
    exists s'. split; [done|]. rewrite Esent'. split; [|set_solver].
    f_equal. repeat case_decide; set_solver.
Qed.

End Broadcast.

(** ** The properties *)

Section Properties.
Context {A I : Type} `{SocketAdapterSpec A} `{WaterInterface I} `{NewRandom} `{Waterutil}.
Implicit Types w : World A I IPSwitch.

(** A packet long enough for its version, with both addresses. *)
Definition well_formed (packet : bytes) : Prop :=
  0 < expectedMinLen packet <= len packet ∧ IPSource packet ≠ [] ∧ IPDestination packet ≠ [].

Lemma HandlePacket_forward o w packet :
  well_formed packet →
  (∀ sid, o = Some sid → ∃ s, socks w !! sid = Some s ∧ ip_equal (IPSource packet) (AssignedIP s) = true) →
  HandlePacket o packet w = forward o packet (IPDestination packet) w.
Proof.
  intros ((H1' & H2') & Hsrc & Hdst) Hs. unfold HandlePacket.
  rewrite (proj2 (Z.ltb_ge (len packet) 1)), (proj2 (Z.ltb_ge (expectedMinLen packet) 1)),
    (proj2 (Z.ltb_ge (len packet) (expectedMinLen packet))) by lia.
  rewrite !bool_decide_eq_false_2 by done. cbn [orb].
  destruct o as [sid|]; [|done]. destruct (Hs sid eq_refl) as (s & Es & Eip).
  erewrite run_bind by (by apply run_sock_at). by rewrite Eip.
Qed.

(** C15. What a client may send: a packet that is malformed, or whose source is not
    the client's address, is consumed without any effect; and as long as
    clients may not talk to each other nothing a client sends reaches another
    socket: its packets are only consumed or left for the interface. *)
Theorem ip_spoofing w sid s packet :
  socks w !! sid = Some s →
  ((¬ well_formed packet ∨ ip_equal (IPSource packet) (AssignedIP s) = false) →
   HandlePacket (Some sid) packet w = Ret (w, (true, None)))
  ∧ (AllowClientToClient (env w) = false →
     ∃ handled, HandlePacket (Some sid) packet w = Ret (w, (handled, None))
       ∧ (handled = false ↔ well_formed packet
            ∧ ip_equal (IPSource packet) (AssignedIP s) = true)).
Proof.
  intros Hs.
  assert (Hdrop : (¬ well_formed packet ∨ ip_equal (IPSource packet) (AssignedIP s) = false) →
    HandlePacket (Some sid) packet w = Ret (w, (true, None))).
  { intros Hbad. unfold HandlePacket. case_match eqn:E1; [done|]. case_match eqn:E2; [done|].
    case_match eqn:E3; [done|]. apply orb_false_iff in E3 as [E3 E4].
    apply bool_decide_eq_false in E3, E4.
    erewrite run_bind by (by apply run_sock_at).
    destruct Hbad as [Hbad| ->]; [|done]. destruct Hbad. unfold well_formed.
    split; [bool_lia|done]. }
  split; [done|]. intros Hc.
  destruct (ip_equal (IPSource packet) (AssignedIP s)) eqn:Eip.
  2: { exists true. split; [by apply Hdrop; right|]. split; [done|]. by intros [_ ?]. }
  assert (Hd : Decision (well_formed packet)) by (unfold well_formed; apply _).
  destruct Hd as [Hw|Hw].
  - exists false. split; [|done]. rewrite HandlePacket_forward; [|done|].
    + unfold forward. erewrite run_bind by done. cbn [orb]. by rewrite Hc.
    + intros sid' [= <-]. eauto.
  - exists true. split; [by apply Hdrop; left|]. split; [done|]. by intros [? _].
Qed.

(** A well-formed packet from the interface, or from a client where clients may
    talk to each other, goes to the socket that holds its destination address
    and to no other; if no socket does it is left for the interface. *)
Theorem ip_unicast w o packet :
  well_formed packet → IsGlobalUnicast (IPDestination packet) = true →
  o = None ∨ AllowClientToClient (env w) = true →
  (∀ sid, o = Some sid → ∃ s, socks w !! sid = Some s ∧ ip_equal (IPSource packet) (AssignedIP s) = true) →
  HandlePacket o packet w =
    match ipTable (env w) !! To16 (IPDestination packet) with
    | Some dest => (WritePacket dest packet;; mret (true, None)) w
    | None => Ret (w, (false, None))
    end.
Proof.
  intros Hw Hg Ho Hs. rewrite HandlePacket_forward by done. unfold forward.
  erewrite run_bind by done. cbv beta.
  replace ((if o is None then true else false) || AllowClientToClient (env w)) with true
    by (destruct Ho as [->| ->]; by rewrite ?orb_true_r).
  rewrite Hg. unfold findSocketByIP. rewrite ipToIPAddr_16; [by case_match|].
  unfold IsGlobalUnicast in Hg. repeat (apply andb_true_iff in Hg as [Hg _]).
  apply orb_true_iff in Hg. by rewrite !Nat.eqb_eq in Hg.
Qed.

(** A packet to an address that is not global unicast goes once to every socket
    of the table except the one it came from, whatever the order of the table;
    no other socket changes. *)
Theorem ip_broadcast w o packet :
  well_formed packet → IsGlobalUnicast (IPDestination packet) = false →
  o = None ∨ AllowClientToClient (env w) = true →
  (∀ sid, o = Some sid → ∃ s, socks w !! sid = Some s ∧ ip_equal (IPSource packet) (AssignedIP s) = true) →
  NoDup (map_to_list (ipTable (env w))).*2 →
  (∀ k sid, ipTable (env w) !! k = Some sid → ∃ s, socks w !! sid = Some s ∧ takes s packet) →
  ∃ w', HandlePacket o packet w = Ret (w', (true, None)) ∧ env w' = env w
    ∧ ∀ sid s, socks w !! sid = Some s → ∃ s', socks w' !! sid = Some s'
        ∧ (Some sid ≠ o → (∃ k, ipTable (env w) !! k = Some sid) →
             sent_data (adapter s') = sent_data (adapter s) ++ [packet])
        ∧ (Some sid = o ∨ (∀ k, ipTable (env w) !! k ≠ Some sid) → s' = s).
Proof.
  intros Hw Hg Ho Hs Hnd Htake. rewrite HandlePacket_forward by done. unfold forward.
  erewrite run_bind by done. cbv beta.
  replace ((if o is None then true else false) || AllowClientToClient (env w)) with true
    by (destruct Ho as [->| ->]; by rewrite ?orb_true_r).
  rewrite Hg. unfold broadcastDataMessage.
  assert (Hin : ∀ sid, sid ∈ targetList (env w) o
    ↔ Some sid ≠ o ∧ ∃ k, ipTable (env w) !! k = Some sid).
  { intros sid. unfold targetList. rewrite list_elem_of_filter, list_elem_of_fmap.
    split.
    - intros [Hne ([k v] & -> & Hk)]. apply elem_of_map_to_list in Hk. eauto.
    - intros [Hne [k Hk]]. split; [done|]. exists (k, sid). by rewrite elem_of_map_to_list. }
  destruct (write_all_reaches (targetList (env w) o) packet w) as (w' & Ew & Ee & _ & _ & Hrest).
  - by apply NoDup_filter.
  - intros sid [_ [k Hk]]%Hin. by eapply Htake.
  - exists w'. split; [|split; [done|]].
    + unfold mbind, prog_bind, gets. by rewrite Ew.
    + intros sid s Hsid. destruct (Hrest sid s Hsid) as (s' & Hs' & Esent & Hsame).
      exists s'. split; [done|]. split.
      * intros Hne Hk. by rewrite Esent, decide_True by (apply Hin; done).
      * intros Hno. apply Hsame. rewrite Hin. naive_solver.
Qed.

(** Registering a socket under an address that another holds gives the address to
    the new socket for good: the old one is closed, and its unregistering does
    not take the address away again. *)
Theorem ip_takeover w sid s old so :
  socks w !! sid = Some s → ipTable (env w) !! ipToIPAddr (AssignedIP s) = Some old →
  old ≠ sid → socks w !! old = Some so → ipToIPAddr (AssignedIP so) = ipToIPAddr (AssignedIP s) →
  closeChan so = negb (closeChanOpen so) →
  match RegisterSocket sid w with
  | Ret (w', _) =>
      ipTable (env w') = <[ipToIPAddr (AssignedIP s) := sid]> (ipTable (env w))
      ∧ ∃ so', socks w' !! old = Some so' ∧ isClosing so' = true
  | Panic why => other_panic why
  | Exhausted => False
  end.
Proof.
  intros Hs Ht Hne Hso Hip Hc. unfold RegisterSocket.
  erewrite run_bind by (by apply run_sock_at). erewrite run_bind by done.
  erewrite run_bind by done. cbv beta. rewrite Ht.
  set (g := (env w) <| ipTable := <[ipToIPAddr (AssignedIP s) := sid]> (ipTable (env w)) |>).
  pose proof (CloseError_effect (w <| env := g |>) old so (ErrText "IP conflict") Hso Hc) as Hce.
  match type of Hce with match ?m with _ => _ end =>
    match goal with |- match ?m' with _ => _ end => change m' with m end end.
  destruct (CloseError old _ _) as [[w' []]| |]; [|done..].
  destruct Hce as (s1 & ad & ifs & e & -> & El & _ & Eu). injection El as E1 E2 E3 E4 E5 E6.
  assert (He : e = g).
  { destruct (packetHandler so); [|done]. injection Eu as <-. unfold UnregisterSocket.
    simpl. rewrite Hip, lookup_insert_eq, bool_decide_eq_true_2 by congruence. done. }
  subst e. split; [done|]. exists (s1 <| adapter := ad |>). split; [|done].
  simpl. apply lookup_insert_eq.
Qed.

(** Unregistering removes the entry of the socket's own address if it is the
    socket's, and no other entry. *)
Theorem ip_unregister (g : IPSwitch) sid ip k :
  ipTable (UnregisterSocket sid ip g) !! k
  = if decide (k = ipToIPAddr ip ∧ ipTable g !! k = Some sid) then None else ipTable g !! k.
Proof.
  unfold UnregisterSocket. destruct (ipTable g !! ipToIPAddr ip) as [our|] eqn:E.
  - case_bool_decide as Ho.
    + rewrite decide_False; [done|]. intros [-> E']. congruence.
    + subst our. simpl. rewrite lookup_delete.
      repeat case_decide; naive_solver.
  - rewrite decide_False; [done|]. intros [-> E']. congruence.
Qed.

(** A socket that was closed before it is served is registered all the same,
    and the end of its goroutines does not unregister it: its address stays
    with a socket that drops every packet. *)
Theorem dead_registration w sid s :
  socks w !! sid = Some s → isClosing s = true →
  ipTable (env w) !! ipToIPAddr (AssignedIP s) = None →
  ∃ w', RegisterSocket sid w = Ret (w', tt)
    ∧ ipTable (env w') !! ipToIPAddr (AssignedIP s) = Some sid
    ∧ socks w' = socks w
    ∧ CloseSocket sid w' = Ret (w', tt)
    ∧ ∀ packet, WritePacket sid packet w' = Ret (w', None).
Proof.
  intros Hs Hc Ht. eexists. split.
  { unfold RegisterSocket. erewrite run_bind by (by apply run_sock_at).
    erewrite run_bind by done. erewrite run_bind by done. cbv beta. by rewrite Ht. }
  split; [simpl; apply lookup_insert_eq|]. split; [done|]. split.
  - unfold CloseSocket. erewrite run_bind by (by apply run_sock_at). by rewrite Hc.
  - intros packet. unfold WritePacket. erewrite run_bind by (by apply run_sock_at).
    unfold ignores_data. by rewrite Hc, orb_true_r.
Qed.

End Properties.

(** ** Closed instances: two clients, 10.0.0.2 and 10.0.0.3 *)

#[local] Existing Instance header_reader.

Definition client_socket (ip : netIP) : Socket tape :=
  (MakeSocket (mkTape [] []) (Some 0%nat) false true)
    <| AssignedIP := ip |> <| packetHandler := true |> <| isReady := true |>
    <| remoteProtocolVersion := 12 |>.

Definition two_clients (c2c : bool) : World tape unit IPSwitch :=
  mkWorld (<[1%nat := client_socket (IPv4 10 0 0 2)]>
            (<[2%nat := client_socket (IPv4 10 0 0 3)]> ∅)) (<[0%nat := tt]> ∅)
    (mkIPSwitch c2c (<[IPv4 10 0 0 2 := 1%nat]> (<[IPv4 10 0 0 3 := 2%nat]> ∅))) [] [] 0 0.

Definition packet_to (d : bytes) : bytes :=
  [69; 0; 0; 20; 0; 0; 0; 0; 64; 0; 0; 0; 10; 0; 0; 2] ++ d.

Lemma ip_spoofing_witness :
  HandlePacket (Some 2%nat) (packet_to [10; 0; 0; 3]) (two_clients true)
  = Ret (two_clients true, (true, None)).
Proof.
  apply (ip_spoofing (two_clients true) 2 (client_socket (IPv4 10 0 0 3))); [reflexivity|].
  right. reflexivity.
Defined.

Lemma packet_well_formed : well_formed (packet_to [10; 0; 0; 3]).
Proof. split; [vm_compute; split; congruence|split; discriminate]. Qed.

Lemma ip_unicast_witness :
  HandlePacket (Some 1%nat) (packet_to [10; 0; 0; 3]) (two_clients true)
  = (WritePacket 2 (packet_to [10; 0; 0; 3]);; mret (true, None)) (two_clients true).
Proof.
  etransitivity.
  - apply (ip_unicast (two_clients true) (Some 1%nat) (packet_to [10; 0; 0; 3])).
    + exact packet_well_formed.
    + reflexivity.
    + right. reflexivity.
    + intros sid [= <-]. exists (client_socket (IPv4 10 0 0 2)). split; reflexivity.
  - reflexivity.
Defined.

Lemma broadcast_well_formed : well_formed (packet_to [255; 255; 255; 255]).
Proof. split; [vm_compute; split; congruence|split; discriminate]. Qed.

Lemma ip_broadcast_witness :
  ∃ w', HandlePacket (Some 1%nat) (packet_to [255; 255; 255; 255]) (two_clients true)
        = Ret (w', (true, None))
    ∧ env w' = env (two_clients true)
    ∧ ∀ sid s, socks (two_clients true) !! sid = Some s → ∃ s', socks w' !! sid = Some s'
        ∧ (Some sid ≠ Some 1%nat → (∃ k, ipTable (env (two_clients true)) !! k = Some sid) →
             sent_data (adapter s') = sent_data (adapter s) ++ [packet_to [255; 255; 255; 255]])
        ∧ (Some sid = Some 1%nat ∨ (∀ k, ipTable (env (two_clients true)) !! k ≠ Some sid) → s' = s).
Proof.
  apply (ip_broadcast (two_clients true) (Some 1%nat) (packet_to [255; 255; 255; 255])).
  - exact broadcast_well_formed.
  - reflexivity.
  - right. reflexivity.
  - intros sid [= <-]. exists (client_socket (IPv4 10 0 0 2)). split; reflexivity.
  - apply (bool_decide_unpack _). vm_compute. exact I.
  - intros k sid Hk. unfold two_clients in Hk. cbn [env ipTable] in Hk.
    apply lookup_insert_Some in Hk as [[_ <-]|[_ [[_ <-]|[_ Hk]]%lookup_insert_Some]].
    + exists (client_socket (IPv4 10 0 0 2)). split; [reflexivity|split_and!; reflexivity].
    + exists (client_socket (IPv4 10 0 0 3)). split; [reflexivity|split_and!; reflexivity].
    + by rewrite lookup_empty in Hk.
Defined.

(** A third socket takes 10.0.0.3 over. *)
Definition third_client : World tape unit IPSwitch :=
  (two_clients true) <| socks :=
    <[3%nat := client_socket (IPv4 10 0 0 3)]> (socks (two_clients true)) |>.

Lemma ip_takeover_witness :
  match RegisterSocket 3 third_client with
  | Ret (w', _) =>
      ipTable (env w') = <[ipToIPAddr (IPv4 10 0 0 3) := 3%nat]> (ipTable (env third_client))
      ∧ ∃ so', socks w' !! 2%nat = Some so' ∧ isClosing so' = true
  | Panic why => other_panic why
  | Exhausted => False
  end.
Proof.
  apply (ip_takeover third_client 3 (client_socket (IPv4 10 0 0 3)) 2
    (client_socket (IPv4 10 0 0 3))); try reflexivity. discriminate.
Defined.

(** The third socket, of another address, is closed before it is served. *)
Definition dead_client : Socket tape := (client_socket (IPv4 10 0 0 4)) <| isClosing := true |>.
Definition dead_world : World tape unit IPSwitch :=
  (two_clients true) <| socks := <[3%nat := dead_client]> (socks (two_clients true)) |>.

Lemma dead_registration_witness :
  ∃ w', RegisterSocket 3 dead_world = Ret (w', tt)
    ∧ ipTable (env w') !! ipToIPAddr (IPv4 10 0 0 4) = Some 3%nat
    ∧ socks w' = socks dead_world
    ∧ CloseSocket 3 w' = Ret (w', tt)
    ∧ ∀ packet, WritePacket 3 packet w' = Ret (w', None).
Proof. apply (dead_registration dead_world 3 dead_client); reflexivity. Defined.
