(* ===== verification/Frame.v ===== *)
(** * The packet handler's state under the operations of sockets

    The operations of [World] touch the state of the packet handler only by
    unregistering sockets: a property of that state which unregistering keeps
    is kept by writing packets, by closing and by sending commands. *)

From S2P Require Import Prelude Commands Adapter Socket World.
Import adapters.

(** [m] keeps [inv] whenever it returns. *)
Definition preserves {W R} (inv : W → Prop) (m : prog W R) : Prop :=
  ∀ w w' r, inv w → m w = Ret (w', r) → inv w'.

Lemma preserves_ret {W R} (inv : W → Prop) (r : R) : preserves inv (mret r).
Proof. intros w w' r' Hw E. injection E as <- <-. done. Qed.

Lemma preserves_bind {W R R'} (inv : W → Prop) (m : prog W R) (k : R → prog W R') :
  preserves inv m → (∀ r, preserves inv (k r)) → preserves inv (m ≫= k).
Proof.
  intros Hm Hk w w' r Hw E. unfold mbind, prog_bind in E.
  destruct (m w) as [[w1 r1]| |] eqn:E1; [|done..]. eapply Hk; [|exact E]. by eapply Hm.
Qed.

Lemma preserves_gets {W R} (inv : W → Prop) (f : W → R) : preserves inv (gets f).
Proof. intros w w' r Hw E. injection E as <- <-. done. Qed.

Lemma preserves_modify {W} (inv : W → Prop) f :
  (∀ w, inv w → inv (f w)) → preserves inv (modify f).
Proof. intros Hf w w' r Hw E. injection E as <- <-. auto. Qed.

Lemma preserves_panic {W R} (inv : W → Prop) why : preserves (R := R) inv (panic why).
Proof. by intros w w' r _ E. Qed.

Create HintDb frame.
#[export] Hint Resolve preserves_ret preserves_gets preserves_panic : frame.

Ltac frame_step :=
  match goal with
  | |- preserves _ (_ ≫= _) => apply preserves_bind; [|intros ?]
  | |- preserves _ (match ?x with _ => _ end) => destruct x eqn:?
  | |- preserves _ _ => solve [auto with frame]
  end.
Ltac frame := cbv zeta; repeat frame_step.

Section Env.
Context {A I E : Type} `{SocketAdapter A} `{WaterInterface I} `{Unregister E} `{NewRandom}.
Context (J : E → Prop).
Hypothesis unregister_keeps : ∀ sid ip e e', J e → UnregisterSocket sid ip e = Ret e' → J e'.

Definition env_inv (w : World A I E) : Prop := J (env w).

Lemma env_sock sid : preserves env_inv (sock sid).
Proof. intros w w' r Hw. unfold sock. case_match; [|done]. by intros [= <- _]. Qed.

Lemma env_modify (f : World A I E → World A I E) :
  (∀ w, env (f w) = env w) → preserves env_inv (modify f).
Proof. intros Hf. apply preserves_modify. intros w. unfold env_inv. by rewrite Hf. Qed.

Hint Resolve env_sock : frame.
Hint Extern 1 (preserves _ (modify _)) => (apply env_modify; intros ?; reflexivity) : frame.

Lemma env_upd sid f : preserves env_inv (upd sid f).
Proof. unfold upd. frame. Qed.
Lemma env_spawn t : preserves env_inv (spawn t).
Proof. unfold spawn. frame. Qed.
Lemma env_push sid evt : preserves env_inv (push_event sid evt).
Proof. unfold push_event. frame. Qed.
Hint Resolve env_upd env_spawn env_push : frame.

Lemma env_adapter sid f : preserves env_inv (adapter_call sid f).
Proof. unfold adapter_call. frame. Qed.
Lemma env_iface iid f : preserves env_inv (iface_call iid f).
Proof. unfold iface_call. frame. Qed.
Lemma env_unregister sid : preserves env_inv (unregister sid).
Proof.
  intros w w' r Hw. unfold unregister. destruct (socks w !! sid) as [s|]; [|done].
  destruct (UnregisterSocket _ _ _) as [e| |] eqn:E1; [|done..]. intros [= <- _].
  by eapply unregister_keeps.
Qed.
Lemma env_local {R} sid (f : Socket A → outcome (Socket A * R)) :
  preserves env_inv (local_call sid f).
Proof.
  intros w w' r Hw. unfold local_call. repeat case_match; try done. by intros [= <- _].
Qed.
Lemma env_make_command p id : preserves env_inv (make_command p id).
Proof. intros w w' r Hw. unfold make_command. intros [= <- _]. by case_bool_decide. Qed.
Hint Resolve env_adapter env_iface env_unregister env_local env_make_command : frame.

Lemma env_close sid b : preserves env_inv (close sid b).
Proof. unfold close, close_channel. frame. Qed.
Hint Resolve env_close : frame.
Lemma env_CloseError sid err : preserves env_inv (CloseError sid err).
Proof. unfold CloseError. frame. Qed.
Hint Resolve env_CloseError : frame.
Lemma env_CloseSocket sid : preserves env_inv (CloseSocket sid).
Proof. unfold CloseSocket. frame. Qed.
Lemma env_WritePacket sid packet : preserves env_inv (WritePacket sid packet).
Proof. unfold WritePacket. frame. Qed.
Lemma env_command sid p id : preserves env_inv (rawMakeAndSendCommand sid p id).
Proof. unfold rawMakeAndSendCommand. frame. Qed.

End Env.

#[export] Hint Resolve env_sock env_upd env_spawn env_push env_adapter env_iface env_local
  env_make_command : frame.
