(* ===== verification/MACSwitch.v ===== *)
(** * The MAC switch of the server (TAP mode)

    server/macswitch: which hardware addresses a client may use, the table that
    finds the client of an address, the cache of addresses each client has, and
    where a frame goes.  The cache is github.com/hashicorp/golang-lru, a
    third-party package: a class with its documented behaviour as laws. *)

From S2P Require Import Prelude Commands Adapter Socket Net World Lifecycle Fragment Protocol Frame.
Import adapters.

(** The array type [macAddr]: six bytes. *)
Abbreviation macAddr := bytes.

Definition hwAddrToMAC (hw : bytes) : macAddr := take 6 hw ++ replicate (6 - length hw) 0.

(** The cache of the addresses of one client, with the time each was last seen.
    Operations that evict entries return their keys, in the order in which the
    callback given to [lru_new] is called for them. *)
Class LRU (L : Type) := {
  lru_new : Z → L + error;
  lru_contains : macAddr → L → bool;
  lru_add : macAddr → Z → L → L * list macAddr;
  lru_keys : L → list macAddr;
  lru_getoldest : L → option (macAddr * Z);
  lru_remove : macAddr → L → L * list macAddr;
  lru_resize : Z → L → L * list macAddr;
  lru_purge : L → L * list macAddr;
}.

Definition lru_len {L} `{LRU L} (l : L) : Z := len (lru_keys l).

Class LRUSpec (L : Type) `{LRU L} : Prop := {
  new_ok n l : lru_new n = inl l → lru_keys l = [];
  contains_keys k (l : L) : lru_contains k l = true ↔ k ∈ lru_keys l;
  add_keys k t (l : L) x :
    x ∈ lru_keys (lru_add k t l).1 ↔ (x = k ∨ x ∈ lru_keys l) ∧ x ∉ (lru_add k t l).2;
  add_evicts k t (l : L) x : x ∈ (lru_add k t l).2 → x ∈ lru_keys l ∧ x ≠ k;
  add_again k t (l : L) : k ∈ lru_keys l → (lru_add k t l).2 = [];
  remove_keys k (l : L) x : x ∈ lru_keys (lru_remove k l).1 ↔ x ∈ lru_keys l ∧ x ≠ k;
  remove_evicts k (l : L) x : x ∈ (lru_remove k l).2 ↔ x = k ∧ x ∈ lru_keys l;
  remove_len k (l : L) : k ∈ lru_keys l → lru_len (lru_remove k l).1 < lru_len l;
  resize_keys n (l : L) x :
    x ∈ lru_keys (lru_resize n l).1 ↔ x ∈ lru_keys l ∧ x ∉ (lru_resize n l).2;
  resize_evicts n (l : L) x : x ∈ (lru_resize n l).2 → x ∈ lru_keys l;
  purge_evicts (l : L) x : x ∈ (lru_purge l).2 ↔ x ∈ lru_keys l;
  oldest_keys (l : L) k t : lru_getoldest l = Some (k, t) → k ∈ lru_keys l;
}.

(** A nil cache is what [lru.NewWithEvict] returns with an error. *)
Record MACSwitch (L : Type) := mkMACSwitch {
  AllowClientToClient : bool;
  AllowIPSpoofing : bool;
  AllowUnknownEtherTypes : bool;
  AllowMACChanging : bool;
  AllowedMACsPerConnection : Z;
  MACTableTimeout : Z;
  macTable : gmap macAddr SocketId;
  socketTable : gmap SocketId (option L);
  cleanupTimer : bool;          (* it has yet to fire *)
  isRunning : bool }.

Arguments mkMACSwitch {L}. Arguments AllowClientToClient {L}. Arguments AllowIPSpoofing {L}.
Arguments AllowUnknownEtherTypes {L}. Arguments AllowMACChanging {L}.
Arguments AllowedMACsPerConnection {L}. Arguments MACTableTimeout {L}.
Arguments macTable {L}. Arguments socketTable {L}. Arguments cleanupTimer {L}.
Arguments isRunning {L}.

#[export] Instance eta_macswitch {L} : Etable (MACSwitch L) := λ r,
  mkMACSwitch (AllowClientToClient r) (AllowIPSpoofing r) (AllowUnknownEtherTypes r)
    (AllowMACChanging r) (AllowedMACsPerConnection r) (MACTableTimeout r) (macTable r)
    (socketTable r) (cleanupTimer r) (isRunning r).

Definition MakeMACSwitch {L} : MACSwitch L :=
  mkMACSwitch false false false true 1 (600 * Second) ∅ ∅ true true.

Section MACSwitch.
Context {L : Type} `{LRU L}.
Implicit Types g : MACSwitch L.

(** The callback, for the keys that one operation evicted. *)
Definition onMACEvicted (key : macAddr) g : MACSwitch L :=
  g <| macTable := delete key (macTable g) |>.
Definition evicted (keys : list macAddr) g : MACSwitch L :=
  foldl (λ g key, onMACEvicted key g) g keys.

(** An operation on the cache of [sid], which the table points to. *)
Definition on_cache (sid : SocketId) (r : L * list macAddr) g : MACSwitch L :=
  evicted r.2 (g <| socketTable := <[sid := Some r.1]> (socketTable g) |>).

Definition Close g : MACSwitch L := g <| isRunning := false |>.

(** [ConfigUpdate]: a nil cache is dereferenced. *)
Fixpoint resize_all (tables : list (SocketId * option L)) g : outcome (MACSwitch L) :=
  match tables with
  | [] => Ret g
  | (sid, None) :: _ => Panic "nil pointer dereference"
  | (sid, Some table) :: tables =>
      resize_all tables (on_cache sid (lru_resize (AllowedMACsPerConnection g) table) g)
  end.
Definition ConfigUpdate g : outcome (MACSwitch L) :=
  resize_all (map_to_list (socketTable g)) g.

(** The loop of [cleanupMACs]: the oldest entries, while they are too old. *)
Fixpoint cleanupMACs (fuel : nat) (now : Z) (sid : SocketId) (table : L) g
    : outcome (MACSwitch L) :=
  match fuel with
  | O => Exhausted
  | S fuel =>
      match lru_getoldest table with
      | None => Ret g
      | Some (k, v) =>
          if now - v <=? MACTableTimeout g then Ret g
          else
            let r := lru_remove k table in
            cleanupMACs fuel now sid r.1 (on_cache sid r g)
      end
  end.

Fixpoint cleanup_tables (now : Z) (tables : list (SocketId * option L)) g
    : outcome (MACSwitch L) :=
  match tables with
  | [] => Ret g
  | (sid, None) :: _ => Panic "nil pointer dereference"
  | (sid, Some table) :: tables =>
      g ← cleanupMACs (S (length (lru_keys table))) now sid table g;
      cleanup_tables now tables g
  end.

(** One turn of the loop of [cleanupAllMACs], which waits for the timer. *)
Definition cleanupAllMACs_turn (now : Z) g : outcome (MACSwitch L) :=
  let g := g <| cleanupTimer := false |> in
  if negb (AllowMACChanging g) then Ret g
  else cleanup_tables now (map_to_list (socketTable g)) g.

Definition UnregisterSocket (sid : SocketId) g : MACSwitch L :=
  match mjoin (socketTable g !! sid) with
  | None => g
  | Some socketTbl =>
      let g := g <| macTable := foldl (λ t mac, delete mac t) (macTable g) (lru_keys socketTbl) |> in
      let g := g <| socketTable := delete sid (socketTable g) |> in
      evicted (lru_purge socketTbl).2 g
  end.

#[export] Instance macswitch_unregister : Unregister (MACSwitch L) :=
  λ sid _ g, Ret (UnregisterSocket sid g).
#[export] Instance macswitch_unregister_spec : UnregisterSpec (MACSwitch L).
Proof. by intros sid ip g. Qed.

Definition findSocketByMAC g (hwAddr : bytes) : option SocketId := macTable g !! hwAddrToMAC hwAddr.

Definition targetList g (skip : option SocketId) : list SocketId :=
  filter (λ v, Some v ≠ skip) (map_to_list (socketTable g)).*1.

Context {A I : Type} `{SocketAdapter A} `{WaterInterface I} `{NewRandom} `{Waterutil}.
Abbreviation P := (prog (World A I (MACSwitch L))).

Fixpoint write_all (targets : list SocketId) (data : bytes) : P unit :=
  match targets with
  | [] => mret tt
  | socket :: targets => WritePacket socket data;; write_all targets data
  end.

Definition broadcastDataMessage (data : bytes) (skip : option SocketId) : P unit :=
  g ← gets env;
  write_all (targetList g skip) data.

Definition modify_env (f : MACSwitch L → MACSwitch L) : P unit :=
  modify (λ w, w <| env := f (env w) |>).

Definition setMACFrom (socket : SocketId) (msg : bytes) : P bool :=
  let srcMAC := MACSource msg in
  if negb (IsMACUnicast srcMAC) then mret false
  else
    let srcMACAddr := hwAddrToMAC srcMAC in
    g ← gets env;
    t ← gets now;
    match mjoin (socketTable g !! socket) with
    | None => mret false
    | Some socketMACs =>
        if lru_contains srcMACAddr socketMACs then
          modify_env (on_cache socket (lru_add srcMACAddr t socketMACs));;
          mret true
        else if negb (AllowMACChanging g) && (0 <? lru_len socketMACs) then mret false
        else
          match macTable g !! srcMACAddr with
          | Some _ =>
              CloseError socket (ErrText "MAC collision");;
              mret false
          | None =>
              modify_env (λ g, g <| macTable := <[srcMACAddr := socket]> (macTable g) |>);;
              modify_env (on_cache socket (lru_add srcMACAddr t socketMACs));;
              mret true
          end
    end.

Definition EthernetLength : nat := 14.

(** The check of the inner packet's source address. *)
Definition ip_allowed (assigned : netIP) (etherType : Z * Z) (packet : bytes) : bool :=
  let expected :=
    if bool_decide (etherType = ethertype_IPv4) then Some (4, 20)
    else if bool_decide (etherType = ethertype_IPv6) then Some (6, 40) else None in
  match expected with
  | None => true
  | Some (version, minLen) =>
      if len packet <? Z.of_nat EthernetLength + minLen then false
      else if negb (IPVersion (drop EthernetLength packet) =? version) then false
      else ip_equal (IPSource (drop EthernetLength packet)) assigned
  end.

(** Where a frame that passed the checks goes. *)
Definition forward (socket : option SocketId) (packet : bytes) : P (bool * option error) :=
  g ← gets env;
  if (if socket is None then true else false) || AllowClientToClient g then
    let destMAC := MACDestination packet in
    if IsMACUnicast destMAC then
      match findSocketByMAC g destMAC with
      | Some socketDest => WritePacket socketDest packet;; mret (true, None)
      | None => mret (false, None)
      end
    else broadcastDataMessage packet socket;; mret (false, None)
  else mret (false, None).

Definition HandlePacket (socket : option SocketId) (packet : bytes) : P (bool * option error) :=
  g ← gets env;
  if len packet <? Z.of_nat EthernetLength then mret (negb (AllowUnknownEtherTypes g), None)
  else
    let etherType := MACEthertype packet in
    if negb (AllowUnknownEtherTypes g) && bool_decide (etherType ≠ ethertype_ARP)
       && bool_decide (etherType ≠ ethertype_IPv4) && bool_decide (etherType ≠ ethertype_IPv6)
    then mret (true, None)
    else
      match socket with
      | None => forward None packet
      | Some sid =>
          ok ← setMACFrom sid packet;
          if negb (ok : bool) then mret (true, None)
          else
            s ← sock sid;
            if negb (AllowIPSpoofing g) && negb (ip_allowed (AssignedIP s) etherType packet)
            then mret (true, None)
            else forward socket packet
      end.

Definition RegisterSocket (sid : SocketId) : P unit :=
  g ← gets env;
  match lru_new (AllowedMACsPerConnection g) with
  | inl l => modify_env (λ g, g <| socketTable := <[sid := Some l]> (socketTable g) |>)
  | inr err =>
      modify_env (λ g, g <| socketTable := <[sid := None]> (socketTable g) |>);;
      spawn (CloseErrorLater sid err)
  end.

#[export] Instance macswitch_handler : PacketHandler A I (MACSwitch L) := {
  HandlePacket := HandlePacket;
  RegisterSocket := RegisterSocket }.

Lemma keeps_modify_env (inv : World A I (MACSwitch L) → Prop) f :
  socket_api inv → keeps inv (modify_env f).
Proof. intros Ha. apply keeps_modify. intros w. apply (api_env _ Ha). Qed.

Lemma keeps_table_writes (inv : World A I (MACSwitch L) → Prop) targets data :
  socket_api inv → keeps inv (write_all targets data).
Proof.
  intros Ha. induction targets as [|t targets IH]; [apply keeps_ret|].
  apply keeps_bind; [apply (api_write _ Ha)|]. by intros _.
Qed.

#[export] Instance macswitch_handler_spec : PacketHandlerSpec A I (MACSwitch L).
Proof.
  constructor; intros inv Ha; intros; cbn;
    unfold HandlePacket, forward, setMACFrom, broadcastDataMessage, RegisterSocket;
    pose proof (api_sock _ Ha); pose proof (api_write _ Ha); pose proof (api_close _ Ha);
    pose proof (api_later _ Ha);
    repeat first [apply keeps_table_writes; done | apply keeps_modify_env; done | progress keep].
Qed.

End MACSwitch.

(** ** The two tables agree *)

Section Tables.
Context {L : Type} `{LRUSpec L}.
Implicit Types g : MACSwitch L.

(** The clients' addresses as one relation: what the caches hold. *)
Definition holds g (sid : SocketId) (mac : macAddr) : Prop :=
  ∃ l, socketTable g !! sid = Some (Some l) ∧ mac ∈ lru_keys l.

(** An address leads to the client whose cache has it, and to no other. *)
Definition tables_agree g : Prop :=
  ∀ mac sid, macTable g !! mac = Some sid ↔ holds g sid mac.

Lemma evicted_fields keys g :
  evicted keys g = g <| macTable := foldl (λ t mac, delete mac t) (macTable g) keys |>.
Proof.
  unfold evicted. revert g. induction keys as [|k keys IH]; intros g; simpl; [by destruct g|].
  by rewrite IH.
Qed.

Lemma foldl_delete_mac (keys : list macAddr) (t : gmap macAddr SocketId) x :
  foldl (λ t mac, delete mac t) t keys !! x = if decide (x ∈ keys) then None else t !! x.
Proof.
  revert t. induction keys as [|k keys IH]; intros t; cbn [foldl].
  { rewrite decide_False; [done|]. apply not_elem_of_nil. }
  rewrite IH, lookup_delete. repeat case_decide; set_solver.
Qed.

Lemma on_cache_mac sid r g x :
  macTable (on_cache sid r g) !! x = if decide (x ∈ r.2) then None else macTable g !! x.
Proof. unfold on_cache. rewrite evicted_fields. simpl. apply foldl_delete_mac. Qed.

Lemma on_cache_holds sid r g sid' x :
  holds (on_cache sid r g) sid' x ↔ if decide (sid' = sid) then x ∈ lru_keys r.1 else holds g sid' x.
Proof.
  unfold on_cache, holds. rewrite evicted_fields. simpl. rewrite lookup_insert.
  case_decide as E1; case_decide as E2; try congruence; [|done].
  split; [by intros (l & [= <-] & ?)|eauto].
Qed.

(** An operation that only evicts. *)
Lemma evict_agree sid l r g :
  tables_agree g → socketTable g !! sid = Some (Some l) →
  (∀ x, x ∈ lru_keys r.1 ↔ x ∈ lru_keys l ∧ x ∉ r.2) → (∀ x, x ∈ r.2 → x ∈ lru_keys l) →
  tables_agree (on_cache sid r g).
Proof.
  intros Ha Hl Hk He mac sid'. rewrite on_cache_mac, on_cache_holds.
  assert (Hsid : holds g sid mac ↔ mac ∈ lru_keys l).
  { unfold holds. rewrite Hl. split; [by intros (? & [= <-] & ?)|eauto]. }
  case_decide as Hm; case_decide as Hs; [subst sid'|..].
  - split; [done|]. rewrite Hk. naive_solver.
  - split; [done|]. intros Hh. apply He in Hm. apply Hsid, Ha in Hm. apply Ha in Hh. congruence.
  - subst sid'. rewrite (Ha mac sid), Hsid, Hk. naive_solver.
  - apply Ha.
Qed.

Lemma add_again_agree sid l k t g :
  tables_agree g → socketTable g !! sid = Some (Some l) → k ∈ lru_keys l →
  tables_agree (on_cache sid (lru_add k t l) g).
Proof.
  intros Ha Hl Hk. apply (evict_agree sid l); [done|done| |].
  - intros x. rewrite (add_keys k t l x). naive_solver.
  - intros x Hx. rewrite (add_again k t l Hk) in Hx. by apply not_elem_of_nil in Hx.
Qed.

Lemma learn_agree sid l k t g :
  tables_agree g → socketTable g !! sid = Some (Some l) → macTable g !! k = None →
  tables_agree (on_cache sid (lru_add k t l) (g <| macTable := <[k := sid]> (macTable g) |>)).
Proof.
  intros Ha Hl Hk mac sid'. rewrite on_cache_mac, on_cache_holds. simpl.
  assert (Hsid : ∀ x, holds g sid x ↔ x ∈ lru_keys l).
  { intros x. unfold holds. rewrite Hl. split; [by intros (? & [= <-] & ?)|eauto]. }
  change (holds _ sid' mac) with (holds g sid' mac). rewrite lookup_insert.
  assert (Hfree : k ∉ lru_keys l).
  { intros Hin. apply Hsid, Ha in Hin. congruence. }
  case_decide as Hm.
  - (* just evicted *)
    pose proof (add_evicts _ _ _ _ Hm) as [Hm' Hne]. apply Hsid, Ha in Hm'. split; [done|].
    case_decide; [subst; rewrite (add_keys k t l mac); naive_solver|].
    intros Hh. apply Ha in Hh. congruence.
  - case_decide as Hkm; [subst mac|].
    + (* the new one *)
      case_decide as Hs.
      * subst sid'. rewrite (add_keys k t l k). naive_solver.
      * split; [congruence|]. intros Hh. apply Ha in Hh. congruence.
    + rewrite (Ha mac sid'). case_decide as Hs; [|done].
      subst sid'. rewrite Hsid, (add_keys k t l mac). naive_solver.
Qed.

Lemma resize_all_agree tables g g' :
  tables_agree g → NoDup tables.*1 → (∀ sid o, (sid, o) ∈ tables → socketTable g !! sid = Some o) →
  resize_all tables g = Ret g' → tables_agree g'.
Proof.
  revert g. induction tables as [|[sid [l|]] tables IH]; intros g Ha Hnd Ht E1; [|..|done].
  { by injection E1 as <-. }
  cbn [resize_all] in E1. apply NoDup_cons in Hnd as [Hnin Hnd].
  eapply IH; [| |  |exact E1]; [|done|].
  - apply (evict_agree sid l); [done|apply Ht; left|intros x; apply resize_keys|
      intros x; apply resize_evicts].
  - intros sid' o Hin. unfold on_cache. rewrite evicted_fields. simpl.
    rewrite lookup_insert_ne; [apply Ht; by right|]. intros <-. apply Hnin.
    apply list_elem_of_fmap. by exists (sid, o).
Qed.

Lemma map_tables g :
  NoDup (map_to_list (socketTable g)).*1
  ∧ ∀ sid o, (sid, o) ∈ map_to_list (socketTable g) → socketTable g !! sid = Some o.
Proof. split; [apply NoDup_fst_map_to_list|]. intros sid o. by rewrite elem_of_map_to_list. Qed.

Lemma ConfigUpdate_agree g g' :
  tables_agree g → ConfigUpdate g = Ret g' → tables_agree g'.
Proof. intros Ha. apply resize_all_agree; [done|apply map_tables..]. Qed.

(** Cleaning one cache: with fuel for its entries it ends, agrees, and leaves the
    other caches alone. *)
Lemma cleanupMACs_agree fuel now sid l g :
  tables_agree g → socketTable g !! sid = Some (Some l) → lru_len l < Z.of_nat fuel →
  ∃ g' l', cleanupMACs fuel now sid l g = Ret g' ∧ tables_agree g'
    ∧ socketTable g' = <[sid := Some l']> (socketTable g)
    ∧ cleanupTimer g' = cleanupTimer g.
Proof.
  revert l g. induction fuel as [|fuel IH]; intros l g Ha Hl Hf.
  { unfold lru_len in Hf. pose proof (len_nonneg (lru_keys l)). lia. }
  cbn [cleanupMACs]. destruct (lru_getoldest l) as [[k v]|] eqn:Eo.
  2: { exists g, l. by rewrite insert_id. }
  case_match; [exists g, l; by rewrite insert_id|].
  apply oldest_keys in Eo. pose proof (remove_len k l Eo).
  destruct (IH (lru_remove k l).1 (on_cache sid (lru_remove k l) g)) as (g' & l' & E1 & Ha' & Es & Et).
  - apply (evict_agree sid l); [done|done| |].
    + intros x. rewrite remove_keys, remove_evicts. naive_solver.
    + intros x. rewrite remove_evicts. naive_solver.
  - unfold on_cache. rewrite evicted_fields. simpl. apply lookup_insert_eq.
  - lia.
  - exists g', l'. split_and!; [done|done| |].
    + rewrite Es. unfold on_cache. rewrite evicted_fields. simpl. by rewrite insert_insert_eq.
    + rewrite Et. unfold on_cache. by rewrite evicted_fields.
Qed.

Lemma cleanup_tables_agree now tables g :
  tables_agree g → NoDup tables.*1 → (∀ sid o, (sid, o) ∈ tables → socketTable g !! sid = Some o) →
  (∀ sid, (sid, None) ∉ tables) →
  ∃ g', cleanup_tables now tables g = Ret g' ∧ tables_agree g' ∧ cleanupTimer g' = cleanupTimer g.
Proof.
  revert g. induction tables as [|[sid [l|]] tables IH]; intros g Ha Hnd Ht Hn; [eauto|..].
  2: { destruct (Hn sid). by left. }
  cbn [cleanup_tables]. apply NoDup_cons in Hnd as [Hnin Hnd].
  destruct (cleanupMACs_agree (S (length (lru_keys l))) now sid l g) as (g1 & l1 & E1 & Ha1 & Es & Et).
  { done. } { apply Ht. by left. } { unfold lru_len, len. lia. }
  rewrite E1. simpl. rewrite <- Et. apply IH; [done|done| |].
  - intros sid' o Hin. rewrite Es, lookup_insert_ne; [apply Ht; by right|].
    intros <-. apply Hnin, list_elem_of_fmap. by exists (sid, o).
  - intros sid' Hin. apply (Hn sid'). by right.
Qed.

Lemma foldl_delete_subset (keys : list macAddr) (t : gmap macAddr SocketId) x sid :
  foldl (λ t mac, delete mac t) t keys !! x = Some sid ↔ x ∉ keys ∧ t !! x = Some sid.
Proof. rewrite foldl_delete_mac. case_decide; naive_solver. Qed.

Lemma UnregisterSocket_agree sid g : tables_agree g → tables_agree (UnregisterSocket sid g).
Proof.
  intros Ha. unfold UnregisterSocket.
  destruct (socketTable g !! sid) as [[l|]|] eqn:Es; simpl; [|done..].
  intros mac sid'. rewrite evicted_fields. simpl. rewrite !foldl_delete_subset, purge_evicts, (Ha mac sid').
  unfold holds. simpl. setoid_rewrite lookup_delete_Some. split.
  - intros (Hn & _ & l' & Hl' & Hin). exists l'. split_and!; [|done|done].
    intros <-. rewrite Es in Hl'. by injection Hl' as <-.
  - intros (l' & [Hne Hl'] & Hin).
    assert (Hnl : mac ∉ lru_keys l).
    { intros Hin'. assert (macTable g !! mac = Some sid) as E1 by (apply Ha; by exists l).
      assert (macTable g !! mac = Some sid') as E2 by (apply Ha; by exists l'). congruence. }
    split_and!; eauto.
Qed.

End Tables.

(** ** The properties *)

Section Properties.
Context {L A I : Type} `{LRUSpec L} `{SocketAdapterSpec A} `{WaterInterface I} `{NewRandom}
  `{Waterutil}.
Implicit Types w : World A I (MACSwitch L).

Abbreviation agree := (env_inv (A := A) (I := I) (tables_agree (L := L))).

Lemma unregister_agree sid ip (e e' : MACSwitch L) :
  tables_agree e → World.UnregisterSocket sid ip e = Ret e' → tables_agree e'.
Proof. intros Ha E1. injection E1 as <-. by apply UnregisterSocket_agree. Qed.

(** [setMACFrom] by cases, on the address it reads. *)
Lemma setMACFrom_cases sid msg w :
  setMACFrom sid msg w =
    let mac := hwAddrToMAC (MACSource msg) in
    let g := env w in
    if negb (IsMACUnicast (MACSource msg)) then Ret (w, false)
    else match mjoin (socketTable g !! sid) with
    | None => Ret (w, false)
    | Some l =>
        if lru_contains mac l
        then Ret (w <| env := on_cache sid (lru_add mac (now w) l) g |>, true)
        else if negb (AllowMACChanging g) && (0 <? lru_len l) then Ret (w, false)
        else match macTable g !! mac with
             | Some _ => (CloseError sid (ErrText "MAC collision");; mret false) w
             | None => Ret (w <| env := on_cache sid (lru_add mac (now w) l)
                                (g <| macTable := <[mac := sid]> (macTable g) |>) |>, true)
             end
    end.
Proof.
  unfold setMACFrom. case_match; [done|]. unfold mbind at 1 2, prog_bind at 1 2. cbn [gets].
  cbv zeta. repeat case_match; done.
Qed.

Lemma setMACFrom_agree sid msg : preserves agree (setMACFrom sid msg).
Proof.
  intros w w' r Hw. rewrite setMACFrom_cases. cbv zeta.
  case_match; [by intros [= <- _]|].
  destruct (socketTable (env w) !! sid) as [[l|]|] eqn:El; simpl; try by intros [= <- _].
  destruct (lru_contains _ l) eqn:Ec.
  { intros [= <- _]. apply add_again_agree; [done|done|]. by apply contains_keys. }
  case_match; [by intros [= <- _]|].
  destruct (macTable (env w) !! _) as [o|] eqn:Em.
  - intros E1. eapply (preserves_bind agree); [| |exact Hw|exact E1].
    + apply env_CloseError. apply unregister_agree.
    + intros ?. apply preserves_ret.
  - intros E1. injection E1 as <- <-. by apply learn_agree.
Qed.

Lemma write_all_agree targets data : preserves agree (write_all targets data).
Proof.
  induction targets; cbn [write_all]; [apply preserves_ret|].
  apply preserves_bind; [|done]. apply env_WritePacket, unregister_agree.
Qed.

Lemma HandlePacket_agree o packet : preserves agree (HandlePacket o packet).
Proof.
  pose proof setMACFrom_agree. pose proof write_all_agree.
  assert (∀ sid p, preserves agree (WritePacket sid p))
    by (intros; apply env_WritePacket, unregister_agree).
  unfold HandlePacket, forward, broadcastDataMessage. frame.
Qed.



(** A frame from the interface goes to the client that holds its destination and
    to no other, and is left for the interface if none does. *)
Theorem mac_unicast w packet :
  14 <= len packet → AllowUnknownEtherTypes (env w) = true →
  IsMACUnicast (MACDestination packet) = true →
  HandlePacket None packet w =
    match macTable (env w) !! hwAddrToMAC (MACDestination packet) with
    | Some dest => (WritePacket dest packet;; mret (true, None)) w
    | None => Ret (w, (false, None))
    end.
Proof.
  intros Hlen Hu Hm. unfold HandlePacket. erewrite run_bind by done. cbv beta.
  rewrite (proj2 (Z.ltb_ge _ _)) by (unfold EthernetLength; lia). rewrite Hu. cbn [negb andb].
  unfold forward. erewrite run_bind by done. cbn [orb]. rewrite Hm. unfold findSocketByMAC.
  by case_match.
Qed.

(** If no cache can be made for the configured number of addresses, a client leaves
    a nil cache behind that unregistering does not remove, and the next change
    of the configuration dereferences it. *)
Theorem no_cache w sid err :
  lru_new (AllowedMACsPerConnection (env w)) = inr err → socketTable (env w) = ∅ →
  ∃ w', RegisterSocket sid w = Ret (w', tt)
    ∧ tasks w' = tasks w ++ [CloseErrorLater sid err]
    ∧ UnregisterSocket sid (env w') = env w'
    ∧ ConfigUpdate (env w') = Panic "nil pointer dereference".
Proof.
  intros Hn He. eexists. split.
  { unfold RegisterSocket. erewrite run_bind by done. cbv beta. rewrite Hn.
    erewrite run_bind by done. reflexivity. }
  split; [done|]. split.
  - unfold UnregisterSocket. simpl. by rewrite lookup_insert_eq.
  - unfold ConfigUpdate. simpl. by rewrite He, insert_empty, map_to_list_singleton.
Qed.

(** A turn of the clean-up over caches that exist ends without a panic, keeps the
    tables in agreement, and leaves the timer it waited for spent. *)
Theorem cleanup_turn (g : MACSwitch L) t :
  tables_agree g → (∀ sid, socketTable g !! sid ≠ Some None) →
  ∃ g', cleanupAllMACs_turn t g = Ret g' ∧ tables_agree g' ∧ cleanupTimer g' = false.
Proof.
  intros Ha Hn. unfold cleanupAllMACs_turn. cbv zeta. case_match; [by eexists|].
  destruct (map_tables g) as [Hnd Ht].
  destruct (cleanup_tables_agree t (map_to_list (socketTable g)) (g <| cleanupTimer := false |>))
    as (g' & E1 & Ha' & Et); [done|done|done| |].
  - intros sid Hin%Ht. by apply (Hn sid).
  - exists g'. split_and!; [exact E1|done|exact Et].
Qed.

End Properties.

(** ** Closed instances *)

(** A cache as a list, the oldest entry first. *)
Record list_cache := mkCache { cache_cap : Z; cache_entries : list (macAddr * Z) }.

Definition cache_keys (l : list_cache) : list macAddr := (cache_entries l).*1.
Definition without (ks : list macAddr) (l : list_cache) : list (macAddr * Z) :=
  filter (λ e, e.1 ∉ ks) (cache_entries l).

#[export] Instance list_lru : LRU list_cache := {
  lru_new n := if 0 <? n then inl (mkCache n []) else inr (ErrText "must provide a positive size");
  lru_contains k l := bool_decide (k ∈ cache_keys l);
  lru_add k t l :=
    if bool_decide (k ∈ cache_keys l) then (mkCache (cache_cap l) (without [k] l ++ [(k, t)]), [])
    else
      let ev := if len (cache_entries l) <? cache_cap l then [] else take 1 (cache_keys l) in
      (mkCache (cache_cap l) (without ev l ++ [(k, t)]), ev);
  lru_keys l := cache_keys l;
  lru_getoldest l := head (cache_entries l);
  lru_remove k l :=
    (mkCache (cache_cap l) (without [k] l), if bool_decide (k ∈ cache_keys l) then [k] else []);
  lru_resize n l :=
    let ev := take (length (cache_entries l) - Z.to_nat n) (cache_keys l) in
    (mkCache n (without ev l), ev);
  lru_purge l := (mkCache (cache_cap l) [], cache_keys l);
}.

Lemma without_keys ks l x : x ∈ (without ks l).*1 ↔ x ∈ cache_keys l ∧ x ∉ ks.
Proof.
  unfold without, cache_keys. rewrite !list_elem_of_fmap. split.
  - intros (e & -> & He). apply list_elem_of_filter in He as [? ?]. eauto.
  - intros ((e & -> & He) & Hn). exists e. split; [done|]. by apply list_elem_of_filter.
Qed.

#[export] Instance list_lru_spec : LRUSpec list_cache.
Proof.
  constructor; cbn.
  - intros n l. case_match; [by intros [= <-]|done].
  - intros k l. apply bool_decide_eq_true.
  - intros k t l x. pose proof (not_elem_of_nil x) as Hnil.
    case_bool_decide as Hk; cbn; unfold cache_keys at 1; cbn;
      rewrite fmap_app, elem_of_app, without_keys; cbn; rewrite !list_elem_of_singleton.
    + destruct (decide (x = k)) as [->|]; naive_solver.
    + assert (∀ y, y ∈ (if len (cache_entries l) <? cache_cap l then [] else take 1 (cache_keys l))
        → y ∈ cache_keys l).
      { intros y. case_match; [|apply elem_of_take_in]. by intros ?%not_elem_of_nil. }
      destruct (decide (x = k)) as [->|]; naive_solver.
  - intros k t l x. case_bool_decide as Hk; cbn; [by intros ?%not_elem_of_nil|].
    case_match; [by intros ?%not_elem_of_nil|]. intros Hx%elem_of_take_in. split; [done|]. by intros ->.
  - intros k t l Hk. by rewrite bool_decide_eq_true_2.
  - intros k l x. unfold cache_keys at 1. cbn. rewrite without_keys, list_elem_of_singleton. done.
  - intros k l x. case_bool_decide; rewrite ?list_elem_of_singleton; [naive_solver|].
    split; [by intros ?%not_elem_of_nil|]. naive_solver.
  - intros k l Hk. unfold lru_len, len. cbn. unfold cache_keys in *. cbn. rewrite !length_fmap.
    apply list_elem_of_fmap in Hk as (e & -> & He). unfold without.
    assert (Hlt : (length (filter (λ e' : macAddr * Z, e'.1 ∉ [e.1]) (cache_entries l))
      < length (cache_entries l))%nat) by (apply length_filter_lt with e; [done|rewrite list_elem_of_singleton; auto]).
    lia.
  - intros n l x. unfold cache_keys at 1. cbn. apply without_keys.
  - intros n l x. apply elem_of_take_in.
  - done.
  - intros l k t. unfold cache_keys. destruct (cache_entries l) as [|e r]; cbn; [done|].
    intros [= ->]. left.
Qed.

#[local] Existing Instance header_reader.

Definition mac1 : macAddr := [2; 0; 0; 0; 0; 1].
Definition mac2 : macAddr := [2; 0; 0; 0; 0; 2].

(** Two clients that have learned one address each. *)
Definition empty_cache : list_cache := mkCache 2 [].
Definition registered : MACSwitch list_cache :=
  mkMACSwitch false true true true 2 (600 * Second) ∅
    (<[1%nat := Some empty_cache]> (<[2%nat := Some empty_cache]> ∅)) true true.
Definition learn (sid : SocketId) (mac : macAddr) (g : MACSwitch list_cache) :=
  on_cache sid (lru_add mac 5 empty_cache) (g <| macTable := <[mac := sid]> (macTable g) |>).
Definition tap_switch : MACSwitch list_cache := learn 2 mac2 (learn 1 mac1 registered).

Lemma registered_agree : tables_agree registered.
Proof.
  intros mac sid. split; [done|]. intros (l & Hl & Hin). cbn in Hl.
  apply lookup_insert_Some in Hl as [[_ [= <-]]|[_ [[_ [= <-]]|[_ Hl]]%lookup_insert_Some]].
  1-2: by apply not_elem_of_nil in Hin.
  by rewrite lookup_empty in Hl.
Qed.

Lemma tap_agree : tables_agree tap_switch.
Proof. apply learn_agree; [apply learn_agree; [apply registered_agree|..]|..]; reflexivity. Qed.

Definition tap_client : Socket tape :=
  (MakeSocket (mkTape [] []) (Some 0%nat) false true)
    <| packetHandler := true |> <| isReady := true |> <| remoteProtocolVersion := 12 |>.
Definition tap_world : World tape unit (MACSwitch list_cache) :=
  mkWorld (<[1%nat := tap_client]> (<[2%nat := tap_client]> ∅)) (<[0%nat := tt]> ∅)
    tap_switch [] [] 0 0.

(** An IPv4 frame between the two, with the payload left out. *)
Definition frame (dst src : macAddr) : bytes := dst ++ src ++ [8; 0].



Lemma mac_unicast_witness :
  HandlePacket None (frame mac2 mac1) tap_world
  = (WritePacket 2 (frame mac2 mac1);; mret (true, None)) tap_world.
Proof.
  etransitivity; [apply (mac_unicast tap_world (frame mac2 mac1))|reflexivity].
  - apply Z.leb_le. reflexivity.
  - reflexivity.
  - reflexivity.
Defined.

(** A switch configured for no addresses. *)
Definition no_addresses : World tape unit (MACSwitch list_cache) :=
  mkWorld (<[1%nat := tap_client]> ∅) (<[0%nat := tt]> ∅)
    (mkMACSwitch false true true true 0 (600 * Second) ∅ ∅ true true) [] [] 0 0.

Lemma no_cache_witness :
  ∃ w', RegisterSocket 1 no_addresses = Ret (w', tt)
    ∧ tasks w' = tasks no_addresses
        ++ [CloseErrorLater 1 (ErrText "must provide a positive size")]
    ∧ UnregisterSocket 1 (env w') = env w'
    ∧ ConfigUpdate (env w') = Panic "nil pointer dereference".
Proof. apply (no_cache no_addresses 1); reflexivity. Defined.

Lemma cleanup_turn_witness :
  ∃ g', cleanupAllMACs_turn (700 * Second) tap_switch = Ret g' ∧ tables_agree g'
    ∧ cleanupTimer g' = false.
Proof.
  apply (cleanup_turn tap_switch).
  - exact tap_agree.
  - intros sid Hs. unfold tap_switch, learn, on_cache in Hs. rewrite !evicted_fields in Hs.
    cbn in Hs.
    apply lookup_insert_Some in Hs as [[_ ?]|[_ [[_ ?]|[_ Hs]]%lookup_insert_Some]]; [done..|].
    apply lookup_insert_Some in Hs as [[_ ?]|[_ [[_ ?]|[_ Hs]]%lookup_insert_Some]]; [done..|].
    by rewrite lookup_empty in Hs.
Defined.
