(* ===== verification/WebSocket.v ===== *)
(** * The WebSocket transport

    shared/sockets/adapters/websocket.go: the adapter over a connection and the
    package github.com/gobwas/ws, both third-party, given by a class; the loop
    that reads frames, and the discharge of the adapter's interface. *)

From S2P Require Import Prelude Commands Adapter Socket Fragment World Lifecycle Protocol Frame.
Import adapters.

(** ws.OpCode; the others never reach the handler. *)
Inductive OpCode : Type := OpContinuation | OpText | OpBinary | OpClose | OpPing | OpPong | OpOther.

#[export] Instance opcode_eq_dec : EqDecision OpCode.
Proof. solve_decision. Defined.

Record Header := mkHeader { Op : OpCode; Length : Z }.

(** The connection with the writers of wsutil on it: a whole message at once, or
    through the buffered writer of data messages, which [Flush] ends. *)
Class WSConn (C : Type) := {
  WriteMessage : OpCode → bytes → C → C * option error;
  writer_Write : bytes → C → C * option error;
  writer_Flush : C → C * option error;
  conn_Close : C → C * option error;
}.

(** Their documented behaviour, on the record of the messages completed: the
    writer completes a message when it is flushed, and a writer that failed
    fails from then on, so that a message it completes is what was written
    since the flush before. *)
Class WSConnSpec (C : Type) `{WSConn C} := {
  completed : C → list (OpCode * bytes);
  write_ok c c' op m : WriteMessage op m c = (c', None) → completed c' = completed c ++ [(op, m)];
  write_err c c' op m e : WriteMessage op m c = (c', Some e) → completed c' = completed c;
  writer_err c c' m e : writer_Write m c = (c', Some e) → completed c' = completed c;
  flush_ok c c1 c2 m : writer_Write m c = (c1, None) → writer_Flush c1 = (c2, None) →
    completed c2 = completed c ++ [(OpBinary, m)];
  flush_err c c1 c2 m e : writer_Write m c = (c1, None) → writer_Flush c1 = (c2, Some e) →
    completed c2 = completed c;
  close_ok c : completed (conn_Close c).1 = completed c;
  writer_error c m : (writer_Write m c).2 ≠ Some ErrDataPayloadLimitReduced;
  flush_error c : (writer_Flush c).2 ≠ Some ErrDataPayloadLimitReduced;
}.

(** The frame that arrived together with the handshake, or what reading it gave. *)
Inductive first_frame : Type :=
| NoReader
| FrameRead (hdr : Header) (payload : bytes)
| FrameEOF
| FrameError (err : error).

Record WebSocketAdapter (C : Type) := mkWebSocket {
  conn : C;
  serializationType : Z;
  isServer : bool;
  initial : first_frame;
  wsStateServer : bool }.

Arguments mkWebSocket {C}. Arguments conn {C}. Arguments serializationType {C}.
Arguments isServer {C}. Arguments initial {C}. Arguments wsStateServer {C}.

#[export] Instance eta_websocket {C} : Etable (WebSocketAdapter C) := λ r,
  mkWebSocket (conn r) (serializationType r) (isServer r) (initial r) (wsStateServer r).

Definition NewWebSocketAdapter {C} (conn : C) (stype : Z) (server : bool) (init : first_frame)
    : WebSocketAdapter C :=
  mkWebSocket conn stype server init server.

Section Adapter.
Context {C : Type} `{WSConn C}.
Implicit Types a : WebSocketAdapter C.

(** A call on the connection, under the write lock. *)
Definition on_conn (f : C → C * option error) a : WebSocketAdapter C * option error :=
  let '(c, err) := f (conn a) in (a <| conn := c |>, err).

Definition writePongMessage (data : bytes) a := on_conn (WriteMessage OpPong data) a.
Definition WriteControlMessage (message : bytes) a := on_conn (WriteMessage OpText message) a.
Definition WritePingMessage a := on_conn (WriteMessage OpPing []) a.
Definition Close a := on_conn conn_Close a.

Definition WriteDataMessage (message : bytes) a : WebSocketAdapter C * option error :=
  let '(a, err) := on_conn (writer_Write message) a in
  match err with
  | Some err => (a, Some err)
  | None => on_conn writer_Flush a
  end.

(** Also the length of the buffer that [Serve] reads into. *)
Definition max_message : Z := 65535.
Definition MaxDataPayloadLen a : Z := max_message.

Definition IsServer a : bool := isServer a.
Definition IsClient a : bool := negb (isServer a).
Definition RefreshFeatures a : WebSocketAdapter C := a.
Definition Name a : string := "WebSocket".
Definition GetCommandSerializationType a : Z := serializationType a.

#[export] Instance websocket_adapter : SocketAdapter (WebSocketAdapter C) := {
  adapters.Close := Close;
  adapters.WriteControlMessage := WriteControlMessage;
  adapters.WriteDataMessage := WriteDataMessage;
  adapters.WritePingMessage a := Ret (WritePingMessage a);
  adapters.IsServer := IsServer;
  adapters.MaxDataPayloadLen a := MaxDataPayloadLen a;
  adapters.RefreshFeatures := RefreshFeatures;
  adapters.GetCommandSerializationType := GetCommandSerializationType;
  adapters.Name := Name;
}.

Context {I E : Type} `{WaterInterface I} `{!Unregister E} `{NewRandom}
  `{!PacketHandler (WebSocketAdapter C) I E} `{!ClientHandlers (WebSocketAdapter C) I E}.
Abbreviation P := (prog (World (WebSocketAdapter C) I E)).

(** The pong handler stops the timer of the ping loop, which the world does not
    hold: the effect is in the file [Ping]. *)
Definition handleFrame (sid : SocketId) (hdr : Header) (data : bytes) : P (option error) :=
  match Op hdr with
  | OpText =>
      res ← controlMessageHandler sid data;
      if negb (res : bool) then mret (Some (ErrText "error in control message")) else mret None
  | OpBinary =>
      res ← dataMessageHandler sid data;
      if negb (res : bool) then mret (Some (ErrText "error in data message")) else mret None
  | OpPing => adapter_call sid (writePongMessage data)
  | _ => mret None
  end.

Definition handleInitial (sid : SocketId) : P (option error) :=
  s ← sock sid;
  match initial (adapter s) with
  | NoReader => mret None
  | o =>
      err ← match o with
            | FrameRead hdr payload => handleFrame sid hdr payload
            | FrameError err => mret (Some err)
            | _ => mret None
            end;
      upd sid (λ s, s <| adapter := (adapter s) <| initial := NoReader |> |>);;
      mret err
  end.

(** One turn of the loop of [Serve]: the frame header read, and the payload or
    the error of reading it; [None] to go on, or what [Serve] returns. *)
Definition serve_turn (sid : SocketId) (frame : Header + error) (payload : bytes + error)
    : P (option (bool * error)) :=
  match frame with
  | inr err => mret (Some (true, err))
  | inl hdr =>
      if bool_decide (Op hdr = OpClose) then mret (Some (false, ErrText "received close frame"))
      else if max_message <? Length hdr
      then mret (Some (true, ErrText "data payload too large"))
      else match payload with
      | inr err => mret (Some (true, err))
      | inl msg =>
          err ← handleFrame sid hdr msg;
          match err with
          | Some err => mret (Some (true, err))
          | None => mret None
          end
      end
  end.

(** [Serve] on the frames that come in; [None] while it waits for another. *)
Fixpoint serve_frames (sid : SocketId) (frames : list ((Header + error) * (bytes + error)))
    : P (option (bool * error)) :=
  match frames with
  | [] => mret None
  | (frame, payload) :: frames =>
      result ← serve_turn sid frame payload;
      match result with
      | Some _ => mret result
      | None => serve_frames sid frames
      end
  end.

Definition Serve (sid : SocketId) (frames : list ((Header + error) * (bytes + error)))
    : P (option (bool * error)) :=
  err ← handleInitial sid;
  match err with
  | Some err => mret (Some (true, err))
  | None => serve_frames sid frames
  end.

End Adapter.

(** ** The interface, discharged *)

Section Spec.
Context {C : Type} `{WSConnSpec C}.
Implicit Types a : WebSocketAdapter C.

Definition payloads (op : OpCode) a : list bytes :=
  (filter (λ x : OpCode * bytes, x.1 = op) (completed (conn a))).*2.

Lemma payloads_snoc (l : list (OpCode * bytes)) op op' m :
  (filter (λ x : OpCode * bytes, x.1 = op) (l ++ [(op', m)])).*2
  = (filter (λ x : OpCode * bytes, x.1 = op) l).*2 ++ (if decide (op' = op) then [m] else []).
Proof. rewrite filter_app, fmap_app, filter_cons. simpl. by case_decide. Qed.

Lemma write_data_cases a m a' err :
  WriteDataMessage m a = (a', err) →
  a' = a <| conn := conn a' |>
  ∧ err ≠ Some ErrDataPayloadLimitReduced
  ∧ completed (conn a') = completed (conn a)
      ++ (if err is Some _ then [] else [(OpBinary, m)]).
Proof.
  unfold WriteDataMessage, on_conn.
  destruct (writer_Write m (conn a)) as [c [e|]] eqn:Ew.
  - intros [= <- <-]. split; [done|]. split.
    + pose proof (writer_error (conn a) m) as He. by rewrite Ew in He.
    + rewrite app_nil_r. by eapply writer_err.
  - simpl. destruct (writer_Flush c) as [c' e] eqn:Ef. intros [= <- <-]. split; [done|]. split.
    + pose proof (flush_error c) as He. by rewrite Ef in He.
    + destruct e; [rewrite app_nil_r; by eapply flush_err|by eapply flush_ok].
Qed.

Lemma on_conn_cases op m a a' err :
  on_conn (WriteMessage op m) a = (a', err) →
  completed (conn a') = completed (conn a) ++ (if err is Some _ then [] else [(op, m)]).
Proof.
  unfold on_conn. destruct (WriteMessage op m (conn a)) as [c [e|]] eqn:Ew; intros [= <- <-]; simpl.
  - rewrite app_nil_r. by eapply write_err.
  - by eapply write_ok.
Qed.

#[export] Instance websocket_spec : SocketAdapterSpec (WebSocketAdapter C).
Proof.
  refine {| sent_data := payloads OpBinary; sent_control := payloads OpText |}; cbn.
  - intros a. unfold MaxDataPayloadLen, max_message. lia.
  - intros a a' m E1. apply write_data_cases in E1 as (_ & _ & E1).
    unfold payloads. rewrite E1, !payloads_snoc. simpl. by rewrite app_nil_r.
  - intros a a' m e E1. apply write_data_cases in E1 as (_ & _ & E1).
    unfold payloads. by rewrite E1, app_nil_r.
  - intros a a' m E1. by apply write_data_cases in E1 as (_ & ? & _).
  - intros a a' m E1. apply on_conn_cases in E1.
    unfold payloads. rewrite E1, !payloads_snoc. simpl. by rewrite app_nil_r.
  - intros a a' m e E1. apply on_conn_cases in E1. unfold payloads. by rewrite E1, app_nil_r.
  - intros a. unfold Close, on_conn, payloads. pose proof (close_ok (conn a)) as Hc.
    destruct (conn_Close (conn a)) as [c err]. simpl in *. by rewrite Hc.
  - done.
  - intros a m. destruct (WriteDataMessage m a) as [a' err] eqn:E1.
    apply write_data_cases in E1 as (-> & _). done.
  - intros a m. unfold WriteControlMessage, on_conn. by destruct (WriteMessage OpText m (conn a)).
Defined.

End Spec.

(** ** The properties *)

Section Properties.
Context {C I E : Type} `{WSConnSpec C} `{WaterInterface I} `{!Unregister E} `{NewRandom}
  `{!PacketHandler (WebSocketAdapter C) I E} `{!ClientHandlers (WebSocketAdapter C) I E}.
Implicit Types w : World (WebSocketAdapter C) I E.

(** A connection that takes data messages. *)
Definition conn_takes (a : WebSocketAdapter C) (m : bytes) : Prop :=
  (writer_Write m (conn a)).2 = None ∧ (writer_Flush (writer_Write m (conn a)).1).2 = None.

Lemma takes_write a m : conn_takes a m → ∃ c, WriteDataMessage m a = (a <| conn := c |>, None)
  ∧ completed c = completed (conn a) ++ [(OpBinary, m)].
Proof.
  intros [Hw Hf]. unfold WriteDataMessage, on_conn.
  destruct (writer_Write m (conn a)) as [c [e|]] eqn:Ew; [done|]. simpl in *.
  destruct (writer_Flush c) as [c' [e|]] eqn:Ef; [done|]. exists c'. split; [done|].
  by eapply flush_ok.
Qed.

(** What one attempt writes: the packet after one byte, as the test of the
    length wraps at 65535. *)
Lemma one_message w sid s packet :
  socks w !! sid = Some s → accepts_fragments s → 0 < len packet <= 65535 →
  conn_takes (adapter s) (128 :: packet) →
  ∃ c, WritePacket sid packet w
       = Ret (put w sid (s <| adapter := (adapter s) <| conn := c |> |>), None)
    ∧ completed c = completed (conn (adapter s)) ++ [(OpBinary, 128 :: packet)].
Proof.
  intros Hs [Hi Hf] Hl Hc. destruct (takes_write _ _ Hc) as (c & Ew & Ec).
  exists c. split; [|done]. unfold WritePacket. erewrite run_bind by (by apply run_sock_at).
  rewrite Hi, Hf. cbn [negb].
  rewrite (proj2 (Z.leb_gt _ _)), (proj2 (Z.ltb_ge _ _)) by lia. cbn [orb].
  apply (run_local w sid s); [done|].
  assert (Hf1 : ∃ n, retry_fuel = S n) by (exists (Z.to_nat 65536); unfold retry_fuel; lia).
  destruct Hf1 as [n ->]. cbn [write_retry].
  assert (Hw : writePacketFragmented packet (adapters.MaxDataPayloadLen (adapter s)) s
    = Ret (s <| adapter := (adapter s) <| conn := c |> |>, None)).
  { unfold writePacketFragmented. cbn [adapters.MaxDataPayloadLen websocket_adapter].
    unfold MaxDataPayloadLen, max_message. rewrite (u16_small (len packet)) by lia.
    assert (Hle : u16 (len packet + 1) <= 65535) by (pose proof (u16_range (len packet + 1)); lia).
    rewrite (proj2 (Z.leb_le _ _)) by done.
    cbn [adapters.WriteDataMessage websocket_adapter]. by rewrite Ew. }
  rewrite Hw. done.
Qed.

(** Over WebSocket a packet of up to 65534 bytes is never cut: it becomes one
    binary message, which the peer's loop accepts by its length. *)
Theorem ws_whole_packets w sid s packet :
  socks w !! sid = Some s → accepts_fragments s → 0 < len packet < 65535 →
  conn_takes (adapter s) (128 :: packet) →
  ∃ w' s' m, WritePacket sid packet w = Ret (w', None) ∧ socks w' !! sid = Some s'
    ∧ completed (conn (adapter s')) = completed (conn (adapter s)) ++ [(OpBinary, m)]
    ∧ drop 1 m = packet ∧ len m <= max_message
    ∧ lastFragmentID s' = lastFragmentID s.
Proof.
  intros Hs Ha Hl Hc. destruct (one_message w sid s packet Hs Ha ltac:(lia) Hc) as (c & Ew & Ec).
  eexists _, _, (128 :: packet). split; [exact Ew|]. split; [simpl; apply lookup_insert_eq|].
  split; [exact Ec|]. split; [done|]. split; [|done]. rewrite len_cons. unfold max_message. lia.
Qed.

(** A packet of 65535 bytes, which [WritePacket] admits, becomes one message of 65536
    bytes, and a peer that reads a frame of this length ends the connection. *)
Theorem ws_65535 w sid s packet peer :
  socks w !! sid = Some s → accepts_fragments s → len packet = 65535 →
  conn_takes (adapter s) (128 :: packet) →
  ∃ w' s' m, WritePacket sid packet w = Ret (w', None) ∧ socks w' !! sid = Some s'
    ∧ completed (conn (adapter s')) = completed (conn (adapter s)) ++ [(OpBinary, m)]
    ∧ ∀ w1 payload, serve_turn peer (inl (mkHeader OpBinary (len m))) payload w1
        = Ret (w1 : World (WebSocketAdapter C) I E,
               Some (true, ErrText "data payload too large")).
Proof.
  intros Hs Ha Hl Hc. destruct (one_message w sid s packet Hs Ha ltac:(lia) Hc) as (c & Ew & Ec).
  eexists _, _, (128 :: packet). split; [exact Ew|]. split; [simpl; apply lookup_insert_eq|].
  split; [exact Ec|]. intros w1 payload. unfold serve_turn, max_message. simpl.
  rewrite (proj2 (Z.ltb_lt 65535 (len _))); [done|]. rewrite len_cons. lia.
Qed.

Context `{!UnregisterSpec E} `{!PacketHandlerSpec (WebSocketAdapter C) I E}
  `{!ClientHandlersSpec (WebSocketAdapter C) I E}.

Lemma keeps_handleFrame U sid hdr data :
  keeps (W := World (WebSocketAdapter C) I E) (world_inv U) (handleFrame sid hdr data).
Proof.
  unfold handleFrame. destruct (Op hdr); keep;
    first [apply keeps_controlMessageHandler|apply keeps_dataMessageHandler|idtac].
Qed.

Lemma keeps_Serve_ws U sid frames :
  keeps (W := World (WebSocketAdapter C) I E) (world_inv U) (Serve sid frames).
Proof.
  unfold Serve. apply keeps_bind.
  { unfold handleInitial. keep; apply keeps_handleFrame. }
  intros [e|]; [apply keeps_ret|]. induction frames as [|[f p] frames IH]; [apply keeps_ret|].
  cbn [serve_frames]. apply keeps_bind; [|intros [r|]; [apply keeps_ret|done]].
  unfold serve_turn. keep; apply keeps_handleFrame.
Qed.

(** A text or binary frame that its handler refuses ends the serving loop with an
    unexpected error; one that is handled does not; a ping is answered with
    its own payload. *)
Theorem ws_bad_frame w sid s hdr msg :
  socks w !! sid = Some s → Length hdr <= max_message →
  (Op hdr = OpText → serve_turn sid (inl hdr) (inl msg) w =
     match controlMessageHandler sid msg w with
     | Ret (w', true) => Ret (w', None)
     | Ret (w', false) => Ret (w', Some (true, ErrText "error in control message"))
     | Panic why => Panic why
     | Exhausted => Exhausted
     end)
  ∧ (Op hdr = OpBinary → serve_turn sid (inl hdr) (inl msg) w =
     match dataMessageHandler sid msg w with
     | Ret (w', true) => Ret (w', None)
     | Ret (w', false) => Ret (w', Some (true, ErrText "error in data message"))
     | Panic why => Panic why
     | Exhausted => Exhausted
     end)
  ∧ (Op hdr = OpPing → ∀ c, WriteMessage OpPong msg (conn (adapter s)) = (c, None) →
     serve_turn sid (inl hdr) (inl msg) w
     = Ret (put w sid (s <| adapter := (adapter s) <| conn := c |> |>), None)
     ∧ completed c = completed (conn (adapter s)) ++ [(OpPong, msg)]).
Proof.
  intros Hs Hl. unfold serve_turn.
  split_and!; intros Hop; rewrite bool_decide_eq_false_2 by congruence;
    rewrite (proj2 (Z.ltb_ge _ _)) by lia; unfold handleFrame; rewrite Hop.
  - unfold mbind, prog_bind. by destruct (controlMessageHandler sid msg w) as [[w' []]| |].
  - unfold mbind, prog_bind. by destruct (dataMessageHandler sid msg w) as [[w' []]| |].
  - intros c Hw. split.
    + unfold mbind at 1, prog_bind at 1. rewrite <- (put_lookup w sid s) at 1 by done.
      rewrite run_adapter. unfold writePongMessage, on_conn. by rewrite Hw.
    + by eapply write_ok.
Qed.

(** Whatever frames a peer sends, and whatever the reads of them give, the
    sockets stay in a state that satisfies the invariant; once the loop has
    ended no further frame is looked at. *)
Theorem ws_any_frames w sid frames more :
  reachable w →
  match Serve sid frames w with
  | Ret (w', Some r) => world_inv ∅ w' ∧ Serve sid (frames ++ more) w = Ret (w', Some r)
  | Ret (w', None) => world_inv ∅ w' ∧ Serve sid (frames ++ more) w = serve_frames sid more w'
  | Panic why => other_panic why
  | Exhausted => False
  end.
Proof.
  intros Hr%reachable_inv. pose proof (keeps_Serve_ws ∅ sid frames w Hr) as Hk. revert Hk.
  unfold Serve, mbind, prog_bind. destruct (handleInitial sid w) as [[w1 [e|]]| |]; [done| |done..].
  clear Hr. revert w1. induction frames as [|[f p] frames IH]; intros w1; [done|].
  cbn [app serve_frames]. unfold mbind, prog_bind.
  destruct (serve_turn sid f p w1) as [[w2 [r|]]| |]; [done| |done..]. apply IH.
Qed.

End Properties.

(** ** A connection that records, for the closed instances *)

Record wire := mkWire {
  wire_done : list (OpCode * bytes);
  wire_pending : bytes;
  wire_open : bool }.

#[export] Instance wire_conn : WSConn wire := {
  WriteMessage op m c :=
    if wire_open c then (mkWire (wire_done c ++ [(op, m)]) (wire_pending c) true, None)
    else (c, Some (ErrText "closed"));
  writer_Write m c :=
    if wire_open c then (mkWire (wire_done c) m true, None)
    else (c, Some (ErrText "closed"));
  writer_Flush c :=
    if wire_open c then (mkWire (wire_done c ++ [(OpBinary, wire_pending c)]) [] true, None)
    else (c, Some (ErrText "closed"));
  conn_Close c := (mkWire (wire_done c) (wire_pending c) false, None);
}.

#[export] Instance wire_spec : WSConnSpec wire.
Proof.
  refine {| completed := wire_done |};
    intros; cbn [WriteMessage writer_Write writer_Flush conn_Close wire_conn] in *;
    repeat (case_match; simplify_eq/=; try done). done.
Defined.

Definition wire_socket : Socket (WebSocketAdapter wire) :=
  (MakeSocket (NewWebSocketAdapter (mkWire [] [] true) 1 true NoReader) None true false)
    <| isReady := true |> <| remoteProtocolVersion := 12 |> <| fragmentationEnabled := true |>.

Definition wire_world : World (WebSocketAdapter wire) unit unit :=
  mkWorld {[1%nat := wire_socket]} ∅ tt [] [] 0 0.

Lemma ws_whole_packets_witness :
  ∃ w' s' m, WritePacket 1 [69; 0; 1] wire_world = Ret (w', None) ∧ socks w' !! 1%nat = Some s'
    ∧ completed (conn (adapter s')) = completed (conn (adapter wire_socket)) ++ [(OpBinary, m)]
    ∧ drop 1 m = [69; 0; 1] ∧ len m <= max_message
    ∧ lastFragmentID s' = lastFragmentID wire_socket.
Proof.
  apply (ws_whole_packets wire_world 1 wire_socket [69; 0; 1]);
    [reflexivity|split; reflexivity|vm_compute; split; congruence|split; reflexivity].
Defined.

Lemma ws_65535_witness :
  ∃ w' s' m, WritePacket 1 (replicate (Z.to_nat 65535) 0) wire_world = Ret (w', None)
    ∧ socks w' !! 1%nat = Some s'
    ∧ completed (conn (adapter s')) = completed (conn (adapter wire_socket)) ++ [(OpBinary, m)]
    ∧ ∀ w1 payload, serve_turn 1 (inl (mkHeader OpBinary (len m))) payload w1
        = Ret (w1 : World (WebSocketAdapter wire) unit unit,
               Some (true, ErrText "data payload too large")).
Proof.
  apply (ws_65535 wire_world 1 wire_socket (replicate (Z.to_nat 65535) 0) 1);
    [reflexivity|split; reflexivity| |split; reflexivity].
  unfold len. rewrite length_replicate. reflexivity.
Defined.

Lemma ws_bad_frame_witness :
  serve_turn 1 (inl (mkHeader OpPing 2)) (inl [7; 8]) wire_world
  = Ret (put wire_world 1 (wire_socket <| adapter := (adapter wire_socket)
           <| conn := mkWire [(OpPong, [7; 8])] [] true |> |>), None).
Proof.
  refine (proj1 (proj2 (proj2 (ws_bad_frame wire_world 1 wire_socket (mkHeader OpPing 2) [7; 8]
    _ _)) _ _ _)); vm_compute; congruence.
Defined.
