(* ===== verification/WebTransport.v ===== *)
(** * The WebTransport transport

    shared/sockets/adapters/webtransport.go: control messages, pings and pongs
    share one stream, where a control message is framed by its type and 16-bit
    length; data messages are datagrams, whose limit can shrink.  The session
    and its stream (packages webtransport-go and quic-go) are third-party,
    given by a class. *)

From S2P Require Import Prelude Commands Adapter Socket Fragment World Lifecycle Protocol.
Import adapters.

(** What [SendDatagram] returns: [quic.DatagramTooLargeError] carries the limit
    that holds. *)
Inductive datagram_error : Type :=
| DatagramTooLarge (MaxDatagramPayloadSize : Z)
| DatagramOther (err : error).

Definition datagram_text (e : datagram_error) : error :=
  match e with
  | DatagramTooLarge _ => ErrText "DATAGRAM frame too large"
  | DatagramOther err => err
  end.

Class WTSession (C : Type) := {
  stream_Write : bytes → C → C * (Z * option error);
  stream_Cancel : C → C;                     (* CancelRead, CancelWrite, Close *)
  SendDatagram : bytes → C → C * option datagram_error;
  CloseWithError : C → C * option error;
}.

(** Documented behaviour: [io.Writer]'s contract for the stream, on the record
    of the writes that succeeded; a datagram is sent or an error is returned;
    the limit that a too large datagram is refused with is one. *)
Class WTSessionSpec (C : Type) `{WTSession C} := {
  stream_writes : C → list bytes;
  datagrams : C → list bytes;
  write_full c c' m n : stream_Write m c = (c', (n, None)) →
    n = len m ∧ stream_writes c' = stream_writes c ++ [m] ∧ datagrams c' = datagrams c;
  write_failed c c' m n e : stream_Write m c = (c', (n, Some e)) →
    stream_writes c' = stream_writes c ∧ datagrams c' = datagrams c;
  send_ok c c' m : SendDatagram m c = (c', None) →
    datagrams c' = datagrams c ++ [m] ∧ stream_writes c' = stream_writes c;
  send_err c c' m e : SendDatagram m c = (c', Some e) →
    datagrams c' = datagrams c ∧ stream_writes c' = stream_writes c;
  limit_nonneg c m n : (SendDatagram m c).2 = Some (DatagramTooLarge n) → 0 <= n;
  not_reduced c m e : (SendDatagram m c).2 = Some (DatagramOther e) →
    e ≠ ErrDataPayloadLimitReduced;
  cancel_sends_nothing c :
    stream_writes (stream_Cancel c) = stream_writes c ∧ datagrams (stream_Cancel c) = datagrams c;
  close_session c : stream_writes (CloseWithError c).1 = stream_writes c
    ∧ datagrams (CloseWithError c).1 = datagrams c;
}.

Definition messageTypeControl : Z := 0.
Definition messageTypePing : Z := 1.
Definition messageTypePong : Z := 2.

(** [stream] says whether the pointer is set; [wg] counts the two loops. *)
Record WebTransportAdapter (C : Type) := mkWebTransport {
  conn : C;
  stream : bool;
  isServer : bool;
  wg : Z;
  isReady : bool;
  isFullyInitialized : bool;
  serializationType : Z;
  lastServeError : option error;
  lastServeErrorUnexpected : bool;
  maxPayloadLen : Z }.

Arguments mkWebTransport {C}. Arguments conn {C}. Arguments stream {C}. Arguments isServer {C}.
Arguments wg {C}. Arguments isReady {C}. Arguments isFullyInitialized {C}.
Arguments serializationType {C}. Arguments lastServeError {C}.
Arguments lastServeErrorUnexpected {C}. Arguments maxPayloadLen {C}.

#[export] Instance eta_webtransport {C} : Etable (WebTransportAdapter C) := λ r,
  mkWebTransport (conn r) (stream r) (isServer r) (wg r) (isReady r) (isFullyInitialized r)
    (serializationType r) (lastServeError r) (lastServeErrorUnexpected r) (maxPayloadLen r).

Definition NewWebTransportAdapter {C} (conn : C) (stype : Z) (server : bool)
    : WebTransportAdapter C :=
  mkWebTransport conn false server 0 false false stype None false 0.

(** ** What travels on the stream *)

Definition control_frame (message : bytes) : bytes :=
  let msgLen := len message in
  messageTypeControl :: u8 (Z.land (Z.shiftr msgLen 8) 255) :: u8 (Z.land msgLen 255) :: message.

(** The reader of the stream: the bytes that will still come, after which
    every read gives [fin]. *)
Inductive read_end : Type :=
| ReadEOF
| ReadError (err : error).

Definition io_EOF : error := ErrText "EOF".

Definition read_error (fin : read_end) : error :=
  match fin with ReadEOF => io_EOF | ReadError err => err end.

(** The value of a turn of the reading loop, before it is acted on; a type byte
    that is none of the three is skipped, and so is a message cut short, as
    the [break] there leaves only the [switch]. *)
Inductive stream_event : Type :=
| ControlEvent (data : bytes)
| PingEvent
| PongEvent
| SkipEvent.

(** One turn on what is left of the stream: the event and the bytes after it,
    or nothing if the type byte could not be read. *)
Definition read_turn (r : bytes) : option (stream_event * bytes) :=
  match r with
  | [] => None
  | msgType :: r =>
      Some (if msgType =? messageTypeControl then
              match r with
              | msgLenUpper :: msgLenLower :: r =>
                  let msgLen := Z.lor msgLenLower (u16 (Z.shiftl msgLenUpper 8)) in
                  if len r <? msgLen then (SkipEvent, [])
                  else (ControlEvent (take (Z.to_nat msgLen) r), drop (Z.to_nat msgLen) r)
              | _ => (SkipEvent, [])
              end
            else if msgType =? messageTypePing then (PingEvent, r)
            else if msgType =? messageTypePong then (PongEvent, r)
            else (SkipEvent, r))
  end.

Section Adapter.
Context {C : Type} `{WTSession C}.
Implicit Types a : WebTransportAdapter C.

(** ** Methods *)

Definition Close a : WebTransportAdapter C * option error :=
  let a := if stream a then a <| conn := stream_Cancel (conn a) |> else a in
  let '(c, err) := CloseWithError (conn a) in
  (a <| conn := c |>, err).

Definition setReady a : WebTransportAdapter C := a <| isReady := true |>.

Definition RefreshFeatures a : WebTransportAdapter C := a <| maxPayloadLen := u16 (1200 - 16) |>.

Definition handleServeError (err : error) (unexpected : bool) a : WebTransportAdapter C :=
  match lastServeError a with
  | None => a <| lastServeError := Some err |> <| lastServeErrorUnexpected := unexpected |>
  | Some _ => a
  end.

Definition WriteControlMessage (message : bytes) a : WebTransportAdapter C * option error :=
  if negb (isFullyInitialized a) then (a, Some (ErrText "not able to send"))
  else if 65535 <? len message then (a, Some (ErrText "control message too large"))
  else
    let msg := control_frame message in
    let '(c, (n, err)) := stream_Write msg (conn a) in
    let a := a <| conn := c |> in
    match err with
    | None => if negb (n =? len msg) then (a, Some (ErrText "could not write full message"))
              else (a, None)
    | Some err => (a, Some err)
    end.

(** The field is a uint16. *)
Definition MaxDataPayloadLen a : Z := u16 (maxPayloadLen a).

Definition WriteDataMessage (message : bytes) a : WebTransportAdapter C * option error :=
  if negb (isFullyInitialized a) then (a, Some (ErrText "not able to send"))
  else if MaxDataPayloadLen a <? len message then (a, Some (ErrText "data payload too large"))
  else
    let '(c, err) := SendDatagram message (conn a) in
    let a := a <| conn := c |> in
    match err with
    | None => (a, None)
    | Some (DatagramTooLarge limit) =>
        if limit <? MaxDataPayloadLen a
        then (a <| maxPayloadLen := u16 limit |>, Some ErrDataPayloadLimitReduced)
        else (a, Some (datagram_text (DatagramTooLarge limit)))
    | Some e => (a, Some (datagram_text e))
    end.

(** A method call on the stream, whose pointer may be nil. *)
Definition stream_write (msg : bytes) a : outcome (WebTransportAdapter C * option error) :=
  if stream a then
    let '(c, (_, err)) := stream_Write msg (conn a) in Ret (a <| conn := c |>, err)
  else Panic "nil pointer dereference".

Definition WritePingMessage a : outcome (WebTransportAdapter C * option error) :=
  if negb (isReady a) then Ret (a, Some (ErrText "not ready"))
  else stream_write [messageTypePing] a.

Definition IsServer a : bool := isServer a.
Definition IsClient a : bool := negb (isServer a).
Definition Name a : string := "WebTransport".
Definition GetCommandSerializationType a : Z := serializationType a.

#[export] Instance webtransport_adapter : SocketAdapter (WebTransportAdapter C) := {
  adapters.Close := Close;
  adapters.WriteControlMessage := WriteControlMessage;
  adapters.WriteDataMessage := WriteDataMessage;
  adapters.WritePingMessage := WritePingMessage;
  adapters.IsServer := IsServer;
  adapters.MaxDataPayloadLen := MaxDataPayloadLen;
  adapters.RefreshFeatures := RefreshFeatures;
  adapters.GetCommandSerializationType := GetCommandSerializationType;
  adapters.Name := Name;
}.

(** ** Serving *)

(** [Serve] up to its wait: [accepted] is what accepting or opening the stream
    returned; the result says whether the two loops were started. *)
Definition serve_start (accepted : option error) a
    : WebTransportAdapter C * option (bool * error) :=
  match accepted with
  | Some err => (setReady a, Some (true, err))
  | None =>
      let a := RefreshFeatures (a <| stream := true |>) in
      let a := a <| wg := wg a + 2 |> in
      (setReady (a <| isFullyInitialized := true |>), None)
  end.

(** What [Serve] returns once both loops are done. *)
Definition serve_result a : bool * option error :=
  (lastServeErrorUnexpected a, lastServeError a).

(** The end of either loop: the error kept, the session closed, [wg.Done]. *)
Definition loop_end (err : error) (unexpected : bool) a : WebTransportAdapter C :=
  let a := (Close (handleServeError err unexpected a)).1 in
  a <| wg := wg a - 1 |>.

Context {I E : Type} `{WaterInterface I} `{!Unregister E} `{NewRandom}
  `{!PacketHandler (WebTransportAdapter C) I E} `{!ClientHandlers (WebTransportAdapter C) I E}.
Abbreviation P := (prog (World (WebTransportAdapter C) I E)).

Definition upd_adapter (sid : SocketId) (f : WebTransportAdapter C → WebTransportAdapter C)
    : P unit :=
  upd sid (λ s, s <| adapter := f (adapter s) |>).

(** The [switch] of [serveStream]; an error ends the loop.  The pong handler
    stops the timer of the ping loop: the file [Ping]. *)
Definition handle_event (sid : SocketId) (ev : stream_event) : P (option error) :=
  match ev with
  | ControlEvent data => controlMessageHandler sid data;; mret None
  | PingEvent =>
      s ← sock sid;
      match stream_write [messageTypePong] (adapter s) with
      | Ret (a, err) => upd sid (λ s, s <| adapter := a |>);; mret err
      | Panic why => panic why
      | Exhausted => λ _, Exhausted
      end
  | PongEvent | SkipEvent => mret None
  end.

(** The loop of [serveStream]: the error it ends with.  Every turn consumes a
    byte, so fuel beyond the length of the stream is enough. *)
Fixpoint stream_loop (fuel : nat) (sid : SocketId) (r : bytes) (fin : read_end) : P read_end :=
  match fuel with
  | O => λ _, Exhausted
  | S fuel =>
      match read_turn r with
      | None => mret fin
      | Some (ev, r) =>
          err ← handle_event sid ev;
          match err with
          | Some err => mret (ReadError err)
          | None => stream_loop fuel sid r fin
          end
      end
  end.

Definition serveStream (sid : SocketId) (r : bytes) (fin : read_end) : P unit :=
  e ← stream_loop (S (length r)) sid r fin;
  upd_adapter sid (loop_end (read_error e) (if e is ReadEOF then false else true)).

(** One turn of [serveData] on the result of [ReceiveDatagram]; whether the
    loop goes on. *)
Definition data_turn (sid : SocketId) (received : bytes + error) : P bool :=
  match received with
  | inl data => dataMessageHandler sid data;; mret true
  | inr err => upd_adapter sid (loop_end err true);; mret false
  end.

End Adapter.

(** ** Framing *)

(** The message a stream write carries, if it is a control message. *)
Definition frame_payload (m : bytes) : option bytes :=
  match m with
  | msgType :: _ :: _ :: p => if msgType =? messageTypeControl then Some p else None
  | _ => None
  end.

Definition frame (ev : stream_event) : bytes :=
  match ev with
  | ControlEvent m => control_frame m
  | PingEvent => [messageTypePing]
  | PongEvent => [messageTypePong]
  | SkipEvent => []
  end.

Definition sendable (ev : stream_event) : Prop :=
  match ev with ControlEvent m => len m <= 65535 | SkipEvent => False | _ => True end.

Lemma frame_header n :
  0 <= n <= 65535 →
  Z.lor (u8 (Z.land n 255)) (u16 (Z.shiftl (u8 (Z.land (Z.shiftr n 8) 255)) 8)) = n.
Proof.
  intros Hn. change 255 with (Z.ones 8). rewrite !Z.land_ones by lia.
  rewrite Z.shiftr_div_pow2, Z.shiftl_mul_pow2 by lia. unfold u8, u16.
  rewrite !Z.mod_mod by lia. assert (0 <= n / 2 ^ 8 < 2 ^ 8) by
    (split; [apply Z.div_pos; lia|apply Z.div_lt_upper_bound; lia]).
  rewrite (Z.mod_small (n / 2 ^ 8)) by lia.
  rewrite (Z.mod_small (n / 2 ^ 8 * 2 ^ 8)) by lia.
  rewrite Z.lor_comm, lor_mul_add by (try apply Z.mod_pos_bound; lia).
  pose proof (Z.div_mod n (2 ^ 8)). lia.
Qed.

Lemma read_turn_frame ev rest :
  sendable ev → read_turn (frame ev ++ rest) = Some (ev, rest).
Proof.
  intros Hs. destruct ev as [m| | |]; simpl in *; [|done..].
  pose proof (len_nonneg m). rewrite frame_header by lia.
  rewrite (proj2 (Z.ltb_ge _ _)) by (rewrite len_app; pose proof (len_nonneg rest); lia).
  unfold len. rewrite Nat2Z.id, take_app_length, drop_app_length. done.
Qed.

(** What is left of a frame that was cut short. *)
Definition cut_short (rest : bytes) : Prop :=
  ∃ m k, len m <= 65535 ∧ (k < length (control_frame m))%nat ∧ rest = take k (control_frame m).

Lemma read_turn_cut rest :
  cut_short rest → rest = [] ∨ read_turn rest = Some (SkipEvent, []).
Proof.
  intros (m & k & Hm & Hk & ->). unfold control_frame in *. simpl in Hk.
  destruct k as [|[|[|k]]]; [by left|by right..|]. right. simpl.
  pose proof (len_nonneg m). rewrite frame_header by lia.
  rewrite (proj2 (Z.ltb_lt _ _)); [done|]. unfold len. rewrite length_take. lia.
Qed.

Lemma read_turn_shrinks r ev r' : read_turn r = Some (ev, r') → (length r' < length r)%nat.
Proof.
  destruct r as [|t r]; simpl; [done|]. intros [= Er].
  assert (r' = r ∨ (length r' <= length r)%nat); [|intuition (subst; lia)]. revert Er.
  case_match; [|case_match; [intros [=]; auto|case_match; intros [=]; auto]].
  destruct r as [|x [|y r]]; simpl; [intros [= _ <-]; auto..|].
  case_match; intros [= _ <-]; right; simpl; [lia|]. rewrite length_drop. lia.
Qed.

(** ** The interface, discharged *)

Section Spec.
Context {C : Type} `{WTSessionSpec C}.
Implicit Types a : WebTransportAdapter C.

Definition controls a : list bytes := omap frame_payload (stream_writes (conn a)).

Lemma control_cases m a a' err :
  WriteControlMessage m a = (a', err) →
  datagrams (conn a') = datagrams (conn a)
  ∧ stream_writes (conn a')
    = stream_writes (conn a) ++ (if err is Some _ then [] else [control_frame m])
  ∧ (err = None → len m <= 65535 ∧ isFullyInitialized a' = isFullyInitialized a).
Proof.
  unfold WriteControlMessage. destruct (isFullyInitialized a) eqn:Ei; simpl;
    [|intros [= <- <-]; by rewrite app_nil_r].
  destruct (65535 <? len m) eqn:El; [intros [= <- <-]; by rewrite app_nil_r|].
  destruct (stream_Write _ (conn a)) as [c [n [e|]]] eqn:Ew.
  - intros [= <- <-]. simpl. rewrite app_nil_r. by apply write_failed in Ew as [-> ->].
  - apply write_full in Ew as (-> & Es & Ed). rewrite Z.eqb_refl. intros [= <- <-]. simpl.
    split_and!; [done..|]. intros _. bool_lia. done.
Qed.

Lemma data_cases m a a' err :
  WriteDataMessage m a = (a', err) →
  stream_writes (conn a') = stream_writes (conn a)
  ∧ datagrams (conn a') = datagrams (conn a) ++ (if err is Some _ then [] else [m])
  ∧ isServer a' = isServer a
  ∧ (err = None → len m <= MaxDataPayloadLen a)
  ∧ (err = Some ErrDataPayloadLimitReduced → MaxDataPayloadLen a' < MaxDataPayloadLen a)
  ∧ (err ≠ Some ErrDataPayloadLimitReduced → MaxDataPayloadLen a' = MaxDataPayloadLen a).
Proof.
  unfold WriteDataMessage. destruct (isFullyInitialized a); simpl;
    [|intros [= <- <-]; by rewrite app_nil_r].
  destruct (MaxDataPayloadLen a <? len m) eqn:El; [intros [= <- <-]; by rewrite app_nil_r|].
  pose proof (limit_nonneg (conn a) m) as Hn. pose proof (not_reduced (conn a) m) as Hr.
  destruct (SendDatagram m (conn a)) as [c [[limit|e]|]] eqn:Es; simpl in *.
  - apply send_err in Es as [Ed Ew]. specialize (Hn _ eq_refl).
    destruct (limit <? MaxDataPayloadLen _) eqn:E1; intros [= <- <-]; simpl;
      rewrite app_nil_r; split_and!; try done.
    intros _. bool_lia. unfold MaxDataPayloadLen in *. simpl in *.
    pose proof (u16_range (maxPayloadLen a)). rewrite !(u16_small limit); lia.
  - apply send_err in Es as [Ed Ew]. intros [= <- <-]. simpl. rewrite app_nil_r.
    split_and!; try done. intros [= He]. by specialize (Hr _ eq_refl).
  - apply send_ok in Es as [Ed Ew]. intros [= <- <-]. simpl. split_and!; try done.
    intros _. bool_lia.
Qed.

#[export] Instance webtransport_spec : SocketAdapterSpec (WebTransportAdapter C).
Proof.
  refine {| sent_data a := datagrams (conn a); sent_control := controls |}; cbn; unfold controls.
  - intros a. apply u16_range.
  - intros a a' m (-> & -> & _ & _ & _ & Hl)%data_cases. by rewrite Hl.
  - intros a a' m e (-> & -> & _)%data_cases. by rewrite app_nil_r.
  - intros a a' m (_ & _ & _ & _ & Hl & _)%data_cases. auto.
  - intros a a' m (-> & -> & _)%control_cases. by rewrite omap_app.
  - intros a a' m e (-> & -> & _)%control_cases. by rewrite app_nil_r.
  - intros a. unfold Close.
    assert (Ha : ∀ a' : WebTransportAdapter C, stream_writes (conn a') = stream_writes (conn a) →
      datagrams (conn a') = datagrams (conn a) →
      datagrams (conn (let '(c, err) := CloseWithError (conn a') in
        (a' <| conn := c |>, err)).1) = datagrams (conn a)
      ∧ omap frame_payload (stream_writes (conn (let '(c, err) := CloseWithError (conn a') in
        (a' <| conn := c |>, err)).1)) = omap frame_payload (stream_writes (conn a))).
    { intros a' Hs Hd. pose proof (close_session (conn a')) as [H1 H2].
      destruct (CloseWithError (conn a')) as [c err]. simpl in *. by rewrite H1, H2, Hs, Hd. }
    destruct (stream a); apply Ha; try done; by apply cancel_sends_nothing.
  - done.
  - intros a m. destruct (WriteDataMessage m a) as [a' err] eqn:E1.
    simpl. unfold IsServer. by apply data_cases in E1 as (_ & _ & -> & _).
  - intros a m. unfold WriteControlMessage. repeat case_match; done.
Defined.

End Spec.

(** ** Reading the stream *)

Lemma bind_ext {W R R'} (m : prog W R) (k k' : R → prog W R') w :
  (∀ r w', k r w' = k' r w') → (m ≫= k) w = (m ≫= k') w.
Proof. intros Hk. unfold mbind, prog_bind. destruct (m w) as [[w' r]| |]; auto. Qed.

Lemma bind_assoc {W R R' R''} (m : prog W R) (k : R → prog W R') (l : R' → prog W R'') w :
  ((m ≫= k) ≫= l) w = (m ≫= λ r, k r ≫= l) w.
Proof. unfold mbind, prog_bind. by destruct (m w) as [[w' r]| |]. Qed.

Section Stream.
Context {C I E : Type} `{WTSessionSpec C} `{WaterInterface I} `{!Unregister E} `{NewRandom}
  `{!PacketHandler (WebTransportAdapter C) I E} `{!ClientHandlers (WebTransportAdapter C) I E}.
Implicit Types w : World (WebTransportAdapter C) I E.
Abbreviation P := (prog (World (WebTransportAdapter C) I E)).

(** The events of a stream acted on in order, up to an error. *)
Fixpoint handle_all (sid : SocketId) (evs : list stream_event) : P (option error) :=
  match evs with
  | [] => mret None
  | ev :: evs =>
      err ← handle_event sid ev;
      match err with
      | Some err => mret (Some err)
      | None => handle_all sid evs
      end
  end.

Definition handle_controls (sid : SocketId) (ms : list bytes) : P unit :=
  foldr (λ m k, controlMessageHandler sid m;; k) (mret tt) ms.

Lemma loop_rest fuel sid rest fin w :
  cut_short rest → (length rest < fuel)%nat → stream_loop fuel sid rest fin w = Ret (w, fin).
Proof.
  intros Hc Hf. destruct (read_turn_cut rest Hc) as [->|Hr].
  - by destruct fuel; [lia|].
  - destruct rest as [|b rest]; [done|]. simpl in Hf. destruct fuel as [|fuel]; [lia|].
    cbn [stream_loop]. rewrite Hr. cbn. by destruct fuel; [lia|].
Qed.

Lemma loop_frames sid rest fin evs fuel w :
  Forall sendable evs → cut_short rest →
  (length (concat (map frame evs) ++ rest) < fuel)%nat →
  stream_loop fuel sid (concat (map frame evs) ++ rest) fin w
  = (err ← handle_all sid evs; mret (if err is Some e then ReadError e else fin)) w.
Proof.
  intros Hs Hr. revert fuel w. induction Hs as [|ev evs Hev _ IH]; intros fuel w Hf.
  - by rewrite loop_rest.
  - cbn [map concat] in *. rewrite <- app_assoc in *.
    pose proof (read_turn_frame ev (concat (map frame evs) ++ rest) Hev) as Hread.
    pose proof (read_turn_shrinks _ _ _ Hread) as Hl.
    destruct fuel as [|fuel]; [lia|]. cbn [stream_loop]. rewrite Hread.
    cbn [handle_all]. rewrite bind_assoc. apply bind_ext. intros [e|] w'; [done|].
    apply IH. lia.
Qed.

Lemma handle_all_controls {R} sid ms (k : option error → P R) w :
  (handle_all sid (ControlEvent <$> ms) ≫= k) w = (handle_controls sid ms;; k None) w.
Proof.
  revert w. induction ms as [|m ms IH]; intros w; [done|].
  cbn [fmap list_fmap handle_all handle_event handle_controls foldr].
  rewrite !bind_assoc. apply bind_ext. intros r w'. rewrite <- IH. done.
Qed.

(** A sender's run of [WriteControlMessage], up to an error. *)
Fixpoint write_controls (ms : list bytes) (a : WebTransportAdapter C)
    : WebTransportAdapter C * option error :=
  match ms with
  | [] => (a, None)
  | m :: ms =>
      let '(a, err) := WriteControlMessage m a in
      match err with Some err => (a, Some err) | None => write_controls ms a end
  end.

Lemma write_controls_stream ms a a' :
  write_controls ms a = (a', None) →
  stream_writes (conn a') = stream_writes (conn a) ++ (control_frame <$> ms)
  ∧ Forall sendable (ControlEvent <$> ms).
Proof.
  revert a. induction ms as [|m ms IH]; intros a; simpl.
  - intros [= <-]. by rewrite app_nil_r.
  - destruct (WriteControlMessage m a) as [a1 [e|]] eqn:E1; [done|].
    apply control_cases in E1 as (_ & E1 & Hl). intros (-> & Hs)%IH.
    rewrite E1, <- app_assoc. split; [done|]. constructor; [by apply Hl|done].
Qed.

Lemma frames_of_controls ms : map frame (ControlEvent <$> ms) = control_frame <$> ms.
Proof. change (map frame (ControlEvent <$> ms)) with (frame <$> (ControlEvent <$> ms)).
  by rewrite <- list_fmap_compose. Qed.

End Stream.

(** ** The properties *)

Section Properties.
Context {C I E : Type} `{WTSessionSpec C} `{WaterInterface I} `{!Unregister E} `{NewRandom}
  `{!PacketHandler (WebTransportAdapter C) I E} `{!ClientHandlers (WebTransportAdapter C) I E}.
Implicit Types w : World (WebTransportAdapter C) I E.

(** C18. The control messages written to a fresh stream arrive: reading the bytes of
    the stream, the peer handles each message once, whole and in order, even if
    the stream breaks inside a further message, which is dropped. *)
Theorem wt_control_arrives (a a' : WebTransportAdapter C) ms w sid rest fin :
  stream_writes (conn a) = [] → write_controls ms a = (a', None) → cut_short rest →
  serveStream sid (concat (stream_writes (conn a')) ++ rest) fin w
  = (handle_controls sid ms;;
     upd_adapter sid (loop_end (read_error fin) (if fin is ReadEOF then false else true))) w.
Proof.
  intros Ha (-> & Hs)%write_controls_stream Hr. rewrite Ha, app_nil_l, <- frames_of_controls.
  unfold serveStream. etransitivity.
  - unfold mbind at 1, prog_bind at 1. rewrite loop_frames by (done || lia). reflexivity.
  - etransitivity; [apply bind_assoc|]. apply handle_all_controls.
Qed.

(** A stream that ends in the middle of a control message is reported as an
    expected end: the serving loop drops the partial message and keeps
    [io.EOF], not flagged as unexpected. *)
Theorem wt_truncated_is_clean w sid s rest :
  socks w !! sid = Some s → cut_short rest → lastServeError (adapter s) = None →
  ∃ a, serveStream sid rest ReadEOF w = Ret (put w sid (s <| adapter := a |>), tt)
    ∧ serve_result a = (false, Some io_EOF).
Proof.
  intros Hs Hr Hl. unfold serveStream. erewrite run_bind by (apply loop_rest; [done|lia]).
  unfold upd_adapter. eexists. split.
  { pose proof (run_upd w sid s) as Hu. rewrite (put_lookup w sid s Hs) in Hu.
    etransitivity; [apply Hu|done]. }
  unfold serve_result, loop_end, handleServeError, Close. rewrite Hl.
  cbn. by destruct (stream (adapter s)); cbn; destruct (CloseWithError _).
Qed.

(** A data message is either sent as one datagram, which respects the limit, or
    not sent; a limit learned from the transport is kept, is smaller, and is
    reported so that the packet is cut again; the limit changes in no other
    way, and refreshing the features forgets what was learned. *)
Theorem wt_datagram_limit (a a' : WebTransportAdapter C) m err :
  WriteDataMessage m a = (a', err) →
  match err with
  | None => datagrams (conn a') = datagrams (conn a) ++ [m] ∧ len m <= MaxDataPayloadLen a
      ∧ MaxDataPayloadLen a' = MaxDataPayloadLen a
  | Some ErrDataPayloadLimitReduced => datagrams (conn a') = datagrams (conn a)
      ∧ MaxDataPayloadLen a' < MaxDataPayloadLen a
  | Some _ => datagrams (conn a') = datagrams (conn a)
      ∧ MaxDataPayloadLen a' = MaxDataPayloadLen a
  end
  ∧ MaxDataPayloadLen (RefreshFeatures a') = 1184.
Proof.
  intros (_ & Hd & _ & Hm & Hl & Hk)%data_cases. split; [|done].
  destruct err as [[]|]; rewrite ?app_nil_r in Hd; split_and!; auto; by apply Hk.
Qed.

(** Serving a session that could not be opened returns its error as unexpected
    and lets no message be sent; after a session was opened [Serve] waits for
    two loops and returns the error of the one that ended first. *)
Theorem wt_serving (a : WebTransportAdapter C) (e e1 e2 : error) (u1 u2 : bool) :
  isFullyInitialized a = false → wg a = 0 → lastServeError a = None →
  (∃ a', serve_start (Some e) a = (a', Some (true, e))
     ∧ (WriteControlMessage [] a').2 ≠ None ∧ (WriteDataMessage [] a').2 ≠ None)
  ∧ (∃ a', serve_start None a = (a', None) ∧ wg a' = 2
     ∧ isReady a' = true ∧ isFullyInitialized a' = true ∧ MaxDataPayloadLen a' = 1184
     ∧ wg (loop_end e1 u1 a') = 1
     ∧ wg (loop_end e2 u2 (loop_end e1 u1 a')) = 0
     ∧ serve_result (loop_end e2 u2 (loop_end e1 u1 a')) = (u1, Some e1)).
Proof.
  intros Hi Hw He. split; eexists; (split; [reflexivity|]).
  - unfold WriteControlMessage, WriteDataMessage. cbn. by rewrite Hi.
  - destruct a as [c st srv g rdy full ty le leu lim]. simpl in Hi, Hw, He. subst.
    split_and!; try (vm_compute; reflexivity);
      unfold loop_end, handleServeError, Close, serve_result;
      cbn -[u16 Z.sub]; destruct (CloseWithError (stream_Cancel c)) as [c1 x1];
      cbn -[u16 Z.sub]; [done|destruct (CloseWithError (stream_Cancel c1)) as [c2 x2]..];
      reflexivity.
Qed.

Context `{!UnregisterSpec E} `{!PacketHandlerSpec (WebTransportAdapter C) I E}
  `{!ClientHandlersSpec (WebTransportAdapter C) I E}.

Lemma keeps_handle_event U sid ev :
  keeps (W := World (WebTransportAdapter C) I E) (world_inv U) (handle_event sid ev).
Proof.
  destruct ev as [m| | |]; cbn [handle_event].
  - apply keeps_bind; [apply keeps_controlMessageHandler|]. intros r. apply keeps_ret.
  - apply keeps_bind; [apply keeps_sock|]. intros s. unfold stream_write.
    destruct (stream (adapter s)); [|apply triple_panic; other_panic_done].
    destruct (stream_Write _ _) as [c [n err]]. keep.
  - apply keeps_ret.
  - apply keeps_ret.
Qed.

Lemma keeps_stream_loop U sid r fin fuel : (length r < fuel)%nat →
  keeps (W := World (WebTransportAdapter C) I E) (world_inv U) (stream_loop fuel sid r fin).
Proof.
  revert r. induction fuel as [|fuel IH]; intros r Hf; [lia|]. cbn [stream_loop].
  destruct (read_turn r) as [[ev r']|] eqn:Er; [|apply keeps_ret].
  apply read_turn_shrinks in Er. apply keeps_bind; [apply keeps_handle_event|].
  intros [e|]; [apply keeps_ret|]. apply IH. lia.
Qed.

(** Whatever bytes a peer puts on the stream, the loop that reads it ends, and
    leaves the sockets in a state that satisfies the invariant. *)
Theorem wt_any_bytes w sid r fin :
  reachable w →
  match serveStream sid r fin w with
  | Ret (w', _) => world_inv ∅ w'
  | Panic why => other_panic why
  | Exhausted => False
  end.
Proof.
  intros Hr%reachable_inv.
  assert (Hk : keeps (W := World (WebTransportAdapter C) I E) (world_inv ∅)
    (serveStream sid r fin)); [|by apply Hk].
  apply keeps_bind; [apply keeps_stream_loop; lia|]. intros e. unfold upd_adapter. keep.
Qed.

End Properties.

(** ** A session that records, for the closed instances *)

Record channel := mkChannel {
  ch_writes : list bytes;
  ch_datagrams : list bytes;
  ch_limit : nat;
  ch_open : bool }.

#[export] Instance channel_session : WTSession channel := {
  stream_Write m c :=
    if ch_open c
    then (mkChannel (ch_writes c ++ [m]) (ch_datagrams c) (ch_limit c) true, (len m, None))
    else (c, (0, Some (ErrText "closed")));
  stream_Cancel c := mkChannel (ch_writes c) (ch_datagrams c) (ch_limit c) false;
  SendDatagram m c :=
    if Z.of_nat (ch_limit c) <? len m
    then (c, Some (DatagramTooLarge (Z.of_nat (ch_limit c))))
    else (mkChannel (ch_writes c) (ch_datagrams c ++ [m]) (ch_limit c) (ch_open c), None);
  CloseWithError c := (mkChannel (ch_writes c) (ch_datagrams c) (ch_limit c) false, None);
}.

#[export] Instance channel_spec : WTSessionSpec channel.
Proof.
  refine {| stream_writes := ch_writes; datagrams := ch_datagrams |};
    intros; cbn [stream_Write stream_Cancel SendDatagram CloseWithError channel_session] in *;
    repeat (case_match; simplify_eq/=; try done); try done; try lia.
Defined.

Definition fresh_adapter : WebTransportAdapter channel :=
  NewWebTransportAdapter (mkChannel [] [] 1100 true) 1 true.
Definition opened_adapter : WebTransportAdapter channel := (serve_start None fresh_adapter).1.

Definition channel_world : World (WebTransportAdapter channel) unit unit :=
  mkWorld {[1%nat := MakeSocket opened_adapter None true false]} ∅ tt [] [] 0 0.

(** Two messages, and a third of which two bytes of three arrive. *)
Lemma wt_control_arrives_witness :
  let a' := (write_controls [[123; 125]; []] opened_adapter).1 in
  concat (stream_writes (conn a')) ++ [0; 0; 3; 9; 9] = [0; 0; 2; 123; 125; 0; 0; 0; 0; 0; 3; 9; 9]
  ∧ serveStream 1 (concat (stream_writes (conn a')) ++ [0; 0; 3; 9; 9]) ReadEOF channel_world
    = (handle_controls 1 [[123; 125]; []];; upd_adapter 1 (loop_end io_EOF false)) channel_world.
Proof.
  split; [reflexivity|].
  apply (wt_control_arrives opened_adapter _ [[123; 125]; []] channel_world 1 [0; 0; 3; 9; 9] ReadEOF);
    [reflexivity|reflexivity|].
  exists [9; 9; 9], 5%nat. split_and!; [vm_compute; congruence|simpl; lia|reflexivity].
Defined.

Lemma wt_truncated_is_clean_witness :
  ∃ a, serveStream 1 [0; 0; 3; 9; 9] ReadEOF channel_world
      = Ret (put channel_world 1 ((MakeSocket opened_adapter None true false) <| adapter := a |>), tt)
    ∧ serve_result a = (false, Some io_EOF).
Proof.
  apply (wt_truncated_is_clean channel_world 1 (MakeSocket opened_adapter None true false));
    [reflexivity| |reflexivity].
  exists [9; 9; 9], 5%nat. split_and!; [vm_compute; congruence|simpl; lia|reflexivity].
Defined.

Lemma wt_datagram_limit_witness :
  let m := replicate 1150 7 in
  let r := WriteDataMessage m opened_adapter in
  r.2 = Some ErrDataPayloadLimitReduced ∧ MaxDataPayloadLen r.1 = 1100
  ∧ datagrams (conn r.1) = [] ∧ MaxDataPayloadLen r.1 < MaxDataPayloadLen opened_adapter.
Proof.
  split; [reflexivity|]. split; [reflexivity|].
  exact (proj1 (wt_datagram_limit opened_adapter _ (replicate 1150 7)
    (Some ErrDataPayloadLimitReduced) eq_refl)).
Defined.

Lemma wt_serving_witness :
  ∃ a', serve_start None fresh_adapter = (a', None) ∧ wg a' = 2
    ∧ isReady a' = true ∧ isFullyInitialized a' = true ∧ MaxDataPayloadLen a' = 1184
    ∧ wg (loop_end io_EOF false a') = 1
    ∧ wg (loop_end (ErrText "closed") true (loop_end io_EOF false a')) = 0
    ∧ serve_result (loop_end (ErrText "closed") true (loop_end io_EOF false a'))
      = (false, Some io_EOF).
Proof.
  apply (wt_serving fresh_adapter (ErrText "no stream") io_EOF (ErrText "closed") false true);
    reflexivity.
Defined.

Lemma wt_any_bytes_witness :
  let w := mkWorld ∅ ∅ tt [] [] 0 0 : World (WebTransportAdapter channel) unit unit in
  match serveStream 1 [0; 0; 5; 1; 2] ReadEOF w with
  | Ret (w', _) => world_inv ∅ w'
  | Panic why => other_panic why
  | Exhausted => False
  end.
Proof.
  apply (wt_any_bytes (mkWorld ∅ ∅ tt [] [] 0 0)). eexists. split; [|apply rtc_refl]. done.
Defined.
