(* ===== verification/Transports.v ===== *)
(** * Transports of either kind, side by side

    A server has WebSocket and WebTransport clients at once, so that the state
    of an adapter is a sum, as for the upgraders and the connectors.  The sum is
    an adapter that keeps the interface's promises, and both kinds work, in the
    sense of [Link], as long as their connections do. *)

From S2P Require Import Prelude Commands Adapter Socket World Lifecycle Fragment Protocol Link.
From S2P Require WebSocket WebTransport.
Import adapters.

#[export] Existing Instances WebSocket.websocket_adapter WebSocket.websocket_spec
  WebTransport.webtransport_adapter WebTransport.webtransport_spec.

(** ** The sum of two adapters *)

Section Sum.
Context {A B : Type} `{SocketAdapter A} `{SocketAdapter B}.

Definition lift_inl {R} (r : A * R) : (A + B) * R := (inl r.1, r.2).
Definition lift_inr {R} (r : B * R) : (A + B) * R := (inr r.1, r.2).

(** A call through the interface: the dynamic type selects the method. *)
#[export] Instance sum_adapter : SocketAdapter (A + B) := {
  Close a := match a with inl a => lift_inl (Close a) | inr a => lift_inr (Close a) end;
  WriteControlMessage m a :=
    match a with
    | inl a => lift_inl (WriteControlMessage m a)
    | inr a => lift_inr (WriteControlMessage m a)
    end;
  WriteDataMessage m a :=
    match a with
    | inl a => lift_inl (WriteDataMessage m a)
    | inr a => lift_inr (WriteDataMessage m a)
    end;
  WritePingMessage a :=
    match a with
    | inl a => r ← WritePingMessage a; Ret (lift_inl r)
    | inr a => r ← WritePingMessage a; Ret (lift_inr r)
    end;
  IsServer a := match a with inl a => IsServer a | inr a => IsServer a end;
  MaxDataPayloadLen a := match a with inl a => MaxDataPayloadLen a | inr a => MaxDataPayloadLen a end;
  RefreshFeatures a :=
    match a with inl a => inl (RefreshFeatures a) | inr a => inr (RefreshFeatures a) end;
  GetCommandSerializationType a :=
    match a with inl a => GetCommandSerializationType a | inr a => GetCommandSerializationType a end;
  Name a := match a with inl a => Name a | inr a => Name a end }.

End Sum.

Lemma lift_inl_eq {A B R} (r : A * R) (a' : A + B) o :
  lift_inl r = (a', o) → ∃ a, a' = inl a ∧ r = (a, o).
Proof. destruct r as [a x]. intros [= <- <-]. by exists a. Qed.

Lemma lift_inr_eq {A B R} (r : B * R) (a' : A + B) o :
  lift_inr r = (a', o) → ∃ a, a' = inr a ∧ r = (a, o).
Proof. destruct r as [a x]. intros [= <- <-]. by exists a. Qed.

#[export] Instance sum_spec {A B} `{SocketAdapterSpec A} `{SocketAdapterSpec B} :
  SocketAdapterSpec (A + B).
Proof.
  refine {| sent_data a := match a with inl a => sent_data a | inr a => sent_data a end;
            sent_control a := match a with inl a => sent_control a | inr a => sent_control a end |};
    cbn.
  - intros [a|a]; apply max_range.
  - intros [a|a] a' m E; [apply lift_inl_eq in E as (? & -> & E)|apply lift_inr_eq in E as (? & -> & E)];
      by apply data_ok.
  - intros [a|a] a' m e E; [apply lift_inl_eq in E as (? & -> & E)|apply lift_inr_eq in E as (? & -> & E)];
      by eapply data_err.
  - intros [a|a] a' m E; [apply lift_inl_eq in E as (? & -> & E)|apply lift_inr_eq in E as (? & -> & E)];
      by eapply data_reduced.
  - intros [a|a] a' m E; [apply lift_inl_eq in E as (? & -> & E)|apply lift_inr_eq in E as (? & -> & E)];
      by apply control_ok.
  - intros [a|a] a' m e E; [apply lift_inl_eq in E as (? & -> & E)|apply lift_inr_eq in E as (? & -> & E)];
      by eapply control_err.
  - intros [a|a]; apply close_sends_nothing.
  - intros [a|a]; apply refresh_sends_nothing.
  - intros [a|a] m; apply write_keeps_side.
  - intros [a|a] m; apply control_keeps_type.
Defined.

(** ** Transports that work *)

Section Working.
Context {C D : Type} `{WebSocket.WSConnSpec C} `{WebTransport.WTSessionSpec D}.

(** Connections that go on taking messages. *)
Definition conn_works (Wc : C → Prop) : Prop :=
  ∀ c m, Wc c → let '(c1, e1) := WebSocket.writer_Write m c in
    e1 = None ∧ let '(c2, e2) := WebSocket.writer_Flush c1 in e2 = None ∧ Wc c2.

(** Sessions that go on taking datagrams of up to [limit] bytes. *)
Definition session_works (limit : Z) (Ws : D → Prop) : Prop :=
  ∀ d m, Ws d → len m <= limit →
    let '(d', e) := WebTransport.SendDatagram m d in e = None ∧ Ws d'.

Definition websocket_open (Wc : C → Prop) (a : WebSocket.WebSocketAdapter C) : Prop :=
  Wc (WebSocket.conn a).
Definition webtransport_open (limit : Z) (Ws : D → Prop) (a : WebTransport.WebTransportAdapter D) : Prop :=
  WebTransport.isFullyInitialized a = true ∧ WebTransport.MaxDataPayloadLen a <= limit
  ∧ Ws (WebTransport.conn a).

Lemma websocket_works Wc : conn_works Wc → keeps_working (websocket_open Wc).
Proof.
  intros Hc a m Ha _. specialize (Hc (WebSocket.conn a) m Ha). cbn.
  unfold WebSocket.WriteDataMessage, WebSocket.on_conn.
  destruct (WebSocket.writer_Write m (WebSocket.conn a)) as [c1 e1]. destruct Hc as [-> Hc]. simpl.
  destruct (WebSocket.writer_Flush c1) as [c2 e2]. by destruct Hc as [-> Hc].
Qed.

Lemma webtransport_works limit Ws :
  session_works limit Ws → keeps_working (webtransport_open limit Ws).
Proof.
  intros Hs a m (Hi & Hl & Ha) Hm. specialize (Hs (WebTransport.conn a) m Ha).
  cbn in Hm |- *. unfold WebTransport.WriteDataMessage. rewrite Hi. cbn [negb].
  rewrite (proj2 (Z.ltb_ge _ _)) by lia.
  destruct (WebTransport.SendDatagram m (WebTransport.conn a)) as [d e].
  destruct Hs as [-> Hs]; [lia|]. split; [done|]. split_and!; done.
Qed.

(** Either kind. *)
Definition either_open {A B} (W : A → Prop) (V : B → Prop) (a : A + B) : Prop :=
  match a with inl a => W a | inr a => V a end.

Lemma either_works {A B} `{SocketAdapter A} `{SocketAdapter B} (W : A → Prop) (V : B → Prop) :
  keeps_working W → keeps_working V → keeps_working (either_open W V).
Proof. intros HW HV [a|a] m Ha Hm; [by apply HW|by apply HV]. Qed.

End Working.

(** ** Closed instances: the connections of the two transports' files *)

#[export] Existing Instances WebSocket.wire_conn WebSocket.wire_spec WebTransport.channel_session
  WebTransport.channel_spec.

Lemma wire_works : conn_works (λ c, WebSocket.wire_open c = true).
Proof. intros c m Hc. cbn. rewrite Hc. done. Qed.

Lemma channel_works n : session_works (Z.of_nat n) (λ d, WebTransport.ch_limit d = n).
Proof. intros d m <- Hm. cbn. by rewrite (proj2 (Z.ltb_ge _ _)). Qed.
