(* ===== verification/Tunnel.v ===== *)
(** * The tunnel: packets from one client to another

    Three nodes, each a world of its own: a client that reads packets from its
    interface, the server with its IP switch, and the client that holds the
    packets' destination.  Only messages pass between them, in any order.  The
    packets that the first client reads are those that the interface of the
    second is given. *)

From S2P Require Import Prelude Commands Adapter Socket Net World Lifecycle Fragment Protocol Link.
From S2P Require Import Transports.
From S2P Require WebSocket WebTransport Frame IPSwitch MACSwitch.
Import adapters.

(** ** Runs of the loops of a socket *)

Section Loops.
Context {A I E : Type} `{SocketAdapter A} `{WaterInterface I} `{Unregister E} `{NewRandom}
  `{PacketHandler A I E} `{ClientHandlers A I E}.
Abbreviation P := (prog (World A I E)).

(** The reading loop of an adapter over messages and their times of arrival. *)
Fixpoint deliver (sid : SocketId) (arrivals : list (Z * bytes)) : P bool :=
  match arrivals with
  | [] => mret true
  | (t, m) :: arrivals =>
      modify (λ w, w <| now := t |>);;
      ok ← dataMessageHandler sid m;
      if (ok : bool) then deliver sid arrivals else mret false
  end.

(** The reading loop of a managed interface over the packets that it reads. *)
Fixpoint read_all (sid : SocketId) (packets : list bytes) : P bool :=
  match packets with
  | [] => mret true
  | packet :: packets =>
      ok ← iface_read_step sid (inl packet);
      if (ok : bool) then read_all sid packets else mret false
  end.

(** Delivering messages is processing the packets that they make up: [J] says
    what the world is after some packets were processed, [K] what the receiving
    socket is, whatever its buffer. *)
Lemma deliver_run sid (J : list bytes → World A I E → Prop) (K : Socket A → Prop)
    (ok : bytes → Prop) :
  (∀ l w t, J l w → J l (w <| now := t |>)) →
  (∀ l w s, J l w → J l (put w sid s)) →
  (∀ s d, K s → K (s <| defragBuffer := d |>)) →
  (∀ l w s p, J l w → socks w !! sid = Some s → K s → ok p →
     ∃ w', processPacket sid p w = Ret (w', true) ∧ J (l ++ [p]) w' ∧ socks w' !! sid = Some s) →
  ∀ arrivals r r' out l w,
    receive_all arrivals r = (r', out) → Forall ok out →
    (fragmentationEnabled r = true → Forall acceptable arrivals.*2) →
    J l w → K r → socks w !! sid = Some r →
    ∃ w', deliver sid arrivals w = Ret (w', true) ∧ J (l ++ out) w' ∧ socks w' !! sid = Some r'.
Proof.
  intros Ht Hs Hk Hstep arrivals. induction arrivals as [|[t m] arrivals IH];
    intros r r' out l w Er Hok Hacc HJ HK Hr; cbn [receive_all deliver] in *.
  { injection Er as <- <-. exists w. by rewrite app_nil_r. }
  destruct (receive_data t m r) as [r1 v] eqn:Ed.
  destruct (receive_all arrivals r1) as [r2 out'] eqn:Ea. injection Er as <- Eout.
  destruct (receive_data_buffer t m r) as [d Hd]. rewrite Ed in Hd. simpl in Hd.
  assert (HK1 : K r1) by (subst r1; by apply Hk).
  assert (Hacc1 : fragmentationEnabled r1 = true → Forall acceptable arrivals.*2).
  { subst r1. intros Hf. by apply Forall_cons in Hacc as [_ Hacc]; [|done]. }
  erewrite run_bind by reflexivity. cbv beta.
  assert (Hrun : dataMessageHandler sid m (w <| now := t |>)
    = match v with Keep => mret true | Refuse => mret false | Deliver p => processPacket sid p end
        (put (w <| now := t |>) sid r1)).
  { unfold dataMessageHandler. erewrite run_bind by done. cbv beta.
    by erewrite run_bind by (apply (run_local _ sid r); [done|by simpl; rewrite Ed]). }
  unfold mbind at 1, prog_bind at 1. rewrite Hrun.
  set (w1 := put (w <| now := t |>) sid r1).
  assert (HJ1 : J l w1) by (apply Hs, Ht, HJ).
  assert (Hr1 : socks w1 !! sid = Some r1) by apply lookup_insert_eq.
  destruct v as [| |p].
  - subst out'. simpl. by apply (IH r1 r2 out l w1).
  - exfalso. apply (receive_acceptable t m r); [|by rewrite Ed].
    intros Hf. by apply Forall_cons in Hacc as [? _]; [|done].
  - subst out. apply Forall_cons in Hok as [Hp Hok].
    destruct (Hstep l w1 r1 p HJ1 Hr1 HK1 Hp) as (w2 & -> & HJ2 & Hr2).
    destruct (IH r1 r2 out' (l ++ [p]) w2) as (w' & ? & HJ' & ?); try done.
    exists w'. by rewrite <- app_assoc in HJ'.
Qed.

End Loops.

(** ** The client that reads the packets *)

Section Reader.
Context {A I E : Type} `{SocketAdapterSpec A} `{WaterInterface I} `{Unregister E} `{NewRandom}
  `{PacketHandler A I E} `{ClientHandlers A I E}.
Implicit Types s : Socket A.

Lemma read_all_writes W sid packets w s :
  keeps_working W → socks w !! sid = Some s → sender (W := W) s → Forall (fits s) packets →
  Forall (λ p, len p < packetBufferSize s) packets →
  read_all sid packets w = Ret (put w sid (foldl written s packets), true).
Proof.
  intros HW. revert w s. induction packets as [|p packets IH]; intros w s Hs Hw Hf Hb.
  { simpl. by rewrite put_lookup. }
  apply Forall_cons in Hf as [Hp Hf]. apply Forall_cons in Hb as [Hbp Hb]. cbn [read_all foldl].
  assert (Estep : iface_read_step sid (inl p) w = Ret (put w sid (written s p), true)).
  { unfold iface_read_step. erewrite run_bind by (by apply run_sock_at).
    destruct Hp as [Hp1 Hp2].
    rewrite (proj2 (Z.ltb_ge _ _)), (proj2 (Z.leb_gt _ _)) by lia. cbn [orb].
    by erewrite run_bind by (apply (run_WritePacket HW); [done|apply Hw|apply Hw|by split]). }
  erewrite run_bind by exact Estep.
  destruct (written_sender HW s p Hw Hp) as [Hw' Hfits].
  destruct (written_spec HW s p (proj2 Hw) Hp) as (_ & _ & (ad & id & Ew) & _).
  rewrite (IH (put w sid (written s p)) (written s p)); try done.
  - unfold put. simpl. by rewrite insert_insert_eq.
  - apply lookup_insert_eq.
  - eapply Forall_impl; [exact Hf|done].
  - by rewrite Ew.
Qed.

End Reader.

(** ** The client that the packets are for *)

Section Receiver.
Context {A I E : Type} `{SocketAdapter A} `{WaterInterface I} `{Unregister E} `{NewRandom}
  `{PacketHandler A I E} `{ClientHandlers A I E}.

(** An interface that takes every packet. *)
Definition takes_packets (W : I → Prop) : Prop :=
  ∀ i p, W i → (iface_write p i).2 = None ∧ W (iface_write p i).1.

Definition given (i : I) (packets : list bytes) : I := foldl (λ i p, (iface_write p i).1) i packets.

(** A client's socket, which has no packet handler. *)
Definition client_socket (iid : IfaceId) (s : Socket A) : Prop :=
  packetHandler s = false ∧ iface s = Some iid.

Lemma deliver_to_interface W sid iid i arrivals r out w :
  takes_packets W → W i → ifaces w !! iid = Some i → client_socket iid r →
  socks w !! sid = Some r → receive_all arrivals r = (r, out) → Forall (λ p, 0 < len p) out →
  (fragmentationEnabled r = true → Forall acceptable arrivals.*2) →
  ∃ w', deliver sid arrivals w = Ret (w', true)
    ∧ ifaces w' = <[iid := given i out]> (ifaces w) ∧ socks w' !! sid = Some r.
Proof.
  intros HW Hi Hii Hr Hs Er Hok Hacc.
  set (J := λ l (w' : World A I E), ifaces w' = <[iid := given i l]> (ifaces w) ∧ W (given i l)).
  destruct (deliver_run sid J (client_socket iid) (λ p, 0 < len p)) with arrivals r r out (@nil bytes) w
    as (w' & ? & [HJ _] & ?); try done.
  - intros l w1 s p [HJ Hg] Hs1 [Hp Hif] Hl. unfold processPacket.
    rewrite (proj2 (Z.ltb_ge _ _)) by lia.
    erewrite run_bind by (by apply run_sock_at). rewrite Hp.
    erewrite run_bind by done. cbv beta iota. erewrite run_bind by (by apply run_sock_at). rewrite Hif.
    destruct (HW (given i l) p Hg) as [Hn Hw]. destruct (iface_write p (given i l)) as [i' e] eqn:Ew.
    simpl in Hn, Hw. subst e.
    assert (Eg : given i (l ++ [p]) = i') by (unfold given in *; by rewrite foldl_app; simpl; rewrite Ew).
    assert (Ecall : iface_call iid (iface_write p) w1
      = Ret (w1 <| ifaces := <[iid := i']> (ifaces w1) |>, None)).
    { unfold iface_call. erewrite run_bind by done. cbv beta. rewrite HJ, lookup_insert_eq. cbv iota beta. rewrite Ew, <- HJ. reflexivity. }
    eexists. split_and!.
    + by erewrite run_bind by exact Ecall.
    + unfold J. rewrite Eg. split; [|done]. simpl. by rewrite HJ, insert_insert_eq.
    + done.
  - unfold J. split; [|done]. simpl. by rewrite insert_id.
  - by exists w'.
Qed.

End Receiver.

(** ** The server in between *)

Section Server.
Context {A I E : Type} `{SocketAdapterSpec A} `{WaterInterface I} `{Unregister E} `{NewRandom}
  `{PacketHandler A I E} `{ClientHandlers A I E}.

(** The packet handler passes a packet of socket [a] to socket [b], and keeps
    what it needs to go on doing so: [Env] of its own state, [K] of [a]. *)
Definition forwards (Env : E → Prop) (K : Socket A → Prop) (a b : SocketId) (p : bytes) : Prop :=
  ∀ (w : World A I E) s, Env (env w) → socks w !! a = Some s → K s →
    ∃ e, Env e ∧ HandlePacket (Some a) p w = (WritePacket b p;; mret (true, None)) (w <| env := e |>).

(** What no packet of [a] for [b] changes. *)
Definition untouched (a b : SocketId) (w w' : World A I E) : Prop :=
  ifaces w' = ifaces w ∧ tasks w' = tasks w ∧ events w' = events w
  ∧ ∀ sid, sid ≠ a → sid ≠ b → socks w' !! sid = socks w !! sid.

Lemma deliver_forwards W Env K a b arrivals r sb out w :
  keeps_working W → a ≠ b → Env (env w) → (∀ s d, K s → K (s <| defragBuffer := d |>)) →
  socks w !! a = Some r → packetHandler r = true → K r → socks w !! b = Some sb → sender (W := W) sb →
  receive_all arrivals r = (r, out) → Forall (fits sb) out → Forall (forwards Env K a b) out →
  (fragmentationEnabled r = true → Forall acceptable arrivals.*2) →
  ∃ w', deliver a arrivals w = Ret (w', true) ∧ Env (env w')
    ∧ socks w' !! a = Some r ∧ socks w' !! b = Some (foldl written sb out) ∧ untouched a b w w'.
Proof.
  intros HW Hab Henv HK Ha Hph Hr Hb Hsb Er Hfit Hfwd Hacc.
  set (J := λ l (w' : World A I E), Env (env w') ∧ untouched a b w w'
    ∧ socks w' !! b = Some (foldl written sb l) ∧ sender (W := W) (foldl written sb l)
    ∧ ∀ p, fits sb p → fits (foldl written sb l) p).
  destruct (deliver_run a J (λ s, packetHandler s = true ∧ K s)
    (λ p, fits sb p ∧ forwards Env K a b p)) with arrivals r r out (@nil bytes) w
    as (w' & ? & (? & ? & ? & _) & ?); try done.
  - intros l w1 s (HE & (? & ? & ? & Hother) & Hb1 & Hrest). split; [done|]. split; [|split; [|done]].
    + do 3 (split; [done|]). intros sid Hna Hnb. simpl. rewrite lookup_insert_ne by done. by apply Hother.
    + simpl. by rewrite lookup_insert_ne.
  - intros s d [? ?]. split; [done|]. by apply HK.
  - intros l w1 s p (HE & (Hi1 & Ht1 & Hv1 & Hother) & Hb1 & Hs1 & Hf1) Ha1 [Hp1 HK1] [Hp Hf].
    destruct (Hf w1 s HE Ha1 HK1) as (e & He & Eh).
    assert (Erun : HandlePacket (Some a) p w1
      = Ret (put (w1 <| env := e |>) b (written (foldl written sb l) p), (true, None))).
    { rewrite Eh. by erewrite run_bind by (apply (run_WritePacket HW);
        [exact Hb1|apply Hs1|apply Hs1|by apply Hf1]). }
    eexists. split_and!.
    + unfold processPacket. rewrite (proj2 (Z.ltb_ge _ _)) by (destruct Hp; lia).
      erewrite run_bind by (by apply run_sock_at). rewrite Hp1.
      by erewrite run_bind by exact Erun.
    + destruct (written_sender HW _ p Hs1 (Hf1 p Hp)) as [Hs2 Hf2].
      unfold J. rewrite foldl_app. cbn [foldl]. split; [done|].
      split; [|split; [apply lookup_insert_eq|split; [done|]]].
      * do 3 (split; [done|]). intros sid Hna Hnb. simpl. rewrite lookup_insert_ne by done. by apply Hother.
      * intros p' Hp'. by apply Hf2, Hf1.
    + simpl. by rewrite lookup_insert_ne.
  - apply Forall_and. by split.
  - by exists w'.
Qed.

End Server.

(** ** The three together *)

Section Tunnel.
Context {A I E G : Type} `{SocketAdapterSpec A} `{WaterInterface I} `{NewRandom}
  `{Unregister E} `{PacketHandler A I E} `{ClientHandlers A I E}
  `{Unregister G} `{PacketHandler A I G} `{ClientHandlers A I G}.

(** The client that reads the packets from its interface. *)
Record source (wA : World A I E) (sidA : SocketId) (sA : Socket A) (packets : list bytes) : Prop := {
  source_socket : socks wA !! sidA = Some sA;
  source_buffer : Forall (λ p, len p < packetBufferSize sA) packets }.

(** The server, where the packets of [a] are for [b]. *)
Record relay (Env : G → Prop) (K : Socket A → Prop) (ws : World A I G) (a b : SocketId)
    (ra sb : Socket A) (packets : list bytes) : Prop := {
  relay_env : Env (env ws);
  relay_distinct : a ≠ b;
  relay_from : socks ws !! a = Some ra;
  relay_handler : packetHandler ra = true;
  relay_keeps : K ra ∧ ∀ s d, K s → K (s <| defragBuffer := d |>);
  relay_to : socks ws !! b = Some sb;
  relay_forwards : Forall (forwards Env K a b) packets }.

(** The client that has the destination, with an interface that works. *)
Record target (W : I → Prop) (wB : World A I E) (sidB : SocketId) (rB : Socket A)
    (iid : IfaceId) (i : I) : Prop := {
  target_socket : socks wB !! sidB = Some rB;
  target_is_client : client_socket iid rB;
  target_iface : ifaces wB !! iid = Some i;
  target_works : W i }.

(** The first client's run, whatever the order in which its messages reach the
    server, whatever the order in which the server's reach the second client:
    nothing but the two sockets changes at the server, and the second client's
    interface is given the packets. *)
Definition carried (wA : World A I E) (sidA : SocketId) (sA : Socket A)
    (ws : World A I G) (a b : SocketId) (sb : Socket A)
    (wB : World A I E) (sidB : SocketId) (iid : IfaceId) (i : I) (packets : list bytes) : Prop :=
  ∃ wA' sA' msgs, read_all sidA packets wA = Ret (wA', true)
    ∧ socks wA' !! sidA = Some sA' ∧ sent_data (adapter sA') = sent_data (adapter sA) ++ msgs
    ∧ ∀ arrivals, arrivals.*2 ≡ₚ msgs →
      ∃ ws' sb' msgs', deliver a arrivals ws = Ret (ws', true) ∧ untouched a b ws ws'
        ∧ socks ws' !! b = Some sb' ∧ sent_data (adapter sb') = sent_data (adapter sb) ++ msgs'
        ∧ ∀ arrivals', arrivals'.*2 ≡ₚ msgs' →
          ∃ wB' out, deliver sidB arrivals' wB = Ret (wB', true)
            ∧ out ≡ₚ packets ∧ ifaces wB' = <[iid := given i out]> (ifaces wB).

Lemma tunnel W WI Env K wA sidA sA ws a b ra sb wB sidB rB iid i packets :
  keeps_working W → takes_packets WI →
  source wA sidA sA packets → link W sA ra packets →
  relay Env K ws a b ra sb packets → link W sb rB packets →
  target WI wB sidB rB iid i →
  carried wA sidA sA ws a b sb wB sidB iid i packets.
Proof.
  intros HW HWI [HsA HbA] Hl1 [Henv Hab Ha Hph [HK HKd] Hb Hfwd] Hl2 [HsB HcB Hi Hwi].
  destruct (link_carries W sA ra packets HW Hl1) as (msgs & Em & Hacc & Hall).
  do 3 eexists. split; [apply (read_all_writes W); [done..|apply Hl1|apply Hl1|done]|].
  split; [apply lookup_insert_eq|]. split; [exact Em|]. intros arrivals Harr.
  destruct (Hall arrivals Harr) as (out1 & Eout1 & Hp1).
  destruct (link_carries W sb rB out1 HW) as (msgs' & Em' & Hacc' & Hall').
  { apply (link_perm _ _ _ packets); [by symmetry|done]. }
  destruct (deliver_forwards W Env K a b arrivals ra sb out1 ws) as (ws' & Erun & _ & _ & Hsb & Hun);
    try done.
  { apply Hl2. } { rewrite Hp1. apply Hl2. } { by rewrite Hp1. } { rewrite Harr. exact Hacc. }
  exists ws', (foldl written sb out1), msgs'. split; [exact Erun|]. split; [exact Hun|].
  split; [exact Hsb|]. split; [exact Em'|]. intros arrivals' Harr'.
  destruct (Hall' arrivals' Harr') as (out2 & Eout2 & Hp2).
  destruct (deliver_to_interface WI sidB iid i arrivals' rB out2 wB) as (wB' & ErunB & Eif & _);
    try done.
  { rewrite Hp2, Hp1. eapply Forall_impl; [apply (link_fits _ _ _ _ Hl2)|]. by intros p [? _]. }
  { by rewrite Harr'. }
  exists wB', out2. split_and!; [exact ErunB|by rewrite Hp2|exact Eif].
Qed.

End Tunnel.

(** ** Over the IP switch *)

Module IP.
Import IPSwitch.

Section IP.
Context {A I E : Type} `{SocketAdapterSpec A} `{WaterInterface I} `{NewRandom} `{Waterutil}
  `{Unregister E} `{PacketHandler A I E} `{ClientHandlers A I E} `{ClientHandlers A I IPSwitch}.

(** A packet that a client with address [ip] may send to the client [b]. *)
Record to_client (g : IPSwitch) (ip : netIP) (b : SocketId) (p : bytes) : Prop := {
  packet_ok : well_formed p;
  packet_source : ip_equal (IPSource p) ip = true;
  packet_unicast : IsGlobalUnicast (IPDestination p) = true;
  packet_dest : ipTable g !! ipToIPAddr (IPDestination p) = Some b }.

Lemma ip_forwards g ip a b p :
  AllowClientToClient g = true → to_client g ip b p →
  forwards (A := A) (I := I) (λ e, e = g) (λ s, AssignedIP s = ip) a b p.
Proof.
  intros Hc [Hw Hs Hu Hd] w s Henv Ha Hip. exists g. split; [done|].
  replace (w <| env := g |>) with w by (subst g; by destruct w).
  cbn [World.HandlePacket ipswitch_handler]. rewrite HandlePacket_forward; [|done|].
  - unfold forward. erewrite run_bind by done. cbv beta. rewrite Henv, Hc, Hu. cbn [orb].
    unfold findSocketByIP. by rewrite Hd.
  - intros sid [= <-]. exists s. by rewrite Hip.
Qed.

(** C2. The tunnel in TUN mode, end to end: what a client reads from its
    interface for the address of another client is, where clients may talk to
    each other, exactly what the interface of that client is given; no other
    socket of the server, no interface and no entry of the switch changes.  The
    packets may travel in fragments and the messages arrive in any order on
    both links. *)
Theorem ip_tunnel W WI wA sidA sA (ws : World A I IPSwitch) a b ra sb (wB : World A I E) sidB rB
    iid i packets :
  keeps_working W → takes_packets WI →
  source wA sidA sA packets → link W sA ra packets →
  a ≠ b → socks ws !! a = Some ra → packetHandler ra = true → socks ws !! b = Some sb →
  AllowClientToClient (env ws) = true → Forall (to_client (env ws) (AssignedIP ra) b) packets →
  link W sb rB packets → target WI wB sidB rB iid i →
  carried wA sidA sA ws a b sb wB sidB iid i packets.
Proof.
  intros HW HWI HsA Hl1 Hab Ha Hph Hb Hc Hp Hl2 HtB.
  eapply (tunnel W WI (λ e, e = env ws) (λ s, AssignedIP s = AssignedIP ra)); try done.
  apply Build_relay; try done. eapply Forall_impl; [exact Hp|]. intros p Htc. by apply ip_forwards.
Qed.

End IP.
End IP.

(** ** Over the MAC switch *)

Module MAC.
Import Frame MACSwitch.

Section MAC.
Context {L A I E : Type} `{LRUSpec L} `{SocketAdapterSpec A} `{WaterInterface I} `{NewRandom} `{Waterutil}
  `{Unregister E} `{PacketHandler A I E} `{ClientHandlers A I E} `{ClientHandlers A I (MACSwitch L)}.
Implicit Types g e : MACSwitch L.

(** What using the switch keeps: settings and routes. *)
Definition same_routes g e : Prop :=
  AllowClientToClient e = AllowClientToClient g ∧ AllowIPSpoofing e = AllowIPSpoofing g
  ∧ AllowUnknownEtherTypes e = AllowUnknownEtherTypes g ∧ macTable e = macTable g
  ∧ tables_agree e.

(** A frame of the client [a] with address [ip], from an address that is known
    to be its own, to an address of the client [b]. *)
Record to_station g (ip : netIP) (a b : SocketId) (p : bytes) : Prop := {
  frame_long : 14 <= len p;
  frame_type : AllowUnknownEtherTypes g = true ∨ MACEthertype p = ethertype_ARP
    ∨ MACEthertype p = ethertype_IPv4 ∨ MACEthertype p = ethertype_IPv6;
  frame_from : IsMACUnicast (MACSource p) = true;
  frame_source : macTable g !! hwAddrToMAC (MACSource p) = Some a;
  frame_ip : AllowIPSpoofing g = true ∨ ip_allowed ip (MACEthertype p) p = true;
  frame_to : IsMACUnicast (MACDestination p) = true;
  frame_dest : macTable g !! hwAddrToMAC (MACDestination p) = Some b }.

Lemma known_ethertype g p :
  (AllowUnknownEtherTypes g = true ∨ MACEthertype p = ethertype_ARP
    ∨ MACEthertype p = ethertype_IPv4 ∨ MACEthertype p = ethertype_IPv6) →
  negb (AllowUnknownEtherTypes g) && bool_decide (MACEthertype p ≠ ethertype_ARP)
    && bool_decide (MACEthertype p ≠ ethertype_IPv4) && bool_decide (MACEthertype p ≠ ethertype_IPv6)
  = false.
Proof.
  destruct (AllowUnknownEtherTypes g); [done|]. intros [?|Het]; [done|]. cbn [negb andb].
  repeat case_bool_decide; tauto.
Qed.

(** Sending again from an address refreshes it. *)
Lemma refresh_routes g e sid mac l t :
  same_routes g e → socketTable e !! sid = Some (Some l) → mac ∈ lru_keys l →
  same_routes g (on_cache sid (lru_add mac t l) e).
Proof.
  intros (E1 & E2 & E3 & E4 & Ha) Hl Hm.
  assert (Hev : (lru_add mac t l).2 = []) by (by apply add_again).
  unfold same_routes. split_and!; [..|by apply add_again_agree];
    unfold on_cache; by rewrite Hev.
Qed.

Lemma mac_forwards g ip a b p :
  AllowClientToClient g = true → to_station g ip a b p →
  forwards (A := A) (I := I) (same_routes g) (λ s, AssignedIP s = ip) a b p.
Proof.
  intros Hc [Hlen Het Hfrom Hsrc Hip Hto Hdst] w s Henv Ha Has.
  destruct Henv as (E1 & E2 & E3 & E4 & Hag).
  assert (Hh : holds (env w) a (hwAddrToMAC (MACSource p))) by (apply Hag; by rewrite E4).
  destruct Hh as (l & Hl & Hin).
  set (e' := on_cache a (lru_add (hwAddrToMAC (MACSource p)) (now w) l) (env w)).
  assert (Hs' : same_routes g e') by (by apply refresh_routes).
  exists e'. split; [done|]. destruct Hs' as (C1 & _ & _ & C4 & _).
  cbn [World.HandlePacket macswitch_handler]. unfold HandlePacket. erewrite run_bind by done. cbv beta.
  rewrite (proj2 (Z.ltb_ge _ _)) by (unfold EthernetLength; lia).
  rewrite (known_ethertype (env w)) by (by rewrite E3).
  assert (Eset : setMACFrom a p w = Ret (w <| env := e' |>, true)).
  { rewrite setMACFrom_cases. cbv zeta. rewrite Hfrom, Hl. cbn [negb mjoin option_join].
    by rewrite (proj2 (contains_keys _ l)). }
  erewrite run_bind by exact Eset. cbn [negb].
  erewrite run_bind by (by apply run_sock_at).
  replace (negb (AllowIPSpoofing (env w)) && negb (ip_allowed (AssignedIP s) (MACEthertype p) p))
    with false by (rewrite E2, Has; destruct Hip as [->| ->]; by rewrite ?andb_false_r).
  unfold forward. erewrite run_bind by done. cbv beta. change (env (w <| env := e' |>)) with e'.
  rewrite C1, Hc. cbn [orb].
  rewrite Hto. unfold findSocketByMAC. by rewrite C4, Hdst.
Qed.

(** C3. The tunnel in TAP mode, end to end: frames that a client reads from
    its interface, from hardware addresses that are its own to one of another
    client, are exactly what the interface of that client is given, whatever
    the order of the messages on both links; no other socket of the server and
    no interface changes. *)
Theorem mac_tunnel W WI wA sidA sA (ws : World A I (MACSwitch L)) a b ra sb (wB : World A I E) sidB rB
    iid i packets :
  keeps_working W → takes_packets WI →
  source wA sidA sA packets → link W sA ra packets →
  a ≠ b → socks ws !! a = Some ra → packetHandler ra = true → socks ws !! b = Some sb →
  AllowClientToClient (env ws) = true → tables_agree (env ws) →
  Forall (to_station (env ws) (AssignedIP ra) a b) packets →
  link W sb rB packets → target WI wB sidB rB iid i →
  carried wA sidA sA ws a b sb wB sidB iid i packets.
Proof.
  intros HW HWI HsA Hl1 Hab Ha Hph Hb Hc Hag Hp Hl2 HtB.
  eapply (tunnel W WI (same_routes (env ws)) (λ s, AssignedIP s = AssignedIP ra)); try done.
  constructor; try done. eapply Forall_impl; [exact Hp|]. intros p Htc. by apply mac_forwards.
Qed.

End MAC.
End MAC.

(** ** Closed instances *)

(** An interface that keeps what it is given. *)
#[local] Instance log_interface : WaterInterface (list bytes) := {
  iface_write p i := (i ++ [p], None); iface_close i := (i, None); iface_set_mtu _ i := (i, None) }.
#[local] Instance no_commands {A I E} : ClientHandlers A I E :=
  λ _ _ _, mret (Some (ErrText "unknown command")).
#[local] Existing Instances header_reader IPSwitch.ipswitch_handler IPSwitch.ipswitch_unregister
  MACSwitch.macswitch_handler MACSwitch.macswitch_unregister MACSwitch.list_lru MACSwitch.list_lru_spec.

(** The first client and the server talk over WebSocket, the server and the
    second client over WebTransport, whose datagrams hold 1184 bytes. *)
Abbreviation transport :=
  (WebSocket.WebSocketAdapter WebSocket.wire + WebTransport.WebTransportAdapter WebTransport.channel)%type.

Definition over_websocket (server : bool) : transport :=
  inl (WebSocket.NewWebSocketAdapter (WebSocket.mkWire [] [] true) 1 server WebSocket.NoReader).
Definition over_webtransport (server : bool) : transport :=
  inr (WebTransport.serve_start None
    (WebTransport.NewWebTransportAdapter (WebTransport.mkChannel [] [] 1200 true) 1 server)).1.
Definition transport_open : transport → Prop :=
  either_open (websocket_open (λ c, WebSocket.wire_open c = true))
    (webtransport_open 1200 (λ d, WebTransport.ch_limit d = 1200%nat)).

Lemma transport_works : keeps_working transport_open.
Proof.
  apply either_works; [apply websocket_works, wire_works|].
  apply webtransport_works, (channel_works 1200).
Qed.
Lemma log_takes : takes_packets (I := list bytes) (λ _, True).
Proof. by intros i p _. Qed.

(** The sockets of the two clients, and those the server has for them. *)
Definition tunnel_socket (a : transport) (ip : netIP) (handler : bool) : Socket transport :=
  (MakeSocket a (Some 0%nat) false true)
    <| AssignedIP := ip |> <| packetHandler := handler |> <| isReady := true |>
    <| remoteProtocolVersion := 12 |> <| fragmentationEnabled := true |>.
Definition source_client : Socket transport := tunnel_socket (over_websocket false) (IPv4 10 0 0 2) false.
Definition target_client : Socket transport := tunnel_socket (over_webtransport false) (IPv4 10 0 0 3) false.
Definition source_served : Socket transport := tunnel_socket (over_websocket true) (IPv4 10 0 0 2) true.
Definition target_served : Socket transport := tunnel_socket (over_webtransport true) (IPv4 10 0 0 3) true.

Definition tunnel_client (s : Socket transport) : World transport (list bytes) unit :=
  mkWorld (<[7%nat := s]> ∅) (<[0%nat := []]> ∅) tt [] [] 0 0.
Definition tunnel_server {E} (e : E) : World transport (list bytes) E :=
  mkWorld (<[1%nat := source_served]> (<[2%nat := target_served]> ∅)) (<[0%nat := []]> ∅) e [] [] 0 0.

(** A short packet and one that travels in two fragments. *)
Definition short_and_long (header : bytes) : list bytes := [header; header ++ replicate 1480 7].

Section Lengths.
Context (header : bytes) (Hheader : len header = 20).

Lemma long_len : len (header ++ replicate 1480 7) = 1500.
Proof. rewrite len_app, Hheader. by vm_compute. Qed.

Lemma link_in : link transport_open source_client source_served (short_and_long header).
Proof.
  pose proof long_len as Hll. constructor; [done..| |].
  - unfold short_and_long, fits, sendable. change (MaxDataPayloadLen _) with 65535.
    change (fragmentationEnabled _) with true. cbv iota.
    rewrite !Forall_cons, Hheader, Hll. split; [lia|]. split; [|done]. lia.
  - intros _. change (len (short_and_long header)) with 2. change (lastFragmentID _) with 0.
    do 3 (split; [lia|]). intros id _. apply lookup_empty.
Qed.

Lemma link_out : link transport_open target_served target_client (short_and_long header).
Proof.
  pose proof long_len as Hll. constructor; [done..| |].
  - assert (Hc : chunk_count (Z.to_nat (1184 - 5)) (header ++ replicate 1480 7) = 2%nat).
    { unfold chunk_count. unfold len in Hll. replace (length (header ++ _)) with 1500%nat by lia.
      by vm_compute. }
    unfold short_and_long, fits, sendable. change (MaxDataPayloadLen _) with 1184.
    change (fragmentationEnabled _) with true. cbv iota.
    rewrite !Forall_cons, Hheader, Hll, Hc. split; [lia|]. split; [|done]. lia.
  - intros _. change (len (short_and_long header)) with 2. change (lastFragmentID _) with 0.
    do 3 (split; [lia|]). intros id _. apply lookup_empty.
Qed.

End Lengths.

Definition packets_to_3 : list bytes := short_and_long (IPSwitch.packet_to [10; 0; 0; 3]).

Lemma ip_tunnel_witness :
  carried (tunnel_client source_client) 7 source_client
    (tunnel_server (env (IPSwitch.two_clients true))) 1 2 target_served
    (tunnel_client target_client) 7 0 [] packets_to_3.
Proof.
  apply (IP.ip_tunnel transport_open (λ _, True)) with (ra := source_served) (rB := target_client).
  - exact transport_works.
  - exact log_takes.
  - constructor; [reflexivity|]. repeat constructor.
  - apply link_in. reflexivity.
  - discriminate.
  - reflexivity.
  - reflexivity.
  - reflexivity.
  - reflexivity.
  - repeat constructor; try reflexivity; try discriminate.
  - apply link_out. reflexivity.
  - constructor; try reflexivity. split; reflexivity.
Defined.

Definition frames_to_2 : list bytes :=
  short_and_long (MACSwitch.frame MACSwitch.mac2 MACSwitch.mac1 ++ replicate 6 0).
Definition c2c_switch : MACSwitch.MACSwitch MACSwitch.list_cache :=
  MACSwitch.mkMACSwitch true true true true 2 (600 * Second)
    (MACSwitch.macTable MACSwitch.tap_switch) (MACSwitch.socketTable MACSwitch.tap_switch) true true.

Lemma mac_tunnel_witness :
  carried (tunnel_client source_client) 7 source_client
    (tunnel_server c2c_switch) 1 2 target_served
    (tunnel_client target_client) 7 0 [] frames_to_2.
Proof.
  apply (MAC.mac_tunnel transport_open (λ _, True)) with (ra := source_served) (rB := target_client).
  - exact transport_works.
  - exact log_takes.
  - constructor; [reflexivity|]. repeat constructor.
  - apply link_in. reflexivity.
  - discriminate.
  - reflexivity.
  - reflexivity.
  - reflexivity.
  - reflexivity.
  - exact MACSwitch.tap_agree.
  - repeat constructor; try reflexivity; try discriminate; left; reflexivity.
  - apply link_out. reflexivity.
  - constructor; try reflexivity. split; reflexivity.
Defined.
