(* ===== verification/Ready.v ===== *)
(** * Waiting until a socket, or its adapter, is ready

    [WaitReady] and [setReady] of shared/sockets/base.go, which are those of
    shared/sockets/adapters/webtransport.go as well: a flag and a condition
    variable, where the flag is read and written without the variable's lock.
    The rest of the development takes "waits until ready" as one step; this file
    takes it apart, down to the single accesses that goroutines interleave at.
    One goroutine waits; [setReady] is called by the version handler and by
    closing, on goroutines of their own. *)

From S2P Require Import Prelude.

Module ready.

(** Where the waiting goroutine is: before the test of the flag, before [Lock],
    in [Wait] before it is on the list of those to wake, asleep, woken and before
    [Unlock], returned. *)
Inductive pc : Type := Testing | Locking | Entering | Asleep | Woken | Returned.

#[export] Instance pc_eq_dec : EqDecision pc.
Proof. solve_decision. Defined.

(** [setting] calls of [setReady] have yet to store the flag, [broadcasting] to
    wake. *)
Record state := mkState { isReady : bool; waiter : pc; setting : nat; broadcasting : nat }.

#[export] Instance eta_state : Etable state := λ r,
  mkState (isReady r) (waiter r) (setting r) (broadcasting r).

(** What happens next: a step of the waiting goroutine or of a call of [setReady]. *)
Inductive event : Type := Waits | Stores | Broadcasts.

(** [WaitReady], one access at a time; [None] where it cannot go on.  The lock is
    the waiting goroutine's alone. *)
Definition WaitReady_step (s : state) : option state :=
  match waiter s with
  | Testing => Some (s <| waiter := if isReady s then Returned else Locking |>)
  | Locking => Some (s <| waiter := Entering |>)
  | Entering => Some (s <| waiter := Asleep |>)
  | Asleep => None
  | Woken => Some (s <| waiter := Testing |>)
  | Returned => None
  end.

(** [s.isReady = true] *)
Definition setReady_store (s : state) : option state :=
  match setting s with
  | O => None
  | S n => Some (s <| isReady := true |> <| setting := n |> <| broadcasting := S (broadcasting s) |>)
  end.

(** [s.readyWait.Broadcast()] *)
Definition setReady_broadcast (s : state) : option state :=
  match broadcasting s with
  | O => None
  | S n => Some (s <| broadcasting := n |>
                   <| waiter := if decide (waiter s = Asleep) then Woken else waiter s |>)
  end.

(** shared/sockets/adapters/webtransport.go: the same over the adapter's own flag. *)
Definition adapter_WaitReady_step : state → option state := WaitReady_step.
Definition adapter_setReady_store : state → option state := setReady_store.
Definition adapter_setReady_broadcast : state → option state := setReady_broadcast.

Definition next (e : event) (s : state) : option state :=
  match e with
  | Waits => WaitReady_step s
  | Stores => setReady_store s
  | Broadcasts => setReady_broadcast s
  end.

Fixpoint run (es : list event) (s : state) : option state :=
  match es with
  | [] => Some s
  | e :: es => s ← next e s; run es s
  end.

Definition step (s s' : state) : Prop := ∃ e, next e s = Some s'.

(** A goroutine starts to wait while [n] calls of [setReady] are to come. *)
Definition start (n : nat) : state := mkState false Testing n 0.

(** ** Every run ends *)

(** The steps left until the waiting goroutine sleeps or returns. *)
Definition ahead (p : pc) : nat :=
  match p with Returned => 0 | Asleep => 0 | Entering => 1 | Locking => 2 | Testing => 3 | Woken => 4 end.

Definition measure (s : state) : nat := 10 * setting s + 5 * broadcasting s + ahead (waiter s).

Lemma step_measure s s' : step s s' → (measure s' < measure s)%nat.
Proof.
  intros [[] E]; simpl in E; unfold WaitReady_step, setReady_store, setReady_broadcast in E.
  - destruct s as [f w m n]; destruct w; simpl in E; try done; injection E as <-; unfold measure; simpl;
      try case_match; simpl; lia.
  - destruct s as [f w [|m] n]; simpl in E; [done|]. injection E as <-. unfold measure. simpl. lia.
  - destruct s as [f w m [|n]]; simpl in E; [done|]. injection E as <-. unfold measure. simpl.
    destruct w; case_decide; simpl; try done; lia.
Qed.

Lemma steps_end s : Acc (flip step) s.
Proof.
  apply (Wf_nat.well_founded_lt_compat _ measure). intros s' s0 Hs. by apply step_measure.
Qed.

(** ** What holds along a run *)

(** The flag is set once any call has stored, and nobody returns before. *)
Definition sound (n : nat) (s : state) : Prop :=
  (isReady s = false → setting s = n ∧ broadcasting s = 0%nat) ∧ (waiter s = Returned → isReady s = true).

Lemma sound_step n s s' : step s s' → sound n s → sound n s'.
Proof.
  intros [[] E] [Hf Hr]; simpl in E; unfold WaitReady_step, setReady_store, setReady_broadcast in E;
    destruct s as [f w m b]; simpl in *.
  - destruct w; try done; injection E as <-; split; simpl; try done; by destruct f.
  - destruct m; [done|]. injection E as <-. by split.
  - destruct b; [done|]. injection E as <-. split; simpl.
    + intros Hn. by destruct (Hf Hn).
    + case_decide; [done|]. exact Hr.
Qed.

(** A goroutine that will notice: it tests the flag again, or sleeps while a
    call has still to wake it. *)
Definition will_notice (s : state) : Prop :=
  isReady s = true ∧ match waiter s with
                     | Testing | Woken | Returned => True
                     | Asleep => (0 < broadcasting s)%nat
                     | Locking | Entering => False
                     end.

Lemma notice_step s s' : step s s' → will_notice s → will_notice s'.
Proof.
  intros [[] E] [Hr Hw]; simpl in E; unfold WaitReady_step, setReady_store, setReady_broadcast in E;
    destruct s as [f w m b]; simpl in *; subst f.
  - destruct w; try done; injection E as <-; done.
  - destruct m; [done|]. injection E as <-. split; simpl; [done|]. destruct w; try done. lia.
  - destruct b; [done|]. injection E as <-. split; simpl; [done|]. destruct w; done.
Qed.

(** Where nothing can happen any more. *)
Definition stuck (s : state) : Prop := ∀ e, next e s = None.

Lemma stuck_cases s :
  stuck s → setting s = 0%nat ∧ broadcasting s = 0%nat ∧ (waiter s = Returned ∨ waiter s = Asleep).
Proof.
  intros Hs. pose proof (Hs Waits) as Hw. pose proof (Hs Stores) as Hst. pose proof (Hs Broadcasts) as Hb.
  destruct s as [f w m b]; simpl in *. unfold WaitReady_step, setReady_store, setReady_broadcast in *.
  simpl in *. destruct m, b, w; try done; auto.
Qed.

Lemma steps_keep (P : state → Prop) s s' :
  (∀ s s', step s s' → P s → P s') → rtc step s s' → P s → P s'.
Proof. intros HP. induction 1; eauto. Qed.

Lemma run_steps es s s' : run es s = Some s' → rtc step s s'.
Proof.
  revert s. induction es as [|e es IH]; intros s; simpl; [by intros [= <-]|].
  destruct (next e s) as [s1|] eqn:E; [|done]. intros Hr. eapply rtc_l; [by exists e|]. by apply IH.
Qed.

(** C27. Waiting until ready never goes on forever and never ends too early: every run
    ends, [WaitReady] returns only when the flag is set, and it does return if the
    goroutine is asleep, or has yet to test the flag, when a call of [setReady]
    begins.  But a call that begins and ends between the test of the flag and the
    sleep is missed: the run then ends with the flag set, every call over and the
    goroutine asleep. *)
Theorem wait_ready n :
  Acc (flip step) (start n)
  ∧ (∀ s, rtc step (start n) s → waiter s = Returned → isReady s = true)
  ∧ (∀ s s1 s', rtc step (start n) s → waiter s = Testing ∨ waiter s = Asleep →
       setReady_store s = Some s1 → rtc step s1 s' → stuck s' → waiter s' = Returned)
  ∧ (∃ s, rtc step (start (S n)) s ∧ isReady s = true ∧ waiter s = Asleep
       ∧ setting s = n ∧ broadcasting s = 0%nat).
Proof.
  split; [apply steps_end|]. split; [|split].
  - intros s Hs. apply (steps_keep (sound n) _ _ (sound_step n) Hs). by split.
  - intros s s1 s' _ Hw Hst Hrun Hstuck.
    assert (Hn : will_notice s1).
    { unfold setReady_store in Hst. destruct s as [f w [|m] b]; simpl in *; [done|].
      injection Hst as <-. split; [done|]. simpl. destruct Hw as [->| ->]; [done|]. lia. }
    destruct (steps_keep will_notice _ _ notice_step Hrun Hn) as [_ Hw'].
    destruct (stuck_cases s' Hstuck) as (_ & Hb & [->|Ha]); [done|]. rewrite Ha in Hw'. lia.
  - exists (mkState true Asleep n 0). split; [|done].
    by apply (run_steps [Waits; Stores; Broadcasts; Waits; Waits]).
Qed.

(** With a single call that is the end: the goroutine sleeps and nothing can
    wake it. *)
Lemma missed : run [Waits; Stores; Broadcasts; Waits; Waits] (start 1) = Some (mkState true Asleep 0 0)
  ∧ stuck (mkState true Asleep 0 0).
Proof. split; [reflexivity|]. by intros []. Qed.

End ready.
