(* ===== verification/Ping.v ===== *)
(** * The ping loop

    shared/sockets/ping.go: one goroutine per socket that sends a ping every
    interval and ends, which closes the socket, when the pong does not come in
    time.  Its two timers are deadlines, and its runs are those of a timed
    transition system in which an event happens when its deadline comes; the
    interval and timeout are fields of the socket that a reload may change. *)

From S2P Require Import Prelude Commands Adapter Socket.
Import adapters.

(** What the loop holds while it waits in its [select]: whether this round sends
    a ping, when [time.After] fires, and when [pingTimeoutTimer] does, if it runs. *)
Record ping_loop := mkPingLoop {
  pingEnabled : bool;
  after : Z;
  pingTimeoutTimer : option Z }.

#[export] Instance eta_ping_loop : Etable ping_loop := λ r,
  mkPingLoop (pingEnabled r) (after r) (pingTimeoutTimer r).

(** The channel that the [select] received from. *)
Inductive ping_event : Type := Interval | Timeout | Closed.

Section Ping.
Context {A : Type} `{SocketAdapter A}.
Implicit Types s : Socket A.

(** The head of the loop at time [now]. *)
Definition ping_wait (now : Z) (timer : option Z) s : ping_loop :=
  if (pingInterval s <=? 0) || (pingTimeout s <=? 0)
  then mkPingLoop false (now + 10 * Second) timer
  else mkPingLoop true (now + pingInterval s) timer.

(** One round: the socket, and the loop's next wait or its end. *)
Definition ping_turn (now : Z) (ev : ping_event) (p : ping_loop) s
    : outcome (Socket A * option ping_loop) :=
  match ev with
  | Interval =>
      if negb (pingEnabled p) then Ret (s, Some (ping_wait now None s))
      else
        '(ad, err) ← WritePingMessage (adapter s);
        let s := s <| adapter := ad |> in
        match err with
        | Some _ => Ret (s, None)
        | None => Ret (s, Some (ping_wait now (Some (now + pingTimeout s)) s))
        end
  | Timeout | Closed => Ret (s, None)
  end.

(** The closure given to [SetPongHandler]. *)
Definition pong_handler (p : ping_loop) : ping_loop := p <| pingTimeoutTimer := None |>.

(** ** Runs *)

(** A state: the time, the socket, and the loop or its end. *)
Record ping_state := mkPing {
  clock : Z;
  psock : Socket A;
  ploop : option ping_loop }.

Inductive ping_label : Type :=
| Ticked (t : Z)
| TimedOut (t : Z)
| Ponged (t : Z)
| ChannelClosed (t : Z)
| Reconfigured (t interval timeout : Z).

(** No deadline lies before [t]. *)
Definition not_late (t : Z) (p : ping_loop) : Prop :=
  t <= after p ∧ match pingTimeoutTimer p with Some d => t <= d | None => True end.

Inductive ping_step : ping_state → ping_label → ping_state → Prop :=
| step_tick c s p s' p' :
    c <= after p → not_late (after p) p →
    ping_turn (after p) Interval p s = Ret (s', p') →
    ping_step (mkPing c s (Some p)) (Ticked (after p)) (mkPing (after p) s' p')
| step_timeout c s p d s' p' :
    pingTimeoutTimer p = Some d → c <= d → not_late d p →
    ping_turn d Timeout p s = Ret (s', p') →
    ping_step (mkPing c s (Some p)) (TimedOut d) (mkPing d s' p')
| step_closed c s p t s' p' :
    c <= t → not_late t p → ping_turn t Closed p s = Ret (s', p') →
    ping_step (mkPing c s (Some p)) (ChannelClosed t) (mkPing t s' p')
| step_pong c s p t :
    c <= t → not_late t p →
    ping_step (mkPing c s (Some p)) (Ponged t) (mkPing t s (Some (pong_handler p)))
| step_reconfigure c s p t interval timeout :
    c <= t → not_late t p →
    ping_step (mkPing c s (Some p)) (Reconfigured t interval timeout)
      (mkPing t (ConfigurePing interval timeout s) (Some p)).

(** A run from the start of the loop, with the labels in order. *)
Inductive ping_run (s0 : Socket A) (t0 : Z) : list ping_label → ping_state → Prop :=
| run_start : ping_run s0 t0 [] (mkPing t0 s0 (Some (ping_wait t0 None s0)))
| run_step ls st l st' :
    ping_run s0 t0 ls st → ping_step st l st' → ping_run s0 t0 (ls ++ [l]) st'.

End Ping.

Arguments ping_state A : clear implicits.

(** ** Properties *)

Section Properties.
Context {A : Type} `{SocketAdapter A}.
Implicit Types s : Socket A.
Implicit Types st : ping_state A.

(** Since these labels, no ping was sent and no pong came. *)
Definition quiet (ls : list ping_label) : Prop :=
  Forall (λ l, match l with Ticked _ | Ponged _ => False | _ => True end) ls.

Definition timer_of st : option Z := ploop st ≫= pingTimeoutTimer.

(** A running timer was started by the last ping, which has no pong yet. *)
Lemma timer_started s0 t0 ls st d :
  ping_run s0 t0 ls st → timer_of st = Some d →
  ∃ ls1 T ls2 st1, ls = ls1 ++ Ticked T :: ls2 ∧ quiet ls2
    ∧ ping_run s0 t0 ls1 st1 ∧ d = T + pingTimeout (psock st1).
Proof.
  intros Hr. revert d. induction Hr as [|ls st l st' Hr IH Hst]; intros d; unfold timer_of in *.
  { simpl. unfold ping_wait. case_match; done. }
  assert (Hkeep : ∀ T, timer_of st = Some d → quiet [l] → T = d →
    ∃ ls1 T ls2 st1, ls ++ [l] = ls1 ++ Ticked T :: ls2 ∧ quiet ls2
      ∧ ping_run s0 t0 ls1 st1 ∧ d = T + pingTimeout (psock st1)).
  { intros _ Ht Hq _. destruct (IH _ Ht) as (ls1 & T & ls2 & st1 & -> & Hq2 & Hr1 & ->).
    exists ls1, T, (ls2 ++ [l]), st1. rewrite <- app_assoc. split_and!; try done.
    by apply Forall_app. }
  destruct Hst as [c s p s' p' Hc Hn Ht|c s p d' s' p' Ht Hc Hn Hx|c s p t s' p' Hc Hn Hx
    |c s p t Hc Hn|c s p t i o Hc Hn]; simpl.
  - unfold ping_turn in Ht. destruct (negb (pingEnabled p)) eqn:Een.
    { injection Ht as <- <-. simpl. unfold ping_wait. case_match; done. }
    apply bind_Ret_inv in Ht as ([ad [e|]] & _ & Ht); injection Ht as <- <-; [done|].
    simpl. intros Hd. exists ls, (after p), [], (mkPing c s (Some p)).
    split_and!; [done|constructor|done|]. simpl.
    unfold ping_wait in Hd. case_match; simpl in Hd; congruence.
  - injection Hx as _ <-. done.
  - injection Hx as _ <-. done.
  - done.
  - intros Hd. apply (Hkeep d); [done| |done]. by repeat constructor.
Qed.

(** The loop ends by the timeout only if a ping was sent, its timeout has
    passed since, and no pong came in between. *)
Lemma ping_timeout_is_silence s0 t0 ls t st :
  ping_run s0 t0 (ls ++ [TimedOut t]) st →
  ploop st = None
  ∧ ∃ ls1 T ls2 st1, ls = ls1 ++ Ticked T :: ls2 ∧ quiet ls2
    ∧ ping_run s0 t0 ls1 st1 ∧ t = T + pingTimeout (psock st1).
Proof.
  intros Hr. inversion Hr as [Hl|ls' st0 l st' Hr0 Hst Hl]; [by destruct ls|].
  apply app_inj_tail in Hl as [-> ->]. subst st'.
  inversion Hst as [|c s p d s' p' Ht Hc Hn Hx| | |]; subst. simplify_eq/=.
  split; [done|]. by eapply timer_started.
Qed.

(** A ping was just sent at [T]. *)
Lemma after_tick s0 t0 ls T st p :
  ping_run s0 t0 (ls ++ [Ticked T]) st → ploop st = Some p → pingTimeoutTimer p ≠ None →
  st = mkPing T (psock st) (Some p)
  ∧ p = ping_wait T (Some (T + pingTimeout (psock st))) (psock st).
Proof.
  intros Hr Hp Htm. inversion Hr as [Hl|ls' st0 l0 st1 Hr0 Hst Hl]; [by destruct ls|].
  apply app_inj_tail in Hl as [-> ->]. subst st1.
  inversion Hst as [c s p0 s' p' Hc Hn Ht Es El Est| | | |]; subst. simpl in *. subst p'.
  split; [done|]. unfold ping_turn in Ht. destruct (negb (pingEnabled p0)) eqn:Een.
  { injection Ht as <- <-. exfalso. apply Htm. unfold ping_wait. by case_match. }
  apply bind_Ret_inv in Ht as ([ad [e|]] & _ & Ht); injection Ht as <- Ht; [done|].
  by rewrite <- Ht.
Qed.


Lemma long_timeout s0 t0 ls st :
  pingInterval s0 < pingTimeout s0 →
  Forall (λ l, match l with Reconfigured _ _ _ => False | _ => True end) ls →
  ping_run s0 t0 ls st →
  ∀ p d, ploop st = Some p → pingTimeoutTimer p = Some d → after p < d.
Proof.
  intros Hlt Hf Hr.
  set (off := (pingInterval s0 <=? 0) || (pingTimeout s0 <=? 0)).
  assert (Hsock : pingInterval (psock st) = pingInterval s0
    ∧ pingTimeout (psock st) = pingTimeout s0
    ∧ (∀ p, ploop st = Some p → pingEnabled p = negb off)
    ∧ ∀ p d, ploop st = Some p → pingTimeoutTimer p = Some d → after p < d); [|naive_solver].
  assert (Hw : ∀ now tm (s : Socket A), pingInterval s = pingInterval s0 →
    pingTimeout s = pingTimeout s0 →
    pingEnabled (ping_wait now tm s) = negb off ∧ pingTimeoutTimer (ping_wait now tm s) = tm
    ∧ (off = false → after (ping_wait now tm s) = now + pingInterval s0)).
  { intros now tm s Hi Ht. unfold ping_wait. rewrite Hi, Ht. fold off. by destruct off. }
  induction Hr as [|ls st l st' Hr IH Hst].
  - destruct (Hw t0 None s0 eq_refl eq_refl) as (He & Hn & _).
    split_and!; [done..| |]; intros p; simpl; [by intros [= <-]|].
    intros d [= <-]. by rewrite Hn.
  - apply Forall_app in Hf as [Hf Hl]. destruct (IH Hf) as (Hi & Ht & Hen & Hp). clear IH.
    destruct Hst as [c s p s' p' Hc Hn Hx|c s p d s' p' Hd Hc Hn Hx|c s p t s' p' Hc Hn Hx
      |c s p t Hc Hn|c s p t i o Hc Hn]; simpl in *.
    + unfold ping_turn in Hx. destruct (negb (pingEnabled p)) eqn:Ep.
      { injection Hx as <- <-. destruct (Hw (after p) None s Hi Ht) as (He & Hm & _).
        split_and!; [done..| |]; intros q; [by intros [= <-]|]. intros d [= <-]. by rewrite Hm. }
      apply bind_Ret_inv in Hx as ([ad [e|]] & _ & Hx); injection Hx as <- <-;
        (split_and!; [done..| |]); try done; intros q.
      * intros [= <-]. apply Hw; [exact Hi|exact Ht].
      * intros d [= <-].
        pose (s1 := s <| adapter := ad |>).
        destruct (Hw (after p) (Some (after p + pingTimeout s)) s1 Hi Ht) as (_ & Hm & Ha).
        assert (Hoff : off = false).
        { apply negb_false_iff in Ep. rewrite (Hen p eq_refl) in Ep. by destruct off. }
        specialize (Ha Hoff). intros Hd. pose proof (eq_trans (eq_sym Hm) Hd) as [= <-].
        change (after (ping_wait (after p) (Some (after p + pingTimeout s)) s1)
                < after p + pingTimeout s). lia.
    + by injection Hx as <- <-.
    + by injection Hx as <- <-.
    + split_and!; [done..| |].
      * intros q [= <-]. exact (Hen p eq_refl).
      * intros q d Hq Hd. injection Hq as <-. done.
    + by inversion_clear Hl.
Qed.

(** With a timeout longer than the interval the timer is stopped by every new
    ping before it fires: unless the settings change, no run ends by the
    timeout, however long the peer is silent. *)
Theorem ping_long_timeout_never_fires s0 t0 ls t st :
  pingInterval s0 < pingTimeout s0 →
  Forall (λ l, match l with Reconfigured _ _ _ => False | _ => True end) ls →
  ¬ ping_run s0 t0 (ls ++ [TimedOut t]) st.
Proof.
  intros Hlt Hf Hr. inversion Hr as [Hl|ls' st0 l st' Hr0 Hst Hl]; [by destruct ls|].
  apply app_inj_tail in Hl as [-> ->]. subst st'.
  assert (Hinv : ∀ p d, ploop st0 = Some p → pingTimeoutTimer p = Some d → after p < d).
  { intros p d Hp Hd. by eapply (long_timeout _ _ _ _ Hlt Hf Hr0). }
  inversion Hst as [|c s p d s' p' Ht Hc Hn Hx| | |]; subst. simpl in *.
  specialize (Hinv p t eq_refl Ht). unfold not_late in Hn. rewrite Ht in Hn. lia.
Qed.

(** Setting the timeout to zero, which disables pings for new rounds, ends a loop
    that is in a round with pings: its next ping starts a timer of no length. *)
Theorem ping_disabled_closes s0 t0 ls st p interval :
  ping_run s0 t0 ls st → ploop st = Some p → pingEnabled p = true → pingTimeoutTimer p = None →
  clock st <= after p →
  (∃ ad, WritePingMessage (adapter (psock st)) = Ret (ad, None)) →
  ∃ st', ping_run s0 t0 (ls ++ [Reconfigured (clock st) interval 0; Ticked (after p);
                            TimedOut (after p)]) st'
    ∧ ploop st' = None.
Proof.
  intros Hr Hp Hen Ht Hc [ad Hw]. destruct st as [c s lp]. simpl in *. subst lp.
  exists (mkPing (after p) ((ConfigurePing interval 0 s) <| adapter := ad |>) None). split; [|done].
  replace (ls ++ _) with (((ls ++ [Reconfigured c interval 0]) ++ [Ticked (after p)])
    ++ [TimedOut (after p)]) by (by rewrite <- !app_assoc).
  assert (Hn : ∀ x, x <= after p → not_late x p) by (intros x; unfold not_late; by rewrite Ht).
  assert (Hr1 : ping_run s0 t0 (ls ++ [Reconfigured c interval 0])
    (mkPing c (ConfigurePing interval 0 s) (Some p))).
  { eapply run_step; [done|]. apply step_reconfigure; [lia|auto]. }
  eapply run_step; [eapply run_step; [exact Hr1|]|].
  - apply step_tick; [done|by apply Hn|]. unfold ping_turn. rewrite Hen. simpl. rewrite Hw. done.
  - unfold ping_wait. simpl. rewrite orb_true_r. apply step_timeout; simpl.
    + f_equal. lia.
    + lia.
    + unfold not_late. simpl. unfold Second. lia.
    + done.
Qed.

End Properties.

(** ** Closed instances: the default settings, and a peer that never answers *)

Definition pinging (interval timeout : Z) (pings : nat) : Socket recorder :=
  ConfigurePing interval timeout
    (MakeSocket (mkRecorder [] [] pings 1184 true true) None true false).

Lemma silent_run : ping_run (pinging 30 5 0) 0 ([Ticked 30] ++ [TimedOut 35])
  (mkPing 35 (pinging 30 5 1) None).
Proof.
  eapply run_step; [eapply (run_step _ _ [])|].
  - apply run_start.
  - apply (step_tick 0 (pinging 30 5 0) (mkPingLoop true 30 None)); [done|done|reflexivity].
  - apply (step_timeout 30 (pinging 30 5 1) (mkPingLoop true 60 (Some 35)) 35);
      [done|done|done|reflexivity].
Qed.

Lemma ping_timeout_is_silence_witness :
  ∃ ls1 T ls2 st1, [Ticked 30] = ls1 ++ Ticked T :: ls2 ∧ quiet ls2
    ∧ ping_run (pinging 30 5 0) 0 ls1 st1 ∧ 35 = T + pingTimeout (psock st1).
Proof. exact (proj2 (ping_timeout_is_silence _ _ _ _ _ silent_run)). Defined.


Lemma ping_long_timeout_never_fires_witness :
  ¬ ping_run (pinging 5 30 0) 0 ([Ticked 5; Ticked 10] ++ [TimedOut 35])
      (mkPing 35 (pinging 5 30 2) None).
Proof.
  apply (ping_long_timeout_never_fires (pinging 5 30 0) 0 [Ticked 5; Ticked 10] 35);
    [done|repeat constructor].
Defined.

Lemma ping_disabled_closes_witness :
  ∃ st', ping_run (pinging 30 5 0) 0 [Reconfigured 0 0 0; Ticked 30; TimedOut 30] st'
    ∧ ploop st' = None.
Proof.
  apply (ping_disabled_closes (pinging 30 5 0) 0 [] (mkPing 0 (pinging 30 5 0)
    (Some (mkPingLoop true 30 None))) (mkPingLoop true 30 None) 0);
    [apply run_start|reflexivity|reflexivity|reflexivity|done|by eexists].
Defined.
