(* ===== verification/Negotiation.v ===== *)
(** * Negotiating the serialization of commands

    client/connectors/util.go and server/upgraders/util.go: the HTTP headers by
    which client and server agree, before there is a socket, on how commands
    are serialized.  The registry of shared/commands/serialize.go is a state
    that both pass along; the two sides are two processes with a registry each. *)

From S2P Require Import Prelude Commands.

Module negotiation.
Import commands.

(** [http.Header]: the keys used here are in canonical form. *)
Abbreviation Header := (gmap string (list string)).

Definition header_Get (h : Header) (key : string) : string :=
  default EmptyString (h !! key ≫= head).
Definition header_Add (key value : string) (h : Header) : Header :=
  <[key := default [] (h !! key) ++ [value]]> h.
Definition header_Del (key : string) (h : Header) : Header := delete key h.

Definition SupportedCommandSerializationsHeaderName : string := "Supported-Command-Serializations".
Definition CommandSerializationHeaderName : string := "Command-Serialization".

(** ** The strings functions in use *)

Definition comma : Ascii.ascii := code_ascii 44.
Definition space : Ascii.ascii := code_ascii 32.

(** strings.Trim(s, " ") *)
Fixpoint trim_left (s : string) : string :=
  match s with
  | String c r => if bool_decide (c = space) then trim_left r else s
  | EmptyString => s
  end.
Fixpoint trim_right (s : string) : string :=
  match s with
  | EmptyString => s
  | String c r =>
      let r := trim_right r in
      if bool_decide (c = space) && bool_decide (r = EmptyString) then EmptyString
      else String c r
  end.
Definition trim_spaces (s : string) : string := trim_right (trim_left s).

(** ** The client *)

Definition addSupportedSerializationHeader (st : SerState) (header : Header) : Header :=
  header_Add SupportedCommandSerializationsHeaderName
    (join ", " (GetSupportedSerializationTypeNames st))
    (header_Del SupportedCommandSerializationsHeaderName header).

Definition readSerializationType (header : Header) (st : SerState) : SerState * Z :=
  let res := header_Get header CommandSerializationHeaderName in
  if bool_decide (res = EmptyString) then (st, SerializationTypeJSON)
  else
    let '(st, stype) := SerializationTypeFromString res st in
    if stype =? SerializationTypeInvalid then (st, SerializationTypeJSON) else (st, stype).

(** ** The server *)

(** The loop over the listed names: the best type and its priority so far. *)
Fixpoint best_of (serializations : list string) (best bestPriority : Z) (st : SerState)
    : SerState * Z :=
  match serializations with
  | [] => (st, best)
  | serialization :: rest =>
      let '(st, stype) := SerializationTypeFromString (trim_spaces serialization) st in
      if stype =? SerializationTypeInvalid then best_of rest best bestPriority st
      else
        let '(st, priority) := SerializationTypePriority stype st in
        if bestPriority <? priority then best_of rest stype priority st
        else best_of rest best bestPriority st
  end.

Definition determineBestSerialization (header : Header) (st : SerState) : SerState * Z :=
  let res := header_Get header SupportedCommandSerializationsHeaderName in
  if bool_decide (res = EmptyString) then (st, SerializationTypeJSON)
  else best_of (split_on comma res) SerializationTypeJSON (-1) st.

Definition addSerializationHeader (headers : Header) (serializationType : Z) (st : SerState)
    : SerState * Header :=
  let '(st, name) := SerializationTypeToString serializationType st in
  (st, header_Add CommandSerializationHeaderName name
         (header_Del CommandSerializationHeaderName headers)).

(** The headers of the request and of the response in the making. *)
Definition handleHTTPSerializationHeaders (w r : Header) (st : SerState)
    : SerState * Header * Z :=
  let '(st, serializationType) := determineBestSerialization r st in
  let '(st, w) := addSerializationHeader w serializationType st in
  (st, w, serializationType).

(** ** Lemmas *)

(** The registry of a process that has run these functions any number of times. *)
Definition ser_filled : SerState := initSerializationTypeMapsOnce ser_start.
Definition registry (st : SerState) : Prop := st = ser_start ∨ st = ser_filled.

Lemma registry_init st : registry st → initSerializationTypeMapsOnce st = ser_filled.
Proof. by intros [->| ->]. Qed.

Lemma filled_registry : registry ser_filled.
Proof. by right. Qed.
Hint Resolve filled_registry : core.

Lemma from_string name st :
  registry st → SerializationTypeFromString name st =
    (ser_filled, if bool_decide (to_lower name = "json"%string) then 1 else 0).
Proof.
  intros Hst. unfold SerializationTypeFromString. rewrite registry_init by done. f_equal.
  unfold ser_filled, ser_start, initSerializationTypeMapsOnce, initSerializationTypeMaps,
    addSerializationType. cbn. case_bool_decide as Hn.
  - by rewrite Hn.
  - rewrite lookup_insert_ne by congruence. done.
Qed.

Lemma best_of_json serializations best p st :
  registry st → best = 1 → registry (best_of serializations best p st).1
    ∧ (best_of serializations best p st).2 = 1.
Proof.
  intros Hst ->. revert p st Hst.
  induction serializations as [|x l IH]; intros p st Hst; [done|]. cbn [best_of].
  rewrite from_string by done. case_bool_decide.
  - change (1 =? SerializationTypeInvalid) with false. cbv iota.
    unfold SerializationTypePriority. rewrite registry_init by done.
    destruct (_ <? _); by apply IH.
  - change (0 =? SerializationTypeInvalid) with true. cbv iota. by apply IH.
Qed.

Lemma determine_json header st :
  registry st → registry (determineBestSerialization header st).1
    ∧ (determineBestSerialization header st).2 = SerializationTypeJSON.
Proof.
  intros Hst. unfold determineBestSerialization. case_bool_decide; [done|].
  by apply best_of_json.
Qed.

(** ** The agreement *)



(** The list that a client sends names every supported serialization only if its
    registry was filled before: on the first connection it is empty. *)
Lemma first_request_lists_nothing header :
  header_Get (addSupportedSerializationHeader ser_start header)
    SupportedCommandSerializationsHeaderName = EmptyString
  ∧ header_Get (addSupportedSerializationHeader ser_filled header)
    SupportedCommandSerializationsHeaderName = "json"%string.
Proof.
  unfold addSupportedSerializationHeader, header_Get, header_Add, header_Del.
  rewrite !lookup_insert_eq, !lookup_delete_eq. done.
Qed.

End negotiation.
