(* ===== verification/IPText.v ===== *)
(** * Addresses and networks as text

    What the program uses of Go's packages net and net/netip to print addresses
    and to read addresses with a prefix length. *)

From S2P Require Import Prelude Json Socket Net.

(** net.IPNet; a mask is a byte slice like an address. *)
Record IPNet := mkIPNet { NetIP : netIP; NetMask : bytes }.

#[export] Instance ipnet_eq_dec : EqDecision IPNet.
Proof. solve_decision. Defined.

Definition dot : Ascii.ascii := code_ascii 46.
Definition slash : Ascii.ascii := code_ascii 47.
Definition colon : Ascii.ascii := code_ascii 58.
Definition percent : Ascii.ascii := code_ascii 37.

(** ** Printing *)

Definition print_v4 (ip : bytes) : string := join "." (map itoa ip).

(** A 16-bit group in hexadecimal without leading zeros. *)
Definition print_group (g : Z) : string :=
  let d n := hex_digit (Z.shiftr g n mod 16) in
  if 4096 <=? g then String (d 12) (String (d 8) (String (d 4) (String (d 0) EmptyString)))
  else if 256 <=? g then String (d 8) (String (d 4) (String (d 0) EmptyString))
  else if 16 <=? g then String (d 4) (String (d 0) EmptyString)
  else String (d 0) EmptyString.

Fixpoint groups (ip : bytes) : list Z :=
  match ip with
  | a :: b :: r => (a * 256 + b) :: groups r
  | _ => []
  end.

Fixpoint leading_zeros (gs : list Z) : nat :=
  match gs with
  | g :: gs => if g =? 0 then S (leading_zeros gs) else O
  | [] => O
  end.

(** The first longest run of at least two zero groups. *)
Fixpoint zero_run (i : nat) (gs : list Z) (best : nat * nat) : nat * nat :=
  match gs with
  | [] => best
  | _ :: r =>
      let l := leading_zeros gs in
      zero_run (S i) r
        (if (2 <=? l)%nat && (best.2 <? l)%nat then (i, l) else best)
  end.

Definition print_v6 (ip : bytes) : string :=
  let gs := groups ip in
  let '(start, l) := zero_run 0 gs (0, 0)%nat in
  if (l =? 0)%nat then join ":" (map print_group gs)
  else join ":" (map print_group (take start gs)) +:+ "::"
       +:+ join ":" (map print_group (drop (start + l) gs)).

Definition hex_byte (b : Z) : string :=
  String (hex_digit (b / 16)) (String (hex_digit (b mod 16)) EmptyString).

(** The method [String] of net.IP. *)
Definition IP_String (ip : netIP) : string :=
  if Nat.eqb (length ip) 0 then "<nil>"
  else if negb (Nat.eqb (length ip) 4) && negb (Nat.eqb (length ip) 16)
  then "?" +:+ join EmptyString (map hex_byte ip)
  else if Nat.eqb (length (To4 ip)) 4 then print_v4 (To4 ip)
  else print_v6 ip.

(** ** Masks *)

Definition mask_byte (ones : Z) : Z := 256 - 2 ^ (8 - Z.max 0 (Z.min 8 ones)).

Definition CIDRMask (ones bits : Z) : bytes :=
  map (λ i, mask_byte (ones - 8 * Z.of_nat i)) (seq 0 (Z.to_nat (bits / 8))).

(** The leading ones of a byte, and whether zeros follow. *)
Definition byte_ones (b : Z) : option Z :=
  list_find (λ n, mask_byte n = b) [0; 1; 2; 3; 4; 5; 6; 7; 8] ≫= λ x, Some x.2.

Fixpoint simpleMaskLength (mask : bytes) : option Z :=
  match mask with
  | [] => Some 0
  | v :: mask =>
      if v =? 255 then n ← simpleMaskLength mask; Some (8 + n)
      else n ← byte_ones v; if forallb (Z.eqb 0) mask then Some n else None
  end.

(** The method [Size] of net.IPMask. *)
Definition Mask_Size (mask : bytes) : Z * Z :=
  match simpleMaskLength mask with
  | Some ones => (ones, 8 * len mask)
  | None => (0, 0)
  end.

Definition allFF (b : bytes) : bool := forallb (Z.eqb 255) b.

(** The method [Mask] of net.IP; the empty result is nil. *)
Definition IP_Mask (ip : netIP) (mask : bytes) : netIP :=
  let mask := if Nat.eqb (length mask) 16 && Nat.eqb (length ip) 4 && allFF (take 12 mask)
              then drop 12 mask else mask in
  let ip := if Nat.eqb (length mask) 4 && Nat.eqb (length ip) 16
               && bool_decide (take 12 ip = v4InV6Prefix)
            then drop 12 ip else ip in
  if Nat.eqb (length ip) (length mask) then zip_with Z.land ip mask else [].

(** ** Parsing *)

Fixpoint digits_value (acc : Z) (s : string) : option Z :=
  match s with
  | EmptyString => Some acc
  | String c s => if is_digit c then digits_value (acc * 10 + (ascii_code c - 48)) s else None
  end.

(** A field of a dotted address: at most 255, without leading zeros. *)
Definition parse_octet (s : string) : option Z :=
  n ← digits_value 0 s;
  match s with
  | EmptyString => None
  | String c (String _ _) =>
      if (ascii_code c =? 48) || (255 <? n) then None else Some n
  | String _ EmptyString => Some n
  end.

Definition parse_v4 (s : string) : option bytes :=
  l ← mapM parse_octet (split_on dot s);
  if Nat.eqb (length l) 4 then Some l else None.

Definition hex_value (c : Ascii.ascii) : option Z :=
  let z := ascii_code c in
  if between 48 z 57 then Some (z - 48)
  else if between 97 z 102 then Some (z - 97 + 10)
  else if between 65 z 70 then Some (z - 65 + 10)
  else None.

(** The run of hexadecimal digits: its value, its length and what follows. *)
Fixpoint span_hex (acc : Z) (n : nat) (s : string) : Z * nat * string :=
  match s with
  | String c r =>
      match hex_value c with
      | Some d => span_hex (acc * 16 + d) (S n) r
      | None => (acc, n, s)
      end
  | EmptyString => (acc, n, s)
  end.

(** The groups of an IPv6 address: the bytes read, where the ellipsis is, and
    the text that is left.  Every turn reads two bytes of at most sixteen. *)
Fixpoint v6_groups (fuel : nat) (s : string) (ip : bytes) (ellipsis : option nat)
    : option (bytes * option nat * string) :=
  match fuel with
  | O => Some (ip, ellipsis, s)
  | S fuel =>
      let '(acc, n, rest) := span_hex 0 0 s in
      if Nat.eqb n 0 || (4 <? n)%nat then None
      else
        let ip' := ip ++ [acc / 256; acc mod 256] in
        match rest with
        | EmptyString => Some (ip', ellipsis, rest)
        | String c rest =>
            if bool_decide (c = dot) then
              if (if ellipsis is None then negb (Nat.eqb (length ip) 12) else false)
                 || (12 <? length ip)%nat then None
              else l ← parse_v4 s; Some (ip ++ l, ellipsis, EmptyString)
            else if negb (bool_decide (c = colon)) then None
            else match rest with
            | EmptyString => None
            | String c2 rest2 =>
                if bool_decide (c2 = colon) then
                  match ellipsis with
                  | Some _ => None
                  | None =>
                      match rest2 with
                      | EmptyString => Some (ip', Some (length ip'), rest2)
                      | _ => v6_groups fuel rest2 ip' (Some (length ip'))
                      end
                  end
                else v6_groups fuel rest ip' ellipsis
            end
        end
  end.

Definition parse_v6 (s : string) : option bytes :=
  '(ip, ellipsis, rest) ←
    match s with
    | String c1 (String c2 r) =>
        if bool_decide (c1 = colon) && bool_decide (c2 = colon) then
          match r with
          | EmptyString => Some ([], Some O, r)
          | _ => v6_groups 8 r [] (Some O)
          end
        else v6_groups 8 s [] None
    | _ => v6_groups 8 s [] None
    end;
  match rest, ellipsis with
  | EmptyString, None => if Nat.eqb (length ip) 16 then Some ip else None
  | EmptyString, Some i =>
      if (length ip <? 16)%nat
      then Some (take i ip ++ replicate (16 - length ip) 0 ++ drop i ip) else None
  | _, _ => None
  end.

Fixpoint has_char (c : Ascii.ascii) (s : string) : bool :=
  match s with
  | EmptyString => false
  | String d s => bool_decide (d = c) || has_char c s
  end.

(** netip.ParseAddr for addresses without a zone: the first dot or colon tells
    which kind it is. *)
Fixpoint addr_kind (s : string) : option bool :=
  match s with
  | EmptyString => None
  | String c s =>
      if bool_decide (c = dot) then Some true
      else if bool_decide (c = colon) then Some false
      else if bool_decide (c = percent) then None
      else addr_kind s
  end.

(** The address in 16-byte form, and its length in bits. *)
Definition ParseAddr (s : string) : option (netIP * Z) :=
  if has_char percent s then None
  else match addr_kind s with
  | Some true => ip ← parse_v4 s; Some (v4InV6Prefix ++ ip, 32)
  | Some false => ip ← parse_v6 s; Some (ip, 128)
  | None => None
  end.

(** The text before and after the first slash. *)
Fixpoint cut_slash (s : string) : option (string * string) :=
  match s with
  | EmptyString => None
  | String c r =>
      if bool_decide (c = slash) then Some (EmptyString, r)
      else '(a, b) ← cut_slash r; Some (String c a, b)
  end.

(** The prefix length: [dtoi], which gives up at 0xFFFFFF. *)
Fixpoint dtoi (acc : Z) (s : string) : option Z :=
  match s with
  | EmptyString => Some acc
  | String c s =>
      if is_digit c then
        let n := acc * 10 + (ascii_code c - 48) in
        if 16777215 <=? n then None else dtoi n s
      else None
  end.

Definition ParseCIDR (s : string) : (netIP * IPNet) + error :=
  match ('(addr, mask) ← cut_slash s;
         '(ip, bits) ← ParseAddr addr;
         n ← (if bool_decide (mask = EmptyString) then None else dtoi 0 mask);
         if bits <? n then None
         else
           let m := CIDRMask n bits in
           Some (ip, mkIPNet (IP_Mask ip m) m))
  with
  | Some r => inl r
  | None => inr (ErrText ("invalid CIDR address: " +:+ s))
  end.

Example parse_v6_net : ParseCIDR "fd00:1::5/64"
  = inl ([253; 0; 0; 1; 0; 0; 0; 0; 0; 0; 0; 0; 0; 0; 0; 5],
         mkIPNet [253; 0; 0; 1; 0; 0; 0; 0; 0; 0; 0; 0; 0; 0; 0; 0] (CIDRMask 64 128)).
Proof. vm_compute. reflexivity. Qed.
Example parse_v4_net : ParseCIDR "10.1.2.3/24"
  = inl (IPv4 10 1 2 3, mkIPNet [10; 1; 2; 0] [255; 255; 255; 0]).
Proof. vm_compute. reflexivity. Qed.
Example print_ellipsis : IP_String [253; 0; 0; 1; 0; 0; 0; 0; 0; 0; 0; 0; 0; 0; 0; 5] = "fd00:1::5"%string.
Proof. vm_compute. reflexivity. Qed.
Example parse_mixed : ParseAddr "::ffff:1.2.3.4" = Some (IPv4 1 2 3 4, 128)
  ∧ ParseAddr "1:2:3:4:5:6:7::" = Some ([0;1;0;2;0;3;0;4;0;5;0;6;0;7;0;0], 128)
  ∧ ParseAddr "1.2.3.04" = None ∧ ParseAddr "1:2" = None ∧ ParseAddr "::1%eth0" = None.
Proof. vm_compute. done. Qed.
