(* ===== verification/VPNNet.v ===== *)
(** * The network of the VPN

    shared/vpn_net.go and the network helpers of shared/util.go: the network
    whose addresses the server hands out, and whose text it sends to clients.
    Host addresses are computed by the third-party package go-cidr, a class. *)

From S2P Require Import Prelude Json Socket Net IPText.

(** github.com/apparentlymart/go-cidr/cidr *)
Class Cidr := {
  cidr_Host : IPNet → Z → netIP + error;
  cidr_AddressCount : IPNet → outcome Z }.

Record VPNNet := mkVPNNet { vpn_ip : netIP; ipNet : IPNet; vpn_str : string }.

Definition IPMaskGetNetMask (mask : bytes) : string := IP_String mask.
Definition IPNetGetNetMask (n : IPNet) : string := IPMaskGetNetMask (NetMask n).

Definition GetRawIP (r : VPNNet) : netIP := vpn_ip r.
Definition GetSubnet (r : VPNNet) : IPNet := ipNet r.
Definition GetRaw (r : VPNNet) : string := vpn_str r.
Definition GetNetmask (r : VPNNet) : string := IPNetGetNetMask (ipNet r).
Definition GetSize (r : VPNNet) : Z := (Mask_Size (NetMask (ipNet r))).1.
Definition Equals (r other : VPNNet) : bool := bool_decide (vpn_str r = vpn_str other).

Definition ParseVPNNet (rNetStr : string) : VPNNet + error :=
  match ParseCIDR rNetStr with
  | inr err => inr err
  | inl (ip, n) => inl (mkVPNNet ip n rNetStr)
  end.

Section VPNNet.
Context `{Cidr}.

Definition GetIPAt (r : VPNNet) (idx : Z) : netIP + error := cidr_Host (ipNet r) idx.

(** The error is dropped with the nil address that comes with it. *)
Definition GetServerIP (r : VPNNet) : netIP :=
  match GetIPAt r 1 with inl ip => ip | inr _ => [] end.

Definition GetClientSlots (r : VPNNet) : outcome Z :=
  n ← cidr_AddressCount (ipNet r); Ret (u64 (n - 3)).

End VPNNet.

(** The text the server sends with an address of its network. *)
Definition net_text (ip : netIP) (size : Z) : string := IP_String ip +:+ "/" +:+ itoa size.

(** ** IPv4 networks as numbers *)

Definition v4_bytes (v : Z) : bytes :=
  [v / 2 ^ 24 mod 256; v / 2 ^ 16 mod 256; v / 2 ^ 8 mod 256; v mod 256].

Definition v4_net (base ones : Z) : IPNet := mkIPNet (v4_bytes base) (CIDRMask ones 32).

(** The number of addresses under a prefix. *)
Definition addresses (ones : Z) : Z := 2 ^ (32 - ones).

Definition wf_net (base ones : Z) : Prop :=
  0 <= ones <= 32 ∧ 0 <= base < 2 ^ 32 ∧ base mod addresses ones = 0.

(** Documented: [AddressCount] is the number of addresses of the range, [Host]
    the address with the given number in it, or an error beyond its end. *)
Class CidrSpec `{Cidr} := {
  count_spec base ones : wf_net base ones →
    cidr_AddressCount (v4_net base ones) = Ret (addresses ones);
  host_spec base ones k : wf_net base ones → 0 <= k →
    match cidr_Host (v4_net base ones) k with
    | inl ip => k < addresses ones ∧ To4 ip = v4_bytes (base + k)
    | inr _ => addresses ones <= k
    end }.

(** A computation of both, for the closed instances. *)
Definition v4_int (b : bytes) : Z := foldl (λ acc x, acc * 256 + x) 0 b.

#[export] Instance cidr_v4 : Cidr := {
  cidr_Host n k :=
    if k <? addresses (Mask_Size (NetMask n)).1 then inl (v4_bytes (v4_int (NetIP n) + k))
    else inr (ErrText "prefix does not accommodate the host");
  cidr_AddressCount n := Ret (addresses (Mask_Size (NetMask n)).1) }.

(** ** Lemmas on addresses *)

Lemma mask_size_v4 ones : 0 <= ones <= 32 → Mask_Size (CIDRMask ones 32) = (ones, 32).
Proof.
  intros Ho.
  assert (Hx : forallb (λ o, bool_decide (Mask_Size (CIDRMask o 32) = (o, 32)))
    (map Z.of_nat (seq 0 33)) = true) by (vm_compute; reflexivity).
  pose proof (forall_range _ 33 Hx ones ltac:(lia)) as Hy. by apply bool_decide_eq_true in Hy.
Qed.

Lemma v4_bytes_range v : Forall is_byte (v4_bytes v).
Proof. repeat constructor; apply Z.mod_pos_bound; lia. Qed.

Lemma v4_int_bytes v : 0 <= v < 2 ^ 32 → v4_int (v4_bytes v) = v.
Proof. intros Hv. unfold v4_int, v4_bytes. cbn [foldl]. Z.div_mod_to_equations. lia. Qed.

Lemma v4_bytes_inj v v' : 0 <= v < 2 ^ 32 → 0 <= v' < 2 ^ 32 → v4_bytes v = v4_bytes v' → v = v'.
Proof. intros Hv Hv' E. by rewrite <- (v4_int_bytes v), E, v4_int_bytes. Qed.

#[export] Instance cidr_v4_spec : CidrSpec.
Proof.
  constructor; [intros base ones (Ho & _)|intros base ones k (Ho & Hb & _) Hk];
    cbn [cidr_Host cidr_AddressCount cidr_v4 NetIP NetMask v4_net];
    rewrite mask_size_v4 by done; [done|]. cbn [fst]. destruct (Z.ltb_spec k (addresses ones)); [|done].
  split; [done|]. by rewrite v4_int_bytes.
Qed.

Lemma land_mask_byte b m :
  is_byte b → 0 <= m <= 8 → Z.land b (mask_byte m) = b / 2 ^ (8 - m) * 2 ^ (8 - m).
Proof.
  intros Hb Hm.
  assert (Hx : forallb (λ m, forallb (λ b, bool_decide (Z.land b (mask_byte m)
    = b / 2 ^ (8 - m) * 2 ^ (8 - m))) (map Z.of_nat (seq 0 256))) (map Z.of_nat (seq 0 9)) = true)
    by (vm_compute; reflexivity).
  apply (forall_range _ 9) with (z := m) in Hx; [|lia]. cbv beta in Hx.
  pose proof (forall_range _ 256 Hx b Hb) as Hy. by apply bool_decide_eq_true in Hy.
Qed.

Lemma addresses_pos ones : 0 <= ones <= 32 → 0 < addresses ones <= 2 ^ 32.
Proof. intros Ho. unfold addresses. split; [lia|]. apply Z.pow_le_mono_r; lia. Qed.

(** An address of a network lies in 32 bits, and masking it gives the network. *)
Lemma host_range base ones k : wf_net base ones → 0 <= k < addresses ones →
  0 <= base + k < 2 ^ 32.
Proof.
  intros (Ho & Hb & Hm) Hk. apply Z.mod_divide in Hm; [|pose proof (addresses_pos ones); lia].
  destruct Hm as [q ->]. unfold addresses in *. split; [lia|].
  assert (Hp : 2 ^ 32 = 2 ^ ones * 2 ^ (32 - ones)) by (rewrite <- Z.pow_add_r by lia; f_equal; lia).
  rewrite Hp in *. assert (q < 2 ^ ones) by nia. nia.
Qed.

Lemma div_mul_mask v j i :
  0 <= i → 0 <= j → v / 2 ^ i / 2 ^ j * 2 ^ j = v / 2 ^ (i + j) * 2 ^ j.
Proof. intros. rewrite Z.div_div, <- Z.pow_add_r by lia. done. Qed.

(** Replace the powers of two with constant exponents by their values. *)
Ltac constant_powers :=
  repeat match goal with
  | |- context [2 ^ ?e] => let v := eval vm_compute in (2 ^ e) in change (2 ^ e) with v
  | H : context [2 ^ ?e] |- _ => let v := eval vm_compute in (2 ^ e) in change (2 ^ e) with v in H
  end.

Lemma mask_network base ones k : wf_net base ones → 0 <= k < addresses ones →
  zip_with Z.land (v4_bytes (base + k)) (CIDRMask ones 32) = v4_bytes base.
Proof.
  intros Hw Hk. pose proof (host_range _ _ _ Hw Hk) as Hr. destruct Hw as (Ho & Hb & Hm).
  pose proof (v4_bytes_range (base + k)) as Hby.
  unfold v4_bytes in *. rewrite !Forall_cons in Hby. destruct Hby as (H1 & H2 & H3 & H4 & _).
  change (CIDRMask ones 32) with [mask_byte (ones - 0); mask_byte (ones - 8);
    mask_byte (ones - 16); mask_byte (ones - 24)].
  assert (Hmb : ∀ o, mask_byte o = mask_byte (Z.max 0 (Z.min 8 o))).
  { intros o. unfold mask_byte. f_equal. f_equal. f_equal. lia. }
  rewrite (Hmb (ones - 0)), (Hmb (ones - 8)), (Hmb (ones - 16)), (Hmb (ones - 24)).
  cbn [zip_with]. rewrite !land_mask_byte by (done || lia).
  assert (Hq : ∃ q, base = q * addresses ones).
  { apply Z.mod_divide in Hm; [|pose proof (addresses_pos ones); lia]. exact Hm. }
  destruct Hq as [q ->]. unfold addresses in *. clear Hm Hmb H1 H2 H3 H4.
  assert (Hc : In ones (map Z.of_nat (seq 0 33))).
  { apply in_map_iff. exists (Z.to_nat ones). split; [lia|]. apply in_seq. lia. }
  cbn [map seq In] in Hc.
  repeat (destruct Hc as [<-|Hc];
    [constant_powers; repeat f_equal; Z.div_mod_to_equations; lia|]).
  destruct Hc.
Qed.

(** ** Printing and parsing *)

Lemma string_all_app p s t : string_all p (s +:+ t) = string_all p s && string_all p t.
Proof. induction s as [|c s IH]; simpl; [done|]. by rewrite IH, andb_assoc. Qed.

Lemma string_all_weaken (p q : Ascii.ascii → bool) s :
  (∀ c, p c = true → q c = true) → string_all p s = true → string_all q s = true.
Proof.
  intros Hpq. induction s as [|c s IH]; simpl; [done|].
  intros [Hc Hs]%andb_true_iff. by rewrite (Hpq c Hc), IH.
Qed.

(** What is said of the decimal text of a byte, checked for each. *)
Lemma octet_text b : is_byte b → parse_octet (itoa b) = Some b
  ∧ string_all is_digit (itoa b) = true.
Proof.
  intros Hb.
  assert (Hx : forallb (λ b, bool_decide (parse_octet (itoa b) = Some b)
    && string_all is_digit (itoa b)) (map Z.of_nat (seq 0 256)) = true)
    by (vm_compute; reflexivity).
  pose proof (forall_range _ 256 Hx b Hb) as [Hy Hz]%andb_true_iff.
  by apply bool_decide_eq_true in Hy.
Qed.

Lemma prefix_text n : 0 <= n <= 32 → dtoi 0 (itoa n) = Some n ∧ itoa n ≠ EmptyString.
Proof.
  intros Hn.
  assert (Hx : forallb (λ b, bool_decide (dtoi 0 (itoa b) = Some b ∧ itoa b ≠ EmptyString))
    (map Z.of_nat (seq 0 33)) = true) by (vm_compute; reflexivity).
  pose proof (forall_range _ 33 Hx n ltac:(lia)) as Hy. by apply bool_decide_eq_true in Hy.
Qed.

Lemma digit_not (d : Ascii.ascii) c : is_digit d = false → is_digit c = true →
  negb (bool_decide (c = d)) = true.
Proof. intros Hd Hc. rewrite bool_decide_eq_false_2; [done|congruence]. Qed.

Lemma split_octets a b c d :
  Forall is_byte [a; b; c; d] →
  split_on dot (print_v4 [a; b; c; d]) = [itoa a; itoa b; itoa c; itoa d].
Proof.
  rewrite !Forall_cons. intros (Ha & Hb & Hc & Hd & _). unfold print_v4. cbn [map join].
  assert (Hx : ∀ o, is_byte o → string_all (λ c, negb (bool_decide (c = dot))) (itoa o) = true).
  { intros o Ho. eapply string_all_weaken; [|exact (proj2 (octet_text o Ho))].
    intros x. by apply digit_not. }
  assert (Hdot : ∀ s, ("." +:+ s)%string = String dot s) by done. rewrite !Hdot.
  rewrite !split_on_app by auto. by rewrite split_on_whole by auto.
Qed.

Lemma parse_print_v4 ip : length ip = 4%nat → Forall is_byte ip → parse_v4 (print_v4 ip) = Some ip.
Proof.
  destruct ip as [|a [|b [|c [|d []]]]]; try done. intros _ Hb.
  unfold parse_v4. rewrite split_octets by done.
  rewrite (mapM_Some_2 parse_octet _ [a; b; c; d]); [done|].
  rewrite !Forall_cons in Hb. destruct Hb as (Ha & Hb & Hc & Hd & _).
  repeat constructor; by apply octet_text.
Qed.

Lemma cut_slash_app s t :
  string_all (λ c, negb (bool_decide (c = slash))) s = true →
  cut_slash (s +:+ String slash t) = Some (s, t).
Proof.
  induction s as [|c s IH]; simpl; [done|].
  intros [Hc Hs]%andb_true_iff. apply negb_true_iff in Hc. by rewrite Hc, IH.
Qed.

Lemma addr_kind_app s t : string_all is_digit s = true →
  addr_kind (s +:+ String dot t) = Some true.
Proof.
  induction s as [|c s IH]; simpl; [done|].
  intros [Hc Hs]%andb_true_iff.
  rewrite !bool_decide_eq_false_2 by (intros ->; vm_compute in Hc; done). auto.
Qed.

Lemma has_char_all d s :
  string_all (λ c, negb (bool_decide (c = d))) s = true → has_char d s = false.
Proof.
  induction s as [|c s IH]; simpl; [done|]. intros [Hc Hs]%andb_true_iff.
  apply negb_true_iff in Hc. by rewrite Hc, IH.
Qed.

Definition v4_char (c : Ascii.ascii) : bool := is_digit c || bool_decide (c = dot).

Lemma print_v4_chars ip : Forall is_byte ip → string_all v4_char (print_v4 ip) = true.
Proof.
  unfold print_v4. assert (Hx : ∀ b, is_byte b → string_all v4_char (itoa b) = true).
  { intros b Hb. eapply string_all_weaken; [|exact (proj2 (octet_text b Hb))].
    intros x. unfold v4_char. by intros ->. }
  induction 1 as [|b l Hb Hl IH]; [done|]. cbn [map join]. destruct l as [|b2 l]; [by apply Hx|].
  cbn [map] in *. rewrite !string_all_app, Hx by done. rewrite IH. done.
Qed.

Lemma parse_addr_v4 ip : length ip = 4%nat → Forall is_byte ip →
  ParseAddr (print_v4 ip) = Some (v4InV6Prefix ++ ip, 32).
Proof.
  intros Hl Hb. unfold ParseAddr.
  rewrite has_char_all.
  - rewrite parse_print_v4 by done.
    destruct ip as [|a [|b [|c [|d []]]]]; try done. unfold print_v4. cbn [map join].
    assert (Hdot : ∀ s, ("." +:+ s)%string = String dot s) by done. rewrite !Hdot.
    rewrite addr_kind_app; [done|]. apply octet_text. by inversion Hb.
  - eapply string_all_weaken; [|by apply print_v4_chars]. intros c. unfold v4_char.
    intros Hc. rewrite bool_decide_eq_false_2; [done|]. intros ->. vm_compute in Hc. done.
Qed.

Lemma print_of_v4 ip b : To4 ip = b → length b = 4%nat → IP_String ip = print_v4 b.
Proof.
  intros H4 Hl. unfold IP_String.
  destruct (Nat.eqb_spec (length ip) 4) as [E|E4].
  - rewrite E. cbn [Nat.eqb negb andb]. rewrite H4, Hl. done.
  - unfold To4 in *. rewrite (proj2 (Nat.eqb_neq _ _) E4) in *.
    destruct (Nat.eqb_spec (length ip) 16) as [E|E]; [|by subst].
    rewrite E. cbn [Nat.eqb negb andb]. simpl in H4. rewrite H4, Hl. done.
Qed.

(** The text of an address of a network, with the prefix length, parses. *)
Lemma parse_cidr_v4 base ones k :
  wf_net base ones → 0 <= k < addresses ones →
  ParseCIDR (print_v4 (v4_bytes (base + k)) +:+ "/" +:+ itoa ones)
  = inl (v4InV6Prefix ++ v4_bytes (base + k), v4_net base ones).
Proof.
  intros Hw Hk. pose proof (proj1 Hw) as Ho. set (b := v4_bytes (base + k)).
  assert (Hb : Forall is_byte b) by apply v4_bytes_range. assert (Hl : length b = 4%nat) by done.
  assert (Hm : IP_Mask (v4InV6Prefix ++ b) (CIDRMask ones 32) = v4_bytes base).
  { rewrite <- (mask_network base ones k) by (done || lia). reflexivity. }
  clearbody b.
  unfold ParseCIDR. change ("/" +:+ itoa ones)%string with (String slash (itoa ones)).
  rewrite cut_slash_app. 2:{ eapply string_all_weaken; [|by apply print_v4_chars]. intros c Hc.
    rewrite bool_decide_eq_false_2; [done|]. intros ->. vm_compute in Hc. done. }
  destruct (prefix_text ones Ho) as [Hd Hne]. cbn -[ParseAddr print_v4 dtoi IP_Mask CIDRMask].
  rewrite parse_addr_v4 by done. cbn -[dtoi IP_Mask CIDRMask v4InV6Prefix app].
  rewrite bool_decide_eq_false_2, Hd by done. cbn -[IP_Mask CIDRMask v4InV6Prefix app].
  rewrite (proj2 (Z.ltb_ge 32 ones)) by lia. by rewrite Hm.
Qed.

(** ** Properties *)

Section Properties.
Context `{CidrSpec}.

(** The network reaches the client: the text that the server makes of a client's
    address and its prefix length parses, and gives back this address, the
    server's own network and the same server address. *)
Theorem net_travels r base ones k ip :
  wf_net base ones → ipNet r = v4_net base ones → GetIPAt r k = inl ip → 0 <= k →
  ∃ r', ParseVPNNet (net_text ip (GetSize r)) = inl r'
    ∧ ip_equal (GetRawIP r') ip = true
    ∧ GetSubnet r' = GetSubnet r
    ∧ GetServerIP r' = GetServerIP r.
Proof.
  intros Hw Hr Hip Hk. unfold GetIPAt in Hip. rewrite Hr in Hip.
  pose proof (host_spec base ones k Hw Hk) as Hh. rewrite Hip in Hh. destruct Hh as [Hlt H4].
  unfold GetSize. rewrite Hr. cbn [v4_net NetMask].
  pose proof (proj1 Hw) as Ho. rewrite mask_size_v4 by done. cbn [fst].
  unfold net_text. rewrite (print_of_v4 ip _ H4) by done.
  unfold ParseVPNNet. rewrite parse_cidr_v4 by (done || lia).
  set (b := v4_bytes (base + k)) in *. assert (Hl : length b = 4%nat) by done. clearbody b.
  eexists. split; [reflexivity|].
  unfold GetSubnet, GetServerIP, GetIPAt, GetRawIP. cbn [vpn_ip ipNet]. rewrite Hr.
  split; [|done].
  assert (H16 : length (v4InV6Prefix ++ b) = 16%nat) by (by rewrite length_app, Hl).
  unfold To4 in H4. destruct (Nat.eqb_spec (length ip) 4) as [El|El].
  - apply ip_equal_To16; [by right|by left|]. unfold To16. rewrite H16, El. by subst.
  - destruct (Nat.eqb (length ip) 16 && bool_decide (take 12 ip = v4InV6Prefix)) eqn:Et;
      [|by rewrite <- H4 in Hl].
    apply andb_true_iff in Et as [E16%Nat.eqb_eq Et%bool_decide_eq_true].
    unfold ip_equal. rewrite E16, H16. apply bool_decide_eq_true_2.
    by rewrite <- H4, <- Et, take_drop.
Qed.

End Properties.

Lemma net_travels_witness :
  let r := mkVPNNet (IPv4 10 1 0 0) (v4_net 167837696 16) "10.1.0.0/16" in
  ∃ r', ParseVPNNet (net_text (v4_bytes (167837696 + 258)) (GetSize r)) = inl r'
    ∧ ip_equal (GetRawIP r') (v4_bytes (167837696 + 258)) = true
    ∧ GetSubnet r' = GetSubnet r ∧ GetServerIP r' = GetServerIP r.
Proof.
  apply (net_travels _ 167837696 16 258); [|reflexivity|vm_compute; reflexivity|lia].
  unfold wf_net, addresses. split; [lia|]. split; [lia|reflexivity].
Defined.
