(* ===== verification/Shared.v ===== *)
(** * Small shared definitions

    shared/modes.go, shared/tls.go, shared/events.go and the text helpers of
    shared/util.go. *)

From S2P Require Import Prelude.

(** ** shared/modes.go *)

Inductive VPNMode : Type := VPNModeTUN | VPNModeTAP | VPNModeInvalid.

#[export] Instance vpnmode_eq_dec : EqDecision VPNMode.
Proof. solve_decision. Defined.

Definition VPNMode_ToString (m : VPNMode) : string :=
  match m with
  | VPNModeTAP => "TAP"
  | VPNModeTUN => "TUN"
  | VPNModeInvalid => "Invalid"
  end.

(** water.TUN and water.TAP; the conversion of an invalid mode is -1. *)
Inductive DeviceType : Type := water_TUN | water_TAP | water_Invalid.

Definition ToWaterDeviceType (m : VPNMode) : DeviceType :=
  match m with
  | VPNModeTAP => water_TAP
  | VPNModeTUN => water_TUN
  | VPNModeInvalid => water_Invalid
  end.

Definition VPNModeFromString (mode : string) : VPNMode :=
  if bool_decide (mode = "TAP"%string) then VPNModeTAP
  else if bool_decide (mode = "TUN"%string) then VPNModeTUN
  else VPNModeInvalid.

Lemma mode_from_to m : VPNModeFromString (VPNMode_ToString m) = m.
Proof. by destruct m. Qed.

Lemma mode_to_from s :
  VPNModeFromString s ≠ VPNModeInvalid → VPNMode_ToString (VPNModeFromString s) = s.
Proof. unfold VPNModeFromString. repeat case_bool_decide; by subst. Qed.

(** ** shared/tls.go *)

Definition VersionTLS10 : Z := 769.
Definition VersionTLS11 : Z := 770.
Definition VersionTLS12 : Z := 771.
Definition VersionTLS13 : Z := 772.

Definition TLSVersionString (version : Z) : string :=
  if version =? VersionTLS10 then "1.0"
  else if version =? VersionTLS11 then "1.1"
  else if version =? VersionTLS12 then "1.2"
  else if version =? VersionTLS13 then "1.3"
  else "Invalid".

Definition TLSVersionNum (version : string) : Z :=
  if bool_decide (version = "1.0"%string) then VersionTLS10
  else if bool_decide (version = "1.1"%string) then VersionTLS11
  else if bool_decide (version = "1.2"%string) then VersionTLS12
  else if bool_decide (version = "1.3"%string) then VersionTLS13
  else 0.

Lemma tls_version_roundtrip v :
  TLSVersionNum v ≠ 0 → TLSVersionString (TLSVersionNum v) = v.
Proof. unfold TLSVersionNum. repeat case_bool_decide; by subst. Qed.

(** ** shared/util.go *)

Definition BoolToString (val : bool) (trueval falseval : string) : string :=
  if val then trueval else falseval.
Definition BoolIfString (val : bool) (trueval : string) : string :=
  BoolToString val trueval EmptyString.
Definition BoolToEnabled (val : bool) : string := BoolToString val "enabled" "disabled".

(** ** shared/log.go: a logger is known by its prefix *)

Definition makeLoggerPrefix (logType prefix : string) : string :=
  "[" +:+ logType +:+ "-" +:+ prefix +:+ "] ".

Definition MakeLogger (logType prefix : string) : string :=
  makeLoggerPrefix logType (if bool_decide (prefix = EmptyString) then "UNSET"%string else prefix).

Definition UpdateLogger (logger logType prefix : string) : string := makeLoggerPrefix logType prefix.

(** ** shared/events.go *)

Record EventConfigHolder := mkEvents {
  UpScript : list string;
  DownScript : list string;
  StartupScript : list string }.

(** What the loaded configuration has under "events". *)
Record EventConfig := mkEventConfig {
  Up : list string;
  Down : list string;
  Startup : list string }.

Definition LoadEventConfig (config : EventConfig) (c : EventConfigHolder) : EventConfigHolder :=
  mkEvents (Up config) (Down config) (Startup config).

(** The command that an event runs, with its arguments; the run is [ExecCmd],
    which starts a process. *)
Definition RunEventScript (op remoteNet iface : string) (args : list string)
    (c : EventConfigHolder) : option (string * list string) + error :=
  match (if bool_decide (op = "up"%string) then Some (UpScript c)
         else if bool_decide (op = "down"%string) then Some (DownScript c)
         else if bool_decide (op = "startup"%string) then Some (StartupScript c)
         else None)
  with
  | None => inr (ErrText ("invalid event " +:+ op))
  | Some [] => inl None
  | Some (cmd :: rest) => inl (Some (cmd, rest ++ [op; remoteNet; iface] ++ args))
  end.
