(* ===== verification/Server.v ===== *)
(** * The server: slots, connections and settings

    server/servers/base.go, sockets.go and main_iface.go: the addresses handed
    out, the sockets by client and by user, the serving of one connection from
    its upgrade to its end, the change of the MTU, the end of the server. *)

From S2P Require Import Prelude Json Commands Adapter Socket World Lifecycle Net IPText VPNNet Shared.
Import adapters.

Definition MaxConnectionsPerUserKillOldest : Z := 0.
Definition MaxConnectionsPerUserPreventNew : Z := 1.

(** What [addCloser] keeps; an adapter has the identifier of its socket. *)
Inductive closer : Type :=
| AdapterCloser (sid : SocketId)
| IfaceCloser (iid : IfaceId)
| ListenerCloser.

Definition errNone : error := ErrText "none".
Definition ErrNoServeWaitsLeft : error := ErrText "no serve waits left".

(** The fields of the struct that the functions below use.  [SocketConfigurator]
    is the ping configuration, of the one implementation there is;
    [PacketHandler] and [serveErrorChannel] say whether it is set and closed. *)
Record Server := mkServer {
  PacketHandler : bool;
  vpnNet : VPNNet;
  DoLocalIPConfig : bool;
  DoRemoteIPConfig : bool;
  mode : VPNMode;
  SocketConfigurator : option (Z * Z);
  OneInterfacePerConnection : bool;
  MaxConnectionsPerUser : Z;
  MaxConnectionsPerUserMode : Z;
  usedSlots : gset Z;
  bufferSize : Z;
  mtu : Z;
  mainIface : option IfaceId;
  serverID : string;
  closers : list closer;
  sockets : gmap string SocketId;
  authenticatedSockets : gmap string (list SocketId);
  serveErrorChannel : bool;
  serveError : option error;
  serverFeatures : gmap string bool }.

#[export] Instance eta_server : Etable Server := λ r,
  mkServer (PacketHandler r) (vpnNet r) (DoLocalIPConfig r) (DoRemoteIPConfig r) (mode r)
    (SocketConfigurator r) (OneInterfacePerConnection r) (MaxConnectionsPerUser r)
    (MaxConnectionsPerUserMode r) (usedSlots r) (bufferSize r) (mtu r) (mainIface r)
    (serverID r) (closers r) (sockets r) (authenticatedSockets r) (serveErrorChannel r)
    (serveError r) (serverFeatures r).

(** ** Operations on the struct alone *)

Definition addCloser (c : closer) (s : Server) : Server := s <| closers := closers s ++ [c] |>.

Definition SetServerID (id : string) (s : Server) : Server := s <| serverID := id |>.

Definition setServeError (err : option error) (s : Server) : outcome Server :=
  match err with
  | None => Ret s
  | Some e =>
      match serveError s with
      | Some _ => Ret s
      | None =>
          if serveErrorChannel s then Panic "close of closed channel"
          else Ret (s <| serveError := Some e |> <| serveErrorChannel := true |>)
      end
  end.

(** What [Serve] returns once the channel is closed. *)
Definition Serve_result (s : Server) : option error :=
  if bool_decide (serveError s = Some errNone) then None else serveError s.

Definition SetLocalFeature (feature : string) (enabled : bool) (s : Server) : Server :=
  if negb enabled then s <| serverFeatures := delete feature (serverFeatures s) |>
  else s <| serverFeatures := <[feature := true]> (serverFeatures s) |>.

(** The loop that looks for a slot. *)
Fixpoint slot_loop (fuel : nat) (slot maxSlot : Z) (used : gset Z) : outcome (option Z) :=
  match fuel with
  | O => Exhausted
  | S fuel =>
      if bool_decide (slot ∈ used) then
        let slot := u64 (slot + 1) in
        if maxSlot <? slot then Ret None else slot_loop fuel slot maxSlot used
      else Ret (Some slot)
  end.

(** Every slot that the loop passes is in use, so one turn more than there are
    used slots is enough. *)
Definition claim_slot `{Cidr} (s : Server) : outcome (Server * option Z) :=
  slots ← GetClientSlots (vpnNet s);
  let maxSlot := u64 (slots + 1) in
  o ← slot_loop (S (size (usedSlots s))) 1 maxSlot (usedSlots s);
  match o with
  | None => Ret (s, None)
  | Some slot => Ret (s <| usedSlots := {[slot]} ∪ usedSlots s |>, Some slot)
  end.

Definition release_slot (slot : Z) (s : Server) : Server :=
  s <| usedSlots := usedSlots s ∖ {[slot]} |>.

(** The deferred removal of a socket from the server's maps. *)
Definition forget_socket (clientID authUsername : string) (sid : SocketId) (s : Server) : Server :=
  let s := s <| sockets := delete clientID (sockets s) |> in
  if bool_decide (authUsername = EmptyString) then s
  else
    match authenticatedSockets s !! authUsername with
    | None => s
    | Some userSocks =>
        let newSocks := filter (λ sock, sock ≠ sid) userSocks in
        s <| authenticatedSockets :=
          if decide (newSocks = []) then delete authUsername (authenticatedSockets s)
          else <[authUsername := newSocks]> (authenticatedSockets s) |>
    end.

(** What the limit on a user's connections asks for: to refuse the new one, or
    the socket to close, if any, and those that stay. *)
Definition user_verdict (authUsername : string) (s : Server)
    : option (option SocketId * list SocketId) :=
  let maxConns := MaxConnectionsPerUser s in
  match authenticatedSockets s !! authUsername with
  | Some (toKill :: rest) =>
      if maxConns <=? len (toKill :: rest) then
        if MaxConnectionsPerUserMode s =? MaxConnectionsPerUserKillOldest
        then Some (Some toKill, rest)
        else if MaxConnectionsPerUserMode s =? MaxConnectionsPerUserPreventNew then None
        else Some (None, toKill :: rest)
      else Some (None, toKill :: rest)
  | userSocks => Some (None, default [] userSocks)
  end.

(** ** The server with its sockets *)

(** [pending] holds the adapters of connections that have no socket yet. *)
Record SW (A I E : Type) := mkSW {
  server : Server;
  world : World A I E;
  pending : gmap SocketId A }.

Arguments mkSW {A I E}. Arguments server {A I E}. Arguments world {A I E}.
Arguments pending {A I E}.

#[export] Instance eta_sw {A I E} : Etable (SW A I E) := λ r,
  mkSW (server r) (world r) (pending r).

(** A call of [serveSocket] that goes on: what its deferred functions need. *)
Record connection := mkConnection {
  c_sid : SocketId;
  c_slot : Z;
  c_iface : option IfaceId;
  c_clientID : string;
  c_user : string;
  c_ip : netIP }.

(** What opening an interface of its own gave a connection: the platform's
    settings, [water.New] and [Configure] reach the operating system. *)
Inductive opened (I : Type) : Type :=
| NotOpened (err : error)
| Opened (i : I) (configured : option error).

Arguments NotOpened {I}. Arguments Opened {I}.

Section Server.
Context {A I E : Type} `{SocketAdapter A} `{WaterInterface I} `{!Unregister E} `{NewRandom}
  `{!World.PacketHandler A I E} `{!ClientHandlers A I E} `{Cidr}.
Abbreviation P := (prog (SW A I E)).

Definition lift {R} (m : prog (World A I E) R) : P R := λ sw,
  match m (world sw) with
  | Ret (w, r) => Ret (sw <| world := w |>, r)
  | Panic why => Panic why
  | Exhausted => Exhausted
  end.

Definition on_server {R} (f : Server → outcome (Server * R)) : P R := λ sw,
  match f (server sw) with
  | Ret (s, r) => Ret (sw <| server := s |>, r)
  | Panic why => Panic why
  | Exhausted => Exhausted
  end.

Definition upd_server (f : Server → Server) : P unit := on_server (λ s, Ret (f s, tt)).

(** [adapter.Close()], before or after the adapter went into a socket. *)
Definition close_adapter (sid : SocketId) : P unit := λ sw,
  match pending sw !! sid with
  | Some a => Ret (sw <| pending := <[sid := (Close a).1]> (pending sw) |>, tt)
  | None => (lift (adapter_call sid Close);; mret tt) sw
  end.

(** An upgraded connection gets an identifier for its adapter. *)
Definition adopt (a : A) : P SocketId := λ sw,
  let sid : SocketId := base.fresh ((dom (socks (world sw)) : gset SocketId) ∪ dom (pending sw)) in
  Ret (sw <| pending := <[sid := a]> (pending sw) |>, sid).

(** From the upgrade to the address of the client; a connection that goes no
    further closes its adapter and gives its slot back. *)
Definition begin_connection (a : A) : P (option (SocketId * Z * netIP)) :=
  sid ← adopt a;
  upd_server (addCloser (AdapterCloser sid));;
  slot ← on_server claim_slot;
  match slot with
  | None => close_adapter sid;; mret None
  | Some slot =>
      s ← gets server;
      match GetIPAt (vpnNet s) (slot + 1) with
      | inr _ => upd_server (release_slot slot);; close_adapter sid;; mret None
      | inl ipClient => mret (Some (sid, slot, ipClient))
      end
  end.

Definition new_iface (i : I) : P IfaceId := λ sw,
  let iid : IfaceId := base.fresh (dom (ifaces (world sw)) : gset IfaceId) in
  Ret (sw <| world := (world sw) <| ifaces := <[iid := i]> (ifaces (world sw)) |> |>, iid).

(** The interface of the connection, and the error that ends it. *)
Definition connection_iface (o : opened I) : P (option IfaceId * option error) :=
  s ← gets server;
  if OneInterfacePerConnection s then
    match o with
    | NotOpened err => mret (None, Some err)
    | Opened i configured =>
        iid ← new_iface i;
        match configured with
        | Some err => mret (Some iid, Some err)
        | None => err ← lift (iface_call iid (iface_set_mtu (mtu s))); mret (Some iid, err)
        end
    end
  else mret (mainIface s, None).

(** [MakeSocket] with what [serveSocket] passes, and the user's name in its
    metadata. *)
Definition make_socket (sid : SocketId) (authUsername : string) (ifc : option IfaceId)
    (managed : bool) : P unit := λ sw,
  match pending sw !! sid with
  | None => Panic "nil pointer dereference"
  | Some a =>
      let sock := MakeSocket a ifc managed true in
      let sock := sock <| Metadata := {["username" := authUsername]} |> in
      Ret (sw <| pending := delete sid (pending sw) |>
              <| world := (world sw) <| socks := <[sid := sock]> (socks (world sw)) |> |>, tt)
  end.

(** The section under [socketsLock] that enters the socket, unless the user has
    too many. *)
Definition enter_socket (sid : SocketId) (clientID authUsername : string) : P bool :=
  s ← gets server;
  let tooMany := ErrText "maximum connections for user exceeded" in
  ok ←
    (if negb (bool_decide (authUsername = EmptyString)) && (0 <? MaxConnectionsPerUser s) then
       match user_verdict authUsername s with
       | None => mret false
       | Some (toKill, userSocks) =>
           (match toKill with
            | Some old => lift (CloseError old tooMany)
            | None => mret tt
            end);;
           upd_server (λ s, s <| authenticatedSockets :=
             <[authUsername := userSocks ++ [sid]]> (authenticatedSockets s) |>);;
           mret true
       end
     else mret true);
  (if (ok : bool) then
     upd_server (λ s, s <| sockets := <[clientID := sid]> (sockets s) |>)
   else lift (CloseError sid tooMany));;
  mret ok.

(** cli.PingFlagsSocketConfigurator *)
Definition ConfigureSocket (config : Z * Z) (sid : SocketId) : P (option error) :=
  lift (upd sid (ConfigurePing config.1 config.2));;
  mret None.

(** The deferred functions of [serveSocket], last first, for a connection that
    was entered in the server's maps or not. *)
Definition end_connection (c : connection) (entered : bool) : P unit :=
  (if entered then upd_server (forget_socket (c_clientID c) (c_user c) (c_sid c)) else mret tt);;
  lift (CloseSocket (c_sid c));;
  (match c_iface c with
   | Some iid => lift (iface_call iid iface_close);; mret tt
   | None => mret tt
   end);;
  upd_server (release_slot (c_slot c));;
  close_adapter (c_sid c).

(** The socket is set up and served. *)
Definition start_socket (c : connection) : P (option error) :=
  s ← gets server;
  lift (upd (c_sid c) (λ k, map_fold Socket.SetLocalFeature k (serverFeatures s)));;
  lift (upd (c_sid c) (λ k, k <| AssignedIP := c_ip c |>));;
  err ← match SocketConfigurator s with
        | Some config => ConfigureSocket config (c_sid c)
        | None => mret None
        end;
  match err with
  | Some err =>
      lift (CloseError (c_sid c) (ErrText ("error configuring socket: " +:+ error_text err)));;
      mret (Some err)
  | None =>
      (if PacketHandler s then lift (upd (c_sid c) SetPacketHandler)
       else mret tt);;
      lift (upd (c_sid c) (Socket.SetMTU (mtu s)));;
      lift (Serve (c_sid c));;
      mret None
  end.

(** From the address of the client to the point where [serveSocket] waits for
    the socket to be ready. *)
Definition establish (sid : SocketId) (slot : Z) (ipClient : netIP) (clientID authUsername : string)
    (o : opened I) : P (option connection) :=
  '(ifc, err) ← connection_iface o;
  s ← gets server;
  let own := OneInterfacePerConnection s in
  match err with
  | Some _ =>
      (match ifc with
       | Some iid => lift (iface_call iid iface_close);; mret tt
       | None => mret tt
       end);;
      upd_server (release_slot slot);;
      close_adapter sid;;
      mret None
  | None =>
      make_socket sid authUsername ifc own;;
      let c := mkConnection sid slot (if own then ifc else None) clientID authUsername ipClient in
      ok ← enter_socket sid clientID authUsername;
      if negb (ok : bool) then end_connection c false;; mret None
      else
        err ← start_socket c;
        match err with
        | Some _ => end_connection c true;; mret None
        | None => mret (Some c)
        end
  end.

(** Once the socket is ready: the init command; whether [serveSocket] goes on to
    wait for the end. *)
Definition send_init (c : connection) : P bool :=
  s ← gets server;
  k ← lift (sock (c_sid c));
  err ← lift (MakeAndSendCommand (c_sid c) (commands.Init (commands.mkInit
    (VPNMode_ToString (mode s)) (DoRemoteIPConfig s) (net_text (c_ip c) (GetSize (vpnNet s)))
    (mtu s) (serverID s) (c_clientID c) (IsLocalFeature k features.Fragmentation))));
  match err with
  | Some err =>
      lift (CloseError (c_sid c) (ErrText ("error sending init command: " +:+ error_text err)));;
      end_connection c true;;
      mret false
  | None => mret true
  end.

(** ** The other operations *)

(** The loop of [SetMTU] over the sockets, in the order the map gives them. *)
Fixpoint mtu_loop (mtu : Z) (order : list (string * SocketId)) : P (option error) :=
  match order with
  | [] => mret None
  | (_, sid) :: order =>
      lift (upd sid (Socket.SetMTU mtu));;
      k ← lift (sock sid);
      err ← match GetInterfaceIfManaged k with
            | Some iid => lift (iface_call iid (iface_set_mtu mtu))
            | None => mret None
            end;
      match err with
      | Some err => mret (Some err)
      | None =>
          lift (MakeAndSendCommand sid (commands.SetMTUCmd (commands.mkSetMTU mtu)));;
          mtu_loop mtu order
      end
  end.

Definition SetMTU (new : Z) (order : list (string * SocketId)) : P (option error) :=
  s ← gets server;
  if (new <? 500) || (65535 <? new)
  then mret (Some (ErrText "MTU out of range (500 - 65535)"))
  else if mtu s =? new then mret None
  else
    err ← match mainIface s with
          | Some iid => lift (iface_call iid (iface_set_mtu new))
          | None => mret None
          end;
    match err with
    | Some err => mret (Some err)
    | None =>
        upd_server (λ s, s <| bufferSize := GetPacketBufferSizeByMTU new |>);;
        err ← mtu_loop new order;
        match err with
        | Some err => mret (Some err)
        | None => upd_server (λ s, s <| mtu := new |>);; mret None
        end
    end.

(** [UpdateSocketConfig]; the configurator in use never fails. *)
Fixpoint config_loop (config : Z * Z) (order : list (string * SocketId)) : P (option error) :=
  match order with
  | [] => mret None
  | (_, sid) :: order =>
      err ← ConfigureSocket config sid;
      match err with
      | Some err => mret (Some err)
      | None => config_loop config order
      end
  end.

Definition UpdateSocketConfig (order : list (string * SocketId)) : P (option error) :=
  s ← gets server;
  match SocketConfigurator s with
  | None => mret None
  | Some config => config_loop config order
  end.

Fixpoint close_all (cs : list closer) : P unit :=
  match cs with
  | [] => mret tt
  | c :: cs =>
      (match c with
       | AdapterCloser sid => close_adapter sid
       | IfaceCloser iid => lift (iface_call iid iface_close);; mret tt
       | ListenerCloser => mret tt
       end);;
      close_all cs
  end.

Definition closeAll : P unit :=
  s ← gets server;
  close_all (closers s);;
  upd_server (λ s, s <| closers := [] |>).

Definition Server_Close : P unit :=
  closeAll;;
  on_server (λ s, s ← setServeError (Some errNone) s; Ret (s, tt)).

(** One turn of [serveMainIface] on the result of a read, and its end. *)
Definition main_iface_turn (read : bytes + error) : P bool :=
  s ← gets server;
  match read with
  | inr _ => mret false
  | inl packet =>
      if (len packet <? 1) || (bufferSize s <=? len packet) then mret true
      else
        '(_, err) ← lift (HandlePacket None packet);
        mret (if err is Some _ then false else true)
  end.

Definition main_iface_end : P unit :=
  on_server (λ s, s ← setServeError (Some (ErrText "main iface closed")) s; Ret (s, tt)).

End Server.
