(* ===== verification/ServerState.v ===== *)
(** * The server's invariant

    Proofs about [Server]: the slot loop, what each part of [serveSocket] does
    to the server's own state, the transition system of connections being
    served concurrently, and what holds in its reachable states. *)

From S2P Require Import Prelude Json Commands Adapter Socket World Lifecycle Net IPText VPNNet Shared Server.
Import adapters.

(** ** The slot loop *)

Lemma used_below (used : gset Z) slot :
  1 <= slot → (∀ i, 1 <= i < slot → i ∈ used) → slot - 1 <= Z.of_nat (size used).
Proof.
  intros Hs Hlow. set (l := map (λ i, 1 + Z.of_nat i) (seq 0 (Z.to_nat (slot - 1)))).
  assert (Hn : NoDup l).
  { apply NoDup_fmap_2; [intros x y; lia|apply NoDup_seq]. }
  assert (Hsub : (list_to_set l : gset Z) ⊆ used).
  { intros i. rewrite elem_of_list_to_set. unfold l. rewrite list_elem_of_fmap.
    intros (n & -> & Hi%elem_of_seq). apply Hlow. lia. }
  apply subseteq_size in Hsub. rewrite size_list_to_set in Hsub by done.
  unfold l in Hsub. rewrite length_map, length_seq in Hsub. lia.
Qed.

(** It ends, with the lowest free slot, or with none if all are in use. *)
Lemma slot_loop_spec used maxSlot fuel slot :
  1 <= slot <= Z.max 1 maxSlot → 0 <= maxSlot < 2 ^ 64 - 1 →
  (∀ i, 1 <= i < slot → i ∈ used) →
  Z.of_nat (size used) < slot - 1 + Z.of_nat fuel →
  match slot_loop fuel slot maxSlot used with
  | Ret (Some i) => i ∉ used ∧ 1 <= i <= Z.max 1 maxSlot ∧ ∀ j, 1 <= j < i → j ∈ used
  | Ret None => ∀ j, 1 <= j <= Z.max 1 maxSlot → j ∈ used
  | _ => False
  end.
Proof.
  revert slot. induction fuel as [|fuel IH]; intros slot Hs Hm Hlow Hf.
  - pose proof (used_below used slot ltac:(lia) Hlow). lia.
  - cbn [slot_loop]. case_bool_decide as Hu; [|done].
    rewrite u64_small by lia.
    assert (Hlow' : ∀ i, 1 <= i < slot + 1 → i ∈ used).
    { intros i Hi. destruct (decide (i = slot)) as [->|]; [done|]. apply Hlow. lia. }
    destruct (Z.ltb_spec maxSlot (slot + 1)).
    + intros j Hj. apply Hlow'. lia.
    + apply IH; [lia|lia|exact Hlow'|lia].
Qed.

(** ** Inversion of programs *)

Section Effects.
Context {A I E : Type} `{SocketAdapter A} `{WaterInterface I} `{!Unregister E} `{NewRandom}
  `{!World.PacketHandler A I E} `{!ClientHandlers A I E} `{Cidr}.
Implicit Types sw : SW A I E.

(** [m] leaves the server's own state alone. *)
Definition server_same {R} (m : prog (SW A I E) R) : Prop :=
  ∀ sw sw' r, m sw = Ret (sw', r) → server sw' = server sw.

Lemma same_ret {R} (r : R) : server_same (mret r).
Proof. by intros sw sw' r' [= <- _]. Qed.
Lemma same_bind {R R'} (m : prog (SW A I E) R) (k : R → prog (SW A I E) R') :
  server_same m → (∀ r, server_same (k r)) → server_same (m ≫= k).
Proof.
  intros Hm Hk sw sw' r Hx. prog_inv. rewrite (Hk _ _ _ _ Hx). by eapply Hm.
Qed.
Lemma same_lift {R} (m : prog (World A I E) R) : server_same (lift m).
Proof. intros sw sw' r. unfold lift. by destruct (m (world sw)) as [[w x]| |]; [intros [= <- _]|..]. Qed.
Lemma same_gets {R} (f : SW A I E → R) : server_same (gets f).
Proof. by intros sw sw' r [= <- _]. Qed.

Create HintDb same.
Hint Resolve same_ret same_lift same_gets : same.
Ltac same_step :=
  match goal with
  | |- server_same (_ ≫= _) => apply same_bind; [|intros ?]
  | |- server_same (match ?x with _ => _ end) => destruct x eqn:?
  | |- server_same _ => solve [auto with same]
  end.
Ltac same := cbv zeta; repeat same_step.

Lemma same_close_adapter sid : server_same (close_adapter (A := A) (I := I) (E := E) sid).
Proof.
  intros sw sw' r. unfold close_adapter. destruct (pending sw !! sid).
  - by intros [= <- _].
  - apply same_bind; intros; apply same_lift || apply same_ret.
Qed.
Hint Resolve same_close_adapter : same.

Lemma same_ConfigureSocket config sid :
  server_same (ConfigureSocket (A := A) (I := I) (E := E) config sid).
Proof. unfold ConfigureSocket. same. Qed.
Hint Resolve same_ConfigureSocket : same.

Lemma same_start_socket c : server_same (start_socket (A := A) (I := I) (E := E) c).
Proof. unfold start_socket. same. Qed.

Lemma same_new_iface i : server_same (new_iface (A := A) (I := I) (E := E) i).
Proof. by intros sw sw' r [= <- _]. Qed.
Lemma same_make_socket sid user ifc b :
  server_same (make_socket (A := A) (I := I) (E := E) sid user ifc b).
Proof. intros sw sw' r. unfold make_socket. by destruct (pending sw !! sid); [intros [= <- _]|]. Qed.
Hint Resolve same_start_socket same_new_iface same_make_socket : same.

Lemma same_connection_iface o :
  server_same (connection_iface (A := A) (I := I) (E := E) o).
Proof. unfold connection_iface. same. Qed.

Lemma upd_server_inv (f : Server → Server) sw sw' r :
  upd_server f sw = Ret (sw', r) → server sw' = f (server sw).
Proof. by intros [= <- _]. Qed.

(** ** What the parts of [serveSocket] do to the server *)

(** The part of the server's state that the invariant is about. *)
Definition core (s : Server) :=
  (vpnNet s, MaxConnectionsPerUser s, MaxConnectionsPerUserMode s, usedSlots s,
   authenticatedSockets s).

Lemma end_connection_core c entered sw sw' r :
  end_connection c entered sw = Ret (sw', r) →
  server sw' = release_slot (c_slot c)
    (if entered then forget_socket (c_clientID c) (c_user c) (c_sid c) (server sw) else server sw).
Proof.
  unfold end_connection. intros Hx. prog_inv.
  apply same_close_adapter in Hx. rewrite Hx.
  match goal with H : upd_server (release_slot _) _ = _ |- _ => apply upd_server_inv in H; rewrite H end.
  f_equal.
  assert (Hi : server sw2 = server sw1).
  { destruct (c_iface c); prog_inv; [|done]. by eapply same_lift. }
  rewrite Hi. match goal with H : lift _ _ = _ |- _ => apply same_lift in H; rewrite H end.
  destruct entered; prog_inv; [|done]. by eapply upd_server_inv.
Qed.

Lemma core_same sw sw' {R} (m : prog (SW A I E) R) r :
  server_same m → m sw = Ret (sw', r) → core (server sw') = core (server sw).
Proof. intros Hm Hx. by rewrite (Hm _ _ _ Hx). Qed.

(** The section under the lock: the user's list grows by the socket, the limit
    being kept as [user_verdict] says, or the socket is refused. *)
Lemma enter_socket_core sid clientID user sw sw' ok :
  enter_socket sid clientID user sw = Ret (sw', ok) →
  let s := server sw in
  if negb (bool_decide (user = EmptyString)) && (0 <? MaxConnectionsPerUser s) then
    match user_verdict user s with
    | None => ok = false ∧ core (server sw') = core s
    | Some (_, l) => ok = true ∧ core (server sw')
        = core (s <| authenticatedSockets := <[user := l ++ [sid]]> (authenticatedSockets s) |>)
    end
  else ok = true ∧ core (server sw') = core s.
Proof.
  unfold enter_socket. cbn zeta. intros Hx.
  apply prog_bind_inv in Hx as (sw0 & s & [= <- <-] & Hx).
  apply prog_bind_inv in Hx as (sw1 & ok' & Ev & Hx).
  apply prog_bind_inv in Hx as (sw2 & u & Ef & [= <- <-]).
  destruct (negb _ && _); [destruct (user_verdict user (server sw)) as [[kill l]|]|].
  - apply prog_bind_inv in Ev as (sw3 & u3 & Ek & Ev).
    apply prog_bind_inv in Ev as (sw4 & u4 & Eu & [= <- <-]). split; [done|].
    apply upd_server_inv in Ef as ->. apply upd_server_inv in Eu as Eu.
    assert (Hs : server sw3 = server sw).
    { destruct kill; [by eapply same_lift|by injection Ek as <- _]. }
    unfold core. simpl. rewrite Eu, Hs. done.
  - injection Ev as <- <-. split; [done|]. apply same_lift in Ef. by rewrite Ef.
  - injection Ev as <- <-. split; [done|]. by apply upd_server_inv in Ef as ->.
Qed.

(** The configurator in use does not fail. *)
Lemma start_socket_never_fails c sw sw' e : start_socket c sw ≠ Ret (sw', Some e).
Proof.
  unfold start_socket. intros Hx.
  apply prog_bind_inv in Hx as (sw0 & s & [= <- <-] & Hx).
  apply prog_bind_inv in Hx as (sw1 & u1 & _ & Hx).
  apply prog_bind_inv in Hx as (sw2 & u2 & _ & Hx).
  apply prog_bind_inv in Hx as (sw3 & err & Ec & Hx).
  assert (err = None) as ->.
  { destruct (SocketConfigurator (server sw)); [|by injection Ec].
    unfold ConfigureSocket in Ec. by apply prog_bind_inv in Ec as (sw4 & u4 & _ & [= _ <-]). }
  apply prog_bind_inv in Hx as (sw4 & u4 & _ & Hx).
  apply prog_bind_inv in Hx as (sw5 & u5 & _ & Hx).
  by apply prog_bind_inv in Hx as (sw6 & u6 & _ & [=]).
Qed.

(** A connection that is refused or fails leaves the server as it was, but for
    its slot; one that goes on was entered. *)
Lemma establish_core sid slot ip clientID user o sw sw' c :
  establish sid slot ip clientID user o sw = Ret (sw', c) →
  let s := server sw in
  match c with
  | None => core (server sw') = core (release_slot slot s)
  | Some c =>
      c_sid c = sid ∧ c_slot c = slot ∧ c_user c = user ∧ c_ip c = ip
      ∧ if negb (bool_decide (user = EmptyString)) && (0 <? MaxConnectionsPerUser s) then
          ∃ k l, user_verdict user s = Some (k, l) ∧ core (server sw')
            = core (s <| authenticatedSockets := <[user := l ++ [sid]]> (authenticatedSockets s) |>)
        else core (server sw') = core s
  end.
Proof.
  unfold establish. cbn zeta. intros Hx.
  apply prog_bind_inv in Hx as (sw1 & [ifc err] & Ei & Hx). apply same_connection_iface in Ei.
  apply prog_bind_inv in Hx as (sw0 & s & [= <- <-] & Hx). rewrite <- Ei. clear Ei.
  destruct err as [e|].
  - apply prog_bind_inv in Hx as (sw2 & u & Ec & Hx).
    apply prog_bind_inv in Hx as (sw3 & u3 & Er & Hx).
    apply prog_bind_inv in Hx as (sw4 & u4 & Ea & [= <- <-]).
    apply same_close_adapter in Ea as ->. apply upd_server_inv in Er as ->.
    assert (Hs : server sw2 = server sw1); [|by rewrite Hs].
    destruct ifc; [|by injection Ec as <- _].
    apply prog_bind_inv in Ec as (sw5 & u5 & Ec & [= <- _]). by eapply same_lift.
  - apply prog_bind_inv in Hx as (sw2 & u & Em & Hx). apply same_make_socket in Em.
    rewrite <- Em. clear Em.
    apply prog_bind_inv in Hx as (sw3 & ok & Ee & Hx). apply enter_socket_core in Ee.
    cbn zeta in Ee. destruct ok; cbn [negb] in Hx.
    + apply prog_bind_inv in Hx as (sw4 & err & Es & Hx). pose proof Es as Es0.
      apply same_start_socket in Es. destruct err as [e|]; [|injection Hx as <- <-]; cbn [c_sid c_slot c_user c_ip].
      * apply prog_bind_inv in Hx as (sw5 & u5 & Hend & [= <- <-]).
        by apply start_socket_never_fails in Es0.
      * rewrite Es. split_and!; [done..|]. destruct (negb _ && _).
        -- destruct (user_verdict user (server sw2)) as [[k l]|]; [|by destruct Ee].
           exists k, l. by destruct Ee.
        -- by destruct Ee.
    + apply prog_bind_inv in Hx as (sw5 & u5 & Hend & [= <- <-]).
      apply end_connection_core in Hend. rewrite Hend. destruct (negb _ && _).
      * destruct (user_verdict user (server sw2)) as [[k l]|]; [by destruct Ee|].
        destruct Ee as [_ Ee]. unfold core in *. simpl. congruence.
      * by destruct Ee.
Qed.

(** The slot that the loop gives is free and, as long as no slot at the end of 64
    bits is in use, not zero. *)
Lemma slot_loop_free used maxSlot fuel slot i :
  (∀ j, j ∈ used → j < 2 ^ 64 - 1) → 1 <= slot →
  slot_loop fuel slot maxSlot used = Ret (Some i) → i ∉ used ∧ 1 <= i.
Proof.
  intros Hu. revert slot. induction fuel as [|fuel IH]; intros slot Hs; [done|].
  cbn [slot_loop]. case_bool_decide as Hin; [|by intros [= <-]].
  specialize (Hu slot Hin). rewrite u64_small by lia.
  destruct (_ <? _); [done|]. apply IH. lia.
Qed.

Lemma begin_core a sw sw' o :
  (∀ j, j ∈ usedSlots (server sw) → j < 2 ^ 64 - 1) →
  begin_connection a sw = Ret (sw', o) →
  let s := server sw in
  match o with
  | None => core (server sw') = core s
  | Some (_, slot, ip) => slot ∉ usedSlots s ∧ 1 <= slot
      ∧ GetIPAt (vpnNet s) (slot + 1) = inl ip
      ∧ core (server sw') = core (s <| usedSlots := {[slot]} ∪ usedSlots s |>)
  end.
Proof.
  intros Hu Hx. cbn zeta. unfold begin_connection in Hx.
  apply prog_bind_inv in Hx as (sw1 & sid & [= <- <-] & Hx).
  apply prog_bind_inv in Hx as (sw2 & u2 & Hadd & Hx). apply upd_server_inv in Hadd.
  simpl in Hadd.
  assert (Hc2 : core (server sw2) = core (server sw)) by by rewrite Hadd.
  apply prog_bind_inv in Hx as (sw3 & slot & Hclaim & Hx).
  unfold on_server, claim_slot in Hclaim. rewrite Hadd in Hclaim.
  remember (S (size (usedSlots _))) as fuel. simpl in Hclaim.
  destruct (GetClientSlots _) as [slots| |]; [|done..]. simpl in Hclaim.
  destruct (slot_loop _ _ _ _) as [[i|]| |] eqn:El; [| |done..]; simpl in Hclaim;
    injection Hclaim as <- <-.
  - apply slot_loop_free in El as [Hi Hi1]; [|done|lia].
    apply prog_bind_inv in Hx as (sw4 & s & [= <- <-] & Hx). simpl in Hx.
    destruct (GetIPAt _ _) as [ip|e] eqn:Eip.
    + injection Hx as <- <-. done.
    + apply prog_bind_inv in Hx as (sw5 & u5 & Hr & Hx). apply upd_server_inv in Hr.
      apply prog_bind_inv in Hx as (sw6 & u6 & Ha & [= <- <-]).
      apply same_close_adapter in Ha as ->. rewrite Hr. unfold core, release_slot. simpl.
      do 2 f_equal. set_solver.
  - apply prog_bind_inv in Hx as (sw6 & u6 & Ha & [= <- <-]).
    by apply same_close_adapter in Ha as ->.
Qed.

Lemma begin_keeps_users a sw sw' o :
  begin_connection a sw = Ret (sw', o) →
  ∃ u, core (server sw') = core ((server sw) <| usedSlots := u |>).
Proof.
  unfold begin_connection. intros Hx.
  apply prog_bind_inv in Hx as (sw1 & sid & [= <- <-] & Hx).
  apply prog_bind_inv in Hx as (sw2 & u2 & Hadd & Hx). apply upd_server_inv in Hadd.
  simpl in Hadd.
  apply prog_bind_inv in Hx as (sw3 & slot & Hclaim & Hx).
  assert (Hc3 : ∃ u, core (server sw3) = core ((server sw) <| usedSlots := u |>)).
  { unfold on_server, claim_slot in Hclaim. rewrite Hadd in Hclaim.
    remember (S (size (usedSlots _))) as fuel. simpl in Hclaim.
    destruct (GetClientSlots _) as [slots| |]; [|done..]. simpl in Hclaim.
    destruct (slot_loop _ _ _ _) as [[i|]| |]; [| |done..]; simpl in Hclaim;
      injection Hclaim as <- <-; simpl; by eexists. }
  destruct Hc3 as [u Hc3]. destruct slot as [slot|].
  - apply prog_bind_inv in Hx as (sw4 & s & [= <- <-] & Hx).
    destruct (GetIPAt _ _) as [ip|e]; [injection Hx as <- <-; by eexists|].
    apply prog_bind_inv in Hx as (sw5 & u5 & Hr & Hx). apply upd_server_inv in Hr.
    apply prog_bind_inv in Hx as (sw6 & u6 & Ha & [= <- <-]).
    apply same_close_adapter in Ha as ->. rewrite Hr. eexists (u ∖ {[slot]}).
    injection Hc3 as Hv Hm Hk Hu Ha'. unfold core, release_slot. simpl. congruence.
  - apply prog_bind_inv in Hx as (sw6 & u6 & Ha & [= <- <-]).
    apply same_close_adapter in Ha as ->. by eexists.
Qed.

Lemma send_init_core c sw sw' ok :
  send_init c sw = Ret (sw', ok) →
  core (server sw') = core (if ok then server sw else
    release_slot (c_slot c) (forget_socket (c_clientID c) (c_user c) (c_sid c) (server sw))).
Proof.
  unfold send_init. intros Hx.
  apply prog_bind_inv in Hx as (sw1 & s & [= <- <-] & Hx).
  apply prog_bind_inv in Hx as (sw2 & k & Hk & Hx). apply same_lift in Hk.
  apply prog_bind_inv in Hx as (sw3 & err & Hm & Hx). apply same_lift in Hm.
  destruct err as [e|]; [|injection Hx as <- <-; congruence].
  apply prog_bind_inv in Hx as (sw4 & u4 & Hc & Hx). apply same_lift in Hc.
  apply prog_bind_inv in Hx as (sw5 & u5 & Hend & [= <- <-]).
  apply end_connection_core in Hend. rewrite Hend. congruence.
Qed.

(** ** Connections served concurrently *)

Abbreviation begun := (SocketId * Z * netIP)%type.

(** A state: the server, the calls of [serveSocket] that have an address, and
    those that have a served socket. *)
Record sys := mkSys { sys_sw : SW A I E; sys_begun : list begun; sys_live : list connection }.

(** The parts of [serveSocket] are steps, so that calls interleave; what other
    goroutines do to the sockets, and settings that change, are steps too. *)
Inductive sys_step : sys → sys → Prop :=
| step_begin a sw sw' bs cs o :
    begin_connection a sw = Ret (sw', o) →
    sys_step (mkSys sw bs cs) (mkSys sw' (if o is Some b then b :: bs else bs) cs)
| step_establish sw sw' b1 b2 sid slot ip clientID user i cs c :
    establish sid slot ip clientID user i sw = Ret (sw', c) →
    sys_step (mkSys sw (b1 ++ (sid, slot, ip) :: b2) cs)
      (mkSys sw' (b1 ++ b2) (if c is Some c then c :: cs else cs))
| step_init sw sw' bs c1 c c2 ok :
    send_init c sw = Ret (sw', ok) →
    sys_step (mkSys sw bs (c1 ++ c :: c2))
      (mkSys sw' bs (if (ok : bool) then c1 ++ c :: c2 else c1 ++ c2))
| step_end sw sw' bs c1 c c2 :
    end_connection c true sw = Ret (sw', tt) →
    sys_step (mkSys sw bs (c1 ++ c :: c2)) (mkSys sw' bs (c1 ++ c2))
| step_other sw sw' bs cs :
    core (server sw') = core (server sw) →
    sys_step (mkSys sw bs cs) (mkSys sw' bs cs).

(** A server as it starts, with its network and limits. *)
Definition sys_start (st : sys) : Prop :=
  usedSlots (server (sys_sw st)) = ∅ ∧ authenticatedSockets (server (sys_sw st)) = ∅
  ∧ sys_begun st = [] ∧ sys_live st = [].

Definition slots_of (bs : list begun) (cs : list connection) : list Z :=
  (map (λ b, b.1.2) bs) ++ (map c_slot cs).
Definition addresses_of (bs : list begun) (cs : list connection) : list (Z * netIP) :=
  (map (λ b, (b.1.2, b.2)) bs) ++ (map (λ c, (c_slot c, c_ip c)) cs).

Lemma slots_addresses bs cs : slots_of bs cs = (addresses_of bs cs).*1.
Proof.
  unfold slots_of, addresses_of. rewrite fmap_app. f_equal.
  - induction bs as [|b bs IH]; [done|]. simpl. by rewrite IH.
  - induction cs as [|c cs IH]; [done|]. simpl. by rewrite IH.
Qed.

Definition sys_reachable (st : sys) : Prop := ∃ st0, sys_start st0 ∧ rtc sys_step st0 st.

(** *** The slots *)

(** The slots in use are those of the connections, which are all different, and
    their addresses are those of the slots. *)
Record slots_inv (net : IPNet) (s : Server) (l : list (Z * netIP)) : Prop := {
  inv_net : ipNet (vpnNet s) = net;
  inv_used : usedSlots s = list_to_set l.*1;
  inv_nodup : NoDup l.*1;
  inv_addr : Forall (λ x, 1 <= x.1 ∧ cidr_Host net (x.1 + 1) = inl x.2) l }.

Lemma slots_inv_perm net s l l' : l ≡ₚ l' → slots_inv net s l → slots_inv net s l'.
Proof.
  intros Hp [Hn Hu Hd Ha]. constructor; [done| | |].
  - rewrite Hu. apply leibniz_equiv. by rewrite Hp.
  - by rewrite <- Hp.
  - by rewrite <- Hp.
Qed.

Lemma slots_inv_core net s s' l : core s' = core s → slots_inv net s l → slots_inv net s' l.
Proof. intros [= Hv _ _ Hu _] [? ? ? ?]. constructor; congruence. Qed.

Lemma slots_inv_add net s slot ip l :
  slot ∉ usedSlots s → 1 <= slot → cidr_Host net (slot + 1) = inl ip → slots_inv net s l →
  slots_inv net (s <| usedSlots := {[slot]} ∪ usedSlots s |>) ((slot, ip) :: l).
Proof.
  intros Hs H1' Hip [Hn Hu Hd Ha]. constructor; simpl; [done|by rewrite Hu| |].
  - constructor; [|done]. rewrite Hu, elem_of_list_to_set in Hs. done.
  - by constructor.
Qed.

Lemma slots_inv_release net s x l :
  slots_inv net s (x :: l) → slots_inv net (release_slot x.1 s) l.
Proof.
  intros [Hn Hu Hd Ha]. simpl in *. apply NoDup_cons in Hd as [Hx Hd].
  constructor; simpl; [done| |done|by inversion Ha].
  rewrite Hu. apply leibniz_equiv. intros i.
  rewrite elem_of_difference, elem_of_union, !elem_of_singleton, !elem_of_list_to_set.
  split; [by intros [[?|?] ?]|]. intros Hi. split; [by right|]. by intros ->.
Qed.

Lemma forget_core_slots id user sid s :
  vpnNet (forget_socket id user sid s) = vpnNet s
  ∧ usedSlots (forget_socket id user sid s) = usedSlots s.
Proof. unfold forget_socket. repeat case_match; done. Qed.

Lemma slots_inv_forget net id user sid s l :
  slots_inv net s l → slots_inv net (forget_socket id user sid s) l.
Proof.
  intros [? ? ? ?]. destruct (forget_core_slots id user sid s) as [Hv Hu].
  constructor; congruence.
Qed.

Lemma slots_inv_auth net s auth l :
  slots_inv net s l → slots_inv net (s <| authenticatedSockets := auth |>) l.
Proof. by intros [? ? ? ?]. Qed.

Lemma addresses_middle b1 b b2 cs :
  addresses_of (b1 ++ b :: b2) cs ≡ₚ (b.1.2, b.2) :: addresses_of (b1 ++ b2) cs.
Proof. unfold addresses_of. rewrite !map_app. simpl. solve_Permutation. Qed.

Lemma addresses_middle_live bs c1 c c2 :
  addresses_of bs (c1 ++ c :: c2) ≡ₚ (c_slot c, c_ip c) :: addresses_of bs (c1 ++ c2).
Proof. unfold addresses_of. rewrite !map_app. simpl. solve_Permutation. Qed.

Lemma slots_step `{!CidrSpec} base ones st st' :
  wf_net base ones → sys_step st st' →
  slots_inv (v4_net base ones) (server (sys_sw st)) (addresses_of (sys_begun st) (sys_live st)) →
  slots_inv (v4_net base ones) (server (sys_sw st')) (addresses_of (sys_begun st') (sys_live st')).
Proof.
  intros Hw Hst Hinv. destruct Hst as [a sw sw' bs cs o Hx|sw sw' b1 b2 sid slot ip id user i cs c Hx
    |sw sw' bs c1 c c2 ok Hx|sw sw' bs c1 c c2 Hx|sw sw' bs cs Hx]; simpl in *.
  - assert (Hsmall : ∀ j, j ∈ usedSlots (server sw) → j < 2 ^ 64 - 1).
    { intros j. rewrite (inv_used _ _ _ Hinv), elem_of_list_to_set, list_elem_of_fmap.
      intros (x & -> & Hin). pose proof (inv_addr _ _ _ Hinv) as Ha.
      rewrite Forall_forall in Ha. destruct (Ha x Hin) as [Hx1 Hx2].
      pose proof (host_spec base ones (x.1 + 1) Hw ltac:(lia)) as Hh. rewrite Hx2 in Hh.
      pose proof (addresses_pos ones (proj1 Hw)). lia. }
    apply begin_core in Hx; [|done]. destruct o as [[[sid slot] ip]|].
    + destruct Hx as (Hs & H1' & Hip & Hc). eapply slots_inv_core; [exact Hc|].
      apply slots_inv_add; try done. unfold GetIPAt in Hip.
      by rewrite (inv_net _ _ _ Hinv) in Hip.
    + by eapply slots_inv_core.
  - apply establish_core in Hx. apply (slots_inv_perm _ _ _ _ (addresses_middle _ _ _ _)) in Hinv.
    simpl in Hinv. destruct c as [c|].
    + destruct Hx as (_ & Hs & _ & Hi & Hc).
      apply (slots_inv_perm _ _ ((c_slot c, c_ip c) :: addresses_of (b1 ++ b2) cs)).
      { symmetry. apply (addresses_middle_live _ []). }
      rewrite Hs, Hi. destruct (negb _ && _).
      * destruct Hc as (k & l & _ & Hc). eapply slots_inv_core; [exact Hc|].
        by apply slots_inv_auth.
      * by eapply slots_inv_core.
    + eapply slots_inv_core; [exact Hx|]. by apply (slots_inv_release _ _ (slot, ip)).
  - apply send_init_core in Hx. destruct ok; [by eapply slots_inv_core|].
    eapply slots_inv_core; [exact Hx|].
    apply (slots_inv_perm _ _ _ _ (addresses_middle_live _ _ _ _)) in Hinv.
    apply (slots_inv_release _ _ (c_slot c, c_ip c)). by apply slots_inv_forget.
  - apply end_connection_core in Hx. rewrite Hx.
    apply (slots_inv_perm _ _ _ _ (addresses_middle_live _ _ _ _)) in Hinv.
    apply (slots_inv_release _ _ (c_slot c, c_ip c)). by apply slots_inv_forget.
  - by eapply slots_inv_core.
Qed.

(** It holds in every reachable state. *)
Lemma slots_reachable `{!CidrSpec} base ones st0 st :
  wf_net base ones → ipNet (vpnNet (server (sys_sw st0))) = v4_net base ones →
  sys_start st0 → rtc sys_step st0 st →
  slots_inv (v4_net base ones) (server (sys_sw st)) (addresses_of (sys_begun st) (sys_live st)).
Proof.
  intros Hw Hn (Hu & _ & Hb & Hl) Hst.
  assert (H0' : slots_inv (v4_net base ones) (server (sys_sw st0))
    (addresses_of (sys_begun st0) (sys_live st0))).
  { rewrite Hb, Hl. constructor; [done|done|constructor|constructor]. }
  clear Hu Hb Hl Hn. revert H0'. induction Hst as [|x y z Hxy _ IH]; [done|]. intros H0'. apply IH.
  by eapply slots_step.
Qed.

(** An address in use is that of its slot, past the network's own and the server's. *)
Lemma slot_address `{!CidrSpec} base ones s l slot ip :
  wf_net base ones → slots_inv (v4_net base ones) s l → (slot, ip) ∈ l →
  To4 ip = v4_bytes (base + (slot + 1)) ∧ 2 <= slot + 1 < addresses ones.
Proof.
  intros Hw Hinv Hin. pose proof (inv_addr _ _ _ Hinv) as Ha. rewrite Forall_forall in Ha.
  destruct (Ha _ Hin) as [Hs1 Hh].
  pose proof (host_spec base ones (slot + 1) Hw) as Hsp. simpl in *. rewrite Hh in Hsp.
  destruct Hsp as [? ?]; [lia|]. split; [done|lia].
Qed.

(** Different hosts of a network have different addresses. *)
Lemma host_inj base ones k k' :
  wf_net base ones → 0 <= k < addresses ones → 0 <= k' < addresses ones →
  v4_bytes (base + k) = v4_bytes (base + k') → k = k'.
Proof. intros Hw Hk Hk' He. apply v4_bytes_inj in He; [lia|..]; by eapply host_range. Qed.

(** C22. Connections never share an address: in every reachable state those that
    were given one have different addresses, none of them the server's own or
    that of the network, whatever connections came and went before. *)
Theorem addresses_exclusive `{!CidrSpec} base ones st0 st :
  wf_net base ones → ipNet (vpnNet (server (sys_sw st0))) = v4_net base ones →
  sys_start st0 → rtc sys_step st0 st →
  let ips := map To4 (map snd (addresses_of (sys_begun st) (sys_live st))) in
  NoDup ips
  ∧ To4 (GetServerIP (vpnNet (server (sys_sw st)))) ∉ ips
  ∧ v4_bytes base ∉ ips.
Proof.
  intros Hw Hn Hstart Hst. pose proof (slots_reachable base ones _ _ Hw Hn Hstart Hst) as Hinv.
  clear Hst Hn Hstart. pose proof (inv_net _ _ _ Hinv) as Hn.
  pose proof (inv_nodup _ _ _ Hinv) as Hd. cbn zeta.
  set (l := addresses_of _ _) in *.
  assert (Hip : ∀ slot ip, (slot, ip) ∈ l → To4 ip = v4_bytes (base + (slot + 1))
    ∧ 2 <= slot + 1 < addresses ones) by (intros slot ip; by eapply slot_address).
  clearbody l. clear Hinv.
  pose proof (host_inj base ones) as Hinj.
  assert (Hnot : ∀ k, 0 <= k <= 1 → k < addresses ones →
    v4_bytes (base + k) ∉ map To4 (map snd l)).
  { intros k Hk Hk'. rewrite <- list_fmap_compose, list_elem_of_fmap.
    intros ([slot ip] & He & Hin). destruct (Hip _ _ Hin) as [Hs Hb]. cbn in He.
    rewrite Hs in He. apply Hinj in He; (done || lia). }
  split_and!.
  - rewrite <- list_fmap_compose. clear Hnot.
    induction l as [|[slot ip] l IH]; [constructor|]. simpl in Hd.
    apply NoDup_cons in Hd as [Hx Hd]. simpl. constructor.
    + rewrite list_elem_of_fmap. intros ([slot' ip'] & He & Hin). cbn in He.
      destruct (Hip slot ip) as [Hs Hb]; [by left|].
      destruct (Hip slot' ip') as [Hs' Hb']; [by right|]. rewrite Hs, Hs' in He.
      apply Hinj in He; [|done|lia..]. apply Hx. rewrite list_elem_of_fmap.
      exists (slot', ip'). simpl. split; [lia|done].
    + apply IH; [done|]. intros slot' ip' Hin. apply Hip. by right.
  - unfold GetServerIP, GetIPAt. rewrite Hn.
    pose proof (host_spec base ones 1 Hw ltac:(lia)) as Hsp.
    destruct (cidr_Host _ 1) as [ip|e].
    + destruct Hsp as [Hlt ->]. apply Hnot; lia.
    + cbn. rewrite <- list_fmap_compose, list_elem_of_fmap. intros ([slot ip] & He & Hin).
      destruct (Hip _ _ Hin). lia.
  - rewrite <- (Z.add_0_r base). apply Hnot; [lia|]. pose proof (addresses_pos ones (proj1 Hw)). lia.
Qed.

(** *** The connections of a user *)

(** The limit in force, and the sockets listed: never more than the limit, and
    each is that of a connection of the user that is being served. *)
Record users_inv (max : Z) (s : Server) (cs : list connection) : Prop := {
  inv_max : MaxConnectionsPerUser s = max;
  inv_mode : MaxConnectionsPerUserMode s = MaxConnectionsPerUserKillOldest
    ∨ MaxConnectionsPerUserMode s = MaxConnectionsPerUserPreventNew;
  inv_lists : map_Forall (λ user l, user ≠ EmptyString ∧ 1 <= len l <= max
    ∧ Forall (λ sid, ∃ c, c ∈ cs ∧ c_sid c = sid ∧ c_user c = user) l) (authenticatedSockets s) }.

Lemma users_inv_core max s s' cs : core s' = core s → users_inv max s cs → users_inv max s' cs.
Proof.
  intros [= _ Hm Hk _ Ha] [? ? ?]. constructor; [congruence|by rewrite Hk|by rewrite Ha].
Qed.

Lemma users_inv_mono max s cs cs' :
  (∀ c, c ∈ cs → c ∈ cs') → users_inv max s cs → users_inv max s cs'.
Proof.
  intros Hc [? ? Hl]. constructor; [done..|]. intros user l Hu. destruct (Hl user l Hu) as (? & ? & Hf).
  do 2 (split; [done|]). eapply Forall_impl; [exact Hf|]. naive_solver.
Qed.

Lemma users_inv_release max slot s cs : users_inv max s cs → users_inv max (release_slot slot s) cs.
Proof. by intros [? ? ?]. Qed.

Lemma len_filter {T} (P : T → Prop) `{!∀ x, Decision (P x)} (l : list T) :
  len (filter P l) <= len l.
Proof. unfold len. pose proof (length_filter P l). lia. Qed.

Lemma users_inv_forget max s c1 c c2 :
  users_inv max s (c1 ++ c :: c2) →
  users_inv max (forget_socket (c_clientID c) (c_user c) (c_sid c) s) (c1 ++ c2).
Proof.
  intros [Hm Hk Hl].
  assert (Hother : ∀ user l l0, user ≠ EmptyString → 1 <= len l →
    authenticatedSockets s !! user = Some l0 → len l <= len l0 → l ⊆ l0 →
    (user = c_user c → Forall (λ x, x ≠ c_sid c) l) →
    user ≠ EmptyString ∧ 1 <= len l <= max
    ∧ Forall (λ sid, ∃ c', c' ∈ c1 ++ c2 ∧ c_sid c' = sid ∧ c_user c' = user) l).
  { intros user l l0 Hne H1' Hu Hlen Hsub Hc. destruct (Hl user l0 Hu) as (_ & ? & Hf).
    split; [done|]. split; [lia|]. rewrite Forall_forall in Hf |- *. intros sid Hin.
    destruct (Hf sid (Hsub _ Hin)) as (c' & Hc' & <- & Hu'). exists c'. split; [|done].
    rewrite elem_of_app, elem_of_cons in Hc'. rewrite elem_of_app.
    destruct Hc' as [?|[->|?]]; [by left| |by right].
    specialize (Hc (eq_sym Hu')). rewrite Forall_forall in Hc. by destruct (Hc _ Hin). }
  assert (Hkeep : ∀ user l, authenticatedSockets s !! user = Some l → user ≠ c_user c →
    user ≠ EmptyString ∧ 1 <= len l <= max
    ∧ Forall (λ sid, ∃ c', c' ∈ c1 ++ c2 ∧ c_sid c' = sid ∧ c_user c' = user) l).
  { intros user l Hu Hne. destruct (Hl user l Hu) as (? & ? & _). by apply (Hother user l l); try lia. }
  unfold forget_socket. case_bool_decide as Hempty.
  { constructor; [done..|]. intros user l Hu. apply Hkeep; [done|].
    destruct (Hl user l Hu) as (? & _). congruence. }
  cbn [authenticatedSockets]. simpl.
  destruct (authenticatedSockets s !! c_user c) as [l0|] eqn:El0.
  2:{ constructor; [done..|]. intros user l Hu. apply Hkeep; [done|]. simpl in Hu. congruence. }
  constructor; [done..|]. intros user l. simpl. case_decide as Hnil.
  - rewrite lookup_delete_Some. intros [Hne Hu]. by apply Hkeep.
  - rewrite lookup_insert_Some. intros [[<- <-]|[Hne Hu]]; [|by apply Hkeep].
    apply (Hother _ _ l0); try done.
    + destruct (filter _ l0) as [|y l1]; [done|]. rewrite len_cons. pose proof (len_nonneg l1). lia.
    + apply len_filter.
    + intros x. rewrite list_elem_of_filter. tauto.
    + intros _. apply Forall_forall. intros x. rewrite list_elem_of_filter. tauto.
Qed.

Lemma user_verdict_bound s user k l :
  0 < MaxConnectionsPerUser s →
  MaxConnectionsPerUserMode s = MaxConnectionsPerUserKillOldest
    ∨ MaxConnectionsPerUserMode s = MaxConnectionsPerUserPreventNew →
  len (default [] (authenticatedSockets s !! user)) <= MaxConnectionsPerUser s →
  user_verdict user s = Some (k, l) →
  len l < MaxConnectionsPerUser s ∧ l ⊆ default [] (authenticatedSockets s !! user)
  ∧ match k with
    | Some old => default [] (authenticatedSockets s !! user) = old :: l
        ∧ len (old :: l) = MaxConnectionsPerUser s
        ∧ MaxConnectionsPerUserMode s = MaxConnectionsPerUserKillOldest
    | None => default [] (authenticatedSockets s !! user) = l
    end.
Proof.
  intros Hm Hmode. unfold user_verdict.
  destruct (authenticatedSockets s !! user) as [[|old rest]|]; simpl; intros Hle.
  - intros [= <- <-]. done.
  - destruct (Z.leb_spec (MaxConnectionsPerUser s) (len (old :: rest))).
    + destruct Hmode as [->| ->]; [|done]. intros [= <- <-]. rewrite len_cons in *.
      split_and!; try lia; try done. set_solver.
    + intros [= <- <-]. split_and!; [lia|done|done].
  - intros [= <- <-]. done.
Qed.

Lemma users_step max st st' :
  0 < max → sys_step st st' →
  users_inv max (server (sys_sw st)) (sys_live st) →
  users_inv max (server (sys_sw st')) (sys_live st').
Proof.
  intros Hmax Hst Hinv. destruct Hst as [a sw sw' bs cs o Hx|sw sw' b1 b2 sid slot ip id user i cs c Hx
    |sw sw' bs c1 c c2 ok Hx|sw sw' bs c1 c c2 Hx|sw sw' bs cs Hx]; simpl in *.
  - apply begin_keeps_users in Hx as [u Hc]. eapply users_inv_core; [exact Hc|].
    by destruct Hinv.
  - apply establish_core in Hx. destruct c as [c|].
    + destruct Hx as (<- & _ & <- & _ & Hc).
      destruct (negb (bool_decide (c_user c = EmptyString)) && _) eqn:Elim.
      * apply andb_true_iff in Elim as [Hne _]. apply negb_true_iff, bool_decide_eq_false in Hne.
        destruct Hc as (k & l & Hv & Hc). eapply users_inv_core; [exact Hc|].
        destruct Hinv as [Hm Hmode Hl].
        assert (Hle : len (default [] (authenticatedSockets (server sw) !! c_user c))
          <= MaxConnectionsPerUser (server sw)
          ∧ Forall (λ sid, ∃ c', c' ∈ cs ∧ c_sid c' = sid ∧ c_user c' = c_user c)
              (default [] (authenticatedSockets (server sw) !! c_user c))).
        { destruct (authenticatedSockets (server sw) !! c_user c) as [l0|] eqn:El0; simpl.
          - destruct (Hl _ _ El0) as (_ & ? & ?). split; [lia|done].
          - split; [unfold len; simpl; lia|constructor]. }
        destruct Hle as [Hle Hf].
        apply user_verdict_bound in Hv as (Hlt & Hsub & _); [|lia|done|done].
        constructor; [done|done|]. simpl. apply map_Forall_insert_2.
        -- split; [done|]. rewrite len_app, len_cons, len_nil. pose proof (len_nonneg l).
           split; [lia|]. apply Forall_app. split.
           ++ rewrite Forall_forall in Hf |- *. intros sid Hin.
              destruct (Hf sid (Hsub _ Hin)) as (c' & Hc' & ?). exists c'. set_solver.
           ++ constructor; [|done]. exists c. set_solver.
        -- eapply map_Forall_impl; [exact Hl|]. intros user l0 (? & ? & Hf0).
           do 2 (split; [done|]).
           eapply Forall_impl; [exact Hf0|]. intros sid (c' & ? & ?). exists c'. set_solver.
      * eapply users_inv_core; [exact Hc|]. eapply users_inv_mono; [|done]. set_solver.
    + eapply users_inv_core; [exact Hx|]. by apply users_inv_release.
  - apply send_init_core in Hx. destruct ok; [by eapply users_inv_core|].
    eapply users_inv_core; [exact Hx|]. by apply users_inv_release, users_inv_forget.
  - apply end_connection_core in Hx. rewrite Hx. by apply users_inv_release, users_inv_forget.
  - by eapply users_inv_core.
Qed.


(** *** One claim *)

Lemma max_slot base ones r `{!CidrSpec} :
  wf_net base ones → ones <= 30 → ipNet r = v4_net base ones →
  ∃ slots, GetClientSlots r = Ret slots ∧ u64 (slots + 1) = addresses ones - 2
    ∧ 4 <= addresses ones <= 2 ^ 32.
Proof.
  intros Hw Ho Hr. unfold GetClientSlots. rewrite Hr, (count_spec base ones) by done.
  assert (Ha : 4 <= addresses ones <= 2 ^ 32).
  { split; [|apply addresses_pos, Hw]. unfold addresses. change 4 with (2 ^ 2).
    apply Z.pow_le_mono_r; lia. }
  exists (u64 (addresses ones - 3)). split; [done|]. rewrite (u64_small (_ - 3)) by lia.
  rewrite u64_small by lia. split; [lia|done].
Qed.

Lemma claim_result `{!CidrSpec} base ones s :
  wf_net base ones → ones <= 30 → ipNet (vpnNet s) = v4_net base ones →
  let last := addresses ones - 2 in
  ∃ o, claim_slot s
      = Ret (match o with Some i => s <| usedSlots := {[i]} ∪ usedSlots s |> | None => s end, o)
    ∧ match o with
      | Some i => i ∉ usedSlots s ∧ 1 <= i <= last ∧ ∀ j, 1 <= j < i → j ∈ usedSlots s
      | None => ∀ j, 1 <= j <= last → j ∈ usedSlots s
      end.
Proof.
  intros Hw Ho Hr. cbn zeta. destruct (max_slot base ones _ Hw Ho Hr) as (slots & E1 & E2 & Ha).
  unfold claim_slot. rewrite E1. cbn [mbind outcome_bind]. rewrite E2.
  pose proof (slot_loop_spec (usedSlots s) (addresses ones - 2) (S (size (usedSlots s))) 1
    ltac:(lia) ltac:(lia) ltac:(lia) ltac:(lia)) as Hl.
  rewrite Z.max_r in Hl by lia.
  destruct (slot_loop _ _ _ _) as [o| |]; [|done..]. exists o. by destruct o.
Qed.

(** A new connection gets the lowest free slot, from 1 to the number of addresses
    less two; only if all of them are in use it is turned away, and the search
    always ends. *)
Theorem slot_claim `{!CidrSpec} base ones s :
  wf_net base ones → ones <= 30 → ipNet (vpnNet s) = v4_net base ones →
  let last := addresses ones - 2 in
  match claim_slot s with
  | Ret (s', Some i) => i ∉ usedSlots s ∧ 1 <= i <= last ∧ (∀ j, 1 <= j < i → j ∈ usedSlots s)
      ∧ s' = s <| usedSlots := {[i]} ∪ usedSlots s |>
  | Ret (s', None) => s' = s ∧ ∀ j, 1 <= j <= last → j ∈ usedSlots s
  | _ => False
  end.
Proof.
  intros Hw Ho Hr. cbn zeta. destruct (claim_result base ones s Hw Ho Hr) as ([i|] & -> & Hc); [|done].
  by destruct Hc as (? & ? & ?).
Qed.

(** The last slot given out, which [GetClientSlots] does not count, has the
    broadcast address of the network. *)
Theorem last_slot_is_broadcast `{!CidrSpec} base ones s :
  wf_net base ones → ones <= 30 → ipNet (vpnNet s) = v4_net base ones →
  let last := addresses ones - 2 in
  (∀ j, 1 <= j < last → j ∈ usedSlots s) → last ∉ usedSlots s →
  GetClientSlots (vpnNet s) = Ret (last - 1)
  ∧ claim_slot s = Ret (s <| usedSlots := {[last]} ∪ usedSlots s |>, Some last)
  ∧ ∃ ip, GetIPAt (vpnNet s) (last + 1) = inl ip
      ∧ To4 ip = v4_bytes (base + addresses ones - 1).
Proof.
  intros Hw Ho Hr last Hlow Hfree.
  destruct (max_slot base ones _ Hw Ho Hr) as (slots & E1 & E2 & Ha).
  split_and!.
  - unfold GetClientSlots. rewrite Hr, (count_spec base ones) by done. cbn.
    rewrite u64_small by lia. f_equal. unfold last. lia.
  - destruct (claim_result base ones s Hw Ho Hr) as ([i|] & -> & Hc).
    + destruct Hc as (Hi & Hi2 & _). assert (i = last) as ->; [|done].
      destruct (decide (i < last)); [|unfold last in *; lia]. by destruct Hi; apply Hlow; lia.
    + destruct Hfree. apply Hc. unfold last. lia.
  - unfold GetIPAt. rewrite Hr. pose proof (host_spec base ones (last + 1) Hw ltac:(unfold last; lia)) as Hh.
    destruct (cidr_Host _ _) as [ip|e]; [|unfold last in Hh; lia].
    exists ip. split; [done|]. destruct Hh as [_ ->]. f_equal. unfold last. lia.
Qed.

(** *** The end of the server *)

(** The first error is the one that [Serve] returns, and the channel that wakes
    it is closed once. *)
Lemma serve_error_once s e :
  serveErrorChannel s = bool_decide (is_Some (serveError s)) →
  ∃ s', setServeError e s = Ret s'
    ∧ serveErrorChannel s' = bool_decide (is_Some (serveError s'))
    ∧ serveError s' = match serveError s with Some e0 => Some e0 | None => e end.
Proof.
  intros Hc. unfold setServeError. destruct e as [e|].
  - destruct (serveError s) eqn:Es.
    + exists s. split_and!; [done| |done]. by rewrite Es in *.
    + rewrite Hc. simpl. eexists. split; [reflexivity|]. done.
  - exists s. split_and!; [done|done|]. by destruct (serveError s).
Qed.

End Effects.

(** ** Closed instances: a /29 network, and two connections of one user *)

Definition demo_server (limit : Z) : Server :=
  mkServer true (mkVPNNet (IPv4 10 0 0 0) (v4_net 167772160 29) "10.0.0.0/29") false true
    VPNModeTUN (Some (30 * Second, 5 * Second)) false limit MaxConnectionsPerUserKillOldest
    ∅ 1482 1400 None "server" [] ∅ ∅ false None {["fragmentation" := true]}.

Definition demo_sw (limit : Z) : SW recorder unit unit :=
  mkSW (demo_server limit) (mkWorld ∅ {[7%nat := tt]} tt [] [] 0 0) ∅.

Definition ret_of {X} (o : outcome X) (d : X) : X := match o with Ret x => x | _ => d end.

Definition demo1 := ret_of (begin_connection sample_adapter (demo_sw 1)) (demo_sw 1, None).
Definition demo2 := ret_of (begin_connection sample_adapter demo1.1) demo1.
Definition demo3 := ret_of (establish 0 1 (v4_bytes 167772162) "a" "user" (NotOpened errNone) demo2.1)
  (demo2.1, None).
Definition demo4 := ret_of (establish 1 2 (v4_bytes 167772163) "b" "user" (NotOpened errNone) demo3.1)
  (demo3.1, None).

Definition demo_state : sys := mkSys demo4.1 []
  [mkConnection 1 2 None "b" "user" (v4_bytes 167772163);
   mkConnection 0 1 None "a" "user" (v4_bytes 167772162)].

Lemma demo_reachable : rtc sys_step (mkSys (demo_sw 1) [] []) demo_state.
Proof.
  eapply rtc_l; [apply (step_begin sample_adapter _ demo1.1 _ _ demo1.2); vm_compute; reflexivity|].
  eapply rtc_l; [apply (step_begin sample_adapter _ demo2.1 _ _ demo2.2); vm_compute; reflexivity|].
  eapply rtc_l.
  { apply (step_establish demo2.1 demo3.1 [(1%nat, 2, v4_bytes 167772163)] [] 0 1
      (v4_bytes 167772162) "a" "user" (NotOpened errNone) [] demo3.2); vm_compute; reflexivity. }
  eapply rtc_l; [|apply rtc_refl].
  apply (step_establish demo3.1 demo4.1 [] [] 1 2
    (v4_bytes 167772163) "b" "user" (NotOpened errNone) _ demo4.2); vm_compute; reflexivity.
Qed.

Lemma demo_net : wf_net 167772160 29.
Proof. unfold wf_net, addresses. split; [lia|]. split; [lia|reflexivity]. Qed.

Lemma addresses_exclusive_witness :
  let ips := map To4 (map snd (addresses_of (sys_begun demo_state) (sys_live demo_state))) in
  ips = [[10; 0; 0; 3]; [10; 0; 0; 2]]
  ∧ NoDup ips ∧ To4 (GetServerIP (vpnNet (server (sys_sw demo_state)))) ∉ ips
  ∧ v4_bytes 167772160 ∉ ips.
Proof.
  split; [vm_compute; reflexivity|].
  apply (addresses_exclusive 167772160 29 (mkSys (demo_sw 1) [] []));
    [exact demo_net|reflexivity|repeat split|exact demo_reachable].
Defined.


Definition half_full : Server := (demo_server 0) <| usedSlots := {[1; 2; 4]} |>.
Definition nearly_full : Server := (demo_server 0) <| usedSlots := {[1; 2; 3; 4; 5]} |>.

Lemma slot_claim_witness :
  (3 ∉ usedSlots half_full ∧ 1 <= 3 <= 6 ∧ (∀ j, 1 <= j < 3 → j ∈ usedSlots half_full)
   ∧ ret_of (claim_slot half_full) (half_full, None)
     = (half_full <| usedSlots := {[3]} ∪ usedSlots half_full |>, Some 3)).
Proof.
  pose proof (slot_claim 167772160 29 half_full demo_net ltac:(lia) eq_refl) as Hs.
  assert (Hc : claim_slot half_full
    = Ret (half_full <| usedSlots := {[3]} ∪ usedSlots half_full |>, Some 3))
    by (vm_compute; reflexivity).
  rewrite Hc in Hs |- *. destruct Hs as (Hn & Hi & Hj & _). split_and!; try done; lia.
Defined.

Lemma last_slot_is_broadcast_witness :
  let s := nearly_full in
  GetClientSlots (vpnNet s) = Ret 5
  ∧ claim_slot s = Ret (s <| usedSlots := {[6]} ∪ usedSlots s |>, Some 6)
  ∧ ∃ ip, GetIPAt (vpnNet s) 7 = inl ip ∧ To4 ip = [10; 0; 0; 7].
Proof.
  apply (last_slot_is_broadcast 167772160 29 nearly_full);
    [exact demo_net|lia|reflexivity| |vm_compute; intuition discriminate].
  intros j Hj. change (addresses 29 - 2) with 6 in Hj. simpl. set_solver by lia.
Defined.
