(* ===== verification/LeasePool.v ===== *)
(** * The server as a pool of addresses

    What a deployment counts on when it plans a network: an abstract pool that
    leases the client addresses of a network, and the proof that the server of
    Server.v, with its slots, its search and its interleaved connections, is one. *)

From S2P Require Import Prelude Commands Adapter Socket World Lifecycle Net IPText VPNNet Shared.
From S2P Require Import Server ServerState.
Import adapters.

(** ** The specification *)

(** The pool: the addresses that are leased, out of those that can be. *)
Inductive pool_step (usable : gset bytes) : gset bytes → gset bytes → Prop :=
| pool_lease leased ip :
    ip ∈ usable → ip ∉ leased → pool_step usable leased ({[ip]} ∪ leased)
| pool_release leased ip : ip ∈ leased → pool_step usable leased (leased ∖ {[ip]})
| pool_stay leased : pool_step usable leased leased.

(** The addresses of a network other than its own and that of its server. *)
Definition client_addresses (base ones : Z) : gset bytes :=
  list_to_set (map (λ k, v4_bytes (base + k)) (seqZ 2 (addresses ones - 2))).

Lemma client_addresses_spec base ones ip :
  ip ∈ client_addresses base ones ↔ ∃ k, ip = v4_bytes (base + k) ∧ 2 <= k < addresses ones.
Proof.
  unfold client_addresses. rewrite elem_of_list_to_set, list_elem_of_fmap.
  split; intros (k & -> & Hk); exists k; rewrite elem_of_seqZ in *; (split; [done|lia]).
Qed.

(** ** The abstraction *)

Section Pool.
Context {A I E : Type} `{SocketAdapter A} `{WaterInterface I} `{!Unregister E} `{NewRandom}
  `{!World.PacketHandler A I E} `{!ClientHandlers A I E} `{Cidr} `{!CidrSpec}.
Abbreviation state := (sys (A := A) (I := I) (E := E)).

Definition in_use (l : list (Z * netIP)) : gset bytes := list_to_set (map To4 (map snd l)).

(** The addresses that connections hold, whether served yet or not. *)
Definition leased (st : state) : gset bytes := in_use (addresses_of (sys_begun st) (sys_live st)).

Lemma in_use_spec l ip : ip ∈ in_use l ↔ ∃ slot a, (slot, a) ∈ l ∧ ip = To4 a.
Proof.
  unfold in_use. rewrite elem_of_list_to_set, <- list_fmap_compose, list_elem_of_fmap.
  split; [intros ([slot a] & -> & Hin); by exists slot, a|].
  intros (slot & a & Hin & ->). by exists (slot, a).
Qed.

Lemma in_use_perm l l' : l ≡ₚ l' → in_use l = in_use l'.
Proof. intros Hp. unfold in_use. apply leibniz_equiv. by rewrite Hp. Qed.

(** Giving back the address of a slot gives back only that. *)
Lemma in_use_remove base ones s x l :
  wf_net base ones → slots_inv (v4_net base ones) s (x :: l) →
  in_use l = in_use (x :: l) ∖ {[To4 x.2]}.
Proof.
  intros Hw Hinv. destruct x as [slot a]. simpl.
  assert (Hne : To4 a ∉ in_use l).
  { rewrite in_use_spec. intros (slot' & a' & Hin & He).
    destruct (slot_address _ _ _ _ slot a Hw Hinv) as [E1 R1]; [by left|].
    destruct (slot_address _ _ _ _ slot' a' Hw Hinv) as [E2 R2]; [by right|].
    rewrite E1, E2 in He. apply (host_inj base ones) in He; [|done|lia..].
    pose proof (inv_nodup _ _ _ Hinv) as Hd. simpl in Hd. apply NoDup_cons in Hd as [Hd _].
    apply Hd, list_elem_of_fmap. exists (slot', a'). split; [simpl; lia|done]. }
  change (in_use ((slot, a) :: l)) with ({[To4 a]} ∪ in_use l). clear -Hne. set_solver.
Qed.

Lemma drop_step base ones s x l l' :
  wf_net base ones → slots_inv (v4_net base ones) s l → l ≡ₚ x :: l' →
  pool_step (client_addresses base ones) (in_use l) (in_use l').
Proof.
  intros Hw Hinv Hp. rewrite (in_use_perm _ _ Hp).
  rewrite (in_use_remove _ _ s x l' Hw) by by eapply slots_inv_perm.
  apply pool_release. change (in_use (x :: l')) with ({[To4 x.2]} ∪ in_use l'). set_solver.
Qed.

(** Each step of the server is one of the pool. *)
Lemma step_refines base ones st st' :
  wf_net base ones →
  slots_inv (v4_net base ones) (server (sys_sw st)) (addresses_of (sys_begun st) (sys_live st)) →
  sys_step st st' → pool_step (client_addresses base ones) (leased st) (leased st').
Proof.
  intros Hw Hinv Hst. pose proof (slots_step _ _ _ _ Hw Hst Hinv) as Hinv'.
  destruct Hst as [a sw sw' bs cs o Hx|sw sw' b1 b2 sid slot ip id user i cs c Hx
    |sw sw' bs c1 c c2 ok Hx|sw sw' bs c1 c c2 Hx|sw sw' bs cs Hx]; unfold leased; simpl in *.
  - destruct o as [[[sid slot] ip]|]; [|apply pool_stay].
    change (addresses_of ((sid, slot, ip) :: bs) cs)
      with ((slot, ip) :: addresses_of bs cs) in Hinv' |- *.
    destruct (slot_address _ _ _ _ slot ip Hw Hinv') as [Ha Hr]; [by left|].
    pose proof (in_use_remove _ _ _ _ _ Hw Hinv') as He. simpl in He.
    change (in_use ((slot, ip) :: addresses_of bs cs)) with ({[To4 ip]} ∪ in_use (addresses_of bs cs)).
    apply pool_lease; [|rewrite He; clear; set_solver].
    apply client_addresses_spec. exists (slot + 1). split; [done|lia].
  - destruct c as [c|].
    + apply establish_core in Hx as (_ & Hs & _ & Hi & _).
      rewrite (in_use_perm _ (addresses_of (b1 ++ b2) (c :: cs))); [apply pool_stay|].
      rewrite addresses_middle. simpl. rewrite <- Hs, <- Hi.
      symmetry. apply (addresses_middle_live _ []).
    + eapply drop_step; [done|exact Hinv|apply addresses_middle].
  - destruct ok; [apply pool_stay|].
    eapply drop_step; [done|exact Hinv|apply addresses_middle_live].
  - eapply drop_step; [done|exact Hinv|apply addresses_middle_live].
  - apply pool_stay.
Qed.

(** All slots in use are all addresses in use. *)
Lemma exhausted base ones s l :
  wf_net base ones → slots_inv (v4_net base ones) s l →
  (∀ j, 1 <= j <= addresses ones - 2 → j ∈ usedSlots s) → in_use l = client_addresses base ones.
Proof.
  intros Hw Hinv Hall. apply leibniz_equiv. intros ip. rewrite in_use_spec, client_addresses_spec.
  split.
  - intros (slot & a & Hin & ->). destruct (slot_address _ _ _ _ slot a Hw Hinv Hin) as [-> ?].
    by exists (slot + 1).
  - intros (k & -> & Hk). specialize (Hall (k - 1) ltac:(lia)).
    rewrite (inv_used _ _ _ Hinv), elem_of_list_to_set, list_elem_of_fmap in Hall.
    destruct Hall as ([slot a] & He & Hin). simpl in He. exists slot, a. split; [done|].
    destruct (slot_address _ _ _ _ slot a Hw Hinv Hin) as [-> _]. do 2 f_equal. lia.
Qed.

(** A connection is given an address, or there is none left. *)
Lemma begin_total base ones a (sw : SW A I E) l :
  wf_net base ones → ones <= 30 → slots_inv (v4_net base ones) (server sw) l →
  ∃ sw' o, begin_connection a sw = Ret (sw', o)
    ∧ (o = None → in_use l = client_addresses base ones).
Proof.
  intros Hw Ho Hinv. unfold begin_connection.
  set (sid := base.fresh ((dom (socks (world sw)) : gset SocketId) ∪ dom (pending sw))).
  set (s1 := addCloser (AdapterCloser sid) (server sw)).
  assert (Hn : ipNet (vpnNet s1) = v4_net base ones) by apply (inv_net _ _ _ Hinv).
  destruct (claim_result base ones s1 Hw Ho Hn) as (o & Hclaim & Hspec).
  set (sw1 := sw <| pending := <[sid := a]> (pending sw) |>).
  erewrite run_bind; [|reflexivity]. fold sid sw1.
  erewrite (run_bind (upd_server _) _ sw1 (sw1 <| server := s1 |>)) by reflexivity.
  erewrite (run_bind (on_server claim_slot)); [|unfold on_server; simpl; fold s1; rewrite Hclaim; reflexivity].
  destruct o as [slot|].
  - destruct Hspec as (_ & Hr & _). erewrite run_bind; [|reflexivity].
    pose proof (host_spec base ones (slot + 1) Hw ltac:(lia)) as Hh.
    unfold GetIPAt. simpl. rewrite (inv_net _ _ _ Hinv).
    destruct (cidr_Host _ _) as [ip|e]; [|lia]. by eexists _, _.
  - exists (sw1 <| server := s1 |> <| pending := <[sid := (Close a).1]> (pending sw1) |>), None.
    split; [|intros _; by apply (exhausted _ _ (server sw))].
    erewrite run_bind; [reflexivity|]. unfold close_adapter. simpl. rewrite lookup_insert_eq. reflexivity.
Qed.

(** C24. The server is a pool of addresses: whatever connections come
    and go, each step of the server leases one free client address of its
    network, gives one back, or leaves the leases as they are; and a new
    connection is always answered, and turned away only if every client address
    is leased. *)
Theorem server_is_pool base ones (st0 st : state) :
  wf_net base ones → ones <= 30 → ipNet (vpnNet (server (sys_sw st0))) = v4_net base ones →
  sys_start st0 → rtc sys_step st0 st →
  let usable := client_addresses base ones in
  rtc (pool_step usable) ∅ (leased st)
  ∧ (∀ st', sys_step st st' → pool_step usable (leased st) (leased st'))
  ∧ ∀ a, ∃ sw' o, begin_connection a (sys_sw st) = Ret (sw', o)
      ∧ (o = None → leased st = usable).
Proof.
  intros Hw Ho Hn Hstart Hst usable.
  pose proof (slots_reachable base ones _ _ Hw Hn Hstart Hst) as Hinv. split_and!.
  - assert (leased st0 = ∅) as <- by (destruct Hstart as (_ & _ & Hb & Hl); unfold leased; by rewrite Hb, Hl).
    pose proof (slots_reachable base ones _ _ Hw Hn Hstart (rtc_refl _ _)) as Hinv0.
    clear Hinv Hn Hstart. induction Hst as [|x y z Hxy _ IH]; [done|].
    eapply rtc_l; [by eapply step_refines|]. apply IH. by eapply slots_step.
  - intros st' Hs. by eapply step_refines.
  - intros a. by apply begin_total.
Qed.

End Pool.

Lemma server_is_pool_witness :
  leased demo_state = {[[10; 0; 0; 2]; [10; 0; 0; 3]]}
  ∧ client_addresses 167772160 29
    = list_to_set [[10; 0; 0; 2]; [10; 0; 0; 3]; [10; 0; 0; 4]; [10; 0; 0; 5]; [10; 0; 0; 6]; [10; 0; 0; 7]]
  ∧ rtc (pool_step (client_addresses 167772160 29)) ∅ (leased demo_state).
Proof.
  split; [vm_compute; reflexivity|]. split; [vm_compute; reflexivity|].
  apply (server_is_pool 167772160 29 (mkSys (demo_sw 1) [] []));
    [exact demo_net|lia|reflexivity|repeat split|exact demo_reachable].
Defined.
