(* ===== verification/Closers.v ===== *)
(** * The closers a server keeps

    Every connection that was upgraded adds its adapter to the closers of
    src/server/servers/base.go, and only the end of the server takes them out
    again: the list grows with the connections there ever were. *)

From S2P Require Import Prelude Json Commands Adapter Socket World Lifecycle Frame Net IPText VPNNet.
From S2P Require Import Shared Server ServerState.
Import adapters.

Section Closers.
Context {A I E : Type} `{SocketAdapter A} `{WaterInterface I} `{!Unregister E} `{NewRandom}
  `{!World.PacketHandler A I E} `{!ClientHandlers A I E} `{Cidr}.
Implicit Types sw : SW A I E.

Definition keeps_closers (l : list closer) sw : Prop := closers (server sw) = l.

Context (l : list closer).
Abbreviation K := (keeps_closers l).

Lemma held_same {R} (m : prog (SW A I E) R) : server_same m → preserves K m.
Proof. intros Hm sw sw' r Hk Hx. unfold keeps_closers. by rewrite (Hm _ _ _ Hx). Qed.

Lemma held_upd f : (∀ s, closers (f s) = closers s) → preserves K (upd_server f).
Proof.
  intros Hf sw sw' r Hk Hx. unfold keeps_closers. by rewrite (upd_server_inv _ _ _ _ Hx), Hf.
Qed.

Lemma forget_closers clientID user sid s : closers (forget_socket clientID user sid s) = closers s.
Proof. unfold forget_socket. cbv zeta. by repeat case_match. Qed.

Lemma held_lift {R} (m : prog (World A I E) R) : preserves K (lift m).
Proof. apply held_same, same_lift. Qed.
Lemma held_close sid : preserves K (close_adapter sid).
Proof. apply held_same, same_close_adapter. Qed.
Lemma held_forget clientID user sid : preserves K (upd_server (forget_socket clientID user sid)).
Proof. apply held_upd, forget_closers. Qed.
Lemma held_release slot : preserves K (upd_server (release_slot slot)).
Proof. by apply held_upd. Qed.
Hint Resolve held_lift held_close held_forget held_release : frame.

Lemma held_end c entered : preserves K (end_connection c entered).
Proof. unfold end_connection. frame. Qed.

Lemma held_start c : preserves K (start_socket c).
Proof. apply held_same, same_start_socket. Qed.
Lemma held_iface o : preserves K (connection_iface o).
Proof. apply held_same, same_connection_iface. Qed.
Lemma held_make sid user ifc b : preserves K (make_socket sid user ifc b).
Proof. apply held_same, same_make_socket. Qed.
Hint Resolve held_end held_start held_iface held_make : frame.
Hint Extern 1 (preserves _ (upd_server (λ _, _))) => (apply held_upd; intros ?; reflexivity) : frame.

Lemma held_enter sid clientID user : preserves K (enter_socket sid clientID user).
Proof. unfold enter_socket. frame. Qed.
Hint Resolve held_enter : frame.

Lemma held_establish sid slot ip clientID user o : preserves K (establish sid slot ip clientID user o).
Proof. unfold establish. frame. Qed.

Lemma held_init c : preserves K (send_init c).
Proof. unfold send_init. frame. Qed.

Lemma claim_closers s s' o : claim_slot s = Ret (s', o) → closers s' = closers s.
Proof.
  unfold claim_slot. destruct (GetClientSlots (vpnNet s)) as [n| |]; [|done..].
  cbv zeta. unfold mbind at 1, outcome_bind at 1. unfold mbind at 1, outcome_bind at 1.
  destruct (slot_loop _ _ _ _) as [o'| |]; [|done..]. destruct o'; by intros [= <- _].
Qed.

Lemma held_claim : preserves K (on_server claim_slot).
Proof.
  intros sw sw' r Hk. unfold on_server. destruct (claim_slot _) as [[s o]| |] eqn:Ec; [|done..].
  intros [= <- _]. apply claim_closers in Ec. unfold keeps_closers. simpl. by rewrite Ec.
Qed.

End Closers.

Section Growth.
Context {A I E : Type} `{SocketAdapter A} `{WaterInterface I} `{!Unregister E} `{NewRandom}
  `{!World.PacketHandler A I E} `{!ClientHandlers A I E} `{Cidr}.
Implicit Types sw : SW A I E.

Lemma begin_closers a sw sw' o : begin_connection a sw = Ret (sw', o) →
  ∃ sid, closers (server sw') = closers (server sw) ++ [AdapterCloser sid].
Proof.
  intros Hx. unfold begin_connection in Hx.
  apply prog_bind_inv in Hx as (sw1 & sid & [= <- <-] & Hx).
  apply prog_bind_inv in Hx as (sw2 & u & Hadd & Hx). apply upd_server_inv in Hadd.
  eexists. assert (Hk : keeps_closers (closers (server sw2)) sw'); [|rewrite Hk, Hadd; reflexivity].
  revert Hx. match goal with |- ?m sw2 = _ → _ =>
    assert (Hp : preserves (keeps_closers (closers (server sw2))) m) end; [|by apply Hp].
  apply preserves_bind; [apply held_claim|intros slot].
  frame; first [apply held_close|apply held_release].
Qed.

(** The steps of serving connections: no change of settings, and no end of the
    server. *)
Inductive serving_step : SW A I E → SW A I E → Prop :=
| serving_begin a sw sw' o : begin_connection a sw = Ret (sw', o) → serving_step sw sw'
| serving_establish sid slot ip clientID user o sw sw' c :
    establish sid slot ip clientID user o sw = Ret (sw', c) → serving_step sw sw'
| serving_init c sw sw' ok : send_init c sw = Ret (sw', ok) → serving_step sw sw'
| serving_end c sw sw' entered : end_connection c entered sw = Ret (sw', tt) → serving_step sw sw'
| serving_world {R} (m : prog (World A I E) R) sw sw' r : lift m sw = Ret (sw', r) → serving_step sw sw'.

(** While connections come and go, no closer is ever taken out, also not that of
    a connection which ended; and each connection that begins adds one. *)
Lemma closers_only_grow sw sw' :
  rtc serving_step sw sw' →
  closers (server sw) `prefix_of` closers (server sw')
  ∧ (∀ a sw2 o, begin_connection a sw' = Ret (sw2, o) →
       length (closers (server sw2)) = S (length (closers (server sw')))).
Proof.
  intros Hr. split.
  - induction Hr as [sw|sw1 sw2 sw3 Hs _ IH]; [done|]. etrans; [|exact IH]. clear IH.
    destruct Hs as [a sw1 sw2 o Hx|sid slot ip cid user o sw1 sw2 c Hx|c sw1 sw2 ok Hx
      |c sw1 sw2 entered Hx|R m sw1 sw2 r' Hx].
    + apply begin_closers in Hx as [sid ->]. by apply prefix_app_r.
    + by rewrite (held_establish _ _ _ _ _ _ _ sw1 sw2 c eq_refl Hx).
    + by rewrite (held_init _ _ sw1 sw2 ok eq_refl Hx).
    + by rewrite (held_end _ _ _ sw1 sw2 tt eq_refl Hx).
    + by rewrite (held_lift _ _ sw1 sw2 r' eq_refl Hx).
  - intros a sw2 o Hx. apply begin_closers in Hx as [sid ->]. rewrite length_app. simpl. lia.
Qed.
End Growth.
