(* ===== verification/Http.v ===== *)
(** * HTTP as the program uses it

    The parts of the standard library's net/http, net/url, encoding/base64 and
    path that client/clients/auth.go and server/servers call: headers,
    requests, responses, the credentials of a user, cleaned paths. *)

From S2P Require Import Prelude Json Commands Negotiation IPText.
Import negotiation.

Definition header_Set (key value : string) (h : Header) : Header := <[key := [value]]> h.

(** ** Requests and responses *)

(** [r.TLS] is the common names of the peer's certificates, for a TLS
    connection. *)
Record Request := mkRequest {
  Method : string;
  URL_Path : string;
  Proto : string;
  r_header : Header;
  r_TLS : option (list string) }.

#[export] Instance eta_request : Etable Request := λ r,
  mkRequest (Method r) (URL_Path r) (Proto r) (r_header r) (r_TLS r).

(** [w_sent] is the status and the headers as they were sent. *)
Record Response := mkResponse {
  w_header : Header;
  w_sent : option (Z * Header);
  w_body : string }.

#[export] Instance eta_response : Etable Response := λ r,
  mkResponse (w_header r) (w_sent r) (w_body r).

Definition new_response : Response := mkResponse ∅ None EmptyString.

Definition w_set (key value : string) (w : Response) : Response :=
  w <| w_header := header_Set key value (w_header w) |>.
Definition w_add (key value : string) (w : Response) : Response :=
  w <| w_header := header_Add key value (w_header w) |>.
Definition w_del (key : string) (w : Response) : Response :=
  w <| w_header := header_Del key (w_header w) |>.

(** A second call of [WriteHeader] is ignored. *)
Definition WriteHeader (code : Z) (w : Response) : Response :=
  match w_sent w with
  | Some _ => w
  | None => w <| w_sent := Some (code, w_header w) |>
  end.

Definition StatusOK : Z := 200.
Definition StatusBadRequest : Z := 400.
Definition StatusUnauthorized : Z := 401.
Definition StatusForbidden : Z := 403.
Definition StatusNotFound : Z := 404.
Definition StatusMethodNotAllowed : Z := 405.
Definition StatusInternalServerError : Z := 500.

Definition w_write (text : string) (w : Response) : Response :=
  let w := WriteHeader StatusOK w in w <| w_body := w_body w +:+ text |>.

Definition newline : string := String (code_ascii 10) EmptyString.

(** http.Error *)
Definition http_Error (text : string) (code : Z) (w : Response) : Response :=
  let w := w_del "Content-Length" w in
  let w := w_set "Content-Type" "text/plain; charset=utf-8" w in
  let w := w_set "X-Content-Type-Options" "nosniff" w in
  w_write (text +:+ newline) (WriteHeader code w).

(** The status of a response, once there is one. *)
Definition status (w : Response) : option Z := fst <$> w_sent w.

(** [strings.ToUpper] on ASCII. *)
Fixpoint to_upper (s : string) : string :=
  match s with
  | EmptyString => EmptyString
  | String c r => String (commands.upper c) (to_upper r)
  end.

(** ** encoding/base64: StdEncoding *)

Definition enc64 (z : Z) : Ascii.ascii :=
  code_ascii (if z <? 26 then 65 + z else if z <? 52 then 71 + z else if z <? 62 then z - 4
              else if z =? 62 then 43 else 47).

Definition dec64 (c : Ascii.ascii) : option Z :=
  let z := ascii_code c in
  if between 65 z 90 then Some (z - 65)
  else if between 97 z 122 then Some (z - 71)
  else if between 48 z 57 then Some (z + 4)
  else if z =? 43 then Some 62
  else if z =? 47 then Some 63
  else None.

Definition pad : Ascii.ascii := code_ascii 61.

Fixpoint EncodeToString (b : bytes) : string :=
  match b with
  | [] => EmptyString
  | [x] => String (enc64 (x / 4)) (String (enc64 (x mod 4 * 16))
             (String pad (String pad EmptyString)))
  | [x; y] => String (enc64 (x / 4)) (String (enc64 (x mod 4 * 16 + y / 16))
                (String (enc64 (y mod 16 * 4)) (String pad EmptyString)))
  | x :: y :: z :: b =>
      String (enc64 (x / 4)) (String (enc64 (x mod 4 * 16 + y / 16))
        (String (enc64 (y mod 16 * 4 + z / 64)) (String (enc64 (z mod 64))
          (EncodeToString b))))
  end.

(** Line breaks are skipped wherever they are. *)
Fixpoint without_breaks (s : string) : string :=
  match s with
  | EmptyString => EmptyString
  | String c s =>
      if (ascii_code c =? 10) || (ascii_code c =? 13) then without_breaks s
      else String c (without_breaks s)
  end.

(** The quanta of four; bits to spare in the last one are not looked at. *)
Fixpoint decode_quanta (s : string) : option bytes :=
  match s with
  | EmptyString => Some []
  | String a (String b (String c (String d s))) =>
      x ← dec64 a;
      y ← dec64 b;
      if bool_decide (c = pad) then
        if bool_decide (d = pad) && is_empty s then Some [u8 (x * 4 + y / 16)] else None
      else
        z ← dec64 c;
        if bool_decide (d = pad) then
          if is_empty s then Some [u8 (x * 4 + y / 16); u8 (y * 16 + z / 4)] else None
        else
          w ← dec64 d;
          rest ← decode_quanta s;
          Some (u8 (x * 4 + y / 16) :: u8 (y * 16 + z / 4) :: u8 (z * 64 + w) :: rest)
  | _ => None
  end.

Definition DecodeString (s : string) : option bytes := decode_quanta (without_breaks s).

(** ** net/url: the user of a URL *)

Record Userinfo := mkUserinfo { username : string; password : string; passwordSet : bool }.

Definition url_User (u : string) : Userinfo := mkUserinfo u EmptyString false.
Definition url_UserPassword (u p : string) : Userinfo := mkUserinfo u p true.

(** [shouldEscape] in the mode for a user and a password. *)
Definition shouldEscape (c : Ascii.ascii) : bool :=
  let z := ascii_code c in
  negb (between 97 z 122 || between 65 z 90 || between 48 z 57
        || existsb (Z.eqb z) [45; 95; 46; 126]            (* - _ . ~ *)
        || existsb (Z.eqb z) [36; 38; 43; 44; 59; 61]).   (* $ & + , ; = *)

Definition upper_hex (z : Z) : Ascii.ascii := code_ascii (if z <? 10 then 48 + z else 55 + z).

Fixpoint escape (s : string) : string :=
  match s with
  | EmptyString => EmptyString
  | String c s =>
      if shouldEscape c then
        String percent (String (upper_hex (ascii_code c / 16))
          (String (upper_hex (ascii_code c mod 16)) (escape s)))
      else String c (escape s)
  end.

Definition Userinfo_String (u : Userinfo) : string :=
  if bool_decide (username u = EmptyString) && bool_decide (password u = EmptyString)
  then EmptyString
  else if passwordSet u then escape (username u) +:+ ":" +:+ escape (password u)
  else escape (username u).

(** ** net/http: basic authentication *)

(** strings.Cut at a single byte *)
Fixpoint cut (c : Ascii.ascii) (s : string) : option (string * string) :=
  match s with
  | EmptyString => None
  | String d s =>
      if bool_decide (d = c) then Some (EmptyString, s)
      else '(before, after) ← cut c s; Some (String d before, after)
  end.

Definition parseBasicAuth (auth : string) : option (string * string) :=
  let prefix := "Basic "%string in
  let n := String.length prefix in
  if bool_decide (commands.to_lower (String.substring 0 n auth) = commands.to_lower prefix) then
    b ← DecodeString (String.substring n (String.length auth - n) auth);
    cut colon (bytes_to_string b)
  else None.

Definition BasicAuth (r : Request) : option (string * string) :=
  let auth := header_Get (r_header r) "Authorization" in
  if bool_decide (auth = EmptyString) then None else parseBasicAuth auth.

(** ** client/clients/auth.go *)

Definition SetBasicAuthFromUserInfo (userInfo : option Userinfo) (headers : Header) : Header :=
  match userInfo with
  | None => headers
  | Some u =>
      header_Add "Authorization"
        ("Basic " +:+ EncodeToString (string_to_bytes (Userinfo_String u))) headers
  end.

(** ** path: Clean and Join *)

(** The elements kept so far, last first. *)
Definition clean_step (rooted : bool) (out : list string) (e : string) : list string :=
  if bool_decide (e = EmptyString) || bool_decide (e = "."%string) then out
  else if bool_decide (e = ".."%string) then
    match out with
    | x :: r => if bool_decide (x = ".."%string) then e :: out else r
    | [] => if rooted then [] else [e]
    end
  else e :: out.

Definition is_rooted (path : string) : bool :=
  match path with String c _ => bool_decide (c = slash) | EmptyString => false end.

Definition clean_elems (path : string) : list string :=
  rev (foldl (clean_step (is_rooted path)) [] (split_on slash path)).

Definition show_path (rooted : bool) (elems : list string) : string :=
  if rooted then "/" +:+ join "/" elems
  else if bool_decide (elems = []) then "."%string else join "/" elems.

Definition path_Clean (path : string) : string := show_path (is_rooted path) (clean_elems path).

(** [path.Join] of two elements. *)
Definition path_Join (a b : string) : string :=
  if bool_decide (a = EmptyString) && bool_decide (b = EmptyString) then EmptyString
  else if bool_decide (a = EmptyString) then path_Clean b
  else if bool_decide (b = EmptyString) then path_Clean a
  else path_Clean (a +:+ "/" +:+ b).

(** ** Lemmas *)

Lemma dec64_enc64 z : 0 <= z < 64 → dec64 (enc64 z) = Some z.
Proof.
  intros Hz.
  assert (Hx : forallb (λ z, bool_decide (dec64 (enc64 z) = Some z)) (map Z.of_nat (seq 0 64))
    = true) by (vm_compute; reflexivity).
  pose proof (forall_range _ 64 Hx z Hz) as Hy. by apply bool_decide_eq_true in Hy.
Qed.

Lemma enc64_plain z : 0 <= z < 64 →
  enc64 z ≠ pad ∧ (ascii_code (enc64 z) =? 10) || (ascii_code (enc64 z) =? 13) = false.
Proof.
  intros Hz.
  assert (Hx : forallb (λ z, negb (bool_decide (enc64 z = pad))
    && negb ((ascii_code (enc64 z) =? 10) || (ascii_code (enc64 z) =? 13)))
    (map Z.of_nat (seq 0 64)) = true) by (vm_compute; reflexivity).
  pose proof (forall_range _ 64 Hx z Hz) as [Ha Hb]%andb_true_iff.
  apply negb_true_iff in Ha, Hb. by apply bool_decide_eq_false in Ha.
Qed.

(** The first character of two that a byte is split into. *)
Lemma byte_digits x : is_byte x →
  0 <= x / 4 < 64 ∧ 0 <= x mod 4 * 16 < 64 ∧ 0 <= x / 16 < 16 ∧ 0 <= x mod 16 * 4 < 64
  ∧ 0 <= x / 64 < 4 ∧ 0 <= x mod 64 < 64 ∧ 0 <= x mod 4 < 4 ∧ 0 <= x mod 16 < 16.
Proof. unfold is_byte. intros Hx. Z.div_mod_to_equations. lia. Qed.

Lemma join_first x k : is_byte x → 0 <= k < 16 → u8 (x / 4 * 4 + (x mod 4 * 16 + k) / 16) = x.
Proof.
  intros Hx Hk. unfold is_byte in Hx. rewrite Z.add_comm with (n := x mod 4 * 16).
  rewrite Z.div_add, (Z.div_small k) by lia. rewrite u8_small; Z.div_mod_to_equations; lia.
Qed.

Lemma join_second j y k : is_byte y → 0 <= j → 0 <= k < 4 →
  u8 ((j * 16 + y / 16) * 16 + (y mod 16 * 4 + k) / 4) = y.
Proof.
  intros Hy Hj Hk. unfold is_byte in Hy. rewrite Z.add_comm with (n := y mod 16 * 4).
  rewrite Z.div_add, (Z.div_small k) by lia. unfold u8.
  replace ((j * 16 + y / 16) * 16 + (0 + y mod 16)) with (y + j * 2 ^ 8)
    by (Z.div_mod_to_equations; lia).
  rewrite Z.mod_add by lia. by rewrite Z.mod_small.
Qed.

Lemma join_third j z : is_byte z → 0 <= j → u8 ((j * 4 + z / 64) * 64 + z mod 64) = z.
Proof.
  intros Hz Hj. unfold is_byte in Hz. unfold u8.
  replace ((j * 4 + z / 64) * 64 + z mod 64) with (z + j * 2 ^ 8) by (Z.div_mod_to_equations; lia).
  rewrite Z.mod_add by lia. by rewrite Z.mod_small.
Qed.

(** Induction on a list three elements at a time. *)
Lemma list_ind3 {T} (P : list T → Prop) :
  P [] → (∀ x, P [x]) → (∀ x y, P [x; y]) → (∀ x y z l, P l → P (x :: y :: z :: l)) → ∀ l, P l.
Proof.
  intros H0 H1 H2 H3. fix IH 1. intros [|x [|y [|z l]]]; [done|apply H1|apply H2|].
  apply H3, IH.
Qed.

Lemma breaks_enc z s : 0 <= z < 64 →
  without_breaks (String (enc64 z) s) = String (enc64 z) (without_breaks s).
Proof. intros Hz. cbn [without_breaks]. by rewrite (proj2 (enc64_plain z Hz)). Qed.

Lemma not_pad z : 0 <= z < 64 → bool_decide (enc64 z = pad) = false.
Proof. intros Hz. apply bool_decide_eq_false_2, enc64_plain, Hz. Qed.

Lemma without_breaks_encoded b :
  Forall is_byte b → without_breaks (EncodeToString b) = EncodeToString b.
Proof.
  induction b as [|x|x y|x y z b IH] using list_ind3; intros Hb; [done|..];
    repeat match goal with H : Forall _ (_ :: _) |- _ => inversion_clear H end;
    repeat match goal with H : is_byte _ |- _ => pose proof (byte_digits _ H); clear H end;
    cbn [EncodeToString]; rewrite ?breaks_enc by lia; try done. by rewrite IH.
Qed.

(** Decoding gives back what was encoded. *)
Lemma decode_encode b : Forall is_byte b → DecodeString (EncodeToString b) = Some b.
Proof.
  intros Hb. unfold DecodeString. rewrite without_breaks_encoded by done. revert Hb.
  induction b as [|x|x y|x y z b IH] using list_ind3; intros Hb; [done|..];
    repeat match goal with H : Forall _ (_ :: _) |- _ => inversion_clear H end;
    repeat match goal with H : is_byte _ |- _ => pose proof (byte_digits _ H); revert H end;
    intros; cbn [EncodeToString decode_quanta];
    rewrite ?dec64_enc64 by lia; cbn [mbind option_bind];
    rewrite ?not_pad by lia; rewrite ?dec64_enc64 by lia; cbn [mbind option_bind];
    rewrite ?not_pad by lia; rewrite ?dec64_enc64 by lia; cbn [mbind option_bind].
  - rewrite <- (Z.add_0_r (x mod 4 * 16)), join_first by (done || lia). done.
  - rewrite <- (Z.add_0_r (y mod 16 * 4)), join_first, join_second by (done || lia). done.
  - rewrite IH by done. cbn [mbind option_bind].
    by rewrite join_first, join_second, join_third by (done || lia).
Qed.

(** ** Credentials *)

Lemma substring_whole s : String.substring 0 (String.length s) s = s.
Proof. induction s as [|c s IH]; simpl; congruence. Qed.

Lemma parse_basic_auth s :
  parseBasicAuth ("Basic " +:+ s) = (b ← DecodeString s; cut colon (bytes_to_string b)).
Proof.
  unfold parseBasicAuth. cbn [String.length String.append String.substring Nat.sub].
  rewrite Nat.sub_0_r, substring_whole. rewrite bool_decide_eq_true_2; [done|]. by destruct s.
Qed.

Lemma cut_app c s rest :
  string_all (λ d, negb (bool_decide (d = c))) s = true →
  cut c (s +:+ String c rest) = Some (s, rest).
Proof.
  induction s as [|d s IH]; simpl; [by rewrite bool_decide_eq_true_2|].
  intros [Hd Hs]%andb_true_iff. apply negb_true_iff in Hd. by rewrite Hd, IH.
Qed.

Lemma cut_none c s : string_all (λ d, negb (bool_decide (d = c))) s = true → cut c s = None.
Proof.
  induction s as [|d s IH]; simpl; [done|].
  intros [Hd Hs]%andb_true_iff. apply negb_true_iff in Hd. by rewrite Hd, IH.
Qed.

(** A test on every character, decided by running it on each. *)
Lemma forall_ascii (P : Ascii.ascii → bool) :
  forallb (λ z, P (code_ascii z)) (map Z.of_nat (seq 0 256)) = true → ∀ c, P c = true.
Proof.
  intros Hp c. pose proof (forall_range _ 256 Hp _ (ascii_code_range c)) as H.
  cbv beta in H. by rewrite code_ascii_code in H.
Qed.

Lemma escaped_char c : let no_colon d := negb (bool_decide (d = colon)) in
  (shouldEscape c || no_colon c)
  && no_colon (upper_hex (ascii_code c / 16)) && no_colon (upper_hex (ascii_code c mod 16)) = true.
Proof. revert c. apply forall_ascii. vm_compute. reflexivity. Qed.

(** What is escaped has no colon left in it. *)
Lemma escape_no_colon s : string_all (λ d, negb (bool_decide (d = colon))) (escape s) = true.
Proof.
  induction s as [|c s IH]; [done|]. cbn [escape].
  pose proof (escaped_char c) as [[Hc H1]%andb_true_iff H2]%andb_true_iff.
  destruct (shouldEscape c); cbn [string_all].
  - by rewrite H1, H2, IH.
  - simpl in Hc. by rewrite Hc, IH.
Qed.

Lemma escape_length s : (String.length s <= String.length (escape s))%nat.
Proof. induction s as [|c s IH]; cbn [escape]; [done|]. destruct (shouldEscape c); simpl; lia. Qed.

Definition plain (s : string) : bool := string_all (λ c, negb (shouldEscape c)) s.

(** Escaping leaves a text alone exactly if no character of it needs it. *)
Lemma escape_plain s : escape s = s ↔ plain s = true.
Proof.
  induction s as [|c s IH]; [done|]. cbn [escape plain string_all]. fold (plain s).
  destruct (shouldEscape c); cbn [negb andb].
  - split; [|done]. intros E%(f_equal String.length).
    pose proof (escape_length s). simpl in E. lia.
  - rewrite <- IH. split; [by intros [= E]|congruence].
Qed.

(** The header that a client sends, as the server reads it. *)
Lemma basic_auth_sent (h : Header) (r : Request) info :
  h !! "Authorization"%string = None →
  BasicAuth (r <| r_header := SetBasicAuthFromUserInfo (Some info) h |>)
  = cut colon (Userinfo_String info).
Proof.
  intros Hh.
  transitivity (parseBasicAuth ("Basic " +:+ EncodeToString (string_to_bytes (Userinfo_String info)))).
  { unfold BasicAuth, SetBasicAuthFromUserInfo, header_Get, header_Add. cbn [upd_field].
    simpl r_header. by rewrite lookup_insert_eq, Hh. }
  rewrite parse_basic_auth.
  rewrite decode_encode by apply string_to_bytes_range. cbn [mbind option_bind].
  by rewrite bytes_to_string_to_bytes.
Qed.

Lemma user_password_text u p : u ≠ EmptyString ∨ p ≠ EmptyString →
  Userinfo_String (url_UserPassword u p) = escape u +:+ String colon (escape p).
Proof.
  unfold Userinfo_String, url_UserPassword. simpl. by destruct u, p; intros [?|?].
Qed.

Lemma user_text u : Userinfo_String (url_User u) = escape u.
Proof. unfold Userinfo_String, url_User. simpl. by destruct u. Qed.

(** C35. A client whose configured headers have no Authorization and that
    sets it from a user and a password, not both empty, is seen by the server as
    that user and password with the characters percent-encoded that a URL would
    encode: as exactly those if and only if neither has such a character.  From a
    user alone, without a password, the server reads no credentials. *)
Theorem credentials_arrive (h : Header) (r : Request) u p :
  h !! "Authorization"%string = None → u ≠ EmptyString ∨ p ≠ EmptyString →
  let with_user info := r <| r_header := SetBasicAuthFromUserInfo (Some info) h |> in
  BasicAuth (with_user (url_UserPassword u p)) = Some (escape u, escape p)
  ∧ (BasicAuth (with_user (url_UserPassword u p)) = Some (u, p)
     ↔ plain u = true ∧ plain p = true)
  ∧ BasicAuth (with_user (url_User u)) = None.
Proof.
  intros Hh Hne with_user.
  assert (E : BasicAuth (with_user (url_UserPassword u p)) = Some (escape u, escape p)).
  { unfold with_user. rewrite basic_auth_sent, user_password_text by done. apply cut_app, escape_no_colon. }
  split_and!; [done| |].
  - rewrite E, <- !escape_plain. clear. split; [by intros [= -> ->]|by intros [-> ->]].
  - unfold with_user. rewrite basic_auth_sent by done. apply cut_none. rewrite user_text.
    apply escape_no_colon.
Qed.

Lemma credentials_arrive_witness :
  let r := mkRequest "GET" "/" "HTTP/1.1" ∅ None in
  let with_user info := r <| r_header := SetBasicAuthFromUserInfo (Some info) ∅ |> in
  BasicAuth (with_user (url_UserPassword "ann" "p@ss")) = Some ("ann"%string, "p%40ss"%string).
Proof.
  intros r with_user.
  assert (Hne : "ann"%string ≠ EmptyString) by discriminate.
  exact (proj1 (credentials_arrive ∅ r "ann" "p@ss" eq_refl (or_introl Hne))).
Defined.

(** ** Cleaned paths *)

(** An element that names something below where it is used. *)
Definition ordinary (e : string) : Prop :=
  e ≠ EmptyString ∧ e ≠ "."%string ∧ e ≠ ".."%string
  ∧ string_all (λ c, negb (bool_decide (c = slash))) e = true.

Lemma split_on_elems sep s :
  Forall (λ e, string_all (λ c, negb (bool_decide (c = sep))) e = true) (split_on sep s).
Proof.
  induction s as [|c s IH]; simpl; [by repeat constructor|].
  case_bool_decide as Hc; [by constructor|].
  inversion IH as [E|e es He Hes E]; constructor; simpl; rewrite ?bool_decide_eq_false_2 by done;
    done.
Qed.

Lemma split_on_cat sep a b :
  split_on sep (a +:+ String sep b) = split_on sep a ++ split_on sep b.
Proof.
  induction a as [|c a IH]; simpl; [by rewrite bool_decide_eq_true_2|].
  rewrite IH. case_bool_decide; [done|].
  destruct (split_on sep a) eqn:E; [|done]. by destruct a; simpl in E; [|repeat case_match].
Qed.

Lemma split_on_join es :
  Forall ordinary es → es ≠ [] → split_on slash (join "/" es) = es.
Proof.
  induction 1 as [|e es (_ & _ & _ & He) Hes IH]; [done|]. intros _.
  destruct es as [|e' es]; [by apply split_on_whole|].
  change (join "/" (e :: e' :: es)) with (e +:+ String slash (join "/" (e' :: es))).
  by rewrite split_on_app, IH.
Qed.

Lemma clean_step_ordinary rooted out e : ordinary e → clean_step rooted out e = e :: out.
Proof. intros (He & Hd & Hdd & _). unfold clean_step. by rewrite !bool_decide_eq_false_2. Qed.

Lemma clean_ordinary rooted es out :
  Forall ordinary es → foldl (clean_step rooted) out es = rev es ++ out.
Proof.
  intros Hes. revert out. induction Hes as [|e es He Hes IH]; intros out; [done|].
  cbn [foldl rev]. by rewrite clean_step_ordinary, IH, <- app_assoc.
Qed.

(** In a rooted path no element leads upwards. *)
Lemma clean_rooted es out :
  Forall (λ e, string_all (λ c, negb (bool_decide (c = slash))) e = true) es →
  Forall ordinary out → Forall ordinary (foldl (clean_step true) out es).
Proof.
  intros Hes. revert out. induction Hes as [|e es He Hes IH]; intros out Hout; [done|].
  cbn [foldl]. apply IH. unfold clean_step.
  destruct (bool_decide (e = EmptyString)) eqn:E1; simpl; [done|].
  destruct (bool_decide (e = "."%string)) eqn:E2; simpl; [done|].
  apply bool_decide_eq_false in E1, E2. case_bool_decide as E3.
  - inversion Hout as [|x r Hx Hr]; [done|]. subst.
    rewrite bool_decide_eq_false_2; [done|apply Hx].
  - by constructor.
Qed.

Lemma clean_elems_rooted p : is_rooted p = true → Forall ordinary (clean_elems p).
Proof.
  intros Hp. unfold clean_elems. rewrite Hp. apply Forall_rev.
  apply clean_rooted; [apply split_on_elems|done].
Qed.

Lemma split_root_join es : Forall ordinary es → ∀ out rooted,
  foldl (clean_step rooted) out (split_on slash ("/" +:+ join "/" es)) = rev es ++ out.
Proof.
  intros Hes out rooted. change ("/" +:+ join "/" es) with (EmptyString +:+ String slash (join "/" es)).
  rewrite split_on_app by done. cbn [foldl].
  change (clean_step rooted out EmptyString) with out.
  destruct es as [|e es]; [done|]. rewrite split_on_join by done. by apply clean_ordinary.
Qed.

(** Joining a cleaned rooted path to a directory stays below the directory. *)
Lemma join_inside d p : d ≠ EmptyString → is_rooted p = true →
  path_Join d (path_Clean p) = show_path (is_rooted d) (clean_elems d ++ clean_elems p).
Proof.
  intros Hd Hp.
  assert (HC : path_Clean p = "/" +:+ join "/" (clean_elems p)) by (unfold path_Clean; by rewrite Hp).
  unfold path_Join. rewrite HC, (bool_decide_eq_false_2 (d = _)) by done. cbn [andb].
  rewrite bool_decide_eq_false_2 by done.
  set (es := clean_elems p).
  assert (Hes : Forall ordinary es) by by apply clean_elems_rooted.
  assert (Hr : is_rooted (d +:+ "/" +:+ "/" +:+ join "/" es) = is_rooted d) by by destruct d.
  unfold path_Clean. rewrite Hr. f_equal. unfold clean_elems at 1. rewrite Hr.
  change ("/" +:+ "/" +:+ join "/" es) with (String slash ("/" +:+ join "/" es)).
  rewrite split_on_cat, foldl_app, split_root_join by done.
  by rewrite rev_app_distr, rev_involutive.
Qed.
