(* ===== verification/Upgraders.v ===== *)
(** * Making adapters: the server's upgraders and the client's connectors

    server/upgraders and client/connectors: how a request becomes an adapter on
    the server, and how the client dials one.  gobwas/ws, quic-go,
    webtransport-go and x/net/proxy are classes. *)

From S2P Require Import Prelude Commands Negotiation Http.
From S2P Require WebSocket WebTransport.
Import commands negotiation.

(** ** Upgraders *)

(** server/upgraders/base.go: the methods that the server's handler calls, over
    the process's registry of serializations. *)
Class SocketUpgrader (U A : Type) := {
  Matches : U → Request → bool;
  Upgrade : U → Response → Request → SerState → SerState * Response * (A + error);
  SetHeaders : Header → U → U }.

(** The third-party upgrades: the response they write, and the connection. *)
Class HTTPUpgrade (C : Type) :=
  ws_http_Upgrade : Header → Request → Response → Response * (C + error).
Class SessionUpgrade (C : Type) :=
  wt_server_Upgrade : Request → Response → Response * (C + error).

(** The upgraders there are; the first keeps the headers it is given. *)
Inductive upgrader : Type :=
| WebSocketUpgrader (headers : Header)
| WebTransportUpgrader.

Definition NewWebSocketUpgrader : upgrader := WebSocketUpgrader ∅.

(** server/upgraders/webtransport.go *)
Definition WebTransportUpgrader_SetHeaders (headers : Header) : upgrader := WebTransportUpgrader.
Definition WebTransportUpgrader_Matches (r : Request) : bool :=
  bool_decide (Proto r = "webtransport"%string).

Definition upgrader_SetHeaders (headers : Header) (u : upgrader) : upgrader :=
  match u with
  | WebSocketUpgrader _ => WebSocketUpgrader headers
  | WebTransportUpgrader => WebTransportUpgrader_SetHeaders headers
  end.

(** The WebSocket upgrader has no server of its own. *)
Definition WebSocketUpgrader_ListenAndServe : option error := None.
Definition WebSocketUpgrader_Close : option error := None.

Definition upgrader_Matches (u : upgrader) (r : Request) : bool :=
  match u with
  | WebSocketUpgrader _ => bool_decide (header_Get (r_header r) "Upgrade" = "websocket"%string)
  | WebTransportUpgrader => WebTransportUpgrader_Matches r
  end.

(** An adapter of either kind. *)
Abbreviation adapter_of C D :=
  (WebSocket.WebSocketAdapter C + WebTransport.WebTransportAdapter D)%type.

Section Upgrade.
Context {C D : Type} `{HTTPUpgrade C} `{SessionUpgrade D}.

Definition WebSocketUpgrader_Upgrade (headers : Header) (w : Response) (r : Request) (st : SerState)
    : SerState * Response * (WebSocket.WebSocketAdapter C + error) :=
  let '(st, header, stype) := handleHTTPSerializationHeaders (w_header w) (r_header r) st in
  let '(w, conn) := ws_http_Upgrade headers r (w <| w_header := header |>) in
  (st, w, match conn with
          | inr err => inr err
          | inl conn => inl (WebSocket.NewWebSocketAdapter conn stype true WebSocket.NoReader)
          end).

Definition WebTransportUpgrader_Upgrade (w : Response) (r : Request) (st : SerState)
    : SerState * Response * (WebTransport.WebTransportAdapter D + error) :=
  let '(st, header, stype) := handleHTTPSerializationHeaders (w_header w) (r_header r) st in
  let '(w, conn) := wt_server_Upgrade r (w <| w_header := header |>) in
  (st, w, match conn with
          | inr err => inr err
          | inl conn => inl (WebTransport.NewWebTransportAdapter conn stype true)
          end).

Definition upgrader_Upgrade (u : upgrader) (w : Response) (r : Request) (st : SerState)
    : SerState * Response * (adapter_of C D + error) :=
  match u with
  | WebSocketUpgrader headers =>
      let '(st, w, a) := WebSocketUpgrader_Upgrade headers w r st in
      (st, w, match a with inl a => inl (inl a) | inr err => inr err end)
  | WebTransportUpgrader =>
      let '(st, w, a) := WebTransportUpgrader_Upgrade w r st in
      (st, w, match a with inl a => inl (inr a) | inr err => inr err end)
  end.

#[export] Instance upgrader_upgrader : SocketUpgrader upgrader (adapter_of C D) := {
  Matches := upgrader_Matches;
  Upgrade := upgrader_Upgrade;
  SetHeaders := upgrader_SetHeaders }.

(** The loop of [serveSocket] over the upgraders: the first that matches is
    asked, and no other. *)
Fixpoint upgrade_loop {U A} `{SocketUpgrader U A} (us : list U) (w : Response) (r : Request)
    (st : SerState) : SerState * Response * option (A + error) :=
  match us with
  | [] => (st, w, None)
  | u :: us =>
      if Matches u r then
        let '(st, w, adapter) := Upgrade u w r st in (st, w, Some adapter)
      else upgrade_loop us w r st
  end.

End Upgrade.

(** ** Connectors *)

(** The parts of a [url.URL] that the program looks at. *)
Record URL := mkURL { Scheme : string; User : option Userinfo; url_rest : string }.

#[export] Instance eta_url : Etable URL := λ r, mkURL (Scheme r) (User r) (url_rest r).

(** What a connector learns from the client.  [T] is the type of TLS
    configurations, which pass through to the third-party dialers. *)
Record ConnectorConfig (T : Type) := mkConnectorConfig {
  GetProxyURL : option URL;
  GetTLSConfig : T;
  GetHeaders : Header;
  GetServerURL : URL;
  GetDialer : bool }.

Arguments mkConnectorConfig {T}. Arguments GetProxyURL {T}. Arguments GetTLSConfig {T}.
Arguments GetHeaders {T}. Arguments GetServerURL {T}. Arguments GetDialer {T}.

(** Through what [ws.Dialer] opens its connection. *)
Inductive NetDial : Type := DialDirect | DialProxy (proxy : URL) | DialEnhanced.

Class WSDialer (C T : Type) := {
  proxy_FromURL : URL → option error;
  ws_Dial : NetDial → T → Header → URL → (C * WebSocket.first_frame * list (string * string)) + error }.

(** [config.EnhanceConn]: the firewall mark, set by the operating system. *)
Class EnhanceConn (C : Type) := enhance_conn : C → C * option error.

Class WTDialer (D T Q : Type) := {
  ResolveUDPAddr : string → string + error;
  ListenUDP : Q + error;
  udp_Close : Q → Q;
  quic_DialEarly : Q → string → T → Q + error;
  wt_Dial : (string → T → Q + error) → T → Header → URL → (D * Header) + error }.

Section Connect.
Context {C D Q T : Type} `{WebSocket.WSConn C} `{WSDialer C T} `{!EnhanceConn C} `{!EnhanceConn Q}
  `{WTDialer D T Q}.

(** The headers of the response, collected by [OnHeader]. *)
Definition collect_headers (l : list (string * string)) : Header :=
  foldl (λ h '(key, value), header_Add key value h) ∅ l.

Definition WebSocketConnector_Dial (config : ConnectorConfig T) (st : SerState)
    : SerState * (WebSocket.WebSocketAdapter C + error) :=
  let dial :=
    match GetProxyURL config with
    | Some proxyURL =>
        match proxy_FromURL proxyURL with
        | Some err => inr err
        | None => inl (DialProxy proxyURL)
        end
    | None => inl (if GetDialer config then DialEnhanced else DialDirect)
    end in
  match dial with
  | inr err => (st, inr err)
  | inl dial =>
      let headers := addSupportedSerializationHeader st (GetHeaders config) in
      match ws_Dial dial (GetTLSConfig config) headers (GetServerURL config) with
      | inr err => (st, inr err)
      | inl (conn, reader, respHeaders) =>
          let '(conn, err) := if GetDialer config then (conn, None) else enhance_conn conn in
          match err with
          | Some err => let '(_, _) := WebSocket.conn_Close conn in (st, inr err)
          | None =>
              let '(st, stype) := readSerializationType (collect_headers respHeaders) st in
              (st, inl (WebSocket.NewWebSocketAdapter conn stype false reader))
          end
      end
  end.

Definition WebSocketConnector_GetSchemes : list string := ["ws"; "wss"]%string.

(** [quicDialerHelper]: the third-party dialer calls it with the address. *)
Definition DialEarly (addr : string) (tlsCfg : T) : Q + error :=
  match ResolveUDPAddr addr with
  | inr err => inr err
  | inl udpAddr =>
      match ListenUDP with
      | inr err => inr err
      | inl udpConn =>
          match enhance_conn udpConn with
          | (udpConn, Some err) => let _ := udp_Close udpConn in inr err
          | (udpConn, None) => quic_DialEarly udpConn udpAddr tlsCfg
          end
      end
  end.

Definition WebTransportConnector_Dial (config : ConnectorConfig T) (st : SerState)
    : SerState * (WebTransport.WebTransportAdapter D + error) :=
  let serverURL := (GetServerURL config) <| Scheme := "https"%string |> in
  match GetProxyURL config with
  | Some _ => (st, inr (ErrText "proxy is not supported for WebTransport at the moment"))
  | None =>
      let headers := addSupportedSerializationHeader st (GetHeaders config) in
      match wt_Dial DialEarly (GetTLSConfig config) headers serverURL with
      | inr err => (st, inr err)
      | inl (conn, header) =>
          let '(st, stype) := readSerializationType header st in
          (st, inl (WebTransport.NewWebTransportAdapter conn stype false))
      end
  end.

Definition WebTransportConnector_GetSchemes : list string := ["webtransport"]%string.

(** ** The client's choice of a connector *)

Inductive connector : Type := WebSocketConnector | WebTransportConnector.

Definition GetSchemes (c : connector) : list string :=
  match c with
  | WebSocketConnector => WebSocketConnector_GetSchemes
  | WebTransportConnector => WebTransportConnector_GetSchemes
  end.

Definition registerConnector (c : connector) (m : gmap string connector) : gmap string connector :=
  foldl (λ m scheme, <[scheme := c]> m) m (GetSchemes c).

Definition RegisterDefaultConnectors (m : gmap string connector) : gmap string connector :=
  registerConnector WebTransportConnector (registerConnector WebSocketConnector m).

Definition Dial (c : connector) (config : ConnectorConfig T) (st : SerState)
    : SerState * (adapter_of C D + error) :=
  match c with
  | WebSocketConnector =>
      let '(st, a) := WebSocketConnector_Dial config st in
      (st, match a with inl a => inl (inl a) | inr err => inr err end)
  | WebTransportConnector =>
      let '(st, a) := WebTransportConnector_Dial config st in
      (st, match a with inl a => inl (inr a) | inr err => inr err end)
  end.

Definition connectAdapter (connectors : gmap string connector) (config : ConnectorConfig T)
    (st : SerState) : SerState * (adapter_of C D + error) :=
  let scheme := to_lower (Scheme (GetServerURL config)) in
  match connectors !! scheme with
  | None => (st, inr (ErrText ("invalid protocol: " +:+ scheme)))
  | Some c => Dial c config st
  end.

End Connect.
