(* ===== verification/Auth.v ===== *)
(** * Who may connect

    server/authenticators and server/servers/auth.go, web.go and the part of
    sockets.go that routes a request: the authenticators, pre-authorization by
    token, and what a request is let through to. *)

From S2P Require Import Prelude Json Commands Negotiation IPText Http Upgraders.
Import negotiation.

(** ** Authenticators *)

Inductive AuthResult : Type := AuthOk | AuthFailedDefault | AuthFailedCustom.

(** github.com/tg123/go-htpasswd *)
Class Htpasswd (F : Type) := {
  htpasswd_New : string → F + error;
  htpasswd_Match : F → string → string → bool }.

(** layeh.com/radius: packets, and the answer of the server to one, its code. *)
Class Radius (K : Type) := {
  radius_New : string → K;
  UserName_SetString : K → string → K + error;
  UserPassword_SetString : K → string → K + error;
  radius_Exchange : K → string → Z + error }.

Definition CodeAccessAccept : Z := 2.
Definition CodeAccessReject : Z := 3.
Definition CodeAccessChallenge : Z := 11.

(** The YAML file of the radius authenticator: its server and its secret. *)
Class RadiusConfig := radius_Decode : string → (string * string) + error.

Inductive authenticator (F : Type) : Type :=
| AllowAllAuthenticator
| HtpasswdAuthenticator (authFile : F)
| RadiusAuthenticator (Server Secret : string).

Arguments AllowAllAuthenticator {F}. Arguments HtpasswdAuthenticator {F}.
Arguments RadiusAuthenticator {F}.

Section Authenticators.
Context {F K : Type} `{Htpasswd F} `{Radius K} `{RadiusConfig}.

(** The method [Load] of each. *)
Definition allow_all_Load (configFile : string) : authenticator F + error :=
  inl AllowAllAuthenticator.

Definition htpasswd_Load (configFile : string) : authenticator F + error :=
  let configFile := if bool_decide (configFile = EmptyString) then "htpasswd"%string else configFile in
  match htpasswd_New configFile with
  | inl f => inl (HtpasswdAuthenticator f)
  | inr err => inr err
  end.

(** Opening the file and decoding it are one method of the class. *)
Definition radius_Load (configFile : string) : authenticator F + error :=
  match radius_Decode configFile with
  | inl (server, secret) => inl (RadiusAuthenticator server secret)
  | inr err => inr err
  end.

(** The choice by name, and loading the file. *)
Definition LoadAuthenticator (type configFile : string) : authenticator F + error :=
  let type := commands.to_lower type in
  if bool_decide (type = "allow-all"%string) then allow_all_Load configFile
  else if bool_decide (type = "htpasswd"%string) then htpasswd_Load configFile
  else if bool_decide (type = "radius"%string) then radius_Load configFile
  else inr (ErrText "invalid authenticator selected").

Definition respondWWWAuthenticateBasic (w : Response) : Response :=
  w_add "Www-Authenticate" "Basic" w.

Definition radius_Authenticate (server secret : string) (r : Request) (w : Response)
    : Response * AuthResult * string :=
  let refuse := (respondWWWAuthenticateBasic w, AuthFailedDefault, EmptyString) in
  match BasicAuth r with
  | None => refuse
  | Some (username, password) =>
      match UserName_SetString (radius_New secret) username with
      | inr _ => refuse
      | inl packet =>
          match UserPassword_SetString packet password with
          | inr _ => refuse
          | inl packet =>
              match radius_Exchange packet server with
              | inr _ =>
                  (http_Error "Internal server error" StatusInternalServerError w,
                   AuthFailedCustom, EmptyString)
              | inl code =>
                  if code =? CodeAccessChallenge then
                    (http_Error "Access challenge not implemented" StatusUnauthorized w,
                     AuthFailedCustom, EmptyString)
                  else if negb (code =? CodeAccessAccept) then refuse
                  else (w, AuthOk, username)
              end
          end
      end
  end.

Definition allow_all_Authenticate (r : Request) (w : Response) : Response * AuthResult * string :=
  (w, AuthOk, EmptyString).

Definition Authenticate (a : authenticator F) (r : Request) (w : Response)
    : Response * AuthResult * string :=
  match a with
  | AllowAllAuthenticator => allow_all_Authenticate r w
  | HtpasswdAuthenticator authFile =>
      match BasicAuth r with
      | None => (respondWWWAuthenticateBasic w, AuthFailedDefault, EmptyString)
      | Some (username, password) =>
          if negb (htpasswd_Match authFile username password)
          then (respondWWWAuthenticateBasic w, AuthFailedDefault, EmptyString)
          else (w, AuthOk, username)
      end
  | RadiusAuthenticator server secret => radius_Authenticate server secret r w
  end.

End Authenticators.

(** ** The fields of the server that decide about access *)

(** [TLSConfig] is its [ClientAuth], [headers] those the server adds to every
    response. *)
Record Access (F U : Type) := mkAccess {
  TLSConfig : option Z;
  Authenticator : authenticator F;
  PreauthorizeSecret : string;
  WebsiteDirectory : string;
  APIEnabled : bool;
  APIUsers : gmap string bool;
  headers : Header;
  upgraders : list U }.

Arguments mkAccess {F U}. Arguments TLSConfig {F U}. Arguments Authenticator {F U}.
Arguments PreauthorizeSecret {F U}. Arguments WebsiteDirectory {F U}.
Arguments APIEnabled {F U}. Arguments APIUsers {F U}. Arguments headers {F U}.
Arguments upgraders {F U}.

#[export] Instance eta_access {F U} : Etable (Access F U) := λ r,
  mkAccess (TLSConfig r) (Authenticator r) (PreauthorizeSecret r) (WebsiteDirectory r)
    (APIEnabled r) (APIUsers r) (headers r) (upgraders r).

Definition RequireAndVerifyClientCert : Z := 4.

(** ** Tokens: github.com/golang-jwt/jwt *)

(** Times are nanoseconds; a [NumericDate] has the precision of a second. *)
Class JWT (Cl : Type) := {
  jwt_ParseWithClaims : Z → string → string → Cl + error;
  jwt_GetSubject : Cl → string + error;
  jwt_NewNumericDate : Z → Z;
  jwt_SignedString : string → Z → string → string + error }.

Definition second : Z := 1000000000.

(** Its documented behaviour: what is signed is read back under the same secret
    before it expires, and refused from then on. *)
Class JWTSpec (Cl : Type) `{JWT Cl} := {
  date_precision t : t - second < jwt_NewNumericDate t <= t;
  sign_parse subject expires secret token now :
    jwt_SignedString subject expires secret = inl token → now < expires →
    ∃ c, jwt_ParseWithClaims now secret token = inl c ∧ jwt_GetSubject c = inl subject;
  sign_expired subject expires secret token now :
    jwt_SignedString subject expires secret = inl token → expires <= now →
    ∃ err, jwt_ParseWithClaims now secret token = inr err }.

Definition rootRoutePreauthorize : string := "/preauthorize".
Definition prefixRoutePreauthorize : string := "/preauthorize/".

(** strings.HasPrefix *)
Definition HasPrefix (s prefix : string) : bool := String.prefix prefix s.

Section Auth.
Context {F K Cl U A : Type} `{Htpasswd F} `{Radius K} `{JWT Cl} `{SocketUpgrader U A}.
Implicit Types s : Access F U.

(** [tlsState.PeerCertificates[0].Subject.CommonName] *)
Definition tls_username (tlsState : option (list string)) : string :=
  match tlsState with Some (name :: _) => name | _ => EmptyString end.

Definition handleSocketAuth s (w : Response) (r : Request) (tlsState : option (list string))
    : Response * bool * string :=
  let tlsUsername := tls_username tlsState in
  if bool_decide (TLSConfig s = Some RequireAndVerifyClientCert) && is_empty tlsUsername then
    (http_Error "Mutual TLS required but no certificate given" StatusUnauthorized w, false, EmptyString)
  else
    let '(w, authResult, authUsername) := Authenticate (Authenticator s) r w in
    match authResult with
    | AuthFailedDefault => (http_Error "Unauthorized" StatusUnauthorized w, false, EmptyString)
    | AuthFailedCustom => (w, false, EmptyString)
    | AuthOk =>
        if negb (is_empty authUsername) && negb (is_empty tlsUsername)
           && negb (bool_decide (authUsername = tlsUsername)) then
          (http_Error "Mismatch between MTLS CN and authenticator username" StatusUnauthorized w,
           false, EmptyString)
        else if is_empty authUsername then (w, true, tlsUsername)
        else (w, true, authUsername)
    end.

Record preauthorizeResponse := mkPreauthorize { Success : bool; Token : string }.

(** [json.Marshal] does not fail on this struct. *)
Definition sendPreauthorizedResponse (w : Response) (resp : preauthorizeResponse) : Response :=
  let d := print_json (JObj [("success"%string, JBool (Success resp));
                             ("token"%string, JStr (Token resp))]) in
  w_write d (WriteHeader StatusOK (w_set "Content-Type" "application/json" w)).

Definition handlePreauthorizeToken (now : Z) s (w : Response) (token : string)
    : Response * bool * string :=
  match jwt_ParseWithClaims now (PreauthorizeSecret s) token with
  | inr _ => (http_Error "Failed to parse JWT" StatusBadRequest w, false, EmptyString)
  | inl jwtToken =>
      match jwt_GetSubject jwtToken with
      | inr _ => (http_Error "Failed to read JWT" StatusBadRequest w, false, EmptyString)
      | inl subject => (w, true, subject)
      end
  end.

Definition handlePreauthorize (now : Z) s (w : Response) (r : Request)
    (tlsState : option (list string)) : Response :=
  if bool_decide (Method r = "OPTIONS"%string) then
    let w := w_set "Access-Control-Allow-Origin" "*" w in
    let w := w_set "Access-Control-Allow-Methods" "POST" w in
    let w := w_set "Access-Control-Allow-Headers" "Content-Type, Content-Length, Authorization" w in
    let w := w_set "Access-Control-Allow-Credentials" "true" w in
    w_write "OK" w
  else if negb (bool_decide (Method r = "POST"%string)) then
    http_Error "Method not allowed" StatusMethodNotAllowed w
  else if is_empty (PreauthorizeSecret s) then
    http_Error "Preauthorization is not enabled" StatusForbidden w
  else
    let '(w, authOk, authUsername) := handleSocketAuth s w r tlsState in
    if negb authOk then w
    else if is_empty authUsername then sendPreauthorizedResponse w (mkPreauthorize true EmptyString)
    else
      match jwt_SignedString authUsername (jwt_NewNumericDate (now + 60 * second))
              (PreauthorizeSecret s) with
      | inr _ => http_Error "Failed to sign JWT" StatusInternalServerError w
      | inl signedToken => sendPreauthorizedResponse w (mkPreauthorize true signedToken)
      end.

(** ** Routing a request: sockets.go and web.go *)

(** What a request is let through to. *)
Inductive served (A : Type) : Type :=
| Answered
| ServeFile (file : string)
| ServeAPI (username : string)
| Connected (clientID username : string) (adapter : A).

Arguments Answered {A}. Arguments ServeFile {A}. Arguments ServeAPI {A}. Arguments Connected {A}.

Definition add_headers (h : Header) (w : Response) : Response :=
  map_fold (λ key values w, foldl (λ w value, w_add key value w) w values) w h.

Definition serveHTTP s (w : Response) (r : Request) (username : string) : Response * served A :=
  if HasPrefix (URL_Path r) "/api" then (w, ServeAPI username)
  else if is_empty (WebsiteDirectory s) then
    (http_Error "Website not enabled" StatusNotFound w, Answered)
  else
    let method := to_upper (Method r) in
    if negb (bool_decide (method = "GET"%string)) && negb (bool_decide (method = "HEAD"%string)) then
      (http_Error "Only GET and HEAD are allowed" StatusBadRequest w, Answered)
    else (w, ServeFile (path_Join (WebsiteDirectory s) (path_Clean (URL_Path r)))).

(** Who asks: by the token in the path, or by the authenticator. *)
Definition authenticate_request (now : Z) s (w : Response) (r : Request)
    : Response * bool * string :=
  if negb (is_empty (PreauthorizeSecret s)) && HasPrefix (URL_Path r) prefixRoutePreauthorize then
    let n := String.length prefixRoutePreauthorize in
    handlePreauthorizeToken now s w
      (String.substring n (String.length (URL_Path r) - n) (URL_Path r))
  else handleSocketAuth s w r (r_TLS r).

(** The head of [serveSocket], up to the adapter. *)
Definition route_request (now : Z) s (clientID : string + error) (w : Response) (r : Request)
    (st : commands.SerState) : commands.SerState * Response * served A :=
  match clientID with
  | inr _ => (st, http_Error "Error creating client ID" StatusInternalServerError w, Answered)
  | inl clientID =>
      let w := add_headers (headers s) w in
      if bool_decide (URL_Path r = rootRoutePreauthorize) then
        (st, handlePreauthorize now s w r (r_TLS r), Answered)
      else
        let '(w, authOk, authUsername) := authenticate_request now s w r in
        if negb authOk then (st, w, Answered)
        else
          let '(st, w, adapter) := upgrade_loop (upgraders s) w r st in
          match adapter with
          | None => let '(w, v) := serveHTTP s w r authUsername in (st, w, v)
          | Some (inr _) => (st, w, Answered)
          | Some (inl a) => (st, w, Connected clientID authUsername a)
          end
  end.

End Auth.

Arguments Answered {A}. Arguments ServeFile {A}. Arguments ServeAPI {A}. Arguments Connected {A}.
