(* ===== verification/AuthSpec.v ===== *)
(** * The access policy

    What the routing of a request promises: an abstract policy that says which
    user a request is entitled to act as, independently of the order in which
    the code looks, and the theorems that the code implements it. *)

From S2P Require Import Prelude Json Commands Negotiation IPText Http Upgraders Auth.
Import negotiation.

Section Policy.
Context {F K Cl U A : Type} `{Htpasswd F} `{Radius K} `{JWT Cl} `{SocketUpgrader U A}.
Implicit Types s : Access F U.

(** The authenticator takes the request for one of user [name]. *)
Inductive accepts (r : Request) : authenticator F → string → Prop :=
| accepts_all : accepts r AllowAllAuthenticator EmptyString
| accepts_htpasswd f name pass :
    BasicAuth r = Some (name, pass) → htpasswd_Match f name pass = true →
    accepts r (HtpasswdAuthenticator f) name
| accepts_radius server secret name pass k1 k2 :
    BasicAuth r = Some (name, pass) →
    UserName_SetString (radius_New secret) name = inl k1 →
    UserPassword_SetString k1 pass = inl k2 →
    radius_Exchange k2 server = inl CodeAccessAccept →
    accepts r (RadiusAuthenticator server secret) name.

(** The user by certificate and authenticator: they must not name two. *)
Definition agreed (cert name user : string) : Prop :=
  (name = EmptyString ∧ user = cert) ∨ (cert = EmptyString ∧ user = name)
  ∨ (name = cert ∧ user = name).

Inductive entitled (now : Z) s (r : Request) : string → Prop :=
| entitled_token token c user :
    PreauthorizeSecret s ≠ EmptyString →
    URL_Path r = prefixRoutePreauthorize +:+ token →
    jwt_ParseWithClaims now (PreauthorizeSecret s) token = inl c →
    jwt_GetSubject c = inl user →
    entitled now s r user
| entitled_challenge name user :
    PreauthorizeSecret s = EmptyString
    ∨ (∀ token, URL_Path r ≠ prefixRoutePreauthorize +:+ token) →
    (TLSConfig s = Some RequireAndVerifyClientCert → tls_username (r_TLS r) ≠ EmptyString) →
    accepts r (Authenticator s) name →
    agreed (tls_username (r_TLS r)) name user →
    entitled now s r user.

(** What a request let through acts as. *)
Inductive acts_as : served A → string → Prop :=
| acts_connected id user a : acts_as (Connected id user a) user
| acts_api user : acts_as (ServeAPI user) user.

Lemma is_empty_true x : is_empty x = true ↔ x = EmptyString.
Proof. by destruct x. Qed.
Lemma is_empty_false x : is_empty x = false ↔ x ≠ EmptyString.
Proof. by destruct x. Qed.

(** What an authenticator answers to a request, on every branch. *)
Definition authenticator_verdict (r : Request) (a : authenticator F) (w w' : Response)
    (res : AuthResult) (name : string) : Prop :=
  (res = AuthOk → w' = w ∧ accepts r a name)
  ∧ (∀ name', accepts r a name' → res = AuthOk ∧ name' = name)
  ∧ (w_sent w = None → res = AuthFailedDefault → w_sent w' = None)
  ∧ (w_sent w = None → res = AuthFailedCustom → status w' = Some 401 ∨ status w' = Some 500).

Lemma http_Error_status text code w : w_sent w = None → status (http_Error text code w) = Some code.
Proof.
  intros Hw. unfold status, http_Error, w_write, WriteHeader, w_set, w_del.
  cbn [upd_field]. simpl. by rewrite Hw.
Qed.

Lemma Authenticate_spec (a : authenticator F) r w w' res name :
  Authenticate a r w = (w', res, name) → authenticator_verdict r a w w' res name.
Proof.
  unfold Authenticate, allow_all_Authenticate, radius_Authenticate. intros E.
  assert (Hacc : ∀ name', accepts r a name' → (w', res, name) = (w, AuthOk, name')).
  { intros name' Ha. rewrite <- E. destruct Ha as [|f n p HB HM|srv sec n p k1 k2 HB HR1 HR2 HR3];
      rewrite ?HB, ?HM, ?HR1, ?HR2, ?HR3; done. }
  split_and!; [|intros ? [= -> -> ->]%Hacc; done|..]; clear Hacc;
    repeat (case_match; simplify_eq/=; try done).
  all: try (intros; (left; apply http_Error_status; done) || (right; apply http_Error_status; done)).
  all: intros _; split; [done|]; bool_lia; subst; econstructor; eauto.
Qed.

(** The decision on certificate and authenticator. *)
Definition challenge_ok s r (name user : string) : Prop :=
  (TLSConfig s = Some RequireAndVerifyClientCert → tls_username (r_TLS r) ≠ EmptyString)
  ∧ accepts r (Authenticator s) name ∧ agreed (tls_username (r_TLS r)) name user.

Lemma agreed_user cert name user : agreed cert name user ↔
  (negb (is_empty name) && negb (is_empty cert) && negb (bool_decide (name = cert))) = false
  ∧ user = if is_empty name then cert else name.
Proof.
  unfold agreed. destruct name as [|a name], cert as [|b cert]; simpl; [naive_solver..|].
  case_bool_decide; naive_solver.
Qed.

Lemma handleSocketAuth_spec s w r w' ok user : w_sent w = None →
  handleSocketAuth s w r (r_TLS r) = (w', ok, user) →
  (∀ u, (∃ name, challenge_ok s r name u) ↔ ok = true ∧ u = user)
  ∧ (ok = true → w' = w) ∧ (ok = false → status w' = Some 401 ∨ status w' = Some 500).
Proof.
  intros Hw. unfold handleSocketAuth, challenge_ok.
  destruct (bool_decide _ && is_empty _) eqn:Htls.
  { apply andb_true_iff in Htls as [Ht%bool_decide_eq_true Hn%is_empty_true].
    intros [= <- <- <-]. split_and!; [naive_solver|done|]. left. by apply http_Error_status. }
  assert (Hcert : TLSConfig s = Some RequireAndVerifyClientCert → tls_username (r_TLS r) ≠ EmptyString).
  { intros Ht. rewrite Ht, bool_decide_eq_true_2 in Htls by done. by apply is_empty_false. }
  destruct (Authenticate (Authenticator s) r w) as [[w1 res] name] eqn:EA.
  apply Authenticate_spec in EA as (Hok & Hacc & Hdef & Hcus).
  destruct res; cycle 1.
  { intros [= <- <- <-]. split_and!; [naive_solver|done|]. left. apply http_Error_status; auto. }
  { intros [= <- <- <-]. split_and!; [naive_solver|done|auto]. }
  destruct (Hok eq_refl) as [-> Hname].
  assert (Hiff : ∀ u, (∃ name, challenge_ok s r name u) ↔ agreed (tls_username (r_TLS r)) name u).
  { intros u. split; [|by exists name]. intros (name' & _ & Ha & Hag).
    by destruct (Hacc _ Ha) as [_ ->]. }
  unfold challenge_ok in Hiff. setoid_rewrite Hiff. setoid_rewrite agreed_user.
  destruct (_ && _ && _).
  { intros [= <- <- <-]. split_and!; [naive_solver|done|]. left. by apply http_Error_status. }
  destruct (is_empty name); intros [= <- <- <-]; naive_solver.
Qed.
Lemma prefix_app p x : HasPrefix x p = true ↔ ∃ t, x = p +:+ t.
Proof.
  unfold HasPrefix. revert x. induction p as [|c p IH]; intros x.
  - split; [by exists x|]. by destruct x.
  - destruct x as [|d x]; [by split; [|intros [t ?]]|]. cbn [String.prefix String.append].
    destruct (Ascii.ascii_dec c d) as [<-|Hne]; [|split; [done|by intros [t [= ? ?]]]].
    rewrite IH. split; intros [t E]; exists t; congruence.
Qed.

Lemma substring_after p t :
  String.substring (String.length p) (String.length (p +:+ t) - String.length p) (p +:+ t) = t.
Proof.
  induction p as [|c p IH]; cbn [String.append String.length String.substring].
  - by rewrite Nat.sub_0_r, substring_whole.
  - by rewrite Nat.sub_succ.
Qed.

Lemma append_inj p x y : p +:+ x = p +:+ y → x = y.
Proof. induction p as [|c p IH]; [done|]. intros [= E]. by apply IH. Qed.

Lemma token_spec now s w token w' ok user : w_sent w = None →
  handlePreauthorizeToken now s w token = (w', ok, user) →
  (∀ u, (∃ c, jwt_ParseWithClaims now (PreauthorizeSecret s) token = inl c
              ∧ jwt_GetSubject c = inl u) ↔ ok = true ∧ u = user)
  ∧ (ok = true → w' = w) ∧ (ok = false → status w' = Some 400).
Proof.
  intros Hw. unfold handlePreauthorizeToken.
  destruct (jwt_ParseWithClaims _ _ _) as [c|] eqn:EP; [destruct (jwt_GetSubject c) eqn:ES|];
    intros [= <- <- <-].
  - split_and!; [|done|done]. intros u. split; [intros (? & [= <-] & E); split; congruence|].
    intros [_ ->]. by exists c.
  - split_and!; [|done|intros _; by apply http_Error_status]. intros u.
    split; [intros (? & [= <-] & E); congruence|by intros [? _]].
  - split_and!; [|done|intros _; by apply http_Error_status]. intros u.
    split; [by intros (? & ? & _)|by intros [? _]].
Qed.

(** Whoever the request is found to come from is whom it is entitled to be. *)
Lemma authenticate_request_spec now s w r w' ok user : w_sent w = None →
  authenticate_request now s w r = (w', ok, user) →
  (∀ u, entitled now s r u ↔ ok = true ∧ u = user)
  ∧ (ok = true → w' = w)
  ∧ (ok = false → status w' = Some 400 ∨ status w' = Some 401 ∨ status w' = Some 500).
Proof.
  intros Hw. unfold authenticate_request.
  destruct (is_empty (PreauthorizeSecret s)) eqn:Hsec; cbn [andb negb].
  2: destruct (HasPrefix _ _) eqn:Hpre.
  - intros E%handleSocketAuth_spec; [|done]. destruct E as (Hiff & Hok & Hno).
    apply is_empty_true in Hsec. split_and!; [|done|naive_solver]. intros u. rewrite <- Hiff.
    split; [intros [|name user' _ Ht Ha Hag]; [done|by exists name]|].
    intros (name & Ht & Ha & Hag). eapply entitled_challenge; eauto.
  - apply prefix_app in Hpre as [token Hp]. apply is_empty_false in Hsec.
    cbv zeta. rewrite Hp, substring_after. intros E. pose proof (token_spec _ _ _ _ _ _ _ Hw E) as (Hiff & Hok & Hno).
    split_and!; [|done|naive_solver]. intros u. rewrite <- Hiff.
    split; [|intros (c & HP & HS); by eapply entitled_token].
    intros [token' c u' _ Hp' HP HS|name u' [?|Hn] _ _ _]; [|done|by destruct (Hn token)].
    rewrite Hp in Hp'. apply append_inj in Hp' as <-. by exists c.
  - intros E%handleSocketAuth_spec; [|done]. destruct E as (Hiff & Hok & Hno).
    split_and!; [|done|naive_solver]. intros u. rewrite <- Hiff.
    assert (Hp : ∀ token, URL_Path r ≠ prefixRoutePreauthorize +:+ token).
    { intros token E. apply not_true_iff_false in Hpre. apply Hpre, prefix_app. by exists token. }
    split; [intros [|name user' _ Ht Ha Hag]; [naive_solver|by exists name]|].
    intros (name & Ht & Ha & Hag). eapply entitled_challenge; eauto.
Qed.
Lemma add_headers_sent h w : w_sent (add_headers h w) = w_sent w.
Proof.
  unfold add_headers. apply (map_fold_weak_ind (λ w' _, w_sent w' = w_sent w)); [done|].
  intros key values m w' _ <-. revert w'. induction values as [|v l IH]; intros w'; [done|].
  simpl. by rewrite IH.
Qed.

Lemma serveHTTP_user s w r user w' v u :
  serveHTTP s w r user = (w', v) → acts_as v u → u = user.
Proof.
  unfold serveHTTP. intros E Hu.
  destruct (HasPrefix _ _); [injection E as <- <-; inversion Hu; congruence|].
  destruct (is_empty _); [injection E as <- <-; inversion Hu; congruence|].
  destruct (_ && _); injection E as <- <-; inversion Hu; congruence.
Qed.


(** C32. A user who passes the authentication of a pre-authorization request is
    answered with a token; whoever presents the token in the path within 59
    seconds is that user, whatever else is in the request, and a minute later
    the token is refused. *)
Theorem token_lets_in `{!JWTSpec Cl} now s r w name user token :
  Method r = "POST"%string → PreauthorizeSecret s ≠ EmptyString → w_sent w = None →
  challenge_ok s r name user → user ≠ EmptyString →
  jwt_SignedString user (jwt_NewNumericDate (now + 60 * second)) (PreauthorizeSecret s) = inl token →
  handlePreauthorize now s w r (r_TLS r) = sendPreauthorizedResponse w (mkPreauthorize true token)
  ∧ ∀ later r' w', w_sent w' = None → URL_Path r' = prefixRoutePreauthorize +:+ token →
    (later + second <= now + 60 * second → authenticate_request later s w' r' = (w', true, user))
    ∧ (now + 60 * second <= later →
       ∃ w'', authenticate_request later s w' r' = (w'', false, EmptyString)
              ∧ status w'' = Some StatusBadRequest).
Proof.
  intros HM Hsec Hw Hch Hu Hsign. pose proof (date_precision (now + 60 * second)) as Hdate.
  split.
  - unfold handlePreauthorize. rewrite HM. rewrite bool_decide_eq_false_2 by done.
    rewrite bool_decide_eq_true_2 by done. cbn [negb].
    rewrite (proj2 (is_empty_false _) Hsec).
    destruct (handleSocketAuth s w r (r_TLS r)) as [[w1 ok] u] eqn:E.
    apply handleSocketAuth_spec in E as (Hiff & Hok & _); [|done].
    destruct (proj1 (Hiff user) (ex_intro _ name Hch)) as [-> <-].
    destruct (Hok eq_refl). cbn [negb]. by rewrite (proj2 (is_empty_false _) Hu), Hsign.
  - intros later r' w' Hw' Hp. unfold authenticate_request.
    rewrite (proj2 (is_empty_false _) Hsec), Hp. cbn [negb andb].
    rewrite (proj2 (prefix_app _ _)) by by exists token.
    cbv zeta. rewrite substring_after. unfold handlePreauthorizeToken. split; intros Hl.
    + destruct (sign_parse _ _ _ _ later Hsign) as (c & -> & ->); [lia|done].
    + destruct (sign_expired _ _ _ _ later Hsign) as [err ->]; [lia|].
      eexists. split; [done|]. by apply http_Error_status.
Qed.

(** C33. The file that a request for the web site is given lies in the
    configured directory: its path is that of the directory followed by names,
    none of which is empty, "." or "..". *)
Theorem website_inside now s r id w st st' w' file :
  is_rooted (URL_Path r) = true →
  route_request now s (inl id) w r st = (st', w', ServeFile file) →
  ∃ names, Forall ordinary names
    ∧ file = show_path (is_rooted (WebsiteDirectory s)) (clean_elems (WebsiteDirectory s) ++ names).
Proof.
  intros Hr. unfold route_request. case_bool_decide; [done|].
  destruct (authenticate_request _ _ _ _) as [[w1 ok] user]. destruct ok; [|done]. cbn [negb].
  destruct (upgrade_loop _ _ _ _) as [[st1 w2] [[a|err]|]]; [done|done|].
  unfold serveHTTP. destruct (HasPrefix _ _); [done|].
  destruct (is_empty (WebsiteDirectory s)) eqn:Hd; [done|]. apply is_empty_false in Hd.
  destruct (_ && _); [done|]. intros [= <- <- <-].
  exists (clean_elems (URL_Path r)). split; [by apply clean_elems_rooted|by apply join_inside].
Qed.
End Policy.
