(* ===== verification/AuthDemo.v ===== *)
(** * The access policy on a closed instance

    A password list, tokens in plain text and an upgrader that takes every
    request: the theorems of AuthSpec.v applied to concrete requests. *)

From Stdlib Require Import DecimalString DecimalZ.
From Stdlib Require Ascii.
From S2P Require Import Prelude Json Commands Negotiation IPText Http Upgraders Auth AuthSpec.
Import negotiation.

(** ** A closed instance *)

(** Passwords as a list, no radius server, and tokens that spell out when they
    expire, their secret and their subject. *)
#[export] Instance list_htpasswd : Htpasswd (list (string * string)) := {
  htpasswd_New _ := inl [];
  htpasswd_Match f name pass := bool_decide ((name, pass) ∈ f) }.

#[export] Instance no_radius : Radius unit := {
  radius_New _ := tt;
  UserName_SetString _ _ := inl tt;
  UserPassword_SetString _ _ := inl tt;
  radius_Exchange _ _ := inr (ErrText "no server") }.

Definition read_int (x : string) : option Z := Z.of_int <$> NilZero.int_of_string x.

#[export] Instance plain_jwt : JWT string := {
  jwt_ParseWithClaims now secret token :=
    match ('(expires, rest) ← cut dot token;
           e ← read_int expires;
           subject ← strip_prefix secret rest;
           if now <? e then Some subject else None) with
    | Some subject => inl subject
    | None => inr (ErrText "invalid token")
    end;
  jwt_GetSubject subject := inl subject;
  jwt_NewNumericDate t := t - t mod second;
  jwt_SignedString subject expires secret :=
    inl (itoa expires +:+ String dot (secret +:+ subject)) }.

Lemma itoa_no_dot z : string_all (λ d, negb (bool_decide (d = dot))) (itoa z) = true.
Proof.
  assert (Hu : ∀ u, string_all (λ d, negb (bool_decide (d = dot))) (NilEmpty.string_of_uint u) = true)
    by (induction u; done).
  unfold itoa, NilZero.string_of_int, NilZero.string_of_uint.
  destruct (Z.to_int z) as [u|u]; [|simpl]; destruct u; try done; apply Hu.
Qed.

Lemma read_itoa z : read_int (itoa z) = Some z.
Proof.
  unfold read_int, itoa. rewrite NilZero.isi; [simpl; by rewrite DecimalZ.of_to|..];
    destruct z; simpl; try done; intros [= E]; by apply to_uint_not_nil in E.
Qed.

Lemma strip_prefix_app p x : strip_prefix p (p +:+ x) = Some x.
Proof. induction p as [|c p IH]; simpl; [done|]. by rewrite Ascii.eqb_refl. Qed.

#[export] Instance plain_jwt_spec : JWTSpec string.
Proof.
  split.
  - intros t. cbn. unfold second. pose proof (Z.mod_pos_bound t 1000000000). lia.
  - intros subject expires secret token now. cbn. intros [= <-] Hlt. exists subject.
    rewrite cut_app by apply itoa_no_dot. cbn. rewrite read_itoa. cbn. rewrite strip_prefix_app. cbn.
    by rewrite (proj2 (Z.ltb_lt _ _)).
  - intros subject expires secret token now. cbn. intros [= <-] Hlt. eexists.
    rewrite cut_app by apply itoa_no_dot. cbn. rewrite read_itoa. cbn. rewrite strip_prefix_app. cbn.
    by rewrite (proj2 (Z.ltb_ge _ _)).
Qed.

(** An upgrader that takes the request if it asks for an upgrade. *)
#[export] Instance demo_upgrader : SocketUpgrader unit nat := {
  Matches _ r := negb (is_empty (header_Get (r_header r) "Upgrade"));
  Upgrade _ w r st := (st, w, inl 7%nat);
  SetHeaders _ u := u }.

Definition demo_access : Access (list (string * string)) unit :=
  mkAccess None (HtpasswdAuthenticator [("ann", "secret")]%string) "key" "/srv/www" true ∅
    (<["Server" := ["wsvpn"]]> ∅)%string [tt].

Definition ann_header : Header :=
  SetBasicAuthFromUserInfo (Some (url_UserPassword "ann" "secret")) (<["Upgrade" := ["websocket"]]> ∅)%string.

Definition demo_request (method path : string) (h : Header) : Request :=
  mkRequest method path "HTTP/1.1" h None.


Lemma token_lets_in_witness :
  let token := "60000000000.keyann"%string in
  let again := demo_request "GET" "/preauthorize/60000000000.keyann" ∅ in
  authenticate_request 59000000000 demo_access new_response again = (new_response, true, "ann"%string).
Proof.
  intros token again.
  assert (HB : BasicAuth (demo_request "POST" "/preauthorize" ann_header)
    = Some ("ann", "secret")%string) by (vm_compute; reflexivity).
  apply (token_lets_in (U := unit) 0 demo_access (demo_request "POST" "/preauthorize" ann_header)
    new_response "ann" "ann" token); try reflexivity; try discriminate; try assumption.
  split; [discriminate|]. split; [|by right; left].
  apply (accepts_htpasswd _ _ _ "secret" HB). vm_compute. reflexivity.
Defined.

Lemma website_inside_witness :
  let r := demo_request "GET" "/a/../../etc/./passwd" (header_Del "Upgrade" ann_header) in
  let x := route_request 0 demo_access (inl "id"%string) new_response r commands.ser_start in
  x.2 = ServeFile "/srv/www/etc/passwd" ∧
  ∃ names, Forall ordinary names
    ∧ "/srv/www/etc/passwd"%string = show_path true (clean_elems "/srv/www" ++ names).
Proof.
  intros r x. split; [vm_compute; reflexivity|].
  apply (website_inside 0 demo_access r "id" new_response commands.ser_start x.1.1 x.1.2);
    [reflexivity|vm_compute; reflexivity].
Defined.
