(* ===== verification/WebAPI.v ===== *)
(** * The administrative API

    server/servers/web_api.go: listing the clients, showing one and closing one. *)

From S2P Require Import Prelude Json Commands Adapter Socket World Lifecycle Net IPText VPNNet Shared Server.
From S2P Require Import ServerState Negotiation Http Upgraders Auth.
From S2P Require Import AuthSpec.
Import adapters negotiation.

(** The addresses of a connection as text. *)
Class Addresses (A : Type) := { LocalAddr : A → string; RemoteAddr : A → string }.

Record SocketStruct := mkSocketStruct {
  s_ClientID : string;
  s_Protocol : string;
  s_VPNIP : string;
  s_LocalAddr : string;
  s_RemoteAddr : string;
  s_Username : string }.

Definition apiRouteClients : string := "clients".

Definition struct_json (d : SocketStruct) : json := JObj
  [("client_id"%string, JStr (s_ClientID d)); ("protocol"%string, JStr (s_Protocol d));
   ("vpn_ip"%string, JStr (s_VPNIP d)); ("local_addr"%string, JStr (s_LocalAddr d));
   ("remote_addr"%string, JStr (s_RemoteAddr d)); ("username"%string, JStr (s_Username d))].

(** [json.Encoder] writes the document and a line break; it does not fail on
    these structs. *)
Definition serveJSON (data : json) (w : Response) : Response :=
  w_write (print_json data +:+ newline) (w_set "Content-Type" "application/json" w).

Section API.
Context {A I E F U : Type} `{SocketAdapter A} `{!Addresses A} `{WaterInterface I} `{!Unregister E}
  `{NewRandom} `{!World.PacketHandler A I E} `{!ClientHandlers A I E} `{Cidr}.
Abbreviation P := (prog (SW A I E)).

Definition socketToJSON (clientID : string) (socket : Socket A) : outcome SocketStruct :=
  match Metadata socket !! "username"%string with
  | None => Panic "interface conversion"
  | Some username =>
      Ret (mkSocketStruct clientID (Name (adapter socket)) (IP_String (AssignedIP socket))
             (LocalAddr (adapter socket)) (RemoteAddr (adapter socket)) username)
  end.

Definition show_socket (clientID : string) (sid : SocketId) : P SocketStruct :=
  k ← lift (sock sid);
  on_server (λ s, d ← socketToJSON clientID k; Ret (s, d)).

(** The loop over the sockets, in the order the map gives them. *)
Fixpoint list_sockets (order : list (string * SocketId)) : P (list SocketStruct) :=
  match order with
  | [] => mret []
  | (clientID, sid) :: order =>
      d ← show_socket clientID sid;
      rest ← list_sockets order;
      mret (d :: rest)
  end.

Definition not_implemented (w : Response) : Response :=
  http_Error "API method not implemented, yet" StatusNotFound w.

(** [/api/clients] *)
Definition api_clients (method : string) (order : list (string * SocketId)) (w : Response)
    : P Response :=
  if negb (bool_decide (method = "GET"%string)) then mret (not_implemented w)
  else
    sockets ← list_sockets order;
    mret (serveJSON (JArr (map struct_json sockets)) w).

(** [/api/clients/ID] *)
Definition api_client (method clientID : string) (w : Response) : P Response :=
  s ← gets server;
  match sockets s !! clientID with
  | None => mret (http_Error "Not found" StatusNotFound w)
  | Some sid =>
      if bool_decide (method = "GET"%string) then
        d ← show_socket clientID sid;
        mret (serveJSON (struct_json d) w)
      else if bool_decide (method = "DELETE"%string) then
        lift (CloseSocket sid);;
        mret (http_Error "OK" StatusOK w)
      else mret (not_implemented w)
  end.

Definition serveAPI (acc : Access F U) (order : list (string * SocketId)) (w : Response)
    (r : Request) (username : string) : P Response :=
  if negb (APIEnabled acc) then mret (http_Error "API not enabled" StatusBadRequest w)
  else if (0 <? Z.of_nat (size (APIUsers acc))) && negb (default false (APIUsers acc !! username))
  then mret (http_Error "API access not allowed" StatusForbidden w)
  else
    match split_on slash (URL_Path r) with
    | [_; _; p2] =>
        if bool_decide (p2 = apiRouteClients) then api_clients (Method r) order w
        else mret (not_implemented w)
    | [_; _; p2; clientID] =>
        if bool_decide (p2 = apiRouteClients) then api_client (Method r) clientID w
        else mret (not_implemented w)
    | _ => mret (not_implemented w)
    end.

(** ** One request, as [serveSocket] handles it

    up to the point where a connection waits to be ready: routing it, the API,
    the slot and the address, the socket. *)

Inductive reply : Type :=
| Response_ (w : Response)
| File (file : string) (w : Response)
| Ended (w : Response)
| Established (c : connection).

Definition serveSocket {K Cl : Type} `{!Htpasswd F} `{!Radius K} `{JWT Cl} `{SocketUpgrader U A}
    (now : Z) (acc : Access F U) (order : list (string * SocketId)) (clientID : string + error)
    (w : Response) (r : Request) (st : commands.SerState) (o : opened I)
    : P (commands.SerState * reply) :=
  let '(st, w, v) := route_request now acc clientID w r st in
  match v with
  | Answered => mret (st, Response_ w)
  | ServeFile file => mret (st, File file w)
  | ServeAPI username => w ← serveAPI acc order w r username; mret (st, Response_ w)
  | Connected clientID username a =>
      b ← begin_connection a;
      match b with
      | None => mret (st, Ended w)
      | Some (sid, slot, ip) =>
          c ← establish sid slot ip clientID username o;
          mret (st, match c with Some c => Established c | None => Ended w end)
      end
  end.

End API.

(** ** What a call of the API can do *)

Section Effect.
Context {A I E F U : Type} `{SocketAdapter A} `{!Addresses A} `{WaterInterface I} `{!Unregister E}
  `{NewRandom} `{!World.PacketHandler A I E} `{!ClientHandlers A I E} `{Cidr}.
Implicit Types (sw : SW A I E) (acc : Access F U).

Definition may_use acc (username : string) : Prop :=
  APIEnabled acc = true ∧ (APIUsers acc = ∅ ∨ APIUsers acc !! username = Some true).

Lemma show_socket_reads clientID sid sw sw' d :
  show_socket clientID sid sw = Ret (sw', d) → sw' = sw.
Proof.
  unfold show_socket, lift, sock, on_server. intros Hs. prog_inv.
  destruct (socks (world sw) !! sid); simplify_eq/=. destruct sw as [s w p]; simpl in *.
  destruct (socketToJSON _ _); by simplify_eq/=.
Qed.

Lemma list_sockets_reads order sw sw' l : list_sockets order sw = Ret (sw', l) → sw' = sw.
Proof.
  revert sw' l. induction order as [|[id sid] order IH]; intros sw' l; cbn [list_sockets]; intros Hl;
    prog_inv; [done|].
  match goal with Hs : show_socket _ _ _ = _ |- _ => apply show_socket_reads in Hs as -> end.
  by eapply IH.
Qed.

Lemma api_clients_reads method order w sw sw' w' :
  api_clients method order w sw = Ret (sw', w') → sw' = sw.
Proof.
  unfold api_clients. destruct (negb _); intros Ha; prog_inv; [done|].
  by eapply list_sockets_reads.
Qed.

(** The one call that changes anything. *)
Definition closes (method id : string) sw sw' : Prop :=
  ∃ sid w1, method = "DELETE"%string ∧ sockets (server sw) !! id = Some sid
    ∧ CloseSocket sid (world sw) = Ret (w1, tt) ∧ sw' = sw <| world := w1 |>.

Lemma api_client_effect method id w sw sw' w' :
  api_client method id w sw = Ret (sw', w') → sw' = sw ∨ closes method id sw sw'.
Proof.
  unfold api_client. intros Ha. prog_inv. destruct (sockets _ !! id) as [sid|] eqn:Hid; [|prog_inv; by left].
  case_bool_decide as HG; [prog_inv; left; by eapply show_socket_reads|].
  case_bool_decide as HD; [|prog_inv; by left]. prog_inv. right.
  match goal with Hc : lift _ _ = _ |- _ => unfold lift in Hc end.
  destruct (CloseSocket sid (world sw)) as [[w1 []]| |] eqn:Hc; simplify_eq/=. by exists sid, w1.
Qed.

Lemma api_gate acc username : let gate := (0 <? Z.of_nat (size (APIUsers acc)))
    && negb (default false (APIUsers acc !! username)) in
  may_use acc username ↔ APIEnabled acc = true ∧ gate = false.
Proof.
  cbv zeta. unfold may_use. rewrite andb_false_iff, Z.ltb_ge, negb_false_iff.
  split; intros [He Hu]; (split; [done|]); destruct Hu as [Hu|Hu].
  - left. by rewrite Hu, map_size_empty.
  - right. by rewrite Hu.
  - left. apply map_size_empty_inv. lia.
  - right. by destruct (APIUsers acc !! username) as [[]|].
Qed.

(** C34. A call of the API changes nothing on the server, except that a DELETE of
    [/api/clients/ID] by a user who may use the API closes the socket of that
    client, and only that; it does so whenever the client is connected.  A user
    who may not use the API is answered with status 400 or 403. *)
Theorem api_effect acc order w r username sw sw' w' :
  w_sent w = None → serveAPI acc order w r username sw = Ret (sw', w') →
  (sw' = sw ∨ may_use acc username ∧ ∃ a b id,
     split_on slash (URL_Path r) = [a; b; apiRouteClients; id] ∧ closes (Method r) id sw sw')
  ∧ (¬ may_use acc username → status w' = Some StatusBadRequest ∨ status w' = Some StatusForbidden)
  ∧ (∀ a b id sid w1, may_use acc username → Method r = "DELETE"%string →
       split_on slash (URL_Path r) = [a; b; apiRouteClients; id] →
       sockets (server sw) !! id = Some sid → CloseSocket sid (world sw) = Ret (w1, tt) →
       sw' = sw <| world := w1 |> ∧ status w' = Some StatusOK).
Proof.
  intros Hw. setoid_rewrite api_gate. unfold serveAPI. destruct (APIEnabled acc); cbn [negb].
  2: { intros Ha. prog_inv. split_and!; [by left|left; by apply http_Error_status|intros ????? [Hg _]; discriminate Hg]. }
  destruct (_ && _).
  { intros Ha. prog_inv. split_and!; [by left|right; by apply http_Error_status|intros ????? [_ Hg]; discriminate Hg]. }
  destruct (split_on slash (URL_Path r)) as [|p0 [|p1 [|p2 [|p3 [|? ?]]]]]; intros Ha.
  all: try (prog_inv; split_and!; [by left|naive_solver|done]).
  - case_bool_decide; prog_inv; (split_and!; [|naive_solver|done]); left; [|done].
    by eapply api_clients_reads.
  - case_bool_decide as Hp; [subst p2|prog_inv; split_and!; [by left|naive_solver|naive_solver]].
    split_and!; [|naive_solver|].
    + apply api_client_effect in Ha as [->|Hc]; [by left|right; naive_solver].
    + intros a b id sid w1 _ HM [= <- <- <-] Hs Hc. unfold api_client in Ha. prog_inv.
      rewrite Hs, HM in Ha. rewrite bool_decide_eq_false_2, bool_decide_eq_true_2 in Ha by done.
      prog_inv. match goal with Hl : lift _ _ = _ |- _ => unfold lift in Hl; rewrite Hc in Hl end.
      simplify_eq. split; [done|]. by apply http_Error_status.
Qed.
End Effect.

(** ** A closed instance *)

#[export] Instance recorder_addresses : Addresses recorder := {
  LocalAddr _ := "local"%string; RemoteAddr _ := "remote"%string }.

Definition api_access : Access unit unit :=
  mkAccess None AllowAllAuthenticator "" "" true {["admin"%string := true]} ∅ [].

Definition api_request (method path : string) : Request := mkRequest method path "HTTP/1.1" ∅ None.

Lemma api_effect_witness :
  let r := api_request "DELETE" "/api/clients/b" in
  let x := ret_of (serveAPI api_access [] new_response r "admin" demo4.1) (demo4.1, new_response) in
  let y := ret_of (CloseSocket 1 (world demo4.1)) (world demo4.1, tt) in
  x.1 = demo4.1 <| world := y.1 |> ∧ status x.2 = Some StatusOK.
Proof.
  intros r x y.
  assert (Hx : serveAPI api_access [] new_response r "admin" demo4.1 = Ret (x.1, x.2))
    by (vm_compute; reflexivity).
  apply (proj2 (api_effect api_access [] new_response r "admin" demo4.1 x.1 x.2 eq_refl Hx))
    with (a := EmptyString) (b := "api"%string) (id := "b"%string) (sid := 1%nat).
  - split; [reflexivity|right; reflexivity].
  - reflexivity.
  - vm_compute. reflexivity.
  - vm_compute. reflexivity.
  - vm_compute. reflexivity.
Defined.
