(* ===== verification/Iface.v ===== *)
(** * The network interface

    shared/iface: the wrapper of a third-party interface and how each platform
    configures it, by the commands that it runs.  What the operating system
    keeps and answers is part of the state of the wrapped interface. *)

From S2P Require Import Prelude Json Adapter Socket World Net IPText VPNNet Shared.

(** ** Programs over one state *)

Definition state (S R : Type) : Type := S → S * R.

#[export] Instance state_ret {S} : MRet (state S) := λ _ r s, (s, r).
#[export] Instance state_bind {S} : MBind (state S) := λ _ _ k m s,
  let '(s, r) := m s in k r s.

Definition state_of {S} : state S S := λ s, (s, s).

(** ** net: networks as text *)

Definition networkNumberAndMask (n : IPNet) : option (netIP * bytes) :=
  let ip4 := To4 (NetIP n) in
  let ip := if Nat.eqb (length ip4) 4 then ip4 else NetIP n in
  if negb (Nat.eqb (length ip) 4) && negb (Nat.eqb (length ip) 16) then None
  else
    let m := NetMask n in
    if Nat.eqb (length m) 4 then if negb (Nat.eqb (length ip) 4) then None else Some (ip, m)
    else if Nat.eqb (length m) 16 then
      Some (ip, if Nat.eqb (length ip) 4 then drop 12 m else m)
    else None.

(** The method [String] of net.IPNet. *)
Definition IPNet_String (n : IPNet) : string :=
  match networkNumberAndMask n with
  | None => "<nil>"
  | Some (nn, m) =>
      IP_String nn +:+ "/" +:+
      match simpleMaskLength m with
      | Some l => itoa l
      | None => join EmptyString (map hex_byte m)
      end
  end.

(** ** shared/iface/config.go *)

Record InterfaceConfig := mkInterfaceConfig {
  if_Name : string;
  Persist : bool;
  ComponentID : string;
  if_OneInterfacePerConnection : bool }.

#[export] Instance eta_ifconfig : Etable InterfaceConfig := λ r,
  mkInterfaceConfig (if_Name r) (Persist r) (ComponentID r) (if_OneInterfacePerConnection r).

(** ** shared/iface/base.go *)

(** What the operating system does for an interface: [Run] of a command, which
    gives an error if it fails, and the index of the interface. *)
Class Platform (I : Type) := {
  Interface_Name : I → string;
  IsTUN : I → bool;
  Cmd_Run : string → list string → state I (option error);
  InterfaceByName : string → state I (Z + error) }.

(** src/shared/util.go: the error that a failed command becomes. *)
Definition command_error (cmd : string) (arg : list string) (err : error) : error :=
  ErrText ("command " +:+ cmd +:+ " " +:+ join " " arg +:+ ": " +:+ error_text err).

Definition ExecCmd {I} `{Platform I} (cmd : string) (arg : list string) : state I (option error) :=
  err ← Cmd_Run cmd arg;
  mret (command_error cmd arg <$> err).

(** [water.FindLowestNetworkInterfaceByPrefix], third-party. *)
Class FindLowest := FindLowestNetworkInterfaceByPrefix : string → string.

Record Wrapper (I : Type) := mkWrapper { Interface : I; netInterface : option Z }.

Arguments mkWrapper {I}. Arguments Interface {I}. Arguments netInterface {I}.

#[export] Instance eta_wrapper {I} : Etable (Wrapper I) := λ r,
  mkWrapper (Interface r) (netInterface r).

Definition NewInterfaceWrapper {I} (iface : I) : Wrapper I := mkWrapper iface None.

Definition getInterfaceNameOrPrefix `{FindLowest} (config : InterfaceConfig) : string :=
  if if_OneInterfacePerConnection config && negb (is_empty (if_Name config))
  then FindLowestNetworkInterfaceByPrefix (if_Name config)
  else if_Name config.

Section Wrapper.
Context {I : Type} `{WaterInterface I} `{Platform I}.
Abbreviation M := (state (Wrapper I)).

(** A call on the wrapped interface. *)
Definition on_interface {R} (f : state I R) : M R := λ w,
  let '(i, r) := f (Interface w) in (w <| Interface := i |>, r).

Definition set_net (n : option Z) : M unit := λ w, (w <| netInterface := n |>, tt).

Definition wrapper_Close : M (option error) := set_net None;; on_interface iface_close.

Definition wrapper_SetMTU (mtu : Z) : M (option error) := on_interface (iface_set_mtu mtu).

#[export] Instance wrapper_interface : WaterInterface (Wrapper I) := {
  iface_write packet := on_interface (iface_write packet);
  iface_close := wrapper_Close;
  iface_set_mtu := wrapper_SetMTU }.

Definition name : M string := λ w, (w, Interface_Name (Interface w)).

Definition GetNetInterface : M (Z + error) :=
  w ← state_of;
  match netInterface w with
  | Some n => mret (inl n)
  | None =>
      r ← on_interface (InterfaceByName (Interface_Name (Interface w)));
      match r with
      | inr err => mret (inr err)
      | inl n => set_net (Some n);; mret (inl n)
      end
  end.

(** The size of the network and the local address with it. *)
Definition splitSubnet (ipNet : option VPNNet) (ipLocal : netIP) : Z * string :=
  let ipNetSize := match ipNet with Some n => GetSize n | None => len ipLocal * 8 end in
  (ipNetSize, IP_String ipLocal +:+ "/" +:+ itoa ipNetSize).

Definition cmd (words : list string) : M (option error) :=
  match words with
  | c :: args => on_interface (ExecCmd c args)
  | [] => mret None
  end.

(** What a platform has of its own. *)
Section Routes.
Variable AddInterfaceRoute : IPNet → M (option error).

Definition addPeerRoute (ipNetSize : Z) (ipPeer : netIP) : M (option error) :=
  let v4 := To4 ipPeer in
  let ipPeer := if Nat.eqb (length v4) 4 then v4 else ipPeer in
  if negb (ipNetSize =? len ipPeer * 8) then mret None
  else AddInterfaceRoute (mkIPNet ipPeer (CIDRMask ipNetSize ipNetSize));; mret None.

(** Failing to add the route is logged, and not an error. *)
Definition addSubnetRoute (ipNetSize : Z) (ipNet : option VPNNet) (ipPeer : netIP)
    : M (option error) :=
  match ipNet with
  | None => addPeerRoute ipNetSize ipPeer
  | Some n => AddInterfaceRoute (GetSubnet n);; mret None
  end.
End Routes.

End Wrapper.

(** What the platform's files set in [water.Config]. *)
Record WaterConfig := mkWaterConfig {
  w_DeviceType : DeviceType;
  w_Name : string;
  w_Persist : bool;
  w_ComponentID : string }.

#[export] Instance eta_waterconfig : Etable WaterConfig := λ r,
  mkWaterConfig (w_DeviceType r) (w_Name r) (w_Persist r) (w_ComponentID r).

Definition set_name `{FindLowest} (ifaceConfig : InterfaceConfig) (config : WaterConfig)
    : WaterConfig :=
  let setName := getInterfaceNameOrPrefix ifaceConfig in
  if is_empty setName then config else config <| w_Name := setName |>.

(** ** shared/iface/ifce_linux.go *)
Module linux.
Section Linux.
Context {I : Type} `{Platform I} `{FindLowest}.
Abbreviation M := (state (Wrapper I)).

Definition AddInterfaceRoute (ipNet : IPNet) : M (option error) :=
  n ← name; cmd ["ip"; "route"; "add"; IPNet_String ipNet; "dev"; n].

Definition AddIPRoute (ipNet : IPNet) (gateway : netIP) : M (option error) :=
  cmd ["ip"; "route"; "add"; IPNet_String ipNet; "via"; IP_String gateway].

(** A nil [ipLocal] is the empty list. *)
Definition Configure (ipLocal : netIP) (ipNet : option VPNNet) (ipPeer : netIP)
    : M (option error) :=
  n ← name;
  err ← cmd ["ip"; "link"; "set"; "dev"; n; "up"];
  match err with
  | Some err => mret (Some err)
  | None =>
      if Nat.eqb (length ipLocal) 0 then mret None
      else
        let '(ipNetSize, ipLocalCidr) := splitSubnet ipNet ipLocal in
        err ← cmd ["ip"; "addr"; "add"; "dev"; n; ipLocalCidr; "peer"; IP_String ipPeer];
        err ← match err with
              | Some _ => cmd ["ip"; "addr"; "add"; "dev"; n; ipLocalCidr]
              | None => mret None
              end;
        match err with
        | Some err => mret (Some err)
        | None => addSubnetRoute AddInterfaceRoute ipNetSize ipNet ipPeer
        end
  end.

Definition GetPlatformSpecifics (ifaceConfig : InterfaceConfig) (config : WaterConfig)
    : WaterConfig * option error :=
  ((set_name ifaceConfig config) <| w_Persist := Persist ifaceConfig |>, None).

Definition VerifyPlatformFlags (ifaceConfig : InterfaceConfig) (mode : VPNMode) : option error :=
  None.

Definition InitializeWater : option error := None.

End Linux.
End linux.

(** ** shared/iface/ifce_darwin.go *)
Module darwin.
Section Darwin.
Context {I : Type} `{Platform I} `{FindLowest}.
Abbreviation M := (state (Wrapper I)).

Definition inetFamily (ip : netIP) : string :=
  if Nat.eqb (length (To4 ip)) 4 then "inet" else "inet6".

Definition AddInterfaceRoute (ipNet : IPNet) : M (option error) :=
  n ← name;
  cmd ["route"; "add"; "-" +:+ inetFamily (NetIP ipNet); "-net"; IPNet_String ipNet; "-interface"; n].

Definition AddIPRoute (ipNet : IPNet) (gateway : netIP) : M (option error) :=
  cmd ["route"; "add"; "-" +:+ inetFamily (NetIP ipNet); "-net"; IPNet_String ipNet; IP_String gateway].

Definition Configure (ipLocal : netIP) (ipNet : option VPNNet) (ipPeer : netIP)
    : M (option error) :=
  n ← name;
  if Nat.eqb (length ipLocal) 0 then cmd ["ifconfig"; n; "up"]
  else
    let '(ipNetSize, ipLocalCidr) := splitSubnet ipNet ipLocal in
    let inetType := inetFamily ipLocal in
    w ← state_of;
    err ← (if IsTUN (Interface w) && bool_decide (inetType = "inet"%string)
           then cmd ["ifconfig"; n; inetType; ipLocalCidr; IP_String ipPeer; "up"]
           else cmd ["ifconfig"; n; inetType; ipLocalCidr; "up"]);
    match err with
    | Some err => mret (Some err)
    | None => addSubnetRoute AddInterfaceRoute ipNetSize ipNet ipPeer
    end.

Definition GetPlatformSpecifics (ifaceConfig : InterfaceConfig) (config : WaterConfig)
    : WaterConfig * option error := (set_name ifaceConfig config, None).

Definition VerifyPlatformFlags (ifaceConfig : InterfaceConfig) (mode : VPNMode) : option error :=
  None.

Definition InitializeWater : option error := None.

End Darwin.
End darwin.

(** ** shared/iface/ifce_windows.go *)
Module windows.
Section Windows.
Context {I : Type} `{Platform I} `{FindLowest}.
Abbreviation M := (state (Wrapper I)).

Definition AddIPRoute (ipNet : IPNet) (gateway : netIP) : M (option error) :=
  r ← GetNetInterface;
  match r with
  | inr err => mret (Some err)
  | inl index => cmd ["route"; "ADD"; IPNet_String ipNet; IP_String gateway; "IF"; itoa index]
  end.

Definition IPv6zero : netIP := replicate 16 0.

Definition AddInterfaceRoute (ipNet : IPNet) : M (option error) :=
  if Nat.eqb (length (To4 (NetIP ipNet))) 4 then AddIPRoute ipNet IPv4zero
  else AddIPRoute ipNet IPv6zero.

Definition Configure (ipLocal : netIP) (ipNet : option VPNNet) (ipPeer : netIP)
    : M (option error) :=
  n ← name;
  if Nat.eqb (length ipLocal) 0 then
    cmd ["netsh"; "interface"; "ip"; "set"; "address"; "source=dhcp"; "name=" +:+ n]
  else
    let v4 := Nat.eqb (length (To4 ipLocal)) 4 in
    let ipLocal := if v4 then To4 ipLocal else ipLocal in
    let '(ipNetSize, _) := splitSubnet ipNet ipLocal in
    err ← (if v4 then
             let ipMaskStr := IPMaskGetNetMask (CIDRMask ipNetSize (len ipLocal * 8)) in
             cmd ["netsh"; "interface"; "ipv4"; "set"; "address"; "store=active"; "source=static";
                  "gateway=none"; "addr=" +:+ IP_String ipLocal; "name=" +:+ n; "mask=" +:+ ipMaskStr]
           else
             cmd ["netsh"; "interface"; "ipv6"; "set"; "address"; "store=active";
                  "addr=" +:+ IP_String ipLocal; "interface=" +:+ n]);
    match err with
    | Some err => mret (Some err)
    | None => addSubnetRoute AddInterfaceRoute ipNetSize ipNet ipPeer
    end.

Definition GetPlatformSpecifics (ifaceConfig : InterfaceConfig) (config : WaterConfig)
    : WaterConfig * option error :=
  ((set_name ifaceConfig config) <| w_ComponentID := ComponentID ifaceConfig |>, None).

Definition VerifyPlatformFlags (ifaceConfig : InterfaceConfig) (mode : VPNMode) : option error :=
  if if_OneInterfacePerConnection ifaceConfig
  then Some (ErrText "windows can not support one-interface-per-connection") else None.

(** [InitializeWater] puts the embedded library next to the executable: the
    path of the executable, and creating and writing a file, are the system's. *)
Class Files (S : Type) := {
  os_Executable : S → string + error;
  filepath_Dir : string → string;
  filepath_Join : string → string → string;
  os_Create : string → state S (option error);
  file_Write : string → bytes → state S (option error) }.

Definition InitializeWater {S} `{Files S} (wintunDll : bytes) : state S (option error) :=
  if len wintunDll <? 1 then mret (Some (ErrText "could not find embedded wintun.dll"))
  else
    s ← state_of;
    match os_Executable s with
    | inr err => mret (Some err)
    | inl execFileName =>
        let path := filepath_Join (filepath_Dir execFileName) "wintun.dll" in
        err ← os_Create path;
        match err with
        | Some err => mret (Some err)
        | None => file_Write path wintunDll
        end
    end.

End Windows.
End windows.

(** ** What the server and the client ask of an interface

    The methods that differ by platform, and opening an interface: the [n]-th
    call of [water.New]. *)
Class Configurable (I : Type) := {
  Configure : netIP → option VPNNet → netIP → I → I * option error;
  AddIPRoute : IPNet → netIP → I → I * option error;
  iface_name : I → string }.

Class NewInterface (I : Type) := water_New : nat → WaterConfig → I + error.

#[export] Instance linux_interface {I} `{Platform I} : Configurable (Wrapper I) := {
  Configure := linux.Configure;
  AddIPRoute := linux.AddIPRoute;
  iface_name w := Interface_Name (Interface w) }.
