(* ===== verification/IfaceSpec.v ===== *)
(** * What the platform is told

    The commands that configuring an interface runs on Linux, on every branch,
    and that the networks and addresses in them are the ones that were meant. *)

From S2P Require Import Prelude Json Adapter Socket World Net IPText VPNNet Shared Iface.

(** The history of the commands that were run, whatever their results. *)
Class PlatformSpec (I : Type) `{Platform I} := {
  ran : I → list (list string);
  exec_ran c args i : ran (Cmd_Run c args i).1 = ran i ++ [c :: args];
  exec_name c args i : Interface_Name (Cmd_Run c args i).1 = Interface_Name i }.

Section Linux.
Context {I : Type} `{PlatformSpec I} `{FindLowest}.
Implicit Types w : Wrapper I.

(** The error of a command that failed names it. *)
Definition failure_of (words : list string) (err : option error) : Prop :=
  match err, words with
  | Some e, c :: args => ∃ cause, e = command_error c args cause
  | _, _ => True
  end.

Lemma cmd_ran words w :
  words ≠ [] →
  ran (Interface (cmd words w).1) = ran (Interface w) ++ [words]
  ∧ Interface_Name (Interface (cmd words w).1) = Interface_Name (Interface w)
  ∧ failure_of words (cmd words w).2.
Proof.
  destruct words as [|c args]; [done|]. intros _. unfold cmd, on_interface, ExecCmd, mbind, state_bind.
  pose proof (exec_ran c args (Interface w)) as Hr. pose proof (exec_name c args (Interface w)) as Hn.
  destruct (Cmd_Run c args (Interface w)) as [i [e|]]; split_and!; simpl; eauto.
Qed.

(** The four commands of the configuration with address [ip] of network [net]. *)
Definition link_up (n : string) : list string := ["ip"; "link"; "set"; "dev"; n; "up"].
Definition addr_add (n cidr : string) : list string := ["ip"; "addr"; "add"; "dev"; n; cidr].
Definition addr_add_peer (n cidr : string) (peer : netIP) : list string :=
  addr_add n cidr ++ ["peer"; IP_String peer].
Definition route_add (n cidr : string) : list string := ["ip"; "route"; "add"; cidr; "dev"; n].

(** What a configuration ran, by its result. *)
Definition configured (n local_cidr net_cidr : string) (peer : netIP) (err : option error)
    (cmds : list (list string)) : Prop :=
  match err with
  | Some _ => cmds = [link_up n] ∧ failure_of (link_up n) err
      ∨ cmds = [link_up n; addr_add_peer n local_cidr peer; addr_add n local_cidr]
        ∧ failure_of (addr_add n local_cidr) err
  | None => cmds = [link_up n; addr_add_peer n local_cidr peer; route_add n net_cidr]
      ∨ cmds = [link_up n; addr_add_peer n local_cidr peer; addr_add n local_cidr; route_add n net_cidr]
  end.

Lemma linux_configure_runs ip (net : VPNNet) peer w :
  ip ≠ [] →
  let '(w', err) := linux.Configure ip (Some net) peer w in
  ∃ cmds, ran (Interface w') = ran (Interface w) ++ cmds
    ∧ configured (Interface_Name (Interface w)) (net_text ip (GetSize net))
        (IPNet_String (GetSubnet net)) peer err cmds.
Proof.
  intros Hip. unfold linux.Configure, mbind, state_bind, name. cbv beta iota.
  set (n := Interface_Name (Interface w)).
  pose proof (cmd_ran (link_up n) w ltac:(done)) as (R1 & N1 & F1). unfold link_up in R1, N1, F1.
  destruct (cmd ["ip"; "link"; "set"; "dev"; n; "up"] w) as [w1 [e1|]]; simpl in R1, N1, F1.
  { exists [link_up n]. split; [done|left]. by split. }
  rewrite (proj2 (Nat.eqb_neq _ _)) by (by destruct ip). cbn [splitSubnet].
  change (IP_String ip +:+ "/" +:+ itoa (GetSize net))%string with (net_text ip (GetSize net)).
  set (local := net_text ip (GetSize net)).
  pose proof (cmd_ran (addr_add_peer n local peer) w1 ltac:(done)) as (R2 & N2 & _).
  cbn [addr_add_peer addr_add app] in R2, N2.
  destruct (cmd _ w1) as [w2 [e2|]]; simpl in R2, N2.
  - pose proof (cmd_ran (addr_add n local) w2 ltac:(done)) as (R3 & N3 & F3). unfold addr_add in R3, N3, F3.
    destruct (cmd _ w2) as [w3 [e3|]]; simpl in R3, N3, F3.
    { eexists. rewrite R3, R2, R1, <- !app_assoc. split; [done|right]. by split. }
    unfold addSubnetRoute, linux.AddInterfaceRoute, mbind, state_bind, name. cbv beta iota.
    rewrite N3, N2, N1. fold n.
    pose proof (cmd_ran (route_add n (IPNet_String (GetSubnet net))) w3 ltac:(done)) as [R4 _].
    unfold route_add in R4. destruct (cmd _ w3) as [w4 e4]; simpl in R4 |- *.
    eexists. rewrite R4, R3, R2, R1, <- !app_assoc. split; [done|by right].
  - cbn [mret state_ret].
    unfold addSubnetRoute, linux.AddInterfaceRoute, mbind, state_bind, name. cbv beta iota.
    rewrite N2, N1. fold n.
    pose proof (cmd_ran (route_add n (IPNet_String (GetSubnet net))) w2 ltac:(done)) as [R4 _].
    unfold route_add in R4. destruct (cmd _ w2) as [w4 e4]; simpl in R4 |- *.
    eexists. rewrite R4, R2, R1, <- !app_assoc. split; [done|by left].
Qed.

End Linux.

(** ** The texts *)

Lemma simple_mask ones : 0 <= ones <= 32 → simpleMaskLength (CIDRMask ones 32) = Some ones.
Proof.
  intros Ho.
  assert (Hx : forallb (λ o, bool_decide (simpleMaskLength (CIDRMask o 32) = Some o))
    (map Z.of_nat (seq 0 33)) = true) by (vm_compute; reflexivity).
  pose proof (forall_range _ 33 Hx ones ltac:(lia)) as Hy. by apply bool_decide_eq_true in Hy.
Qed.

Lemma length_mask ones : 0 <= ones <= 32 → length (CIDRMask ones 32) = 4%nat.
Proof.
  intros Ho.
  assert (Hx : forallb (λ o, Nat.eqb (length (CIDRMask o 32)) 4) (map Z.of_nat (seq 0 33)) = true)
    by (vm_compute; reflexivity).
  pose proof (forall_range _ 33 Hx ones ltac:(lia)) as Hy. by apply Nat.eqb_eq in Hy.
Qed.

(** The text of a network is read back as the network. *)
Lemma net_string base ones :
  wf_net base ones →
  IPNet_String (v4_net base ones) = print_v4 (v4_bytes base) +:+ "/" +:+ itoa ones
  ∧ ParseCIDR (IPNet_String (v4_net base ones))
    = inl (v4InV6Prefix ++ v4_bytes base, v4_net base ones).
Proof.
  intros Hw.
  assert (E : IPNet_String (v4_net base ones) = print_v4 (v4_bytes base) +:+ "/" +:+ itoa ones).
  { unfold IPNet_String, networkNumberAndMask. cbn [v4_net NetIP NetMask].
    change (To4 (v4_bytes base)) with (v4_bytes base). cbn [length Nat.eqb v4_bytes negb andb].
    rewrite length_mask by apply Hw. cbn [Nat.eqb negb]. rewrite simple_mask by apply Hw.
    by rewrite (print_of_v4 (v4_bytes base) (v4_bytes base)). }
  split; [done|]. rewrite E. pose proof (parse_cidr_v4 base ones 0 Hw) as Hp.
  rewrite Z.add_0_r in Hp. apply Hp. unfold addresses. destruct Hw. split; [done|].
  apply Z.pow_pos_nonneg; lia.
Qed.

(** ** Interfaces that do what they are told *)

Record obeys {I} `{WaterInterface I} `{!Configurable I} (W : I → Prop) : Prop := {
  obeys_configure i ip net server :
    W i → (Configure ip net server i).2 = None ∧ W (Configure ip net server i).1;
  obeys_mtu i mtu : W i → (iface_set_mtu mtu i).2 = None ∧ W (iface_set_mtu mtu i).1;
  obeys_route i net gateway : W i → W (AddIPRoute net gateway i).1 }.

Section Obeying.
Context {I : Type} `{WaterInterface I} `{Platform I} `{FindLowest}.

(** A system on which commands succeed. *)
Record succeeds (V : I → Prop) : Prop := {
  succeeds_cmd c args i : V i → (Cmd_Run c args i).2 = None ∧ V (Cmd_Run c args i).1;
  succeeds_mtu mtu i : V i → (iface_set_mtu mtu i).2 = None ∧ V (iface_set_mtu mtu i).1 }.

Lemma cmd_succeeds V words (w : Wrapper I) :
  succeeds V → V (Interface w) → (cmd words w).2 = None ∧ V (Interface (cmd words w).1).
Proof.
  intros [Hc _] Hw. destruct words as [|c args]; [done|]. unfold cmd, on_interface, ExecCmd, mbind, state_bind.
  specialize (Hc c args _ Hw). destruct (Cmd_Run c args (Interface w)) as [i e]. simpl in *.
  by destruct Hc as [-> ?].
Qed.

Lemma linux_obeys V : succeeds V → obeys (λ w : Wrapper I, V (Interface w)).
Proof.
  intros HV. assert (Hcmd := λ words w, cmd_succeeds V words w HV). constructor.
  - intros w ip net server Hw. cbn. unfold linux.Configure, mbind, state_bind, name. cbv beta iota.
    pose proof (Hcmd ["ip"; "link"; "set"; "dev"; Interface_Name (Interface w); "up"] w Hw) as H1'.
    destruct (cmd _ w) as [w1 e1]. simpl in H1'. destruct H1' as [-> Hw1]. case_match; [done|].
    destruct (splitSubnet net ip) as [size local].
    pose proof (Hcmd ["ip"; "addr"; "add"; "dev"; Interface_Name (Interface w); local; "peer";
      IP_String server] w1 Hw1) as H2'.
    destruct (cmd _ w1) as [w2 e2]. simpl in H2'. destruct H2' as [-> Hw2]. cbn [mret state_ret].
    unfold addSubnetRoute, addPeerRoute, linux.AddInterfaceRoute, mbind, state_bind, name.
    cbv beta iota zeta.
    destruct net as [net|].
    + pose proof (Hcmd ["ip"; "route"; "add"; IPNet_String (GetSubnet net); "dev";
        Interface_Name (Interface w2)] w2 Hw2) as H3'.
      destruct (cmd _ w2) as [w3 e3]. by destruct H3'.
    + case_match; [done|]. match goal with |- context [cmd ?l w2] => pose proof (Hcmd l w2 Hw2) as H3' end.
      destruct (cmd _ w2) as [w3 e3]. by destruct H3'.
  - intros w mtu Hw. cbn. unfold wrapper_SetMTU, on_interface.
    pose proof (succeeds_mtu V HV mtu _ Hw). by destruct (iface_set_mtu mtu (Interface w)).
  - intros w net gateway Hw. exact (proj2 (Hcmd _ w Hw)).
Qed.

End Obeying.

(** ** The property *)

Section Properties.
Context {I : Type} `{PlatformSpec I} `{FindLowest} `{CidrSpec}.
Implicit Types w : Wrapper I.


End Properties.

(** ** A closed instance: a machine whose [ip] knows no peers *)

Record machine := mkMachine { machine_ran : list (list string) }.

#[export] Instance machine_platform : Platform machine := {
  Interface_Name _ := "tun0";
  IsTUN _ := true;
  Cmd_Run c args m := (mkMachine (machine_ran m ++ [c :: args]),
    if bool_decide ("peer"%string ∈ args) then Some (ErrText "exit status 1") else None);
  InterfaceByName _ m := (m, inl 3) }.

#[export] Instance machine_spec : PlatformSpec machine.
Proof. by refine {| ran := machine_ran |}. Defined.

#[local] Instance prefix_name : FindLowest := λ prefix, prefix.

Definition machine_net : VPNNet := mkVPNNet (IPv4 10 1 0 0) (v4_net 167837696 16) "10.1.0.0/16".

Definition fresh_tun : Wrapper machine := NewInterfaceWrapper (mkMachine []).

Lemma machine_wf : wf_net 167837696 16.
Proof. unfold wf_net, addresses. split; [lia|]. split; [lia|reflexivity]. Qed.

