(* ===== verification/Serving.v ===== *)
(** * The life of the server process

    server/servers/base.go and listener.go: [Serve], the goroutines that it
    starts, how the first error of one of them ends it, and [Close] from a
    signal.  [setServeError] takes no lock, so its check, its assignment and its
    closing of the channel are separate steps that interleave. *)

From S2P Require Import Prelude Commands Adapter Socket World Lifecycle Negotiation Net IPText VPNNet.
From S2P Require Import Shared Server Http Upgraders Iface.
Import adapters negotiation.

(** ** The goroutines *)

Inductive goroutine : Type :=
| MainIface
| UpgraderServer (u : upgrader)
| HTTPServer (encrypted : bool)
| Waiter
| Shutdown.

(** [serveWaitGroup.Add(1)] before it starts, and [Done] when it ends: the HTTP
    servers never call it. *)
Definition added (k : goroutine) : bool :=
  match k with MainIface | UpgraderServer _ | HTTPServer _ => true | Waiter | Shutdown => false end.
Definition calls_done (k : goroutine) : bool :=
  match k with MainIface | UpgraderServer _ => true | _ => false end.

(** Where it is: before [setServeError], inside it past its two checks, past the
    assignment, past the call, at its end. *)
Inductive gopc : Type :=
| Running
| Checked (e : error)
| Assigned
| Reported
| Ended.

(** ** What [Serve] starts *)

Inductive start : Type :=
| Spawn (k : goroutine)
| AddUpgrader (u : upgrader)
| SetUpgraderHeaders (i : nat) (headers : Header)
| KeepCloser (c : closer)
| SetError (e : error)
| AssignError (e : error)
| CloseErrorChannel.

(** [listenUpgraders], over the upgraders added before it.  Counting a goroutine
    in and starting it are one step, here and below. *)
Definition listenUpgraders (us : list upgrader) (headers : Header) : list start :=
  concat (imap (λ i u, [SetUpgraderHeaders i headers;
                        Spawn (UpgraderServer (upgrader_SetHeaders headers u))]) us).

Definition addUpgrader (u : upgrader) : list start := [AddUpgrader u; KeepCloser ListenerCloser].

Definition listenPlaintext (http3 : bool) (headers : Header) : list start :=
  if http3 then [SetError (ErrText "HTTP/3 requires TLS")]
  else addUpgrader NewWebSocketUpgrader
       ++ listenUpgraders [NewWebSocketUpgrader] headers
       ++ [KeepCloser ListenerCloser; Spawn (HTTPServer false)].

Definition listenEncrypted (http3 : bool) (headers : Header) : list start :=
  (if http3 then addUpgrader WebTransportUpgrader else [])
  ++ [KeepCloser ListenerCloser]
  ++ addUpgrader NewWebSocketUpgrader
  ++ listenUpgraders ((if http3 then [WebTransportUpgrader] else []) ++ [NewWebSocketUpgrader]) headers
  ++ [Spawn (HTTPServer true)].

(** [listen]; [tls] says whether the handshake's configuration is set. *)
Definition listen (http3 tls : bool) (headers : Header) : list start :=
  if tls then listenEncrypted http3 headers else listenPlaintext http3 headers.

(** [Serve] up to the wait, once the main interface, if there is one, is made. *)
Definition serve_starts (main : option IfaceId) (http3 tls : bool) (headers : Header) : list start :=
  match main with
  | Some iid => [KeepCloser (IfaceCloser iid); Spawn MainIface]
  | None => []
  end ++ listen http3 tls headers ++ [Spawn Waiter].

(** ** The state and its steps *)

Inductive serve_pc : Type :=
| Starting (todo : list start)
| Woken
| Returned (result : option error).

Record Serving := mkServing {
  srv : Server;
  waits : Z;
  tasks : list (goroutine * gopc);
  sv_upgraders : list upgrader;
  serve : serve_pc;
  crashed : bool }.

#[export] Instance eta_serving : Etable Serving := λ r,
  mkServing (srv r) (waits r) (tasks r) (sv_upgraders r) (serve r) (crashed r).

(** The two checks of [setServeError]. *)
Definition check_error (e : option error) (s : Server) : gopc :=
  match e, serveError s with Some e, None => Checked e | _, _ => Reported end.

Definition spawn_task (k : goroutine) (st : Serving) : Serving :=
  st <| waits := waits st + (if added k then 1 else 0) |> <| tasks := tasks st ++ [(k, Running)] |>.

Definition set_srv (f : Server → Server) (st : Serving) : Serving := st <| srv := f (srv st) |>.

Definition crash (st : Serving) : Serving := st <| crashed := true |>.

(** One step of [Serve] on its way to the wait; a [setServeError] of its own is
    three of them. *)
Definition run_start (a : start) (todo : list start) (st : Serving) : Serving :=
  let st := st <| serve := Starting todo |> in
  match a with
  | Spawn k => spawn_task k st
  | AddUpgrader u => st <| sv_upgraders := sv_upgraders st ++ [u] |>
  | SetUpgraderHeaders i headers =>
      st <| sv_upgraders := alter (upgrader_SetHeaders headers) i (sv_upgraders st) |>
  | KeepCloser c => set_srv (addCloser c) st
  | SetError e =>
      match check_error (Some e) (srv st) with
      | Checked e => st <| serve := Starting (AssignError e :: todo) |>
      | _ => st
      end
  | AssignError e =>
      (set_srv (λ s, s <| serveError := Some e |>) st) <| serve := Starting (CloseErrorChannel :: todo) |>
  | CloseErrorChannel =>
      if serveErrorChannel (srv st) then crash st
      else set_srv (λ s, s <| serveErrorChannel := true |>) st
  end.

(** With what a goroutine may call [setServeError]. *)
Definition may_report (k : goroutine) (e : option error) (st : Serving) : bool :=
  match k with
  | MainIface => bool_decide (e = Some (ErrText "main iface closed"))
  | UpgraderServer (WebSocketUpgrader _) => bool_decide (e = WebSocketUpgrader_ListenAndServe)
  | UpgraderServer WebTransportUpgrader | HTTPServer _ => true
  | Waiter => (waits st =? 0) && bool_decide (e = Some ErrNoServeWaitsLeft)
  | Shutdown => bool_decide (e = Some errNone)
  end.

Inductive action : Type :=
| Start
| Signal
| Report (i : nat) (e : option error)
| Assign (i : nat)
| CloseChannel (i : nat)
| Finish (i : nat)
| Wake
| Return.

Definition set_task (i : nat) (x : goroutine * gopc) (st : Serving) : Serving :=
  st <| tasks := <[i := x]> (tasks st) |>.

(** One step of one goroutine, if it can take it; [Signal] starts the handler
    that calls [Close]. *)
Definition advance (a : action) (st : Serving) : option Serving :=
  if crashed st then None
  else match a with
  | Start =>
      match serve st with
      | Starting (a :: todo) => Some (run_start a todo st)
      | _ => None
      end
  | Signal => Some (spawn_task Shutdown st)
  | Report i e =>
      match tasks st !! i with
      | Some (k, Running) =>
          if may_report k e st then
            let st := match k with Shutdown => set_srv (λ s, s <| closers := [] |>) st | _ => st end in
            Some (set_task i (k, check_error e (srv st)) st)
          else None
      | _ => None
      end
  | Assign i =>
      match tasks st !! i with
      | Some (k, Checked e) =>
          Some (set_task i (k, Assigned) (set_srv (λ s, s <| serveError := Some e |>) st))
      | _ => None
      end
  | CloseChannel i =>
      match tasks st !! i with
      | Some (k, Assigned) =>
          if serveErrorChannel (srv st) then Some (crash st)
          else Some (set_task i (k, Reported)
                 (set_srv (λ s, s <| serveErrorChannel := true |>) st))
      | _ => None
      end
  | Finish i =>
      match tasks st !! i with
      | Some (k, Reported) =>
          Some (set_task i (k, Ended)
            (st <| waits := waits st - (if calls_done k then 1 else 0) |>))
      | _ => None
      end
  | Wake =>
      match serve st with
      | Starting [] =>
          if serveErrorChannel (srv st)
          then Some ((set_srv (λ s, s <| closers := [] |>) st) <| serve := Woken |>)
          else None
      | _ => None
      end
  | Return =>
      match serve st with
      | Woken => Some (st <| serve := Returned (Serve_result (srv st)) |>)
      | _ => None
      end
  end.

Fixpoint run_actions (l : list action) (st : Serving) : option Serving :=
  match l with
  | [] => Some st
  | a :: l => match advance a st with Some st => run_actions l st | None => None end
  end.

Definition step (st st' : Serving) : Prop := ∃ a, advance a st = Some st'.

(** [NewServer] and [Serve] with this list of starts. *)
Definition serving_start (starts : list start) (s : Server) : Serving :=
  mkServing s 0 [] [] (Starting starts) false.

(** ** [Serve] before it starts anything *)

Section Prepare.
Context {A I E : Type} `{SocketAdapter A} `{WaterInterface I} `{!Unregister E} `{NewRandom}
  `{!World.PacketHandler A I E} `{!ClientHandlers A I E} `{Cidr}
  `{FindLowest} `{!Configurable I} `{!NewInterface I}.
Abbreviation P := (prog (SW A I E)).

(** [n] counts the calls of [water.New] so far. *)
Definition createMainIface (n : nat) (config : InterfaceConfig) : P (option error) :=
  s ← gets server;
  let '(ifaceConfig, err) := linux.GetPlatformSpecifics config
    (mkWaterConfig (ToWaterDeviceType (mode s)) EmptyString false EmptyString) in
  match err with
  | Some err => mret (Some err)
  | None =>
      match water_New n ifaceConfig with
      | inr err => mret (Some err)
      | inl i =>
          iid ← new_iface i;
          upd_server (λ s, s <| mainIface := Some iid |>);;
          let serverIP := GetServerIP (vpnNet s) in
          err ← lift (iface_call iid
            (if DoLocalIPConfig s then Configure serverIP (Some (vpnNet s)) serverIP
             else Configure [] None []));
          match err with
          | Some err => mret (Some err)
          | None => lift (iface_call iid (iface_set_mtu (mtu s)))
          end
      end
  end.

(** What [Serve] returns at once, or the goroutines it goes on to start. *)
Definition prepare (n : nat) (config : InterfaceConfig) (http3 tls : bool) (headers : Header)
    : P (list start + error) :=
  s ← gets server;
  match linux.VerifyPlatformFlags config (mode s) with
  | Some err => mret (inr err)
  | None =>
      err ← (if if_OneInterfacePerConnection config then mret None
             else createMainIface n config);
      match err with
      | Some err => mret (inr err)
      | None =>
          s ← gets server;
          mret (inl (serve_starts
            (if if_OneInterfacePerConnection config then None else mainIface s) http3 tls headers))
      end
  end.

End Prepare.

(** ** The invariant *)

(** The goroutines that the WaitGroup counts. *)
Definition pending_task (x : goroutine * gopc) : bool :=
  added x.1 && negb (calls_done x.1 && match x.2 with Ended => true | _ => false end).

Definition count (l : list (goroutine * gopc)) : Z := foldr (λ x n, (if pending_task x then 1 else 0) + n) 0 l.

Definition plain_start (a : start) : bool :=
  match a with SetError _ | AssignError _ | CloseErrorChannel => false | _ => true end.

Definition has_http (l : list (goroutine * gopc)) : Prop := ∃ b pc, (HTTPServer b, pc) ∈ l.

(** The waiter starts after an HTTP server. *)
Definition http_before_waiter (started : Prop) (todo : list start) : Prop :=
  ∀ l1 l2, todo = l1 ++ Spawn Waiter :: l2 → started ∨ ∃ b, Spawn (HTTPServer b) ∈ l1.

Record serving_inv (st : Serving) : Prop := {
  inv_waits : waits st = count (tasks st);
  inv_waiter : ∀ i pc, tasks st !! i = Some (Waiter, pc) → pc = Running ∧ has_http (tasks st);
  inv_todo : match serve st with
    | Starting todo => forallb plain_start todo = true ∧ http_before_waiter (has_http (tasks st)) todo
    | _ => serveErrorChannel (srv st) = true
    end;
  inv_error : is_Some (serveError (srv st)) →
    serveErrorChannel (srv st) = true ∨ ∃ i k, tasks st !! i = Some (k, Assigned);
  inv_channel : serveErrorChannel (srv st) = true → is_Some (serveError (srv st));
  inv_assigned : ∀ i k, tasks st !! i = Some (k, Assigned) → is_Some (serveError (srv st)) }.

Lemma count_app l1 l2 : count (l1 ++ l2) = count l1 + count l2.
Proof. induction l1 as [|x l1 IH]; [done|]. simpl. lia. Qed.

Lemma count_nonneg l : 0 <= count l.
Proof. induction l as [|x l IH]; [done|]. simpl. destruct (pending_task x); lia. Qed.

Lemma count_insert l i x y : l !! i = Some x →
  count (<[i := y]> l) = count l - (if pending_task x then 1 else 0) + (if pending_task y then 1 else 0).
Proof.
  intros Hx. rewrite insert_take_drop by by apply lookup_lt_Some in Hx.
  rewrite <- (take_drop_middle l i x Hx) at 3. rewrite !count_app. simpl. lia.
Qed.

Lemma count_http l : has_http l → 1 <= count l.
Proof.
  intros (b & pc & (l1 & l2 & ->)%list_elem_of_split). rewrite count_app. simpl.
  pose proof (count_nonneg l1). pose proof (count_nonneg l2).
  replace (pending_task (HTTPServer b, pc)) with true by done. lia.
Qed.

Lemma has_http_app l x : has_http l → has_http (l ++ [x]).
Proof. intros (b & pc & Hin). exists b, pc. set_solver. Qed.

Lemma has_http_set l i k pc pc' : l !! i = Some (k, pc) → has_http l → has_http (<[i := (k, pc')]> l).
Proof.
  intros Hi (b & pc0 & (j & Hj)%list_elem_of_lookup). destruct (decide (i = j)) as [->|Hne].
  - rewrite Hi in Hj. injection Hj as -> ->. exists b, pc'. apply list_elem_of_lookup.
    exists j. apply list_lookup_insert_eq. by apply lookup_lt_Some in Hi.
  - exists b, pc0. apply list_elem_of_lookup. exists j. by rewrite list_lookup_insert_ne.
Qed.

Lemma lookup_set l i x j y : (<[i := x]> l : list (goroutine * gopc)) !! j = Some y →
  (j = i ∧ y = x) ∨ (j ≠ i ∧ l !! j = Some y).
Proof. intros [(-> & -> & _)|[? ?]]%list_lookup_insert_Some; [by left|by right]. Qed.

(** A task that moves on without touching the server's error. *)
Lemma move_task st st' i k pc pc' :
  tasks st !! i = Some (k, pc) → pc ≠ Assigned → pc' ≠ Assigned → (k = Waiter → pc' = Running) →
  serve st' = serve st → serveError (srv st') = serveError (srv st) →
  serveErrorChannel (srv st') = serveErrorChannel (srv st) →
  tasks st' = <[i := (k, pc')]> (tasks st) → waits st' = count (tasks st') →
  serving_inv st → serving_inv st'.
Proof.
  intros Hi Hpc Hpc' Hw Hs He Hc Ht Hn [I1 I2 I3 I4 I5 I6]. constructor.
  - done.
  - intros j q. rewrite Ht. intros [[-> Hq]|[_ Hq]]%lookup_set.
    + injection Hq as <- ->. split; [by apply Hw|]. eapply has_http_set; [exact Hi|].
      by destruct (I2 _ _ Hi).
    + destruct (I2 _ _ Hq). split; [done|]. by eapply has_http_set.
  - rewrite Hs, Hc. destruct (serve st); [|done..]. destruct I3 as [I3 I3']. split; [done|].
    intros l1 l2 El. destruct (I3' l1 l2 El) as [?|?]; [|by right]. left. rewrite Ht.
    by eapply has_http_set.
  - rewrite He, Hc. intros [?|(j & k' & Hj)]%I4; [by left|]. right. exists j, k'. rewrite Ht.
    rewrite list_lookup_insert_ne; [done|]. intros ->. congruence.
  - by rewrite He, Hc.
  - intros j k'. rewrite Ht, He. intros [[-> Hq]|[_ Hq]]%lookup_set; [|by eapply I6].
    injection Hq as -> Hq. by destruct Hpc'.
Qed.

(** A new task, or a change of what [Serve] has still to do. *)
Lemma append_task st st' l :
  tasks st' = tasks st ++ l → Forall (λ x, x.2 = Running ∧ (x.1 = Waiter → has_http (tasks st))) l →
  waits st' = waits st + count l →
  serveError (srv st') = serveError (srv st) →
  serveErrorChannel (srv st') = serveErrorChannel (srv st) →
  match serve st' with
  | Starting todo => forallb plain_start todo = true ∧ http_before_waiter (has_http (tasks st')) todo
  | _ => serveErrorChannel (srv st) = true
  end →
  serving_inv st → serving_inv st'.
Proof.
  intros Ht Hl Hn He Hc Hs [I1 I2 I3 I4 I5 I6].
  assert (Hold : ∀ j x, tasks st' !! j = Some x → tasks st !! j = Some x ∨ x ∈ l).
  { intros j x. rewrite Ht. intros [?|[_ ?%list_elem_of_lookup_2]]%lookup_app_Some; tauto. }
  assert (Hh : has_http (tasks st) → has_http (tasks st')).
  { intros (b & pc & Hin). exists b, pc. rewrite Ht. set_solver. }
  rewrite Forall_forall in Hl. constructor.
  - rewrite Hn, I1, Ht. by rewrite count_app.
  - intros j pc [[-> ?]%I2|[Hr Hw]%Hl]%Hold; [auto|]. simpl in *. auto.
  - destruct (serve st'); [done|by rewrite Hc..].
  - rewrite He, Hc. intros [?|(j & k' & Hj)]%I4; [by left|]. right. exists j, k'. rewrite Ht.
    by apply lookup_app_l_Some.
  - by rewrite He, Hc.
  - intros j k' [Hj|[Hr _]%Hl]%Hold; [rewrite He; by eapply I6|done].
Qed.

(** What is left to start after one more. *)
Lemma todo_next started started' a todo :
  (started → started') → (∀ b, a = Spawn (HTTPServer b) → started') →
  http_before_waiter started (a :: todo) → http_before_waiter started' todo.
Proof.
  intros Hs Ha Ho l1 l2 ->. destruct (Ho (a :: l1) l2 eq_refl) as [?|(b & Hin)]; [left; auto|].
  apply elem_of_cons in Hin as [<-|?]; [left; by eapply Ha|right; by exists b].
Qed.

Lemma start_inv st a todo :
  serve st = Starting (a :: todo) → serving_inv st → serving_inv (run_start a todo st).
Proof.
  intros Hs Hinv. pose proof (inv_todo _ Hinv) as Ht. rewrite Hs in Ht. destruct Ht as [Hp Ho].
  simpl in Hp. apply andb_true_iff in Hp as [Ha Hp].
  destruct a as [k|u|i h|c|e|e|]; [|clear Ha|clear Ha|clear Ha|done..].
  - apply (append_task st _ [(k, Running)]); try done.
    + constructor; [|done]. split; [done|]. simpl. intros ->.
      destruct (Ho [] todo eq_refl) as [?|(b & Hb)]; [done|]. set_solver.
    + simpl. unfold pending_task. simpl. rewrite andb_false_r. cbn [negb]. rewrite andb_true_r. lia.
    + split; [done|]. eapply todo_next; [| |exact Ho].
      * apply has_http_app.
      * intros b [= ->]. exists b, Running. simpl. set_solver.
  - apply (append_task st _ []); try done; [by rewrite app_nil_r|simpl; lia|].
    split; [done|]. by eapply todo_next; [| |exact Ho].
  - apply (append_task st _ []); try done; [by rewrite app_nil_r|simpl; lia|].
    split; [done|]. by eapply todo_next; [| |exact Ho].
  - apply (append_task st _ []); try done; [by rewrite app_nil_r|simpl; lia|].
    split; [done|]. by eapply todo_next; [| |exact Ho].
Qed.

Lemma report_inv st i k e :
  tasks st !! i = Some (k, Running) → may_report k e st = true → serving_inv st →
  let st1 := match k with Shutdown => set_srv (λ s, s <| closers := [] |>) st | _ => st end in
  serving_inv (set_task i (k, check_error e (srv st1)) st1).
Proof.
  intros Hi Hm Hinv st1.
  assert (Hsame : serve st1 = serve st ∧ serveError (srv st1) = serveError (srv st)
    ∧ serveErrorChannel (srv st1) = serveErrorChannel (srv st) ∧ tasks st1 = tasks st
    ∧ waits st1 = waits st) by by unfold st1; destruct k.
  destruct Hsame as (Hs & He & Hc & Ht & Hn).
  assert (Hpc : check_error e (srv st1) ≠ Assigned ∧ check_error e (srv st1) ≠ Ended).
  { unfold check_error. by repeat case_match. }
  apply (move_task st _ i k Running (check_error e (srv st1))); try done; [by destruct Hpc| | |].
  - intros ->. destruct (inv_waiter _ Hinv _ _ Hi) as [_ Hh%count_http].
    simpl in Hm. rewrite (inv_waits _ Hinv) in Hm. apply andb_true_iff in Hm as [?%Z.eqb_eq _]. lia.
  - simpl. by rewrite Ht.
  - simpl. rewrite Ht, (count_insert _ _ _ _ Hi), Hn, (inv_waits _ Hinv). unfold pending_task. simpl.
    destruct (check_error _ _); try lia. by destruct Hpc.
Qed.

Lemma assign_inv st i k e :
  tasks st !! i = Some (k, Checked e) → serving_inv st →
  serving_inv (set_task i (k, Assigned) (set_srv (λ s, s <| serveError := Some e |>) st)).
Proof.
  intros Hi [I1 I2 I3 I4 I5 I6]. constructor; simpl.
  - rewrite (count_insert _ _ _ _ Hi), I1. unfold pending_task. simpl. lia.
  - intros j pc [[-> [= <- ->]]|[_ Hj]]%lookup_set; [by destruct (I2 _ _ Hi)|].
    destruct (I2 _ _ Hj). split; [done|]. by eapply has_http_set.
  - destruct (serve st); [|done..]. destruct I3 as [I3 I3']. split; [done|].
    intros l1 l2 El. destruct (I3' l1 l2 El); [left; by eapply has_http_set|by right].
  - intros _. right. exists i, k. apply list_lookup_insert_eq. by apply lookup_lt_Some in Hi.
  - by eexists.
  - by eexists.
Qed.

Lemma close_inv st i k :
  tasks st !! i = Some (k, Assigned) → serving_inv st →
  serving_inv (set_task i (k, Reported) (set_srv (λ s, s <| serveErrorChannel := true |>) st)).
Proof.
  intros Hi [I1 I2 I3 I4 I5 I6]. constructor; simpl.
  - rewrite (count_insert _ _ _ _ Hi), I1. unfold pending_task. simpl. lia.
  - intros j pc [[-> [= <- ->]]|[_ Hj]]%lookup_set; [by destruct (I2 _ _ Hi)|].
    destruct (I2 _ _ Hj). split; [done|]. by eapply has_http_set.
  - destruct (serve st); [|done..]. destruct I3 as [I3 I3']. split; [done|].
    intros l1 l2 El. destruct (I3' l1 l2 El); [left; by eapply has_http_set|by right].
  - by left.
  - intros _. by eapply I6.
  - intros j k' [[_ ?]|[_ Hj]]%lookup_set; [done|by eapply I6].
Qed.

Lemma finish_inv st i k :
  tasks st !! i = Some (k, Reported) → serving_inv st →
  serving_inv (set_task i (k, Ended) (st <| waits := waits st - (if calls_done k then 1 else 0) |>)).
Proof.
  intros Hi Hinv. apply (move_task st _ i k Reported Ended); try done.
  - intros ->. by destruct (inv_waiter _ Hinv _ _ Hi).
  - simpl. rewrite (count_insert _ _ _ _ Hi), (inv_waits _ Hinv). unfold pending_task. simpl.
    destruct k; simpl; lia.
Qed.

Lemma crash_inv st : serving_inv st → serving_inv (crash st).
Proof. by intros [? ? ? ? ? ?]. Qed.

Lemma advance_inv a st st' : advance a st = Some st' → serving_inv st → serving_inv st'.
Proof.
  intros Hst Hinv. unfold advance in Hst. destruct (crashed st); [done|].
  destruct a as [| |i e|i|i|i| |].
  - destruct (serve st) as [[|a todo]| |] eqn:Es; simplify_eq. by apply start_inv.
  - injection Hst as <-. apply (append_task st _ [(Shutdown, Running)]); try done; [by constructor|].
    pose proof (inv_todo _ Hinv) as Ht. simpl. destruct (serve st); [|done..].
    destruct Ht as [Hp Ho]. split; [done|]. intros l1 l2 El.
    destruct (Ho l1 l2 El) as [?|?]; [left; by apply has_http_app|by right].
  - destruct (tasks st !! i) as [[k []]|] eqn:Ei; try done.
    destruct (may_report k e st) eqn:Em; [|done]. injection Hst as <-. by apply report_inv.
  - destruct (tasks st !! i) as [[k []]|] eqn:Ei; try done. injection Hst as <-.
    by apply assign_inv.
  - destruct (tasks st !! i) as [[k []]|] eqn:Ei; try done.
    destruct (serveErrorChannel _); injection Hst as <-; [by apply crash_inv|by apply close_inv].
  - destruct (tasks st !! i) as [[k []]|] eqn:Ei; try done. injection Hst as <-. by apply finish_inv.
  - destruct (serve st) as [[|a todo]| |] eqn:Es; try done.
    destruct (serveErrorChannel _) eqn:Ec; [|done]. injection Hst as <-.
    destruct Hinv as [I1 I2 I3 I4 I5 I6]. constructor; simpl; try done.
  - destruct (serve st) as [|?|] eqn:Es; try done. injection Hst as <-.
    destruct Hinv as [I1 I2 I3 I4 I5 I6]. rewrite Es in I3. by constructor.
Qed.

Lemma start_state main http3 tls headers s :
  serveError s = None → serveErrorChannel s = false → (http3 = true → tls = true) →
  serving_inv (serving_start (serve_starts main http3 tls headers) s).
Proof.
  intros He Hc Ht. constructor; simpl; try done; try congruence.
  - split; [by destruct main, http3, tls; try done; specialize (Ht eq_refl)|].
    intros l1 l2 El. right. exists tls. revert El.
    destruct main, http3, tls; try (by specialize (Ht eq_refl)); cbn;
      intros El; repeat (destruct l1 as [|? l1]; simplify_eq/=); set_solver.
  - rewrite He. by intros [? ?].
Qed.

Lemma serving_reachable_inv st st' : rtc step st st' → serving_inv st → serving_inv st'.
Proof. induction 1 as [|x y z [a Hxy] _ IH]; [done|]. intros Hi. apply IH. by eapply advance_inv. Qed.

(** ** [Serve] can return *)

(** What the steps towards the return keep. *)
Definition same_error (st st' : Serving) : Prop :=
  serveError (srv st') = serveError (srv st)
  ∧ serveErrorChannel (srv st') = serveErrorChannel (srv st) ∧ crashed st' = crashed st.

Lemma starts_run todo st :
  crashed st = false → serve st = Starting todo → forallb plain_start todo = true →
  ∃ st' l, rtc step st st' ∧ serve st' = Starting [] ∧ same_error st st' ∧ tasks st' = tasks st ++ l.
Proof.
  revert st. induction todo as [|a todo IH]; intros st Hc Hs Hp.
  { exists st, []. by rewrite app_nil_r. }
  simpl in Hp. apply andb_true_iff in Hp as [Ha Hp].
  set (st1 := run_start a todo st).
  assert (Hst : step st st1) by (exists Start; unfold advance; by rewrite Hc, Hs).
  assert (H1 : same_error st st1 ∧ serve st1 = Starting todo ∧ ∃ l, tasks st1 = tasks st ++ l).
  { unfold st1. destruct a; try done; (split; [done|split; [done|]]);
      [by eexists| | |]; exists []; by rewrite app_nil_r. }
  destruct H1 as (Hsame & Hs1 & l1 & Hl1). destruct Hsame as (He1 & Hc1 & Hk1).
  destruct (IH st1) as (st' & l & Hr & Hs' & (He' & Hc' & Hk') & Hl); [congruence|done|done|].
  exists st', (l1 ++ l). split; [by eapply rtc_l|]. split; [done|]. split; [unfold same_error; split_and!; congruence|].
  by rewrite Hl, Hl1, app_assoc.
Qed.

Lemma wake_return st :
  crashed st = false → serve st = Starting [] ∨ serve st = Woken → serveErrorChannel (srv st) = true →
  ∃ st', rtc step st st' ∧ serve st' = Returned (Serve_result (srv st)).
Proof.
  intros Hk Hs Hc.
  assert (Hret : ∀ st, crashed st = false → serve st = Woken →
    step st (st <| serve := Returned (Serve_result (srv st)) |>)).
  { intros st0 Hk0 Hs0. exists Return. unfold advance. by rewrite Hk0, Hs0. }
  destruct Hs as [Hs|Hs]; [|eexists; split; [by eapply rtc_once, Hret|done]].
  set (st1 := (set_srv (λ s, s <| closers := [] |>) st) <| serve := Woken |>).
  exists (st1 <| serve := Returned (Serve_result (srv st1)) |>). split; [|done].
  eapply rtc_l; [exists Wake; unfold advance; by rewrite Hk, Hs, Hc|]. by apply rtc_once, Hret.
Qed.

Lemma can_return st :
  serving_inv st → crashed st = false → is_Some (serveError (srv st)) →
  (∀ r, serve st ≠ Returned r) →
  ∃ st', rtc step st st' ∧ serve st' = Returned (Serve_result (srv st)).
Proof.
  intros Hinv Hk He Hr. destruct (serve st) as [todo| |r] eqn:Es; [| |by destruct (Hr r)].
  2:{ apply wake_return; [done|by right|]. pose proof (inv_todo _ Hinv) as Hc. by rewrite Es in Hc. }
  pose proof (inv_todo _ Hinv) as Ht. rewrite Es in Ht. destruct Ht as [Hp _].
  destruct (starts_run todo st Hk Es Hp) as (st1 & l & Hr1 & Hs1 & (He1 & Hc1 & Hk1) & Hl).
  assert (Hres : ∀ st', serveError (srv st') = serveError (srv st) →
    Serve_result (srv st') = Serve_result (srv st)) by (intros st' E; unfold Serve_result; by rewrite E).
  destruct (inv_error _ Hinv He) as [Hc|(i & k & Hi)].
  { destruct (wake_return st1) as (st' & Hr' & Hs'); [congruence|by left|congruence|].
    exists st'. split; [by etrans|]. by rewrite Hs', Hres. }
  destruct (serveErrorChannel (srv st)) eqn:Hc.
  { destruct (wake_return st1) as (st' & Hr' & Hs'); [congruence|by left|congruence|].
    exists st'. split; [by etrans|]. by rewrite Hs', Hres. }
  set (st2 := set_task i (k, Reported) (set_srv (λ s, s <| serveErrorChannel := true |>) st1)).
  assert (Hst : step st1 st2).
  { exists (CloseChannel i). unfold advance. rewrite Hk1, Hk, Hl.
    rewrite (lookup_app_l_Some _ _ _ _ Hi). by rewrite Hc1. }
  destruct (wake_return st2) as (st' & Hr' & Hs'); [simpl; congruence|by left|done|].
  exists st'. split; [etrans; [exact Hr1|by eapply rtc_l]|]. by rewrite Hs', Hres.
Qed.


(** [setServeError] checks and closes without a lock: a listener
    that fails while the process is told to shut down can close the channel a
    second time, which ends the process with a panic. *)
Theorem errors_race main tls headers s (err : error) :
  serveError s = None → serveErrorChannel s = false →
  ∃ l st, run_actions l (serving_start (serve_starts main false tls headers) s) = Some st
    ∧ crashed st = true.
Proof.
  intros He Hc. set (h := if main is Some _ then 2%nat else 1%nat). set (g := S (S h)).
  exists (replicate (length (serve_starts main false tls headers)) Start ++ [Signal; Report h (Some err); Report g (Some errNone);
    Assign h; CloseChannel h; Assign g; CloseChannel g]).
  destruct s. simpl in He, Hc. subst. destruct main, tls; eexists; (split; [vm_compute; reflexivity|done]).
Qed.

(** ** A closed instance: a listener fails, and [Serve] returns its error *)

Definition idle_server : Server :=
  mkServer true (mkVPNNet (IPv4 10 0 0 0) (mkIPNet [10; 0; 0; 0] [255; 255; 255; 0]) "10.0.0.0/24")
    false true VPNModeTUN None false 0 0 ∅ 1482 1400 (Some 7%nat) "server" [] ∅ ∅ false None ∅.

Definition in_use_error : error := ErrText "address already in use".

Definition failing : list action :=
  replicate 9 Start ++ [Report 1 None; Finish 1; Report 2 (Some in_use_error); Assign 2].

Definition failed_listener : Serving :=
  default (serving_start [] idle_server)
    (run_actions failing
      (serving_start (serve_starts (mainIface idle_server) false false ∅) idle_server)).

Lemma run_actions_steps l st st' : run_actions l st = Some st' → rtc step st st'.
Proof.
  revert st. induction l as [|a l IH]; intros st; simpl; [by intros [= ->]|].
  destruct (advance a st) as [st1|] eqn:Ea; [|done]. intros Hr.
  eapply rtc_l; [by exists a|by apply IH].
Qed.


Lemma errors_race_witness :
  ∃ l st, run_actions l (serving_start (serve_starts (mainIface idle_server) false true ∅) idle_server)
      = Some st ∧ crashed st = true.
Proof. apply (errors_race _ true ∅ idle_server in_use_error); reflexivity. Defined.
