(* ===== verification/Client.v ===== *)
(** * The client

    client/clients: the state of the client, the handlers it gives to its
    socket for the server's commands, connecting, closing and reconnecting.
    The client is the environment of the world that its socket lives in. *)

From S2P Require Import Prelude Json Commands Adapter Socket World Net IPText VPNNet Shared.
From S2P Require Import Negotiation Http Upgraders Iface.
Import adapters.

(** [c_socket] is the socket, which has the client's adapter; [adapterOf] says
    whether the client still holds the adapter.  [opened] counts the calls of
    [water.New]; [scripts] are the events whose script was started, with the
    network and the interface passed to it. *)
Record Client := mkClient {
  FirewallMark : Z;
  SetDefaultGateway : bool;
  ClientConfigurator : option (Z * Z);
  ClientInterface : InterfaceConfig;
  AutoReconnectDelay : Z;
  clientID : string;
  serverID : string;
  c_mtu : Z;
  doIPConfig : bool;
  c_iface : option IfaceId;
  remoteNet : option VPNNet;
  c_socket : option SocketId;
  adapterOf : option SocketId;
  sentUpEvent : bool;
  clientFeatures : gmap string bool;
  opened : nat;
  scripts : list (string * string * string) }.

#[export] Instance eta_client : Etable Client := λ r,
  mkClient (FirewallMark r) (SetDefaultGateway r) (ClientConfigurator r) (ClientInterface r)
    (AutoReconnectDelay r) (clientID r) (serverID r) (c_mtu r) (doIPConfig r) (c_iface r)
    (remoteNet r) (c_socket r) (adapterOf r) (sentUpEvent r) (clientFeatures r) (opened r)
    (scripts r).

(** [NewClient]; the interface settings come with the first configuration. *)
Definition NewClient : Client :=
  mkClient 0 false None (mkInterfaceConfig EmptyString false EmptyString false) 0
    EmptyString EmptyString 0 false None None None None false ∅ 0 [].

(** The client sets no packet handler on its socket. *)
#[export] Instance client_unregister : Unregister Client := λ _ _ c, Ret c.
#[export] Instance client_packets {A I} : World.PacketHandler A I Client := {
  HandlePacket _ _ := mret (false, None);
  RegisterSocket _ := mret tt }.

Definition Client_SetLocalFeature (feature : string) (enabled : bool) (c : Client) : Client :=
  if negb enabled then c <| clientFeatures := delete feature (clientFeatures c) |>
  else c <| clientFeatures := <[feature := true]> (clientFeatures c) |>.

(** [Reload]: whether connections go through a dialer that sets the mark. *)
Definition Reload_dialer (c : Client) : bool := 0 <? FirewallMark c.

(** [EnhanceConn]; setting the mark is left to the operating system. *)
Definition Client_EnhanceConn {C} (setFirewallMark : Z → C → C * option error) (c : Client)
    (conn : C) : C * option error :=
  if FirewallMark c <=? 0 then (conn, None) else setFirewallMark (FirewallMark c) conn.

Section Client.
Context {A I : Type} `{SocketAdapter A} `{WaterInterface I} `{!Configurable I} `{!NewInterface I}
  `{FindLowest} `{NewRandom} `{Cidr}.
Abbreviation P := (prog (World A I Client)).

Definition upd_client (f : Client → Client) : P unit := modify (λ w, w <| env := f (env w) |>).

Definition nil_pointer {R} : P R := panic "nil pointer dereference".

(** ** base.go *)

Definition doRunEventScript (event : string) : P unit := λ w,
  let c := env w in
  let ifaceName := match c_iface c ≫= λ iid, ifaces w !! iid with
                   | Some i => iface_name i | None => EmptyString end in
  let remoteNetStr := match remoteNet c with Some n => GetRaw n | None => EmptyString end in
  upd_client (λ c, c <| scripts := scripts c ++ [(event, remoteNetStr, ifaceName)] |>) w.

Definition Client_UpdateSocketConfig : P (option error) :=
  c ← gets env;
  match c_socket c, ClientConfigurator c with
  | Some sid, Some config => upd sid (ConfigurePing config.1 config.2);; mret None
  | _, _ => mret None
  end.

Definition closeInternal : P unit :=
  c ← gets env;
  (if sentUpEvent c then
     doRunEventScript EventDown;; upd_client (λ c, c <| sentUpEvent := false |>)
   else mret tt);;
  (match c_socket c with
   | Some sid => CloseSocket sid;; upd_client (λ c, c <| c_socket := None |>)
   | None => mret tt
   end);;
  (match adapterOf c with
   | Some sid => adapter_call sid Close;; upd_client (λ c, c <| adapterOf := None |>)
   | None => mret tt
   end);;
  (match c_iface c with
   | Some iid => iface_call iid iface_close;; upd_client (λ c, c <| c_iface := None |>)
   | None => mret tt
   end).

Definition Client_Close : P unit :=
  upd_client (λ c, c <| AutoReconnectDelay := 0 |>);; closeInternal.

(** ** mtu.go *)

Definition Client_SetMTU (mtu : Z) : P (option error) :=
  upd_client (λ c, c <| c_mtu := mtu |>);;
  c ← gets env;
  (match c_socket c with
   | Some sid => upd sid (Socket.SetMTU mtu)
   | None => mret tt
   end);;
  match c_iface c with
  | Some iid => iface_call iid (iface_set_mtu mtu)
  | None => mret None
  end.

(** ** commands.go *)

Definition registerCommandHandlers (sid : SocketId) : P unit :=
  upd sid (AddCommandHandler commands.AddRouteCommandName AddRouteHandler);;
  upd sid (AddCommandHandler commands.InitCommandName InitHandler);;
  upd sid (AddCommandHandler commands.SetMTUCommandName SetMTUHandler).

Definition addroute_handler (command : commands.IncomingCommand) : P (option error) :=
  match commands.DeserializeParameters commands.addroute_fields commands.zero_addroute command with
  | inr err => mret (Some err)
  | inl parameters =>
      c ← gets env;
      match c_iface c, remoteNet c with
      | Some iid, Some net =>
          match ParseCIDR (commands.Route parameters) with
          | inr err => mret (Some err)
          | inl (_, routeNet) =>
              iface_call iid (AddIPRoute routeNet (GetServerIP net));;
              mret None
          end
      | _, _ => mret (Some (ErrText "cannot addroute before init"))
      end
  end.

(** [iface.GetPlatformSpecifics] and [water.New]. *)
Definition open_interface (mode : VPNMode) : P (I + error) := λ w,
  let c := env w in
  let '(config, err) := linux.GetPlatformSpecifics (ClientInterface c)
    (mkWaterConfig (ToWaterDeviceType mode) EmptyString false EmptyString) in
  match err with
  | Some err => Ret (w, inr err)
  | None => Ret (w <| env := c <| opened := S (opened c) |> |>, water_New (opened c) config)
  end.

Definition keep_interface (i : I) : P IfaceId := λ w,
  let iid : IfaceId := base.fresh (dom (ifaces w) : gset IfaceId) in
  Ret (w <| ifaces := <[iid := i]> (ifaces w) |>
         <| env := (env w) <| c_iface := Some iid |> |>, iid).

Definition IPv4_any : IPNet := mkIPNet (IPv4 0 0 0 0) [0; 0; 0; 0].

(** Run [k] unless there was an error. *)
Definition on_ok (err : option error) (k : P (option error)) : P (option error) :=
  match err with Some err => mret (Some err) | None => k end.

(** From the opened interface to the end of the init handler. *)
Definition init_interface (sid : SocketId) (net : VPNNet) (parameters : commands.InitParameters)
    (iid : IfaceId) : P (option error) :=
  err ← iface_call iid
    (if commands.DoIPConfig parameters
     then Configure (GetRawIP net) (Some net) (GetServerIP net)
     else Configure [] None []);
  on_ok err (
    err ← Client_SetMTU (commands.MTU parameters);
    on_ok err (
      err ← SetInterface sid iid;
      on_ok err (
        c ← gets env;
        (if SetDefaultGateway c
         then iface_call iid (AddIPRoute IPv4_any (GetServerIP net)) else mret None);;
        doRunEventScript EventUp;;
        upd_client (λ c, c <| sentUpEvent := true |>);;
        mret None))).

Definition init_handler (command : commands.IncomingCommand) : P (option error) :=
  match commands.DeserializeParameters commands.init_fields commands.zero_init command with
  | inr err => mret (Some err)
  | inl parameters =>
      (if is_empty (commands.ClientID parameters) then mret tt
       else upd_client (λ c, c <| clientID := commands.ClientID parameters |>));;
      (if is_empty (commands.ServerID parameters) then mret tt
       else upd_client (λ c, c <| serverID := commands.ServerID parameters |>));;
      c ← gets env;
      match c_socket c with
      | None => nil_pointer
      | Some sid =>
          upd sid (HandleInitPacketFragmentation (commands.EnableFragmentation parameters));;
          let mode := VPNModeFromString (commands.Mode parameters) in
          match ParseVPNNet (commands.IPAddress parameters) with
          | inr err => upd_client (λ c, c <| remoteNet := None |>);; mret (Some err)
          | inl net =>
              upd_client (λ c, c <| remoteNet := Some net |>
                                 <| doIPConfig := commands.DoIPConfig parameters |>);;
              upd sid (λ s, s <| AssignedIP := GetRawIP net |>);;
              localIface ← open_interface mode;
              match localIface with
              | inr err => mret (Some err)
              | inl i => iid ← keep_interface i; init_interface sid net parameters iid
              end
          end
      end
  end.

Definition setmtu_handler (command : commands.IncomingCommand) : P (option error) :=
  match commands.DeserializeParameters commands.setmtu_fields commands.zero_setmtu command with
  | inr err => mret (Some err)
  | inl parameters => Client_SetMTU (commands.SetMTU parameters)
  end.

#[export] Instance client_commands : ClientHandlers A I Client := λ _ h command,
  match h with
  | AddRouteHandler => addroute_handler command
  | InitHandler => init_handler command
  | SetMTUHandler => setmtu_handler command
  | _ => mret None
  end.

(** ** Serving: base.go and connection.go *)

(** [Serve], given what [connectAdapter] gave. *)
Definition Client_Serve (dialed : A + error) : P (option error) :=
  match dialed with
  | inr err => mret (Some err)
  | inl a => λ w,
      let sid : SocketId := base.fresh (dom (socks w) : gset SocketId) in
      (upd_client (λ c, c <| adapterOf := Some sid |> <| c_socket := Some sid |>);;
       modify (λ w, w <| socks := <[sid := MakeSocket a None true false]> (socks w) |>);;
       err ← Client_UpdateSocketConfig;
       match err with
       | Some err => mret (Some err)
       | None =>
           registerCommandHandlers sid;;
           c ← gets env;
           upd sid (λ k, map_fold Socket.SetLocalFeature k (clientFeatures c));;
           Serve sid;;
           mret None
       end) w
  end.

(** One turn of [ServeLoop] up to the point where it waits for the socket. *)
Definition serve_turn (dialed : A + error) : P unit :=
  closeInternal;; Client_Serve dialed;; mret tt.

(** After the wait: whether the loop goes on. *)
Definition reconnects (c : Client) : bool := negb (AutoReconnectDelay c =? 0).

End Client.
