(* ===== verification/ClientSpec.v ===== *)
(** * What holds of the client

    The client's handlers keep what the sockets' invariants need, so that the
    theorems of Lifecycle.v and Protocol.v apply to the client's socket; and the
    scripts for its going up and down alternate, through any number of
    connections and whatever the server sends. *)

From S2P Require Import Prelude Json Commands Adapter Socket Fragment World Lifecycle Net IPText VPNNet Shared.
From S2P Require Import Frame Negotiation Http Upgraders Iface Client.
Import adapters.

(** ** The interface of the sockets' life *)

#[export] Instance client_unregister_spec : UnregisterSpec Client.
Proof. by intros sid ip c. Qed.

#[export] Instance client_packets_spec {A I} `{SocketAdapter A} `{WaterInterface I} `{NewRandom} :
  PacketHandlerSpec A I Client.
Proof. constructor; intros; apply keeps_ret. Qed.

Section Handlers.
Context {A I : Type} `{SocketAdapter A} `{WaterInterface I} `{!Configurable I} `{!NewInterface I}
  `{FindLowest} `{NewRandom} `{Cidr}.
Context (inv : World A I Client → Prop) (Hapi : client_api inv).
Abbreviation keeps_inv := (keeps (W := World A I Client) inv).

Lemma keeps_upd_client f : keeps_inv (upd_client f).
Proof. apply keeps_modify. intros w. apply Hapi. Qed.

Lemma keeps_script event : keeps_inv (doRunEventScript event).
Proof. intros w Hw. unfold doRunEventScript. by apply keeps_upd_client. Qed.

Lemma keeps_open_interface mode : keeps_inv (open_interface mode).
Proof. intros w Hw. unfold open_interface. cbn. by apply Hapi. Qed.

Lemma keeps_keep_interface i : keeps_inv (keep_interface i).
Proof. intros w Hw. unfold keep_interface. by apply Hapi, Hapi. Qed.

Lemma keeps_on_ok err k : keeps_inv k → keeps_inv (on_ok err k).
Proof. intros Hk. destruct err; [apply keeps_ret|done]. Qed.

Lemma capi_same sid f : same_life f → keeps_inv (upd sid f).
Proof. apply Hapi. Qed.
Lemma capi_call iid f : keeps_inv (iface_call iid f).
Proof. apply Hapi. Qed.
Lemma capi_set sid iid : keeps_inv (SetInterface sid iid).
Proof. apply Hapi. Qed.

Hint Resolve keeps_upd_client keeps_script keeps_open_interface keeps_keep_interface keeps_on_ok
  capi_call capi_set : keeps.
Hint Extern 1 (keeps _ (upd _ _)) => (apply capi_same; intros ?; reflexivity) : keeps.

Lemma keeps_Client_SetMTU mtu : keeps_inv (Client_SetMTU mtu).
Proof. unfold Client_SetMTU. keep. Qed.
Hint Resolve keeps_Client_SetMTU : keeps.

Lemma keeps_init_interface sid net p iid : keeps_inv (init_interface sid net p iid).
Proof.
  unfold init_interface. keep. apply keeps_on_ok. keep. apply keeps_on_ok. keep. apply keeps_on_ok. keep.
Qed.
Hint Resolve keeps_init_interface : keeps.

Lemma keeps_init command : keeps_inv (init_handler command).
Proof.
  unfold init_handler, nil_pointer. keep. apply capi_same. intros s. apply HandleInit_life.
Qed.

Lemma keeps_addroute command : keeps_inv (addroute_handler command).
Proof. unfold addroute_handler. keep. Qed.

Lemma keeps_setmtu command : keeps_inv (setmtu_handler command).
Proof. unfold setmtu_handler. keep. Qed.

End Handlers.

#[export] Instance client_commands_spec {A I} `{SocketAdapter A} `{WaterInterface I}
  `{!Configurable I} `{!NewInterface I} `{FindLowest} `{Cidr} :
  ClientHandlersSpec A I Client.
Proof.
  intros inv Hapi sid h c. unfold client_handler, client_commands.
  destruct h; try apply keeps_ret.
  - by apply keeps_addroute.
  - by apply keeps_init.
  - by apply keeps_setmtu.
Qed.

(** ** The interface of a socket stays *)

Section Iface.
Context {A : Type} `{SocketAdapter A}.
Implicit Types s : Socket A.

Lemma write_fragments_iface id dataLen p count packet n i s s' r :
  write_fragments id dataLen p count packet n i s = Ret (s', r) → iface s' = iface s.
Proof.
  revert i s. induction n as [|n IH]; intros i s; cbn [write_fragments]; [by intros [= <- _]|].
  destruct (fragment_message _ _ _ _ _ _); simpl; [|done..].
  destruct (WriteDataMessage _ _) as [ad [e|]]; [by intros [= <- _]|]. by intros ->%IH.
Qed.

Lemma writePacketFragmented_iface packet maxLen s s' r :
  writePacketFragmented packet maxLen s = Ret (s', r) → iface s' = iface s.
Proof.
  unfold writePacketFragmented. case_match; [destruct (WriteDataMessage _ _); by intros [= <- _]|].
  cbv zeta. case_match; [done|]. by intros ->%write_fragments_iface.
Qed.

Lemma write_retry_iface fuel packet s s' r :
  write_retry fuel packet s = Ret (s', r) → iface s' = iface s.
Proof.
  revert s. induction fuel as [|fuel IH]; intros s; cbn [write_retry]; [done|].
  destruct (writePacketFragmented _ _ s) as [[s1 err]| |] eqn:Ew; simpl; [|done..].
  apply writePacketFragmented_iface in Ew. case_bool_decide; [intros ->%IH; done|by intros [= <- _]].
Qed.

Lemma receive_data_iface now m s : iface (receive_data now m s).1 = iface s.
Proof.
  destruct (receive_data now m s) as [s' v] eqn:Er. unfold receive_data in Er.
  repeat case_match; simplify_eq; try done. unfold store_fragment in Er.
  by case_match; injection Er as <- <-.
Qed.

Lemma featureCheck_iface s : iface (featureCheck s) = iface s.
Proof. unfold featureCheck. by case_match. Qed.

Lemma handleVersion_iface p s : iface (handleVersion p s) = iface s.
Proof.
  unfold handleVersion. cbv zeta.
  match goal with |- context [featureCheck ?x] => exact (featureCheck_iface x) end.
Qed.

Lemma HandleInit_iface b s : iface (HandleInitPacketFragmentation b s) = iface s.
Proof. unfold HandleInitPacketFragmentation. case_match; [done|]. by rewrite featureCheck_iface. Qed.

End Iface.

(** What the alternation of the scripts depends on. *)
Definition view (c : Client) : list (string * string * string) * bool * option SocketId :=
  (scripts c, sentUpEvent c, c_socket c).

(** From [w] to [w'] the client's view stays, and sockets keep having an interface. *)
Definition grows {A I} (w w' : World A I Client) : Prop :=
  view (env w') = view (env w)
  ∧ ∀ sid s, socks w !! sid = Some s → is_Some (iface s) →
      ∃ s', socks w' !! sid = Some s' ∧ is_Some (iface s').

Section Grows.
Context {A I : Type} `{SocketAdapter A} `{WaterInterface I} `{!Configurable I} `{!NewInterface I}
  `{FindLowest} `{NewRandom} `{Cidr}.
Context (J : World A I Client → Prop) (J_grows : ∀ w w', grows w w' → J w → J w').

Lemma grows_same (w w' : World A I Client) : env w' = env w → socks w' = socks w → grows w w'.
Proof. intros He Hs. split; [by rewrite He|]. rewrite Hs. eauto. Qed.

Lemma grow_alter (w : World A I Client) sid f :
  (∀ s, is_Some (iface s) → is_Some (iface (f s))) → grows w (w <| socks := alter f sid (socks w) |>).
Proof.
  intros Hf. split; [done|]. intros sid' s Hs Hi. simpl.
  destruct (decide (sid = sid')) as [<-|Hne].
  - rewrite lookup_alter_eq, Hs. simpl. eauto.
  - rewrite lookup_alter_ne by done. eauto.
Qed.

Lemma grow_upd sid f : (∀ s, is_Some (iface s) → is_Some (iface (f s))) → preserves J (upd sid f).
Proof. intros Hf. apply preserves_modify. intros w. by apply J_grows, grow_alter. Qed.

Lemma grow_modify f : (∀ w, env (f w) = env w) → (∀ w, socks (f w) = socks w) → preserves J (modify f).
Proof. intros He Hs. apply preserves_modify. intros w. by apply J_grows, grows_same. Qed.

Lemma grow_sock sid : preserves J (sock sid).
Proof. intros w w' r Hw. unfold sock. case_match; [|done]. by intros [= <- _]. Qed.

Hint Resolve grow_sock : frame.
Hint Extern 1 (preserves _ (modify _)) => (apply grow_modify; intros ?; reflexivity) : frame.
Hint Extern 1 (preserves _ (upd _ _)) => (apply grow_upd; intros ? ?; done) : frame.

Lemma grow_spawn t : preserves J (spawn t).
Proof. unfold spawn. frame. Qed.
Lemma grow_push sid evt : preserves J (push_event sid evt).
Proof. unfold push_event. frame. Qed.
Lemma grow_adapter sid f : preserves J (adapter_call sid f).
Proof. unfold adapter_call. frame. Qed.
Lemma grow_iface iid f : preserves J (iface_call iid f).
Proof. unfold iface_call. frame. Qed.
Lemma grow_unregister sid : preserves J (unregister sid).
Proof.
  intros w w' r Hw. unfold unregister. destruct (socks w !! sid) as [s|]; [|done].
  simpl. intros [= <- _]. by apply (J_grows w), Hw; apply grows_same; destruct w.
Qed.
Lemma grow_local {R} sid (f : Socket A → outcome (Socket A * R)) :
  (∀ s s' r, f s = Ret (s', r) → iface s' = iface s) → preserves J (local_call sid f).
Proof.
  intros Hf w w' r Hw. unfold local_call. destruct (socks w !! sid) as [s|] eqn:Hs; [|done].
  destruct (f s) as [[s' r']| |] eqn:Ef; [|done..]. intros [= <- _]. apply Hf in Ef.
  apply (J_grows w); [|done]. split; [done|]. intros sid' s0 Hs0 Hi. simpl.
  destruct (decide (sid = sid')) as [<-|Hne].
  - rewrite lookup_insert_eq. simplify_eq. exists s'. by rewrite Ef.
  - rewrite lookup_insert_ne by done. eauto.
Qed.
Lemma grow_make_command p id : preserves J (make_command p id).
Proof.
  intros w w' r Hw. unfold make_command. intros [= <- _]. apply (J_grows w); [|done].
  case_bool_decide; by apply grows_same.
Qed.
Hint Resolve grow_spawn grow_push grow_adapter grow_iface grow_unregister grow_make_command : frame.

Lemma grow_close sid b : preserves J (close sid b).
Proof. unfold close, close_channel. frame. Qed.
Hint Resolve grow_close : frame.
Lemma grow_CloseError sid err : preserves J (CloseError sid err).
Proof. unfold CloseError. frame. Qed.
Hint Resolve grow_CloseError : frame.
Lemma grow_CloseSocket sid : preserves J (CloseSocket sid).
Proof. unfold CloseSocket. frame. Qed.
Hint Resolve grow_CloseSocket : frame.
Lemma grow_WritePacket sid packet : preserves J (WritePacket sid packet).
Proof. unfold WritePacket. frame. apply grow_local. intros ????. by eapply write_retry_iface. Qed.
Lemma grow_command sid p id : preserves J (rawMakeAndSendCommand sid p id).
Proof. unfold rawMakeAndSendCommand. frame. Qed.
Hint Resolve grow_WritePacket grow_command : frame.
Lemma grow_wg sid n : preserves J (wg_add sid n).
Proof. unfold wg_add. frame. Qed.
Hint Resolve grow_wg : frame.
Lemma grow_go sid t : preserves J (go_waited sid t).
Proof. unfold go_waited. frame. Qed.
Hint Resolve grow_go : frame.
Lemma grow_read sid : preserves J (tryServeIfaceRead sid).
Proof. unfold tryServeIfaceRead. frame. Qed.
Hint Resolve grow_read : frame.
Lemma grow_SetInterface sid iid : preserves J (SetInterface sid iid).
Proof. unfold SetInterface. frame. Qed.
Lemma grow_Serve sid : preserves J (Serve sid).
Proof.
  unfold Serve, registerDefaultCommandHandlers, installPingPongHandlers. frame.
  apply preserves_ret.
Qed.
Lemma grow_run_task t : preserves J (run_task t).
Proof.
  unfold run_task, closeDone, sendDefaultWelcome, sendErrorAndClose, SendMessage, MakeAndSendCommand.
  frame.
Qed.
Hint Resolve grow_SetInterface grow_Serve grow_run_task : frame.

(** Changes of the client itself that its view does not see. *)
Lemma grow_client f : (∀ c, view (f c) = view c) → preserves J (upd_client f).
Proof.
  intros Hf. apply preserves_modify. intros w. apply J_grows. split; [apply Hf|eauto].
Qed.
Hint Extern 1 (preserves _ (upd_client _)) => (apply grow_client; intros ?; reflexivity) : frame.

Lemma grow_open_interface mode : preserves J (open_interface mode).
Proof.
  intros w w' r Hw. unfold open_interface. cbn. intros [= <- _]. apply (J_grows w); [|done].
  split; [done|eauto].
Qed.
Lemma grow_keep_interface i : preserves J (keep_interface i).
Proof.
  intros w w' r Hw. unfold keep_interface. intros [= <- _]. apply (J_grows w); [|done].
  split; [done|eauto].
Qed.
Lemma grow_Client_SetMTU mtu : preserves J (Client_SetMTU mtu).
Proof. unfold Client_SetMTU. frame. Qed.
Hint Resolve grow_open_interface grow_keep_interface grow_Client_SetMTU : frame.

Lemma grow_addroute command : preserves J (addroute_handler command).
Proof. unfold addroute_handler. frame. Qed.
Lemma grow_setmtu command : preserves J (setmtu_handler command).
Proof. unfold setmtu_handler. frame. Qed.
End Grows.

(** ** The scripts alternate *)

Definition script_events (c : Client) : list string := (scripts c).*1.*1.

(** Ups and downs in turn, and an up that is still owed its down. *)
Definition alternating (l : list string) (up : bool) : Prop :=
  ∃ n, l = concat (replicate n [EventUp; EventDown]) ++ if up then [EventUp] else [].

Lemma alternating_up l : alternating l false → alternating (l ++ [EventUp]) true.
Proof. intros [n ->]. exists n. by rewrite app_nil_r. Qed.

Lemma alternating_down l : alternating l true → alternating (l ++ [EventDown]) false.
Proof.
  intros [n ->]. exists (S n). rewrite <- app_assoc, app_nil_r.
  rewrite replicate_S_end, concat_app. done.
Qed.

Section Alternation.
Context {A I : Type} `{SocketAdapterSpec A} `{WaterInterface I} `{!Configurable I} `{!NewInterface I}
  `{FindLowest} `{NewRandom} `{Cidr}.
Implicit Types w : World A I Client.

(** A client that is online has a socket with an interface. *)
Definition online w : Prop :=
  alternating (script_events (env w)) (sentUpEvent (env w))
  ∧ (sentUpEvent (env w) = true → ∃ sid s,
       c_socket (env w) = Some sid ∧ socks w !! sid = Some s ∧ is_Some (iface s)).

Definition quiet w : Prop :=
  alternating (script_events (env w)) false ∧ sentUpEvent (env w) = false.

(** During the init handler: the client's socket is the one that the handler read. *)
Definition online_with (sid : SocketId) w : Prop := online w ∧ c_socket (env w) = Some sid.

(** After [SetInterface] gave the socket its interface. *)
Definition ready_for_up (sid : SocketId) w : Prop :=
  quiet w ∧ c_socket (env w) = Some sid ∧ ∃ s, socks w !! sid = Some s ∧ is_Some (iface s).

Lemma view_eq (c c' : Client) : view c' = view c →
  script_events c' = script_events c ∧ sentUpEvent c' = sentUpEvent c ∧ c_socket c' = c_socket c.
Proof. unfold view, script_events. by intros [= -> -> ->]. Qed.

Lemma online_grows w w' : grows w w' → online w → online w'.
Proof.
  intros [(He & Hu & Hc)%view_eq Hs] [Ha Hi]. unfold online. rewrite He, Hu, Hc. split; [done|].
  intros Hup. destruct (Hi Hup) as (sid & s & Hsid & Hlook & Hif).
  destruct (Hs _ _ Hlook Hif) as (s' & ? & ?). eauto.
Qed.

Lemma quiet_grows w w' : grows w w' → quiet w → quiet w'.
Proof. intros [(He & Hu & _)%view_eq _]. unfold quiet. by rewrite He, Hu. Qed.

Lemma online_with_grows sid w w' : grows w w' → online_with sid w → online_with sid w'.
Proof.
  intros Hg [Ho Hc]. split; [by eapply online_grows|].
  destruct Hg as [(_ & _ & E)%view_eq _]. by rewrite E.
Qed.

Lemma ready_grows sid w w' : grows w w' → ready_for_up sid w → ready_for_up sid w'.
Proof.
  intros Hg (Hq & Hc & s & Hs & Hi). split; [by eapply quiet_grows|].
  destruct Hg as [(_ & _ & E)%view_eq Hgs]. rewrite E. split; [done|]. eauto.
Qed.

Lemma quiet_online w : quiet w → online w.
Proof. intros [Ha Hu]. unfold online. rewrite Hu. done. Qed.

Lemma ready_online sid w : ready_for_up sid w → online w.
Proof. intros [Hq _]. by apply quiet_online. Qed.

(** A socket can be given an interface only while the client is not online with it. *)
Lemma SetInterface_ready sid iid w w' :
  online_with sid w → SetInterface sid iid w = Ret (w', None) → ready_for_up sid w'.
Proof.
  intros [[Ha Hi] Hc] E. unfold SetInterface in E.
  apply prog_bind_inv in E as (w1 & s & E1 & E). unfold sock in E1.
  destruct (socks w !! sid) as [s0|] eqn:Hs; [|done]. injection E1 as <- <-.
  destruct (iface s0) as [i|] eqn:Hif; [done|].
  apply prog_bind_inv in E as (w2 & u2 & E2 & E). apply prog_bind_inv in E as (w3 & u3 & E3 & E).
  injection E as <-. eapply (grow_read _ (ready_grows sid)); [|exact E3]. injection E2 as <- _.
  assert (Hup : sentUpEvent (env w) = false).
  { destruct (sentUpEvent (env w)); [|done]. destruct (Hi eq_refl) as (sid' & s' & Ec & Es & Ei).
    simplify_eq. rewrite Hif in Ei. by destruct Ei. }
  rewrite Hup in Ha. split_and!; [done|done|].
  eexists. simpl. rewrite lookup_alter_eq, Hs. split; [done|]. by eexists.
Qed.

Lemma script_run event w :
  ∃ x y, doRunEventScript event w
  = Ret (w <| env := (env w) <| scripts := scripts (env w) ++ [(event, x, y)] |> |>, tt).
Proof. eexists _, _. reflexivity. Qed.

(** The end of the init handler. *)
Lemma going_up sid (w w' : World A I Client) (r r' : option error) :
  ready_for_up sid w →
  (doRunEventScript EventUp;; upd_client (λ c, c <| sentUpEvent := true |>);; mret r) w
  = Ret (w', r') → online w'.
Proof.
  intros ([Ha Hu] & Hc & s & Hs & Hi) E. destruct (script_run EventUp w) as (x & y & Hx).
  rewrite (run_bind _ _ _ _ _ Hx) in E. injection E as <- _. split.
  - unfold script_events in *. simpl. rewrite !fmap_app. by apply alternating_up.
  - intros _. exists sid, s. done.
Qed.

Lemma init_interface_online sid net p iid w w' r :
  online_with sid w → init_interface sid net p iid w = Ret (w', r) → online w'.
Proof.
  intros Ho E. unfold init_interface in E.
  pose proof (online_with_grows sid) as Hg.
  apply prog_bind_inv in E as (w1 & e1 & E1 & E). apply (grow_iface _ Hg _ _ _ _ _ Ho) in E1.
  destruct e1; [injection E as <- _; apply E1|]. cbn [on_ok] in E.
  apply prog_bind_inv in E as (w2 & e2 & E2 & E). apply (grow_Client_SetMTU _ Hg _ _ _ _ E1) in E2.
  destruct e2; [injection E as <- _; apply E2|]. cbn [on_ok] in E.
  apply prog_bind_inv in E as (w3 & e3 & E3 & E).
  destruct e3.
  { apply (grow_SetInterface _ Hg _ _ _ _ _ E2) in E3. injection E as <- _. apply E3. }
  apply (SetInterface_ready sid iid w2 w3 E2) in E3. cbn [on_ok] in E.
  apply prog_bind_inv in E as (w4 & c & E4 & E). injection E4 as <- <-.
  apply prog_bind_inv in E as (w5 & e5 & E5 & E).
  assert (Hr : ready_for_up sid w5).
  { destruct (SetDefaultGateway (env w3)); [|by injection E5 as <- _].
    exact (grow_iface _ (ready_grows sid) _ _ _ _ _ E3 E5). }
  by eapply going_up.
Qed.

Lemma init_online command w w' r : online w → init_handler command w = Ret (w', r) → online w'.
Proof.
  intros Ho E. unfold init_handler in E.
  destruct (commands.DeserializeParameters _ _ _) as [p|err]; [|by injection E as <- _].
  apply prog_bind_inv in E as (w1 & u1 & E1 & E). apply prog_bind_inv in E as (w2 & u2 & E2 & E).
  assert (Ho2 : online w2).
  { assert (Hset : ∀ (b : bool) f v v' u, (∀ c, view (f c) = view c) → online v →
      (if b then mret tt else upd_client f) v = Ret (v', u) → online v').
    { intros b f v v' u Hf Hv Ev. destruct b; [by injection Ev as <- _|].
      exact (grow_client _ online_grows f Hf _ _ _ Hv Ev). }
    assert (Ho1 : online w1) by (eapply Hset; [|exact Ho|exact E1]; done).
    eapply Hset; [|exact Ho1|exact E2]; done. }
  apply prog_bind_inv in E as (w3 & c & E3 & E). injection E3 as <- <-.
  destruct (c_socket (env w2)) as [sid|] eqn:Hsid; [|done].
  assert (Hw : online_with sid w2) by done. pose proof (online_with_grows sid) as Hg.
  apply prog_bind_inv in E as (w4 & u4 & E4 & E). 
  eapply (grow_upd _ Hg) in E4; [|intros s; by rewrite HandleInit_iface|exact Hw].
  destruct (ParseVPNNet _) as [net|err].
  2: { apply prog_bind_inv in E as (w5 & u5 & E5 & E). injection E as <- _.
       assert (Ho5 : online_with sid w5) by (eapply (grow_client _ Hg); [|exact E4|exact E5]; done).
       apply Ho5. }
  apply prog_bind_inv in E as (w5 & u5 & E5 & E). 
  assert (Ho5 : online_with sid w5) by (eapply (grow_client _ Hg); [|exact E4|exact E5]; done).
  apply prog_bind_inv in E as (w6 & u6 & E6 & E). 
  assert (Ho6 : online_with sid w6) by (eapply (grow_upd _ Hg); [|exact Ho5|exact E6]; done).
  apply prog_bind_inv in E as (w7 & o & E7 & E). 
  apply (grow_open_interface _ Hg _ _ _ _ Ho6) in E7.
  destruct o as [i|err]; [|injection E as <- _; apply E7].
  apply prog_bind_inv in E as (w8 & iid & E8 & E). 
  apply (grow_keep_interface _ Hg _ _ _ _ E7) in E8.
  exact (init_interface_online _ _ _ _ _ _ _ E8 E).
Qed.

Lemma online_client_handler sid h command : preserves online (client_handler sid h command).
Proof.
  unfold client_handler, client_commands. destruct h; try apply preserves_ret.
  - apply (grow_addroute _ online_grows).
  - intros w w' r. by apply init_online.
  - apply (grow_setmtu _ online_grows).
Qed.

Hint Resolve online_client_handler online_grows : frame.
Hint Extern 1 (preserves _ (sock _)) => (apply grow_sock) : frame.
Hint Extern 2 (preserves _ (upd _ _)) => (apply (grow_upd _ online_grows); intros ? ?; done) : frame.
Hint Extern 2 (preserves _ (rawMakeAndSendCommand _ _ _)) => (apply (grow_command _ online_grows)) : frame.
Hint Extern 2 (preserves _ (iface_call _ _)) => (apply (grow_iface _ online_grows)) : frame.

Lemma online_run_handler sid h command : preserves online (run_handler sid h command).
Proof.
  unfold run_handler. destruct h; frame.
  apply (grow_upd _ online_grows). intros s. by rewrite handleVersion_iface.
Qed.
Hint Resolve online_run_handler : frame.

Lemma online_control sid message : preserves online (controlMessageHandler sid message).
Proof.
  unfold controlMessageHandler. apply preserves_bind; [apply grow_sock|intros s].
  destruct (commands.DeserializeCommand _ _) as [[c|e]|why|]; [|frame|frame|by intros w w' r].
  frame.
Qed.

Lemma online_data sid message : preserves online (dataMessageHandler sid message).
Proof.
  unfold dataMessageHandler, processPacket. frame.
  - apply (grow_local _ online_grows). intros s s' v [= Er].
    match type of Er with receive_data ?t _ _ = _ =>
      pose proof (receive_data_iface t message s) as Hi end. by rewrite Er in Hi.
  - apply preserves_ret.
Qed.

Lemma online_perform a : preserves online (perform a).
Proof.
  destruct a; cbn [perform]; try (apply preserves_bind; [|intros; apply preserves_ret]).
  - apply (grow_Serve _ online_grows).
  - apply (grow_CloseSocket _ online_grows).
  - apply (grow_CloseError _ online_grows).
  - apply (grow_WritePacket _ online_grows).
  - apply online_data.
  - apply online_control.
  - apply (grow_command _ online_grows).
  - apply (grow_SetInterface _ online_grows).
  - unfold iface_read_step. frame. apply (grow_WritePacket _ online_grows).
  - frame.
  - apply preserves_ret.
Qed.

Lemma online_step w w' : step w w' → online w → online w'.
Proof.
  intros [a w1 w2 _ Ep|t l1 l2 w1 w2 _ Er|w1 sid ad ifc managed pusher Hn _ _|w1 t] Ho.
  - exact (online_perform a _ _ _ Ho Ep).
  - eapply (grow_run_task _ online_grows); [|exact Er]. eapply online_grows; [|exact Ho].
    by apply grows_same.
  - eapply online_grows; [|exact Ho]. split; [done|]. intros sid' s Hs Hi. simpl.
    rewrite lookup_insert_ne by (intros ->; congruence). eauto.
  - eapply online_grows; [|exact Ho]. by apply grows_same.
Qed.

(** ** Closing and connecting *)

Lemma quiet_client f : (∀ c, scripts (f c) = scripts c ∧ sentUpEvent (f c) = sentUpEvent c) →
  preserves quiet (upd_client f).
Proof.
  intros Hf. apply preserves_modify. intros w. unfold quiet, script_events. simpl.
  by destruct (Hf (env w)) as [-> ->].
Qed.

Lemma closeInternal_quiet w w' r : online w → closeInternal w = Ret (w', r) → quiet w'.
Proof.
  intros Ho E. unfold closeInternal in E.
  apply prog_bind_inv in E as (w1 & c & E1 & E). injection E1 as <- <-.
  apply prog_bind_inv in E as (w2 & u2 & E2 & E).
  assert (Hq : quiet w2).
  { destruct Ho as [Ha _]. destruct (sentUpEvent (env w)) eqn:Hu; [|by injection E2 as <- _].
    destruct (script_run EventDown w) as (x & y & Hx). rewrite (run_bind _ _ _ _ _ Hx) in E2.
    injection E2 as <- _. split; [|done]. unfold script_events in *. simpl. rewrite !fmap_app.
    by apply alternating_down. }
  clear E2. revert E. generalize (c_socket (env w)) (adapterOf (env w)) (c_iface (env w)).
  intros os oa oi. match goal with |- ?m w2 = _ → _ => assert (Hp : preserves quiet m) end.
  { repeat (apply preserves_bind; [|intros _]); destruct os, oa, oi; try apply preserves_ret;
      repeat (apply preserves_bind; [|intros _]); try (by apply quiet_client);
      first [apply (grow_CloseSocket _ quiet_grows)|apply (grow_adapter _ quiet_grows)
            |apply (grow_iface _ quiet_grows)]. }
  by apply Hp.
Qed.

Lemma Client_Serve_quiet dialed : preserves quiet (Client_Serve dialed).
Proof.
  destruct dialed as [a|err]; [|apply preserves_ret]. intros w. unfold Client_Serve.
  generalize (base.fresh (dom (socks w) : gset SocketId)). intros sid. revert w.
  match goal with |- ∀ w w' r, quiet w → ?m w = _ → _ => change (preserves quiet m) end.
  unfold Client_UpdateSocketConfig, registerCommandHandlers.
  assert (Hm : preserves quiet (modify (λ w : World A I Client,
    w <| socks := <[sid := MakeSocket a None true false]> (socks w) |>))).
  { by apply preserves_modify. }
  assert (Hu : ∀ sid f, preserves quiet (upd (I := I) (E := Client) (A := A) sid f)).
  { intros sid' f. by apply preserves_modify. }
  apply preserves_bind; [by apply quiet_client|intros _].
  apply preserves_bind; [exact Hm|intros _].
  frame; try apply Hu. apply (grow_Serve _ quiet_grows).
Qed.

(** The steps of a client: those of its sockets, a turn of its loop with
    whatever dialing gives, and its being closed. *)
Inductive client_step (w w' : World A I Client) : Prop :=
| client_socket_step : step w w' → client_step w w'
| client_turn dialed : serve_turn dialed w = Ret (w', tt) → client_step w w'
| client_closed : Client_Close w = Ret (w', tt) → client_step w w'.

Lemma online_client_step w w' : client_step w w' → online w → online w'.
Proof.
  intros [Hs|dialed E|E] Ho; [by eapply online_step|..].
  - unfold serve_turn in E. apply prog_bind_inv in E as (w1 & u1 & E1 & E).
    apply (closeInternal_quiet _ _ _ Ho) in E1.
    apply prog_bind_inv in E as (w2 & u2 & E2 & E). injection E as <-.
    apply quiet_online. exact (Client_Serve_quiet _ _ _ _ E1 E2).
  - unfold Client_Close in E. apply prog_bind_inv in E as (w1 & u1 & E1 & E).
    apply quiet_online. refine (closeInternal_quiet _ _ _ _ E).
    eapply (grow_client _ online_grows); [|exact Ho|exact E1]. done.
Qed.

(** C38. However often a client connects, loses its connection or is
    closed, and whatever commands the server sends it, several init commands
    included, its scripts for going up and down are started in turn, beginning
    with up; and while a down is owed, its socket has an interface. *)
Theorem scripts_alternate w0 w :
  scripts (env w0) = [] → sentUpEvent (env w0) = false → rtc client_step w0 w →
  alternating (script_events (env w)) (sentUpEvent (env w))
  ∧ (sentUpEvent (env w) = true → ∃ sid s,
       c_socket (env w) = Some sid ∧ socks w !! sid = Some s ∧ is_Some (iface s)).
Proof.
  intros Hs Hu Hr. assert (Ho : online w0).
  { unfold online, script_events. rewrite Hs, Hu. split; [by exists 0%nat|done]. }
  clear Hs Hu. change (online w). induction Hr as [|w1 w2 w3 Hst _ IH]; [done|].
  apply IH. by eapply online_client_step.
Qed.
End Alternation.

(** ** A closed instance *)

#[export] Instance unit_configurable : Configurable unit := {
  Configure _ _ _ i := (i, None); AddIPRoute _ _ i := (i, None); iface_name _ := "tun0"%string }.
#[export] Instance unit_new_interface : NewInterface unit := λ _ _, inl tt.
#[export] Instance same_name : FindLowest := λ prefix, prefix.

Definition client_start : World recorder unit Client := mkWorld ∅ ∅ NewClient [] [] 0 0.

Definition init_message : bytes :=
  match commands.Serialize (commands.MakeCommand (inl "id"%string) (commands.Init
          (commands.mkInit "TUN" true "10.0.0.2/29" 1400 "server" "client" true)) EmptyString).1 1 with
  | inl b => b | inr _ => [] end.

Definition dialed_adapter : recorder + error := inl (mkRecorder [] [] 0 1184 false true).

Definition client1 := after (serve_turn dialed_adapter) client_start.
Definition client2 := after (perform (DoControl 0 init_message)) client1.
Definition client3 := after (perform (DoControl 0 init_message)) client2.
Definition client4 := after (serve_turn dialed_adapter) client3.
Definition client5 := after (perform (DoControl 1 init_message)) client4.

(** Two init commands on the first connection, one on the second. *)
Lemma scripts_alternate_witness :
  script_events (env client5) = [EventUp; EventDown; EventUp]
  ∧ alternating (script_events (env client5)) (sentUpEvent (env client5))
  ∧ (sentUpEvent (env client5) = true → ∃ sid s,
       c_socket (env client5) = Some sid ∧ socks client5 !! sid = Some s ∧ is_Some (iface s)).
Proof.
  split; [vm_compute; reflexivity|].
  apply (scripts_alternate client_start client5); [reflexivity|reflexivity|].
  eapply rtc_l; [apply (client_turn client_start client1 dialed_adapter); vm_compute; reflexivity|].
  eapply rtc_l; [apply client_socket_step, (step_action (DoControl 0 init_message) client1 client2);
    [exact I|vm_compute; reflexivity]|].
  eapply rtc_l; [apply client_socket_step, (step_action (DoControl 0 init_message) client2 client3);
    [exact I|vm_compute; reflexivity]|].
  eapply rtc_l; [apply (client_turn client3 client4 dialed_adapter); vm_compute; reflexivity|].
  eapply rtc_l; [apply client_socket_step, (step_action (DoControl 1 init_message) client4 client5);
    [exact I|vm_compute; reflexivity]|].
  apply rtc_refl.
Defined.
