(* ===== verification/Reconnect.v ===== *)
(** * The client's loop over its connections

    ServeLoop and Wait of src/client/clients/base.go, and Wait of
    src/shared/sockets/base.go.  The loop runs beside the goroutines of the
    client's sockets and beside whoever closes the client, so it is a
    transition system: the loop advances from one of its waiting points to the
    next, and the others act in between.  Only the goroutine that serves a
    socket handles its messages, and only the one that reads the interface
    writes packets of the interface. *)

From S2P Require Import Prelude Json Commands Adapter Socket World Lifecycle Frame Net IPText VPNNet.
From S2P Require Import Shared Negotiation Http Upgraders Iface Client ClientSpec.
Import adapters.

(** Where the loop is: before a turn; after [c.Serve]; inside [wg.Wait] of the
    socket it found; before the test of [AutoReconnectDelay]; in [time.Sleep];
    after the [break]. *)
Inductive serving_phase : Type :=
| Starting
| Served
| Waiting (on : SocketId)
| Deciding
| Sleeping
| Finished.

#[export] Instance serving_phase_dec : EqDecision serving_phase.
Proof. solve_decision. Defined.

Section Loop.
Context {A I : Type} `{SocketAdapter A} `{WaterInterface I} `{!Configurable I} `{!NewInterface I}
  `{FindLowest} `{NewRandom} `{Cidr}.
Abbreviation P := (prog (World A I Client)).

(** [Socket.Wait]: whether it returns. *)
Definition Socket_Wait (s : Socket A) : bool := wg s =? 0.

(** [Client.Wait]: the socket it waits for, which it reads once. *)
Definition Client_Wait (c : Client) : serving_phase :=
  match c_socket c with None => Deciding | Some sid => Waiting sid end.

(** One advance of [ServeLoop]; [None] if it cannot go on yet. *)
Definition ServeLoop_step (dialed : A + error) (p : serving_phase) : P (option serving_phase) :=
  match p with
  | Starting => serve_turn dialed;; mret (Some Served)
  | Served => c ← gets env; mret (Some (Client_Wait c))
  | Waiting sid => s ← sock sid; mret (if Socket_Wait s then Some Deciding else None)
  | Deciding => c ← gets env; mret (Some (if reconnects c then Sleeping else Finished))
  | Sleeping => mret (Some Starting)
  | Finished => mret None
  end.

(** The goroutine an action is part of, where the model knows it. *)
Definition may_act (a : action) (w : World A I Client) : Prop :=
  match a with
  | DoData sid _ | DoControl sid _ => AdapterServe sid ∈ tasks w
  | DoIfaceRead sid _ => IfaceRead sid ∈ tasks w
  | DoServe _ | DoSetInterface _ _ | DoHandlePacket _ => False
  | DoClose _ | DoCloseError _ _ | DoWritePacket _ _ | DoCommand _ _ | DoCleanup _ => True
  end.

Record serve_loop := mkLoop { loop_world : World A I Client; loop_at : serving_phase }.

Inductive loop_step : serve_loop → serve_loop → Prop :=
| loop_action a w w' p :
    may_act a w → perform a w = Ret (w', tt) → loop_step (mkLoop w p) (mkLoop w' p)
| loop_task t l1 l2 w w' p :
    tasks w = l1 ++ t :: l2 → run_task t (w <| tasks := l1 ++ l2 |>) = Ret (w', tt) →
    loop_step (mkLoop w p) (mkLoop w' p)
| loop_time t w p : loop_step (mkLoop w p) (mkLoop (w <| now := t |>) p)
| loop_advance dialed w w' p p' :
    ServeLoop_step dialed p w = Ret (w', Some p') → loop_step (mkLoop w p) (mkLoop w' p')
| loop_close w w' p :
    Client_Close w = Ret (w', tt) → loop_step (mkLoop w p) (mkLoop w' p).

(** A client that was just made and configured. *)
Definition loop_start (l : serve_loop) : Prop :=
  let w := loop_world l in
  socks w = ∅ ∧ tasks w = [] ∧ events w = [] ∧ c_socket (env w) = None
  ∧ adapterOf (env w) = None ∧ c_iface (env w) = None ∧ loop_at l = Starting.

End Loop.
Arguments serve_loop A I : clear implicits.

(** How many advances of the loop are left once it does not reconnect. *)
Definition advances_left (p : serving_phase) : nat :=
  match p with
  | Sleeping => 5 | Starting => 4 | Served => 3 | Waiting _ => 2 | Deciding => 1 | Finished => 0
  end.

(** ** What the goroutines leave alone *)

(** The client's sockets push no events. *)
Definition no_events {A I} (w : World A I Client) : Prop :=
  events w = [] ∧ ∀ sid s, socks w !! sid = Some s → eventPusher s = false.

(** The client's socket, its delay, and which goroutines a WaitGroup counts:
    only those of [last], and none unless [busy].  What the client and its
    sockets name exists, and so do the interfaces in [known]. *)
Record state_of_loop {A I} (known : gset IfaceId) (busy : bool) (last : SocketId)
    (cs : option SocketId) (delay : Z) (w : World A I Client) : Prop := mkState {
  sl_quiet : no_events w;
  sl_tasks : ∀ t sid, t ∈ tasks w → waits_for sid t → busy = true ∧ sid = last;
  sl_socket : c_socket (env w) = cs;
  sl_last : ∀ sid, cs = Some sid → sid = last;
  sl_delay : AutoReconnectDelay (env w) = delay;
  sl_there : busy = true ∨ cs = Some last → is_Some (socks w !! last);
  sl_ifaces : ∀ sid s iid, socks w !! sid = Some s → iface s = Some iid → is_Some (ifaces w !! iid);
  sl_known : ∀ iid, iid ∈ known → is_Some (ifaces w !! iid);
  sl_adapter : ∀ sid, adapterOf (env w) = Some sid → is_Some (socks w !! sid);
  sl_client : ∀ iid, c_iface (env w) = Some iid → is_Some (ifaces w !! iid) }.

Arguments sl_quiet {A I known busy last cs delay w} _.
Arguments sl_tasks {A I known busy last cs delay w} _.
Arguments sl_socket {A I known busy last cs delay w} _.
Arguments sl_last {A I known busy last cs delay w} _.
Arguments sl_delay {A I known busy last cs delay w} _.
Arguments sl_there {A I known busy last cs delay w} _.
Arguments sl_ifaces {A I known busy last cs delay w} _.
Arguments sl_known {A I known busy last cs delay w} _.
Arguments sl_adapter {A I known busy last cs delay w} _.
Arguments sl_client {A I known busy last cs delay w} _.

Lemma forget_known {A I} known known' busy last cs delay (w : World A I Client) :
  known' ⊆ known → state_of_loop known busy last cs delay w → state_of_loop known' busy last cs delay w.
Proof. intros Hk [? ? ? ? ? ? ? ? ? ?]. split; auto. Qed.

Section Calm.
Context {A I : Type} `{SocketAdapter A} `{WaterInterface I} `{!Configurable I} `{!NewInterface I}
  `{FindLowest} `{NewRandom} `{Cidr}.
Context (known : gset IfaceId) (busy : bool) (last : SocketId) (cs : option SocketId) (delay : Z).
Abbreviation J := (state_of_loop (A := A) (I := I) known busy last cs delay).

Lemma calm_world (w w' : World A I Client) :
  env w' = env w → tasks w' = tasks w → events w' = events w →
  (∀ sid s', socks w' !! sid = Some s' → ∃ s, socks w !! sid = Some s
     ∧ eventPusher s' = eventPusher s ∧ iface s' = iface s) →
  (∀ sid, is_Some (socks w !! sid) → is_Some (socks w' !! sid)) →
  (∀ iid, is_Some (ifaces w !! iid) → is_Some (ifaces w' !! iid)) →
  J w → J w'.
Proof.
  intros He Ht Hev Hs Hd Hi [[Hq Hp] ? ? ? ? ? Hif ? ? ?]. split; rewrite ?He, ?Ht; auto.
  - split; [by rewrite Hev|].
    intros sid s' Hlook. destruct (Hs _ _ Hlook) as (s & Hlook' & -> & _). by eapply Hp.
  - intros sid s' iid Hlook. destruct (Hs _ _ Hlook) as (s & Hlook' & _ & ->).
    intros Hs'. apply Hi. by eapply Hif.
Qed.

Lemma calm_modify f :
  (∀ w : World A I Client, env (f w) = env w) → (∀ w, tasks (f w) = tasks w) →
  (∀ w, events (f w) = events w) → (∀ w, socks (f w) = socks w) →
  (∀ w iid, is_Some (ifaces w !! iid) → is_Some (ifaces (f w) !! iid)) → preserves J (modify f).
Proof.
  intros He Ht Hev Hs Hi. apply preserves_modify. intros w. apply calm_world; try done; auto;
    rewrite Hs; eauto.
Qed.

Lemma calm_upd sid f :
  (∀ s, eventPusher (f s) = eventPusher s ∧ iface (f s) = iface s) → preserves J (upd sid f).
Proof.
  intros Hf. apply preserves_modify. intros w. apply calm_world; try done; simpl.
  - intros sid' s' Hs. destruct (decide (sid = sid')) as [<-|Hne].
    + rewrite lookup_alter_eq in Hs. apply fmap_Some in Hs as (s & Hs & ->). destruct (Hf s). eauto.
    + rewrite lookup_alter_ne in Hs by done. eauto.
  - intros sid'. by rewrite lookup_alter_is_Some.
Qed.

Lemma calm_client f :
  (∀ c, c_socket (f c) = c_socket c) → (∀ c, AutoReconnectDelay (f c) = AutoReconnectDelay c) →
  (∀ c sid, adapterOf (f c) = Some sid → adapterOf c = Some sid) →
  (∀ c iid, c_iface (f c) = Some iid → c_iface c = Some iid) → preserves J (upd_client f).
Proof.
  intros Hc Hd Ha Hi. apply preserves_modify. intros w [? ? ? ? ? ? ? ? ? ?]. split; try done; simpl; auto.
  - by rewrite Hc.
  - by rewrite Hd.
Qed.

Lemma calm_sock sid : preserves J (sock sid).
Proof. intros w w' r Hw. unfold sock. case_match; [|done]. by intros [= <- _]. Qed.

(** What is read of a socket is that it pushes no events. *)
Lemma calm_sock_bind {R} sid (k : Socket A → prog (World A I Client) R) :
  (∀ s, eventPusher s = false → preserves J (k s)) → preserves J (sock sid ≫= k).
Proof.
  intros Hk w w' r Hw. unfold mbind, prog_bind, sock. destruct (socks w !! sid) as [s|] eqn:Es; [|done].
  apply Hk; [|done]. apply (proj2 (sl_quiet Hw) _ _ Es).
Qed.

(** And of the client, that its socket is the last one. *)
Lemma calm_gets_bind {R} (k : Client → prog (World A I Client) R) :
  (∀ c, (∀ sid, c_socket c = Some sid → sid = last) → preserves J (k c)) →
  preserves J (gets env ≫= k).
Proof.
  intros Hk w w' r Hw. apply Hk; [|done]. intros sid E. apply (sl_last Hw).
  by rewrite <- (sl_socket Hw).
Qed.

Lemma calm_spawn t : (∀ sid, ¬ waits_for sid t) → preserves J (spawn t).
Proof.
  intros Ht. apply preserves_modify. intros w [? Hts ? ? ? ? ? ? ? ?]. split; try done.
  intros t' sid [Hin|[->|[]%elem_of_nil]%elem_of_cons]%elem_of_app Hw; [by eapply Hts|].
  by destruct (Ht sid).
Qed.

Lemma calm_local {R} sid (f : Socket A → outcome (Socket A * R)) :
  (∀ s s' r, f s = Ret (s', r) → eventPusher s' = eventPusher s ∧ iface s' = iface s) →
  preserves J (local_call sid f).
Proof.
  intros Hf w w' r Hw. unfold local_call. destruct (socks w !! sid) as [s|] eqn:Hs; [|done].
  destruct (f s) as [[s' r']| |] eqn:Ef; [|done..]. intros [= <- _]. apply Hf in Ef.
  apply (calm_world w); try done; simpl.
  - intros sid' s0 Hs0. destruct (decide (sid = sid')) as [<-|Hne].
    + rewrite lookup_insert_eq in Hs0. simplify_eq. eauto.
    + rewrite lookup_insert_ne in Hs0 by done. eauto.
  - intros sid' Hs'. rewrite lookup_insert_is_Some'. by right.
Qed.

Lemma calm_make_command p id : preserves J (make_command p id).
Proof.
  intros w w' r Hw. unfold make_command. intros [= <- _]. apply (calm_world w); try done;
    case_bool_decide; simpl; eauto.
Qed.

Lemma calm_unregister sid : preserves J (unregister sid).
Proof.
  intros w w' r Hw. unfold unregister. destruct (socks w !! sid) as [s|]; [|done].
  simpl. intros [= <- _]. apply (calm_world w); simpl; eauto.
Qed.
End Calm.

(** The code's steps one after the other, with what its reads give. *)
Ltac calm_step :=
  match goal with
  | |- preserves _ (sock _ ≫= _) => apply calm_sock_bind; intros ? ?
  | |- preserves _ (_ ≫= _) => apply preserves_bind; [|intros ?]
  | Hp : eventPusher ?s = false |- preserves _ (if eventPusher ?s && _ then _ else _) =>
      rewrite Hp; cbn [andb]
  | |- preserves _ (match ?x with _ => _ end) => destruct x eqn:?
  | |- preserves _ (modify _) => apply calm_modify; intros ?; solve [reflexivity|by intros ?|
      intros ? ?; apply lookup_insert_is_Some'; by right]
  | |- preserves _ (upd _ _) => apply calm_upd; intros ?; split; reflexivity
  | |- preserves _ (upd_client _) => apply calm_client; intros ?; solve [reflexivity|intros ? ?; first [assumption|done]]
  | |- preserves _ (spawn _) => apply calm_spawn; intros ? [?|[?|?]]; discriminate
  | |- preserves _ (sock _) => apply calm_sock
  | |- preserves _ (make_command _ _) => apply calm_make_command
  | |- preserves _ (unregister _) => apply calm_unregister
  | |- preserves _ _ => solve [auto with frame]
  end.
Ltac calm := cbv zeta; repeat calm_step.

Section Operations.
Context {A I : Type} `{SocketAdapterSpec A} `{WaterInterface I} `{!Configurable I} `{!NewInterface I}
  `{FindLowest} `{NewRandom} `{Cidr}.
Context (known : gset IfaceId) (busy : bool) (last : SocketId) (cs : option SocketId) (delay : Z).
Abbreviation J := (state_of_loop (A := A) (I := I) known busy last cs delay).

Lemma calm_adapter sid f : preserves J (adapter_call sid f).
Proof. unfold adapter_call. calm. Qed.
Lemma calm_iface iid f : preserves J (iface_call iid f).
Proof. unfold iface_call. calm. Qed.
Hint Resolve calm_adapter calm_iface : frame.

Lemma calm_close sid b : preserves J (close sid b).
Proof. unfold close, close_channel. calm. Qed.
Hint Resolve calm_close : frame.
Lemma calm_CloseError sid err : preserves J (CloseError sid err).
Proof. unfold CloseError. calm. Qed.
Lemma calm_CloseSocket sid : preserves J (CloseSocket sid).
Proof. unfold CloseSocket. calm. Qed.
Hint Resolve calm_CloseError calm_CloseSocket : frame.
Lemma calm_command sid p id : preserves J (rawMakeAndSendCommand sid p id).
Proof. unfold rawMakeAndSendCommand. calm. Qed.
Hint Resolve calm_command : frame.

(** The operations on the socket alone keep its life, hence its pusher. *)
Lemma local_pusher {R} (f : Socket A → outcome (Socket A * R)) s s' r :
  local_ok s (f s) → f s = Ret (s', r) → eventPusher s' = eventPusher s.
Proof. intros Hl E. rewrite E in Hl. by injection Hl. Qed.

Lemma calm_WritePacket sid packet : preserves J (WritePacket sid packet).
Proof.
  unfold WritePacket. calm. apply calm_local. intros s' s1 x Ew. split; [|by eapply write_retry_iface].
  revert Ew. apply local_pusher, write_retry_local.
  pose proof (max_range (adapter s')). unfold retry_fuel. lia.
Qed.
Hint Resolve calm_WritePacket : frame.

Lemma calm_wg sid n : preserves J (wg_add sid n).
Proof. unfold wg_add. calm. Qed.
Hint Resolve calm_wg : frame.

Lemma calm_run_task t : preserves J (run_task t).
Proof.
  unfold run_task, closeDone, sendDefaultWelcome, sendErrorAndClose, SendMessage, MakeAndSendCommand.
  calm.
Qed.

(** Only the last socket gets more goroutines, while it is being served. *)
Lemma calm_go t : busy = true → waits_for last t → preserves J (go_waited last t).
Proof.
  intros Hb Ht. unfold go_waited. apply preserves_bind; [apply calm_wg|intros _].
  apply preserves_modify. intros w [? Hts ? ? ? ? ? ? ? ?]. split; try done.
  intros t' sid [Hin|[->|[]%elem_of_nil]%elem_of_cons]%elem_of_app Hw; [by eapply Hts|].
  split; [done|]. destruct (decide (sid = last)) as [->|Hne]; [done|].
  by destruct (waits_for_other _ sid _ Ht Hne).
Qed.

Lemma calm_read : busy = true → preserves J (tryServeIfaceRead last).
Proof.
  intros Hb. unfold tryServeIfaceRead. calm. apply calm_go; [done|]. unfold waits_for. auto.
Qed.

(** A socket is given an interface that exists. *)
Lemma calm_give sid iid : iid ∈ known → preserves J (upd sid (λ s, s <| iface := Some iid |>)).
Proof.
  intros Hk. apply preserves_modify. intros w [[Hq Hp] ? ? ? ? Hth Hif Hkn Hat ?].
  assert (Hs : ∀ sid' s', alter (λ s : Socket A, s <| iface := Some iid |>) sid (socks w) !! sid' = Some s' →
    ∃ s, socks w !! sid' = Some s ∧ eventPusher s' = eventPusher s ∧ (iface s' = iface s ∨ iface s' = Some iid)).
  { intros sid' s' Hs. destruct (decide (sid = sid')) as [<-|Hne].
    - rewrite lookup_alter_eq in Hs. apply fmap_Some in Hs as (s & Hs & ->). eauto.
    - rewrite lookup_alter_ne in Hs by done. eauto. }
  split; try done; simpl.
  - split; [done|]. intros sid' s' (s & Hs' & -> & _)%Hs. by eapply Hp.
  - intros Hb. rewrite lookup_alter_is_Some. auto.
  - intros sid' s' iid' (s & Hs' & _ & [-> | ->])%Hs; [by apply (Hif sid')|]. intros [= <-]. auto.
  - intros sid' Hsid. rewrite lookup_alter_is_Some. auto.
Qed.

Lemma calm_SetInterface iid : busy = true → iid ∈ known → preserves J (SetInterface last iid).
Proof.
  intros Hb Hk. unfold SetInterface. calm; [by apply calm_give|by apply calm_read].
Qed.

Lemma calm_script event : preserves J (doRunEventScript event).
Proof. unfold doRunEventScript. intros w w' r. by apply calm_client. Qed.
Lemma calm_open_interface mode : preserves J (open_interface mode).
Proof.
  intros w w' r Hw. unfold open_interface. cbn. intros [= <- _]. by destruct Hw.
Qed.
Lemma calm_Client_SetMTU mtu : preserves J (Client_SetMTU mtu).
Proof. unfold Client_SetMTU. calm. Qed.
Hint Resolve calm_script calm_open_interface calm_Client_SetMTU : frame.

Lemma calm_addroute command : preserves J (addroute_handler command).
Proof. unfold addroute_handler. calm. Qed.
Lemma calm_setmtu command : preserves J (setmtu_handler command).
Proof. unfold setmtu_handler. calm. Qed.

Lemma calm_init_interface net p iid :
  busy = true → iid ∈ known → preserves J (init_interface last net p iid).
Proof.
  intros Hb Hk. unfold init_interface, on_ok. calm. by apply calm_SetInterface.
Qed.

Lemma pusher_life (f : Socket A → Socket A) s : lifecycle (f s) = lifecycle s →
  eventPusher (f s) = eventPusher s.
Proof. by intros [=]. Qed.
End Operations.

Section Handling.
Context {A I : Type} `{SocketAdapterSpec A} `{WaterInterface I} `{!Configurable I} `{!NewInterface I}
  `{FindLowest} `{NewRandom} `{Cidr}.
Context (known : gset IfaceId) (busy : bool) (last : SocketId) (cs : option SocketId) (delay : Z).
Abbreviation J := (state_of_loop (A := A) (I := I) known busy last cs delay).
Hint Resolve calm_adapter calm_iface calm_close calm_CloseError calm_CloseSocket calm_command
  calm_WritePacket calm_wg calm_script calm_open_interface calm_Client_SetMTU : frame.

Lemma keep_interface_known i (w w' : World A I Client) iid :
  J w → keep_interface i w = Ret (w', iid) → state_of_loop ({[iid]} ∪ known) busy last cs delay w'.
Proof.
  intros [? ? ? ? ? ? Hif Hkn ? ?]. unfold keep_interface.
  set (n := base.fresh _). intros [= <- <-]. split; try done; simpl.
  - intros sid s iid Hs Hi. apply lookup_insert_is_Some'. right. by eapply Hif.
  - intros iid Hin. apply lookup_insert_is_Some'. set_unfold. destruct Hin as [->|Hin]; auto.
  - intros iid [= <-]. apply lookup_insert_is_Some'. by left.
Qed.

Lemma calm_new_interface i net p : busy = true →
  preserves J (iid ← keep_interface i; init_interface last net p iid).
Proof.
  intros Hb w w' x Hw (w1 & iid & E1 & E2)%prog_bind_inv.
  apply (keep_interface_known _ _ _ _ Hw) in E1.
  apply (forget_known ({[iid]} ∪ known)); [set_solver|].
  eapply calm_init_interface; [done| |exact E1|exact E2]. set_solver.
Qed.

(** The init command gives the interface to the client's socket. *)
Lemma calm_init command : busy = true → preserves J (init_handler command).
Proof.
  intros Hb. unfold init_handler, nil_pointer.
  destruct (commands.DeserializeParameters _ _ _) as [p|err]; [|calm].
  apply preserves_bind; [calm|intros _]. apply preserves_bind; [calm|intros _].
  apply calm_gets_bind. intros c Hc. destruct (c_socket c) as [sid|]; [|calm].
  rewrite (Hc sid) by done. apply preserves_bind.
  { apply calm_upd. intros s. split; [apply pusher_life, HandleInit_life|apply HandleInit_iface]. }
  intros _. cbv zeta. repeat first [by apply calm_new_interface|calm_step].
Qed.

Lemma calm_client_handler sid h command : busy = true → preserves J (client_handler sid h command).
Proof.
  intros Hb. unfold client_handler, client_commands.
  destruct h; auto using preserves_ret, calm_addroute, calm_init, calm_setmtu.
Qed.

Lemma calm_control sid message : busy = true → preserves J (controlMessageHandler sid message).
Proof.
  intros Hb. unfold controlMessageHandler, run_handler. apply calm_sock_bind. intros s _.
  destruct (commands.DeserializeCommand _ _) as [[c|e]|why|]; [|calm|calm|by intros w w' r].
  assert (Hh : ∀ h, preserves J (client_handler sid h c)) by (intros h; by apply calm_client_handler).
  calm; try apply Hh. apply calm_upd. intros s'.
  split; [apply pusher_life, handleVersion_life|apply handleVersion_iface].
Qed.

Lemma calm_data sid message : preserves J (dataMessageHandler sid message).
Proof.
  unfold dataMessageHandler, processPacket. calm; [|apply preserves_ret].
  match goal with t : Z |- _ => apply calm_local; intros s s' v [= Er];
    pose proof (receive_data_local t message s) as Hl; pose proof (receive_data_iface t message s) as Hi end.
  rewrite Er in Hl, Hi. split; [by injection Hl|done].
Qed.

Lemma calm_perform a (w w' : World A I Client) :
  may_act a w → J w → perform a w = Ret (w', tt) → J w'.
Proof.
  intros Ha Hw. assert (Hm : preserves J (perform a)); [|by apply Hm].
  destruct a; cbn [perform may_act] in *; try done;
    try (apply preserves_bind; [|intros; apply preserves_ret]).
  - apply calm_CloseSocket.
  - apply calm_CloseError.
  - apply calm_WritePacket.
  - apply calm_data.
  - apply calm_control. eapply (sl_tasks Hw); [exact Ha|]. by left.
  - apply calm_command.
  - unfold iface_read_step. calm.
  - calm.
Qed.

Lemma calm_task t l1 l2 (w w' : World A I Client) :
  tasks w = l1 ++ t :: l2 → J w → run_task t (w <| tasks := l1 ++ l2 |>) = Ret (w', tt) → J w'.
Proof.
  intros El Hw E. eapply calm_run_task; [|exact E]. destruct Hw as [? Hts ? ? ? ? ? ? ? ?].
  split; try done. simpl. intros t' sid Hin. apply Hts. rewrite El. set_unfold; tauto.
Qed.
End Handling.

(** ** Closing and connecting *)

Lemma keeps_preserves {W R} (inv : W → Prop) (m : prog W R) : keeps inv m → preserves inv m.
Proof. intros Hk v v' r Hv E. specialize (Hk v Hv). by rewrite E in Hk. Qed.

Lemma preserves_both {W R} (P Q : W → Prop) (m : prog W R) :
  preserves P m → preserves Q m → preserves (λ v, P v ∧ Q v) m.
Proof. intros Hp Hq v v' r [? ?] E. split; [by eapply Hp|by eapply Hq]. Qed.

Section Turns.
Context {A I : Type} `{SocketAdapterSpec A} `{WaterInterface I} `{!Configurable I} `{!NewInterface I}
  `{FindLowest} `{NewRandom} `{Cidr}.
Implicit Types w : World A I Client.

Lemma keeps_closeInternal U : keeps (world_inv U) (closeInternal (A := A) (I := I)).
Proof.
  assert (Hapi : client_api (world_inv (A := A) (I := I) (E := Client) U)) by apply inv_client_api.
  unfold closeInternal. keep; try (by apply keeps_upd_client); try (by apply keeps_script).
  apply keeps_CloseSocket.
Qed.

Lemma without_socket known busy last cs delay w :
  state_of_loop known busy last cs delay w →
  state_of_loop known busy last None delay (w <| env := (env w) <| c_socket := None |> |>).
Proof. intros [? ? ? ? ? Hth ? ? ? ?]. split; try done. intros [Hb|[=]]. apply Hth. by left. Qed.

Lemma closeInternal_state known busy last cs delay w w' r :
  state_of_loop known busy last cs delay w → closeInternal w = Ret (w', r) →
  state_of_loop known busy last None delay w'.
Proof.
  intros Hw E. unfold closeInternal in E.
  apply prog_bind_inv in E as (w1 & c & E1 & E). injection E1 as <- <-.
  apply prog_bind_inv in E as (w2 & u2 & E2 & E).
  assert (Hst2 : state_of_loop known busy last cs delay w2).
  { revert E2. match goal with |- ?m w = _ → _ =>
      assert (Hp : preserves (state_of_loop known busy last cs delay) m) end; [|by apply Hp].
    calm. apply calm_script. }
  apply prog_bind_inv in E as (w3 & u3 & E3 & E).
  assert (Hst3 : state_of_loop known busy last None delay w3).
  { rewrite (sl_socket Hw) in E3. destruct cs as [sid|]; [|by injection E3 as <- _].
    apply prog_bind_inv in E3 as (w4 & u4 & E4 & E3). apply (calm_CloseSocket _ _ _ _ _ _ _ _ _ Hst2) in E4.
    injection E3 as <- _. by apply without_socket in E4. }
  revert E. generalize (adapterOf (env w)) (c_iface (env w)). intros oa oi.
  match goal with |- ?m w3 = _ → _ =>
    assert (Hp : preserves (state_of_loop known busy last None delay) m) end; [|by apply Hp].
  calm; first [apply calm_adapter|apply calm_iface].
Qed.

Lemma Client_Close_state known busy last cs delay w w' r :
  state_of_loop known busy last cs delay w → Client_Close w = Ret (w', r) →
  state_of_loop known busy last None 0 w'.
Proof.
  intros Hw (w1 & u & E1 & E)%prog_bind_inv. injection E1 as <- <-.
  eapply closeInternal_state; [|exact E]. by destruct Hw.
Qed.

Lemma calm_Serve last cs delay : preserves (state_of_loop ∅ true last cs delay) (Serve (A := A) (I := I) last).
Proof.
  unfold Serve, registerDefaultCommandHandlers, installPingPongHandlers. calm.
  all: first [apply preserves_ret|apply calm_read|apply calm_go; [|unfold waits_for]]; auto.
Qed.

(** The state right after a connection was made: the new socket is the client's. *)
Lemma new_socket last delay w a :
  let sid := base.fresh (dom (socks w) : gset SocketId) in
  world_inv ∅ w → state_of_loop ∅ false last None delay w →
  let w1 := w <| env := (env w) <| adapterOf := Some sid |> <| c_socket := Some sid |> |>
              <| socks := <[sid := MakeSocket a None true false]> (socks w) |> in
  world_inv ∅ w1 ∧ state_of_loop ∅ true sid (Some sid) delay w1.
Proof.
  intros sid Hinv [[Hq Hp] Hts _ _ Hd _ Hif _ Hat Hcl] w1. split.
  - intros sid' s' Hs'. simpl in Hs'. apply lookup_insert_Some in Hs' as [[<- <-]|[Hne Hs']].
    + constructor; try done; simpl.
      * unfold waiting, w1. simpl. rewrite filter_none; [done|]. apply Forall_forall.
        intros t Ht Hw. by destruct (Hts _ _ Ht Hw).
      * unfold events_of, w1. simpl. by rewrite Hq.
    + destruct (Hinv _ _ Hs'). by constructor.
  - split; try done.
    + split; [done|]. intros sid' s' Hs'. simpl in Hs'. apply lookup_insert_Some in Hs' as [[_ <-]|[_ Hs']]; [done|].
      by eapply Hp.
    + intros t sid' Ht Hw. by destruct (Hts _ _ Ht Hw).
    + by intros sid' [= ->].
    + intros _. simpl. by rewrite lookup_insert_eq.
    + intros sid' s' iid Hs'. simpl in Hs'. apply lookup_insert_Some in Hs' as [[_ <-]|[_ Hs']]; [done|].
      by eapply Hif.
    + intros sid' [= <-]. simpl. by rewrite lookup_insert_eq.
Qed.

Definition connected last delay w : Prop :=
  world_inv ∅ w ∧ state_of_loop ∅ true last (Some last) delay w.

Lemma features_life m (s : Socket A) : lifecycle (map_fold Socket.SetLocalFeature s m) = lifecycle s.
Proof.
  apply (map_fold_weak_ind (λ s' _, lifecycle s' = lifecycle s)); [done|].
  intros f b m' s' _ <-. unfold Socket.SetLocalFeature. by destruct b.
Qed.

Lemma features_iface m (s : Socket A) : iface (map_fold Socket.SetLocalFeature s m) = iface s.
Proof.
  apply (map_fold_weak_ind (λ s' _, iface s' = iface s)); [done|].
  intros f b m' s' _ <-. unfold Socket.SetLocalFeature. by destruct b.
Qed.

Lemma Client_Serve_state last delay w w' dialed r :
  world_inv ∅ w → state_of_loop ∅ false last None delay w → Client_Serve dialed w = Ret (w', r) →
  world_inv ∅ w' ∧ (state_of_loop ∅ false last None delay w' ∨
    ∃ sid, state_of_loop ∅ true sid (Some sid) delay w').
Proof.
  intros Hinv Hw E. destruct dialed as [a|err]; [|injection E as <- _; auto].
  pose proof (new_socket last delay w a Hinv Hw) as Hn. unfold Client_Serve in E.
  set (sid := base.fresh (dom (socks w) : gset SocketId)) in *. cbv zeta in Hn.
  apply prog_bind_inv in E as (w1 & u1 & E1 & E). injection E1 as <- _.
  apply prog_bind_inv in E as (w2 & u2 & E2 & E). injection E2 as <- _.
  assert (Hp : connected sid delay w'); [|destruct Hp; eauto].
  revert E. match goal with |- ?m _ = _ → _ => assert (Hp : preserves (connected sid delay) m) end;
    [|by apply Hp].
  clear Hn Hw Hinv. assert (Hu : ∀ f sid', (∀ s, lifecycle (f s) = lifecycle s ∧ iface (f s) = iface s) →
    preserves (connected sid delay) (upd (A := A) (I := I) sid' f)).
  { intros f sid' Hf. apply preserves_both; [apply keeps_preserves, keeps_upd; intros s; apply Hf|].
    apply calm_upd. intros s. split; [apply pusher_life, Hf|apply Hf]. }
  assert (Hg : preserves (connected sid delay) (gets env)) by apply preserves_gets.
  assert (Hs : preserves (connected sid delay) (Serve sid)).
  { intros v v' r' [Hinv Hst] E. split; [|by eapply calm_Serve].
    pose proof (keeps_Serve sid v) as Hk. rewrite E in Hk. apply Hk. split; [done|].
    unfold events_of. by rewrite (proj1 (sl_quiet Hst)). }
  unfold Client_UpdateSocketConfig, registerCommandHandlers.
  repeat match goal with
    | |- preserves _ (_ ≫= _) => apply preserves_bind; [|intros ?]
    | |- preserves _ (match ?x with _ => _ end) => destruct x
    end; try apply preserves_ret; try done; apply Hu; try done.
  intros s. split; [apply features_life|apply features_iface].
Qed.
End Turns.

(** ** What holds in every run *)

(** What each point of the loop knows of the goroutines of the last socket. *)
Definition phase_ok (busy : bool) (last : SocketId) (cs : option SocketId) (delay : Z)
    (p : serving_phase) : Prop :=
  match p with
  | Starting | Sleeping => busy = false
  | Served => if busy then cs = Some last ∨ delay = 0 else cs = None
  | Waiting sid => busy = true ∧ sid = last
  | Deciding => busy = true → delay = 0
  | Finished => True
  end.

Section Runs.
Context {A I : Type} `{SocketAdapterSpec A} `{WaterInterface I} `{!Configurable I} `{!NewInterface I}
  `{FindLowest} `{NewRandom} `{Cidr}.
Implicit Types (w : World A I Client) (l : serve_loop A I).

Definition loop_inv delay l : Prop :=
  world_inv ∅ (loop_world l) ∧
  ∃ busy last cs, state_of_loop ∅ busy last cs delay (loop_world l)
    ∧ phase_ok busy last cs delay (loop_at l).

Lemma none_waiting sid w : waiting sid w = 0 ↔ ∀ t, t ∈ tasks w → ¬ waits_for sid t.
Proof.
  unfold waiting, len. split.
  - intros Hn t Ht Hs. assert (Hin : t ∈ filter (waits_for sid) (tasks w)) by (by apply list_elem_of_filter).
    rewrite (nil_length_inv (filter (waits_for sid) (tasks w))) in Hin by lia. by apply not_elem_of_nil in Hin.
  - intros Hn. rewrite filter_none; [done|]. by apply Forall_forall.
Qed.

(** When [Wait] returns, no goroutine of the socket is left. *)
Lemma wait_over sid cs delay w s :
  world_inv ∅ w → socks w !! sid = Some s → Socket_Wait s = true →
  state_of_loop ∅ true sid cs delay w → state_of_loop ∅ false sid cs delay w.
Proof.
  intros Hinv Hs Hz%Z.eqb_eq [? Hts ? ? ? ? ? ? ? ?].
  rewrite (inv_wg _ _ _ _ (Hinv _ _ Hs)) in Hz. split; try done.
  intros t sid' Ht Hw. destruct (Hts _ _ Ht Hw) as [_ ->]. by destruct (proj1 (none_waiting sid w) Hz t).
Qed.

Lemma loop_advance_inv delay dialed w w' p p' :
  loop_inv delay (mkLoop w p) → ServeLoop_step dialed p w = Ret (w', Some p') →
  loop_inv delay (mkLoop w' p').
Proof.
  intros (Hinv & busy & last & cs & Hst & Hp) E. unfold loop_inv. simpl in *.
  destruct p as [| |sid| | |]; cbn [ServeLoop_step phase_ok] in *.
  - apply prog_bind_inv in E as (w1 & u & E1 & E). injection E as <- <-. subst busy.
    unfold serve_turn in E1. apply prog_bind_inv in E1 as (w2 & u2 & E2 & E1).
    apply prog_bind_inv in E1 as (w3 & r3 & E3 & E1). injection E1 as <-.
    pose proof (keeps_preserves _ _ (keeps_closeInternal ∅) _ _ _ Hinv E2) as Hinv2.
    apply (closeInternal_state _ _ _ _ _ _ _ _ Hst) in E2.
    destruct (Client_Serve_state _ _ _ _ _ _ Hinv2 E2 E3) as [Hinv3 [H3'|[sid H3']]]; split; try done.
    + by exists false, last, None.
    + exists true, sid, (Some sid). split; [done|by left].
  - injection E as <- <-. split; [done|]. exists busy, last, cs. split; [done|].
    unfold Client_Wait. rewrite (sl_socket Hst). destruct cs as [sid|]; cbn.
    + destruct busy; [|done]. split; [done|]. by apply (sl_last Hst).
    + intros ->. by destruct Hp.
  - apply prog_bind_inv in E as (w1 & s & E1 & E).
    unfold sock in E1. destruct (socks w !! sid) as [s'|] eqn:Es; [|done]. injection E1 as <- <-.
    injection E as <- E. destruct (Socket_Wait s') eqn:Ew; [|done]. injection E as <-.
    split; [done|]. destruct Hp as [-> <-]. exists false, sid, cs. split; [|done]. by eapply wait_over.
  - injection E as <- <-. split; [done|]. exists busy, last, cs. split; [done|].
    unfold reconnects. rewrite (sl_delay Hst).
    destruct (delay =? 0) eqn:Ed; [done|]. cbn. destruct busy; [|done].
    apply Z.eqb_neq in Ed. by destruct Ed; apply Hp.
  - injection E as <- <-. split; [done|]. by exists busy, last, cs.
  - done.
Qed.

Lemma loop_step_inv delay l l' :
  loop_step l l' → loop_inv delay l → loop_inv delay l' ∨ loop_inv 0 l'.
Proof.
  intros [a w w' p Ha E|t l1 l2 w w' p El E|t w p|dialed w w' p p' E|w w' p E] Hl.
  4: { left. by eapply loop_advance_inv. }
  all: destruct Hl as (Hinv & busy & last & cs & Hst & Hp); cbn [loop_world loop_at] in *.
  - left. split.
    + simpl. assert (He : enabled a w) by (by destruct a).
      pose proof (perform_ok a w He Hinv) as Hk. by rewrite E in Hk.
    + exists busy, last, cs. split; [|done]. by eapply calm_perform.
  - left. split.
    + cbn [loop_world]. pose proof (run_task_ok t l1 l2 w El Hinv) as Hk. by rewrite E in Hk.
    + exists busy, last, cs. split; [|done]. by eapply calm_task.
  - left. split; simpl.
    + intros sid s Hs. destruct (Hinv _ _ Hs). by constructor.
    + exists busy, last, cs. split; [|done]. by destruct Hst.
  - right. split; simpl.
    + destruct (prog_bind_inv _ _ _ _ _ E) as (w1 & u & E1 & E2). injection E1 as <- _.
      eapply (keeps_preserves _ _ (keeps_closeInternal ∅)); [|exact E2]. by apply inv_env.
    + exists busy, last, None. split; [by eapply Client_Close_state|].
      destruct p, busy; simpl in *; auto.
Qed.

Lemma loop_start_inv l : loop_start l → loop_inv (AutoReconnectDelay (env (loop_world l))) l.
Proof.
  intros (Hs & Ht & He & Hc & Ha & Hi & Hp). split.
  - unfold world_inv. rewrite Hs. apply map_Forall_empty.
  - exists false, 0%nat, None. rewrite Hp. split; [|done]. split; try done.
    + split; [done|]. intros sid s. by rewrite Hs.
    + intros t sid. rewrite Ht. by intros ?%elem_of_nil.
    + by intros [?|?].
    + intros sid s iid. by rewrite Hs.
    + intros sid. by rewrite Ha.
    + intros iid. by rewrite Hi.
Qed.

Lemma loop_reachable_inv l0 l : loop_start l0 → rtc loop_step l0 l → ∃ delay, loop_inv delay l.
Proof.
  intros Hs Hr. assert (Hl : ∃ delay, loop_inv delay l0) by (eexists; by apply loop_start_inv).
  clear Hs. induction Hr as [|l1 l2 l3 Hst _ IH]; [done|]. apply IH. destruct Hl as [delay Hl].
  destruct (loop_step_inv _ _ _ Hst Hl); eauto.
Qed.
End Runs.

(** ** The goroutines of a socket come to their ends *)

Section Ends.
Context {A I : Type} `{SocketAdapterSpec A} `{WaterInterface I} `{!Configurable I} `{!NewInterface I}
  `{FindLowest} `{NewRandom} `{Cidr}.
Implicit Types w : World A I Client.

Tactic Notation "run" uconstr(lem) := erewrite run_bind by (apply lem); cbv beta.

(** What a close of the socket needs not to panic. *)
Definition closable w (s : Socket A) : Prop :=
  closeChanOpen s && closeChan s = false
  ∧ ∀ iid, iface s = Some iid → is_Some (ifaces w !! iid).

Lemma iface_call_returns w sid s iid f : is_Some (ifaces w !! iid) →
  ∃ ifs r, iface_call iid f (put w sid s) = Ret (put (w <| ifaces := ifs |>) sid s, r).
Proof.
  intros [i Hi]. unfold iface_call. erewrite run_bind by done. simpl. rewrite Hi.
  destruct (f i) as [i' e]. by eexists _, _.
Qed.

Lemma close_returns sid w s : closable w s →
  ∃ w', close sid true (put w sid s) = Ret (w', tt).
Proof.
  intros [Hc Hi]. unfold close. run run_upd.
  rewrite (close_adapter_part true). run run_sock. set (s1 := s <| isClosing := true |> <| adapter := _ |>).
  assert (E1 : ∃ ifs r, (match iface s1 with
     | Some iid => if ifaceManaged s1 then iface_call iid iface_close else mret None
     | None => mret None end) (put w sid s1) = Ret (put (w <| ifaces := ifs |>) sid s1, r)).
  { assert (En : ∃ ifs r, mret (M := prog (World A I Client)) (None : option error) (put w sid s1)
      = Ret (put (w <| ifaces := ifs |>) sid s1, r)).
    { exists (ifaces w), None. by destruct w. }
    destruct (iface s1) as [iid|] eqn:Ei; [|done]. destruct (ifaceManaged s1); [|done].
    by apply iface_call_returns, Hi. }
  destruct E1 as (ifs & r & E1). erewrite run_bind by exact E1. cbv beta.
  apply (close_channel_part sid _ s1); [simpl; congruence|]. set (s2 := s1 <| closeChanOpen := _ |> <| closeChan := _ |>).
  change (packetHandler s1) with (packetHandler s2).
  assert (E2 : ∀ w1, (if packetHandler s2 then unregister sid else mret tt) (put w1 sid s2)
    = Ret (put w1 sid s2, tt)).
  { intros w1. destruct (packetHandler s2); [|done]. rewrite run_unregister. simpl. by destruct w1. }
  erewrite run_bind by apply E2. run run_upd. run run_upd. run run_sock.
  destruct (eventPusher _ && upEventSent _); [|by eexists]. run run_upd. by eexists.
Qed.

Lemma CloseSocket_returns sid w s : socks w !! sid = Some s → closable w s →
  ∃ w', CloseSocket sid w = Ret (w', tt) ∧ tasks w' = tasks w
    ∧ ∀ sid', is_Some (socks w !! sid') → is_Some (socks w' !! sid').
Proof.
  intros Hs Hc. unfold CloseSocket. erewrite run_bind by (by apply run_sock_at). cbv beta.
  destruct (isClosing s); [by exists w|].
  pose proof (close_effect sid true w s) as He. destruct (close_returns sid w s Hc) as [w' E].
  rewrite E in He. rewrite put_lookup in E by done. destruct He as (s' & ifs & e & -> & _).
  eexists. split_and!; [done..|]. intros sid' Hs'. simpl. apply lookup_insert_is_Some'. by right.
Qed.

(** The end of a goroutine that a WaitGroup counts. *)
Lemma waited_returns sid t w s : waits_for sid t → socks w !! sid = Some s → 1 <= wg s → closable w s →
  ∃ w', run_task t w = Ret (w', tt) ∧ tasks w' = tasks w.
Proof.
  intros Ht Hs Hwg Hc. assert (E : run_task t w = closeDone sid w) by (by destruct Ht as [->|[->| ->]]).
  rewrite E. unfold closeDone, wg_add. rewrite <- (put_lookup w sid s Hs).
  assert (Ew : (s0 ← sock sid;
      if wg s0 + -1 <? 0 then panic "sync: negative WaitGroup counter"
      else upd sid (λ s0, s0 <| wg := wg s0 + -1 |>)) (put w sid s)
    = Ret (put w sid (s <| wg := wg s + -1 |>), tt)).
  { run run_sock. rewrite (proj2 (Z.ltb_ge _ _)) by lia. by rewrite run_upd. }
  erewrite run_bind by exact Ew. cbv beta.
  destruct (CloseSocket_returns sid (put w sid (s <| wg := wg s + -1 |>)) (s <| wg := wg s + -1 |>))
    as (w' & Ec & Et & _); [simpl; by rewrite lookup_insert_eq|by destruct Hc|].
  exists w'. split; [done|]. by rewrite Et.
Qed.

(** A socket of a state of the loop can be closed. *)
Lemma state_closable known busy last cs delay w sid s :
  world_inv ∅ w → state_of_loop known busy last cs delay w → socks w !! sid = Some s → closable w s.
Proof.
  intros Hinv Hst Hs. split; [|intros iid; by apply (sl_ifaces Hst sid)].
  rewrite (inv_chan _ _ _ _ (Hinv _ _ Hs)). by destruct (closeChanOpen s).
Qed.

Lemma adapter_returns sid f w : is_Some (socks w !! sid) → ∃ w' e, adapter_call sid f w = Ret (w', e).
Proof.
  intros [s Hs]. rewrite <- (put_lookup w sid s Hs), run_adapter. by eexists _, _.
Qed.

Lemma iface_returns iid f w : is_Some (ifaces w !! iid) → ∃ w' e, iface_call iid f w = Ret (w', e).
Proof.
  intros [i Hi]. unfold iface_call. erewrite run_bind by done. cbv beta. rewrite Hi.
  destruct (f i). by eexists _, _.
Qed.

(** The first two parts of [closeInternal]: the script and the socket. *)
Lemma close_script busy last cs delay known w :
  world_inv ∅ w → state_of_loop known busy last cs delay w →
  ∃ w', (if sentUpEvent (env w) then
           doRunEventScript EventDown;; upd_client (λ c, c <| sentUpEvent := false |>)
         else mret tt) w = Ret (w', tt)
    ∧ world_inv ∅ w' ∧ state_of_loop known busy last cs delay w' ∧ socks w' = socks w.
Proof.
  intros Hinv Hst. destruct (sentUpEvent (env w)); [|by exists w].
  eexists. split; [unfold doRunEventScript, upd_client, modify, mbind, prog_bind; done|].
  split; [by do 2 apply inv_env|]. split; [|done]. by destruct Hst.
Qed.

Lemma close_client_socket busy last cs delay known w :
  world_inv ∅ w → state_of_loop known busy last cs delay w →
  ∃ w', match cs with
        | Some sid => CloseSocket sid;; upd_client (λ c, c <| c_socket := None |>)
        | None => mret tt
        end w = Ret (w', tt)
    ∧ state_of_loop known busy last None delay w'
    ∧ ∀ sid, is_Some (socks w !! sid) → is_Some (socks w' !! sid).
Proof.
  intros Hinv Hst. destruct cs as [sid|]; [|by exists w].
  destruct (sl_there Hst (or_intror (f_equal Some (sl_last Hst sid eq_refl)))) as [s Hs].
  rewrite <- (sl_last Hst sid eq_refl) in Hs.
  destruct (CloseSocket_returns sid w s Hs) as (w1 & E1 & _ & Hm); [by eapply state_closable|].
  exists (w1 <| env := (env w1) <| c_socket := None |> |>).
  split; [by erewrite run_bind by exact E1|]. split; [|done].
  eapply without_socket. by apply (calm_CloseSocket _ _ _ _ _ _ _ _ _ Hst) in E1.
Qed.

Lemma closeInternal_returns busy last cs delay w :
  world_inv ∅ w → state_of_loop ∅ busy last cs delay w → ∃ w', closeInternal w = Ret (w', tt).
Proof.
  intros Hinv Hst. set (known := match c_iface (env w) with Some iid => {[iid]} | None => ∅ end : gset IfaceId).
  assert (Hk : state_of_loop known busy last cs delay w).
  { pose proof (sl_client Hst) as Hc. destruct Hst. split; try done. unfold known.
    intros iid. destruct (c_iface (env w)) as [i|]; set_unfold; [intros ->; by apply Hc|done]. }
  pose proof (sl_adapter Hst) as Ha. unfold closeInternal. erewrite run_bind by done. cbv beta.
  destruct (close_script _ _ _ _ _ _ Hinv Hk) as (w2 & E2 & Hinv2 & Hst2 & Hs2).
  erewrite run_bind by exact E2. cbv beta. rewrite (sl_socket Hst).
  destruct (close_client_socket _ _ _ _ _ _ Hinv2 Hst2) as (w3 & E3 & Hst3 & Hs3).
  erewrite run_bind by exact E3. cbv beta.
  assert (E4 : ∃ w4, match adapterOf (env w) with
       | Some sid => adapter_call sid Close;; upd_client (λ c, c <| adapterOf := None |>)
       | None => mret tt end w3 = Ret (w4, tt) ∧ state_of_loop known busy last None delay w4).
  { destruct (adapterOf (env w)) as [sid|]; [|by exists w3].
    destruct (adapter_returns sid Close w3) as (w4 & e & E4); [rewrite <- Hs2 in Ha; auto|].
    eexists. split; [by erewrite run_bind by exact E4|].
    pose proof (calm_adapter _ _ _ _ _ _ _ _ _ _ Hst3 E4) as Hst4. by destruct Hst4. }
  destruct E4 as (w4 & E4 & Hst4). erewrite run_bind by exact E4. cbv beta.
  pose proof (sl_known Hst4) as Hk4. unfold known in Hk4.
  destruct (c_iface (env w)) as [iid|]; [|by eexists].
  destruct (iface_returns iid iface_close w4) as (w5 & e & E5); [apply Hk4; set_solver|].
  eexists. by erewrite run_bind by exact E5.
Qed.

Lemma waiting_split sid w n : waiting sid w = Z.of_nat (S n) →
  ∃ l1 t l2, tasks w = l1 ++ t :: l2 ∧ waits_for sid t
    ∧ waiting sid (w <| tasks := l1 ++ l2 |>) = Z.of_nat n.
Proof.
  unfold waiting, len. intros Hn.
  destruct (filter (waits_for sid) (tasks w)) as [|t ts] eqn:Ef; [done|].
  assert (Ht : t ∈ filter (waits_for sid) (tasks w)) by (rewrite Ef; left).
  apply list_elem_of_filter in Ht as [Hw Hin]. apply list_elem_of_split in Hin as (l1 & l2 & El).
  exists l1, t, l2. split; [done|]. split; [done|]. simpl. rewrite <- Ef, El in Hn.
  rewrite filter_app, length_app in *. rewrite filter_cons, decide_True in Hn by done.
  simpl in Hn. lia.
Qed.

(** One goroutine of the socket ends. *)
Lemma one_ends delay sid w n :
  loop_inv delay (mkLoop w (Waiting sid)) → waiting sid w = Z.of_nat (S n) →
  ∃ w', loop_step (mkLoop w (Waiting sid)) (mkLoop w' (Waiting sid)) ∧ waiting sid w' = Z.of_nat n.
Proof.
  intros (Hinv & busy & last & cs & Hst & Hb & ->) Hn. cbn [loop_world] in *.
  destruct (sl_there Hst (or_introl Hb)) as [s Hs]. pose proof (Hinv _ _ Hs) as Hsi.
  destruct (waiting_split _ _ _ Hn) as (l1 & t & l2 & El & Ht & Hw).
  destruct (waited_returns last t (w <| tasks := l1 ++ l2 |>) s) as (w' & E & Et); try done.
  - rewrite (inv_wg _ _ _ _ Hsi). lia.
  - split; [|intros iid; by apply (sl_ifaces Hst last s)].
    rewrite (inv_chan _ _ _ _ Hsi). by destruct (closeChanOpen s).
  - exists w'. split; [by eapply loop_task|]. rewrite <- Hw. unfold waiting. by rewrite Et.
Qed.

Lemma wait_runs sid n w :
  (∃ delay, loop_inv delay (mkLoop w (Waiting sid))) → waiting sid w = Z.of_nat n →
  ∃ w', nsteps loop_step (S n) (mkLoop w (Waiting sid)) (mkLoop w' Deciding).
Proof.
  revert w. induction n as [|n IH]; intros w [delay Hl] Hn.
  - destruct Hl as (Hinv & busy & last & cs & Hst & Hb & ->). cbn [loop_world] in *.
    destruct (sl_there Hst (or_introl Hb)) as [s Hs]. exists w. apply nsteps_once.
    apply (loop_advance (inr ErrCommandNotSupported)). cbn [ServeLoop_step].
    erewrite run_bind by (by apply run_sock_at). cbv beta. unfold Socket_Wait.
    by rewrite (inv_wg _ _ _ _ (Hinv _ _ Hs)), Hn.
  - destruct (one_ends _ _ _ _ Hl Hn) as (w1 & E1 & Hn1).
    destruct (IH w1) as [w' Hr]; [|done|].
    + destruct (loop_step_inv _ _ _ E1 Hl); eauto.
    + exists w'. by eapply nsteps_l.
Qed.
(** ** Once the delay is 0 the loop can come to its end, from wherever it is *)

Definition can_finish (l : serve_loop A I) : Prop :=
  ∃ l', rtc loop_step l l' ∧ loop_at l' = Finished.

Lemma can_finish_step l l' : loop_step l l' → can_finish l' → can_finish l.
Proof. intros Hs (l2 & Hr & Hf). exists l2. split; [by eapply rtc_l|done]. Qed.

Lemma inv_run l l' : rtc loop_step l l' → loop_inv 0 l → loop_inv 0 l'.
Proof.
  induction 1 as [|l1 l2 l3 Hs _ IH]; [done|]. intros Hl. apply IH. by destruct (loop_step_inv _ _ _ Hs Hl).
Qed.

Lemma deciding_finishes w : loop_inv 0 (mkLoop w Deciding) → can_finish (mkLoop w Deciding).
Proof.
  intros (_ & busy & last & cs & Hst & _). cbn [loop_world] in *.
  exists (mkLoop w Finished). split; [|done]. apply rtc_once.
  apply (loop_advance (inr ErrCommandNotSupported)). cbn [ServeLoop_step].
  erewrite run_bind by done. unfold reconnects. by rewrite (sl_delay Hst).
Qed.

Lemma waiting_finishes w sid : loop_inv 0 (mkLoop w (Waiting sid)) → can_finish (mkLoop w (Waiting sid)).
Proof.
  intros Hl. destruct (wait_runs sid (Z.to_nat (waiting sid w)) w) as [w' Hn]; [by exists 0| |].
  { unfold waiting, len. lia. }
  assert (Hn' := rtc_nsteps_2 _ _ _ Hn).
  destruct (deciding_finishes w' (inv_run _ _ Hn' Hl)) as (l' & Hr & Hf).
  exists l'. split; [by etrans|done].
Qed.

Lemma served_finishes w : loop_inv 0 (mkLoop w Served) → can_finish (mkLoop w Served).
Proof.
  intros Hl.
  assert (Hs : loop_step (mkLoop w Served) (mkLoop w (Client_Wait (env w)))).
  { by apply (loop_advance (inr ErrCommandNotSupported)). }
  eapply can_finish_step; [exact Hs|]. assert (Hl' : loop_inv 0 (mkLoop w (Client_Wait (env w)))).
  { eapply inv_run; [by apply rtc_once|done]. }
  unfold Client_Wait in *. destruct (c_socket (env w)); [by apply waiting_finishes|by apply deciding_finishes].
Qed.

(** The dial that is still to come may fail. *)
Lemma starting_finishes w : loop_inv 0 (mkLoop w Starting) → can_finish (mkLoop w Starting).
Proof.
  intros Hl. destruct (Hl : loop_inv _ _) as (Hinv & busy & last & cs & Hst & _). cbn [loop_world] in *.
  destruct (closeInternal_returns _ _ _ _ _ Hinv Hst) as [w' E].
  assert (Hs : loop_step (mkLoop w Starting) (mkLoop w' Served)).
  { apply (loop_advance (inr ErrCommandNotSupported)). cbn [ServeLoop_step]. unfold serve_turn.
    unfold mbind, prog_bind in *. by rewrite E. }
  eapply can_finish_step; [exact Hs|]. apply served_finishes. eapply inv_run; [by apply rtc_once|done].
Qed.

Lemma loop_finishes l : loop_inv 0 l → can_finish l.
Proof.
  destruct l as [w [| |sid| | |]]; intros Hl.
  - by apply starting_finishes.
  - by apply served_finishes.
  - by apply waiting_finishes.
  - by apply deciding_finishes.
  - assert (Hs : loop_step (mkLoop w Sleeping) (mkLoop w Starting)).
    { by apply (loop_advance (inr ErrCommandNotSupported)). }
    eapply can_finish_step; [exact Hs|]. apply starting_finishes. eapply inv_run; [by apply rtc_once|done].
  - by exists (mkLoop w Finished).
Qed.
End Ends.

(** ** The properties *)

Section Properties.
Context {A I : Type} `{SocketAdapterSpec A} `{WaterInterface I} `{!Configurable I} `{!NewInterface I}
  `{FindLowest} `{NewRandom} `{Cidr}.
Implicit Types (l : serve_loop A I).

(** C36. However the client's loop, the goroutines of its sockets, the server's
    messages and calls of Close interleave: the goroutines that a WaitGroup
    counts belong to one socket; when the loop dials or sleeps none is left, so
    that the connections of a client never overlap; its wait returns exactly
    when none is left of the socket it waits for; and the wait can come to its
    end from every state: each goroutine it counts can end without a panic, and
    after as many such steps, with nothing else done by anyone, the loop goes on
    to its test of the delay. *)
Theorem client_loop l0 l :
  loop_start l0 → rtc loop_step l0 l →
  let w := loop_world l in
  (∃ last, ∀ t sid, t ∈ tasks w → waits_for sid t → sid = last)
  ∧ (loop_at l = Starting ∨ loop_at l = Sleeping → ∀ t sid, t ∈ tasks w → ¬ waits_for sid t)
  ∧ (∀ sid s, loop_at l = Waiting sid → socks w !! sid = Some s →
       Socket_Wait s = true ↔ ∀ t sid', t ∈ tasks w → ¬ waits_for sid' t)
  ∧ (∀ sid, loop_at l = Waiting sid → ∃ s w', socks w !! sid = Some s
       ∧ nsteps loop_step (S (Z.to_nat (wg s))) l (mkLoop w' Deciding)).
Proof.
  intros Hs Hr w. destruct (loop_reachable_inv _ _ Hs Hr) as (delay & Hl).
  destruct (Hl : loop_inv _ _) as (Hinv & busy & last & cs & Hst & Hp).
  fold w in Hinv, Hst. split_and!.
  - exists last. intros t sid Ht Hw. by destruct (sl_tasks Hst _ _ Ht Hw).
  - intros He t sid Ht Hw. destruct (sl_tasks Hst _ _ Ht Hw) as [-> _].
    by destruct He as [He|He]; rewrite He in Hp.
  - intros sid s He Hs'. rewrite He in Hp. unfold Socket_Wait.
    rewrite Z.eqb_eq, (inv_wg _ _ _ _ (Hinv _ _ Hs')), none_waiting. split; [|by eauto].
    intros Hn t sid' Ht Hw. destruct (sl_tasks Hst _ _ Ht Hw) as [Hb ->].
    rewrite <- (proj2 Hp) in Hw. by apply (Hn t).
  - intros sid He. destruct l as [w0 p]. cbn [loop_at loop_world] in *. subst p w.
    destruct Hp as [Hb ->]. destruct (sl_there Hst (or_introl Hb)) as [s Hlook]. exists s.
    pose proof (inv_wg _ _ _ _ (Hinv _ _ Hlook)) as Hwg.
    destruct (wait_runs last (Z.to_nat (wg s)) w0) as [w' Hn]; [by exists delay| |by exists w'].
    rewrite Hwg. unfold waiting, len. lia.
Qed.

Lemma loop_step_left delay l l' : loop_inv delay l → delay = 0 → loop_step l l' →
  loop_at l' = loop_at l ∨ (advances_left (loop_at l') < advances_left (loop_at l))%nat.
Proof.
  intros Hl Hd Hs. revert Hl.
  destruct Hs as [a w w' p Ha E|t l1 l2 w w' p El E|t w p|dialed w w' p p' E|w w' p E];
    intros (_ & busy & last & cs & Hst & _); try by left.
  right. cbn [loop_world loop_at] in *. destruct p; cbn [ServeLoop_step] in E.
  - apply prog_bind_inv in E as (w1 & u & _ & E). injection E as _ <-. cbn. lia.
  - injection E as _ <-. unfold Client_Wait. case_match; cbn; lia.
  - apply prog_bind_inv in E as (w1 & s & _ & E). injection E as _ E. destruct (Socket_Wait s); [|done].
    injection E as <-. cbn. lia.
  - injection E as _ <-. unfold reconnects. rewrite (sl_delay Hst), Hd. cbn. lia.
  - injection E as _ <-. cbn. lia.
  - done.
Qed.


End Properties.

(** ** A closed instance: a connection that ends, and Close during the sleep *)

Definition demo_loop : serve_loop recorder unit :=
  mkLoop (mkWorld ∅ ∅ (NewClient <| AutoReconnectDelay := 5 |>) [] [] 0 0) Starting.

Definition advance_of (l : serve_loop recorder unit) : serve_loop recorder unit :=
  match ServeLoop_step dialed_adapter (loop_at l) (loop_world l) with
  | Ret (w, Some p) => mkLoop w p | _ => l end.

(** The goroutine at place [n] runs to its end. *)
Definition ends_of (n : nat) (l : serve_loop recorder unit) : serve_loop recorder unit :=
  let w := loop_world l in
  match tasks w !! n with
  | Some t => mkLoop (after (run_task t) (w <| tasks := take n (tasks w) ++ drop (S n) (tasks w) |>)) (loop_at l)
  | None => l
  end.

Definition loop_waits := advance_of (advance_of demo_loop).
Definition loop_sleeps := advance_of (advance_of (ends_of 0 (ends_of 0 loop_waits))).
Definition loop_closed := mkLoop (after Client_Close (loop_world loop_sleeps)) (loop_at loop_sleeps).
Definition loop_dials := advance_of (advance_of loop_closed).
Definition loop_ends :=
  advance_of (advance_of (ends_of 2 (ends_of 2 (advance_of loop_dials)))).

Definition can_advance (l : serve_loop recorder unit) : bool :=
  match ServeLoop_step dialed_adapter (loop_at l) (loop_world l) with Ret (_, Some _) => true | _ => false end.
Definition can_end (n : nat) (l : serve_loop recorder unit) : bool :=
  let w := loop_world l in
  match tasks w !! n with
  | Some t => returns (run_task t) (w <| tasks := take n (tasks w) ++ drop (S n) (tasks w) |>)
  | None => false
  end.

Lemma advance_run l : can_advance l = true → loop_step l (advance_of l).
Proof.
  unfold can_advance, advance_of. destruct (ServeLoop_step _ _ _) as [[w [p|]]| |] eqn:E; try done.
  intros _. destruct l. by eapply loop_advance.
Qed.

Lemma end_run n l : can_end n l = true → loop_step l (ends_of n l).
Proof.
  unfold can_end, ends_of. destruct l as [w p]. cbn [loop_world loop_at].
  destruct (tasks w !! n) as [t|] eqn:Et; [|done]. intros Hr.
  eapply loop_task; [|by apply after_run]. by rewrite take_drop_middle.
Qed.

Lemma demo_start : loop_start demo_loop.
Proof. by split_and!. Qed.

Lemma demo_waits : rtc loop_step demo_loop loop_waits.
Proof.
  unfold loop_waits. do 2 (eapply rtc_l; [apply advance_run; vm_compute; reflexivity|]). apply rtc_refl.
Qed.

Lemma demo_sleeps : rtc loop_step demo_loop loop_sleeps.
Proof.
  unfold loop_sleeps, loop_waits.
  do 2 (eapply rtc_l; [apply advance_run; vm_compute; reflexivity|]).
  do 2 (eapply rtc_l; [apply (end_run 0); vm_compute; reflexivity|]).
  do 2 (eapply rtc_l; [apply advance_run; vm_compute; reflexivity|]). apply rtc_refl.
Qed.

Lemma demo_closed : rtc loop_step demo_loop loop_closed.
Proof.
  eapply rtc_r; [exact demo_sleeps|]. destruct loop_sleeps as [w p] eqn:E. unfold loop_closed. rewrite E.
  apply loop_close. cbn [loop_world]. apply after_run.
  replace w with (loop_world loop_sleeps) by (by rewrite E). vm_compute. reflexivity.
Qed.

Lemma demo_ends : rtc loop_step loop_closed loop_ends.
Proof.
  unfold loop_ends, loop_dials.
  do 3 (eapply rtc_l; [apply advance_run; vm_compute; reflexivity|]).
  do 2 (eapply rtc_l; [apply (end_run 2); vm_compute; reflexivity|]).
  do 2 (eapply rtc_l; [apply advance_run; vm_compute; reflexivity|]). apply rtc_refl.
Qed.

(** While it waits for the first connection, whose two goroutines are among four. *)
Lemma client_loop_witness :
  loop_at loop_waits = Waiting 0%nat ∧ len (tasks (loop_world loop_waits)) = 4 ∧
  ((∃ last, ∀ t sid, t ∈ tasks (loop_world loop_waits) → waits_for sid t → sid = last)
  ∧ (loop_at loop_waits = Starting ∨ loop_at loop_waits = Sleeping →
       ∀ t sid, t ∈ tasks (loop_world loop_waits) → ¬ waits_for sid t)
  ∧ (∀ sid s, loop_at loop_waits = Waiting sid → socks (loop_world loop_waits) !! sid = Some s →
       Socket_Wait s = true ↔ ∀ t sid', t ∈ tasks (loop_world loop_waits) → ¬ waits_for sid' t)
  ∧ (∀ sid, loop_at loop_waits = Waiting sid → ∃ s w', socks (loop_world loop_waits) !! sid = Some s
       ∧ nsteps loop_step (S (Z.to_nat (wg s))) loop_waits (mkLoop w' Deciding))).
Proof.
  split; [vm_compute; reflexivity|]. split; [vm_compute; reflexivity|].
  exact (client_loop demo_loop loop_waits demo_start demo_waits).
Defined.

