(* ===== verification/Handshake.v ===== *)
(** * The init command, from the server to the client and back

    What makes a tunnel of two ready sockets: the server sends the address it
    chose, the client takes it over, opens and configures its interface and
    answers.  Between the two there are only control messages. *)

From S2P Require Import Prelude Json Commands Adapter Socket World Lifecycle Fragment Protocol.
From S2P Require Import Net IPText VPNNet Shared Iface IfaceSpec Client.
From S2P Require Import ClientSpec.
From S2P Require Server ServerState.
Import adapters.

(** ** Sending a command *)

Section Sending.
Context {A I E : Type} `{SocketAdapterSpec A} `{WaterInterface I} `{Unregister E} `{NewRandom}.
Implicit Types (s : Socket A) (w : World A I E).

(** The transport takes the message of this command. *)
Definition takes_command (a : A) (id : string) (p : commands.CommandParameters) : Prop :=
  ∀ msg, commands.Serialize (commands.mkOutgoing id (commands.command_name p) p)
           commands.SerializationTypeJSON = inl msg →
    (WriteControlMessage msg a).2 = None.

(** The identifier of a command: the one given, or a fresh one. *)
Definition command_id w (id : string) : string + error :=
  if bool_decide (id = ""%string) then uuid_NewRandom (draws w) else inl id.
Definition after_draw w (id : string) : World A I E :=
  if bool_decide (id = ""%string) then w <| draws := S (draws w) |> else w.

(** A message that carries a command. *)
Definition carries (msg : bytes) (id : string) (p : commands.CommandParameters) : Prop :=
  ∃ c, commands.DeserializeCommand msg commands.SerializationTypeJSON = Ret (inl c)
    ∧ commands.InID c = id ∧ commands.InCommand c = commands.command_name p
    ∧ commands.reads_back p c.

Lemma command_sent w sid s p id0 id :
  socks w !! sid = Some s → may_issue s p = true → command_id w id0 = inl id →
  GetCommandSerializationType (adapter s) = commands.SerializationTypeJSON →
  commands.utf8 id → commands.wf_parameters p → takes_command (adapter s) id p →
  ∃ msg ad, rawMakeAndSendCommand sid p id0 w
      = Ret (put (after_draw w id0) sid (s <| adapter := ad |>), None)
    ∧ sent_control ad = sent_control (adapter s) ++ [msg]
    ∧ GetCommandSerializationType ad = commands.SerializationTypeJSON ∧ carries msg id p.
Proof.
  intros Hs Hm Hid Hj Hu Hp Hok.
  assert (Hname : commands.utf8 (commands.command_name p)) by (by destruct p).
  destruct (commands.serialize_reads_back id (commands.command_name p) p Hu Hname Hp)
    as (msg & c & Es & Ed & Hc).
  specialize (Hok msg Es). destruct (WriteControlMessage msg (adapter s)) as [ad e] eqn:Ew.
  simpl in Hok. subst e. pose proof (control_ok _ _ _ Ew) as [? ?].
  pose proof (control_keeps_type (adapter s) msg) as Ht. rewrite Ew, Hj in Ht.
  exists msg, ad. split; [|split_and!; [done..|by exists c]].
  rewrite <- (put_lookup w sid s) at 1 by done. unfold rawMakeAndSendCommand.
  erewrite run_bind by apply run_sock. unfold may_issue in Hm. apply andb_true_iff in Hm as [Hm Hv].
  rewrite Hm. cbn [negb]. apply Z.leb_le in Hv. rewrite (proj2 (Z.ltb_ge _ _)) by done.
  assert (Em : make_command p id0 (put w sid s)
    = Ret (put (after_draw w id0) sid s, (commands.mkOutgoing id (commands.command_name p) p, None))).
  { unfold make_command, commands.MakeCommand, commands.makeCommand, after_draw.
    unfold command_id in Hid. simpl draws. case_bool_decide; [|by injection Hid as ->].
    rewrite Hid. done. }
  erewrite run_bind by exact Em. cbv beta iota. rewrite Hj, Es.
  erewrite run_bind by apply run_adapter. by rewrite Ew.
Qed.

End Sending.

(** ** The server sends *)

Section ServerSide.
Context {A I E : Type} `{SocketAdapterSpec A} `{WaterInterface I} `{Unregister E} `{NewRandom}
  `{!World.PacketHandler A I E} `{!ClientHandlers A I E} `{Cidr}.
Import Server.

(** What the server tells the client of a connection. *)
Definition init_parameters (s : Server) (k : Socket A) (c : connection) : commands.InitParameters :=
  commands.mkInit (VPNMode_ToString (mode s)) (DoRemoteIPConfig s)
    (net_text (c_ip c) (GetSize (vpnNet s))) (mtu s) (serverID s) (c_clientID c)
    (IsLocalFeature k features.Fragmentation).

Lemma send_init_sends (sw : SW A I E) c k id :
  socks (world sw) !! c_sid c = Some k → may_issue k (commands.Init (init_parameters (server sw) k c)) = true →
  command_id (world sw) "" = inl id →
  GetCommandSerializationType (adapter k) = commands.SerializationTypeJSON →
  commands.utf8 id → commands.wf_parameters (commands.Init (init_parameters (server sw) k c)) →
  takes_command (adapter k) id (commands.Init (init_parameters (server sw) k c)) →
  ∃ msg ad w', send_init c sw = Ret (sw <| world := w' |>, true)
    ∧ socks w' = <[c_sid c := k <| adapter := ad |>]> (socks (world sw))
    ∧ sent_control ad = sent_control (adapter k) ++ [msg]
    ∧ GetCommandSerializationType ad = commands.SerializationTypeJSON
    ∧ carries msg id (commands.Init (init_parameters (server sw) k c)).
Proof.
  intros Hk Hm Hid Hj Hu Hp Hok.
  destruct (command_sent (world sw) (c_sid c) k _ "" id Hk Hm Hid Hj Hu Hp Hok)
    as (msg & ad & Erun & Hs & Ht & Hc).
  exists msg, ad, (put (after_draw (world sw) "") (c_sid c) (k <| adapter := ad |>)).
  split; [|split_and!; done].
  unfold send_init. erewrite run_bind by done. cbv beta.
  assert (Esock : lift (sock (c_sid c)) sw = Ret (sw, k)).
  { unfold lift. rewrite (run_sock_at _ _ k) by done. by destruct sw. }
  erewrite run_bind by exact Esock. cbv beta.
  assert (Esend : lift (MakeAndSendCommand (c_sid c) (commands.Init (init_parameters (server sw) k c))) sw
    = Ret (sw <| world := put (after_draw (world sw) "") (c_sid c) (k <| adapter := ad |>) |>, None)).
  { unfold lift, MakeAndSendCommand. by rewrite Erun. }
  erewrite run_bind by exact Esend. done.
Qed.

End ServerSide.

(** ** The client takes the address *)

Section ClientSide.
Context {A I : Type} `{SocketAdapterSpec A} `{WaterInterface I} `{!Configurable I} `{!NewInterface I}
  `{FindLowest} `{NewRandom} `{Cidr}.
Implicit Types (s : Socket A) (w : World A I Client).

Lemma run_client w sid s f :
  upd_client f (put w sid s) = Ret (put (w <| env := f (env w) |>) sid s, tt).
Proof. done. Qed.

Lemma run_call w sid s iid f i i' e :
  ifaces w !! iid = Some i → f i = (i', e) →
  iface_call iid f (put w sid s) = Ret (put (w <| ifaces := <[iid := i']> (ifaces w) |>) sid s, e).
Proof.
  intros Hi Hf. unfold iface_call. erewrite run_bind by done. cbv beta.
  change (ifaces (put w sid s)) with (ifaces w). by rewrite Hi, Hf.
Qed.

(** A call on an interface that obeys. *)
Lemma run_obeying (W : I → Prop) w sid s iid f i :
  ifaces w !! iid = Some i → (f i).2 = None → W (f i).1 →
  ∃ i', W i' ∧ iface_call iid f (put w sid s)
    = Ret (put (w <| ifaces := <[iid := i']> (ifaces w) |>) sid s, None).
Proof.
  intros Hi He Hw. destruct (f i) as [i' e] eqn:Ef. simpl in He, Hw. subst e. exists i'.
  split; [done|]. by apply (run_call _ _ _ _ _ i).
Qed.

Lemma run_try_read w sid s iid :
  iface s = Some iid → 0 <= wg s →
  ∃ w' n, tryServeIfaceRead sid (put w sid s) = Ret (put w' sid (s <| wg := n |>), tt)
    ∧ env w' = env w ∧ ifaces w' = ifaces w.
Proof.
  intros Hi Hwg. unfold tryServeIfaceRead.
  destruct (ifaceManaged s) eqn:Em.
  - exists (w <| tasks := tasks w ++ [IfaceRead sid] |>), (wg s + 1). split; [|done].
    erewrite run_bind by apply run_sock. rewrite Hi, Em. unfold go_waited, wg_add.
    assert (Ewg : (k ← sock sid; if wg k + 1 <? 0 then panic "sync: negative WaitGroup counter"
        else upd sid (λ k, k <| wg := wg k + 1 |>)) (put w sid s)
      = Ret (put w sid (s <| wg := wg s + 1 |>), tt)).
    { erewrite run_bind by apply run_sock. rewrite (proj2 (Z.ltb_ge _ _)) by lia.
      by rewrite run_upd. }
    by erewrite run_bind by exact Ewg.
  - exists w, (wg s). split; [|done]. erewrite run_bind by apply run_sock. rewrite Hi, Em.
    by destruct s.
Qed.

Lemma run_set_interface w sid s iid :
  iface s = None → 0 <= wg s →
  ∃ w' n, SetInterface sid iid (put w sid s)
      = Ret (put w' sid (s <| iface := Some iid |> <| wg := n |>), None)
    ∧ env w' = env w ∧ ifaces w' = ifaces w.
Proof.
  intros Hn Hwg.
  destruct (run_try_read w sid (s <| iface := Some iid |>) iid) as (w' & n & Eread & Hsame); try done.
  exists w', n. split; [|done]. unfold SetInterface. erewrite run_bind by apply run_sock. rewrite Hn.
  erewrite run_bind by apply run_upd. by erewrite run_bind by exact Eread.
Qed.

(** What a client is once it has been told its address. *)
Record initialised (W : I → Prop) (net : VPNNet) (p : commands.InitParameters) w (iid : IfaceId)
    (s : Socket A) : Prop := {
  init_address : AssignedIP s = GetRawIP net;
  init_iface : iface s = Some iid;
  init_buffer : packetBufferSize s = GetPacketBufferSizeByMTU (commands.MTU p);
  init_client_iface : c_iface (env w) = Some iid;
  init_net : remoteNet (env w) = Some net;
  init_mtu : c_mtu (env w) = commands.MTU p;
  init_up : sentUpEvent (env w) = true;
  init_works : ∃ i, ifaces w !! iid = Some i ∧ W i
    ∧ last (scripts (env w)) = Some (EventUp, GetRaw net, iface_name i) }.

Lemma run_script event w sid s net iid i :
  c_iface (env w) = Some iid → ifaces w !! iid = Some i → remoteNet (env w) = Some net →
  doRunEventScript event (put w sid s)
  = Ret (put (w <| env := (env w) <| scripts := scripts (env w) ++ [(event, GetRaw net, iface_name i)] |> |>)
           sid s, tt).
Proof.
  intros Hiid Hi Hn. unfold doRunEventScript. change (env (put w sid s)) with (env w).
  change (ifaces (put w sid s)) with (ifaces w). by rewrite Hiid, Hn; simpl; rewrite Hi.
Qed.

Lemma init_interface_run W w sid s net p iid i :
  obeys W → ifaces w !! iid = Some i → W i → iface s = None → 0 <= wg s →
  AssignedIP s = GetRawIP net → c_socket (env w) = Some sid → c_iface (env w) = Some iid →
  remoteNet (env w) = Some net →
  ∃ w' n, let s' := s <| packetBufferSize := GetPacketBufferSizeByMTU (commands.MTU p) |>
                      <| iface := Some iid |> <| wg := n |> in
    init_interface sid net p iid (put w sid s) = Ret (put w' sid s', None)
    ∧ initialised W net p w' iid s'.
Proof.
  intros [Hconf Hmtu Hroute] Hi Hw Hn Hwg Hip Hsid Hiid Hnet. unfold init_interface.
  destruct (run_obeying W w sid s iid
    (if commands.DoIPConfig p then Configure (GetRawIP net) (Some net) (GetServerIP net)
     else Configure [] None []) i Hi) as (i1 & Hw1 & E1).
  { case_match; by apply Hconf. } { case_match; by apply Hconf. }
  erewrite run_bind by exact E1. cbn [on_ok].
  set (w1 := w <| ifaces := <[iid := i1]> (ifaces w) |>).
  set (s2 := s <| packetBufferSize := GetPacketBufferSizeByMTU (commands.MTU p) |>).
  set (w2 := w1 <| env := (env w1) <| c_mtu := commands.MTU p |> |>).
  assert (Hi2 : ifaces w2 !! iid = Some i1) by apply lookup_insert_eq.
  destruct (Hmtu i1 (commands.MTU p) Hw1) as [Hm1 Hm2].
  destruct (run_obeying W w2 sid s2 iid _ i1 Hi2 Hm1 Hm2) as (i3 & Hw3 & E3).
  set (w3 := w2 <| ifaces := <[iid := i3]> (ifaces w2) |>).
  assert (Emtu : Client_SetMTU (commands.MTU p) (put w1 sid s) = Ret (put w3 sid s2, None)).
  { unfold Client_SetMTU. erewrite run_bind by (apply (run_client w1 sid s)).
    change (w1 <| env := _ |>) with w2.
    erewrite run_bind by done. cbv beta.
    rewrite (Hsid : c_socket (env (put w2 sid s)) = Some sid). erewrite run_bind by apply run_upd.
    rewrite (Hiid : c_iface (env (put w2 sid s)) = Some iid). exact E3. }
  erewrite run_bind by exact Emtu. cbn [on_ok].
  destruct (run_set_interface w3 sid s2 iid Hn Hwg) as (w4 & n & E4 & Henv4 & Hif4).
  erewrite run_bind by exact E4. cbn [on_ok]. erewrite run_bind by done. cbv beta.
  assert (Hi4 : ifaces w4 !! iid = Some i3) by (rewrite Hif4; apply lookup_insert_eq).
  set (s4 := s2 <| iface := Some iid |> <| wg := n |>).
  assert (Hroute4 : ∃ w5 e i5, env w5 = env w4 ∧ ifaces w5 !! iid = Some i5 ∧ W i5
    ∧ (if SetDefaultGateway (env (put w4 sid s4))
       then iface_call iid (AddIPRoute IPv4_any (GetServerIP net)) else mret None) (put w4 sid s4)
      = Ret (put w5 sid s4, e)).
  { destruct (SetDefaultGateway _).
    - pose proof (Hroute i3 IPv4_any (GetServerIP net) Hw3) as Hr.
      destruct (AddIPRoute IPv4_any (GetServerIP net) i3) as [i5 e] eqn:Er.
      exists (w4 <| ifaces := <[iid := i5]> (ifaces w4) |>), e, i5. split_and!; [done| |done|].
      + apply lookup_insert_eq.
      + by apply (run_call _ _ _ _ _ i3).
    - exists w4, None, i3. done. }
  destruct Hroute4 as (w5 & e & i5 & Henv5 & Hi5 & Hw5 & E5). erewrite run_bind by exact E5.
  erewrite run_bind by (apply (run_script EventUp w5 sid s4 net iid i5); by rewrite ?Henv5, ?Henv4).
  erewrite run_bind by apply run_client.
  do 2 eexists. split; [reflexivity|].
  constructor; try done; try by (simpl; rewrite Henv5, Henv4).
  exists i5. split_and!; [done|done|]. simpl. by rewrite last_snoc.
Qed.

(** The interface settings with which a client opens its interface. *)
Definition client_settings (c : Client) (mode : VPNMode) : WaterConfig :=
  (linux.GetPlatformSpecifics (ClientInterface c)
    (mkWaterConfig (ToWaterDeviceType mode) EmptyString false EmptyString)).1.

(** The socket as the handler leaves it: the fragmentation the server wants, its
    own address. *)
Definition told (p : commands.InitParameters) (net : VPNNet) s : Socket A :=
  (HandleInitPacketFragmentation (commands.EnableFragmentation p) s) <| AssignedIP := GetRawIP net |>.

(** The identifiers the server gave. *)
Definition named_client (p : commands.InitParameters) (c : Client) : Client :=
  if is_empty (commands.ClientID p) then c else c <| clientID := commands.ClientID p |>.
Definition named_server (p : commands.InitParameters) (c : Client) : Client :=
  if is_empty (commands.ServerID p) then c else c <| serverID := commands.ServerID p |>.
Definition named p (c : Client) : Client := named_server p (named_client p c).

Lemma run_unless (b : bool) f w sid s :
  (if b then mret tt else upd_client f) (put w sid s)
  = Ret (put (w <| env := if b then env w else f (env w) |>) sid s, tt).
Proof. destruct b; [by destruct w|done]. Qed.

Lemma named_keeps p c :
  c_socket (named p c) = c_socket c ∧ opened (named p c) = opened c
  ∧ ClientInterface (named p c) = ClientInterface c.
Proof. unfold named, named_server, named_client. by repeat case_match. Qed.

Lemma told_keeps p net s :
  iface (told p net s) = iface s ∧ wg (told p net s) = wg s
  ∧ remoteProtocolVersion (told p net s) = remoteProtocolVersion s.
Proof.
  unfold told, HandleInitPacketFragmentation. case_match; [done|].
  unfold featureCheck. cbv zeta. by repeat case_match.
Qed.

Lemma init_handler_run W w sid s command p net i :
  obeys W → socks w !! sid = Some s →
  commands.DeserializeParameters commands.init_fields commands.zero_init command = inl p →
  c_socket (env w) = Some sid → iface s = None → 0 <= wg s →
  ParseVPNNet (commands.IPAddress p) = inl net →
  water_New (opened (env w)) (client_settings (env w) (VPNModeFromString (commands.Mode p))) = inl i →
  W i →
  ∃ w' iid n, let s' := (told p net s)
        <| packetBufferSize := GetPacketBufferSizeByMTU (commands.MTU p) |>
        <| iface := Some iid |> <| wg := n |> in
    init_handler command w = Ret (put w' sid s', None) ∧ initialised W net p w' iid s'.
Proof.
  intros Hob Hs Hp Hsid Hn Hwg Hnet Hopen Hw. unfold init_handler. rewrite Hp.
  rewrite <- (put_lookup w sid s) by done.
  destruct (named_keeps p (env w)) as (Nsid & Nop & Nif).
  destruct (told_keeps p net s) as (Tif & Twg & _).
  set (w1 := w <| env := named p (env w) |>).
  set (s1 := HandleInitPacketFragmentation (commands.EnableFragmentation p) s).
  set (w2 := w1 <| env := (env w1) <| remoteNet := Some net |> <| doIPConfig := commands.DoIPConfig p |> |>).
  set (w3 := w2 <| env := (env w2) <| opened := S (opened (env w2)) |> |>).
  set (iid := base.fresh (dom (ifaces w3) : gset IfaceId)).
  set (w4 := w3 <| ifaces := <[iid := i]> (ifaces w3) |> <| env := (env w3) <| Client.c_iface := Some iid |> |>).
  destruct (init_interface_run W w4 sid (told p net s) net p iid i) as (w' & n & Erun & Hinit);
    try done; try by rewrite ?Tif, ?Twg.
  { apply lookup_insert_eq. } { by rewrite <- Hsid, <- Nsid. }
  exists w', iid, n. split; [|exact Hinit].
  erewrite run_bind by apply run_unless. erewrite run_bind by apply run_unless.
  change (put _ sid s) with (put w1 sid s) at 1.
  erewrite run_bind by done. cbv beta.
  rewrite (Nsid : c_socket (env (put w1 sid s)) = c_socket (env w)), Hsid.
  erewrite run_bind by apply run_upd. cbv zeta. rewrite Hnet. fold s1.
  erewrite run_bind by apply (run_client w1). erewrite run_bind by apply run_upd.
  assert (Eopen : open_interface (VPNModeFromString (commands.Mode p)) (put w2 sid (told p net s))
    = Ret (put w3 sid (told p net s), inl i)).
  { unfold open_interface. cbv zeta. rewrite <- Hopen, <- Nop. unfold client_settings. rewrite <- Nif.
    reflexivity. }
  erewrite run_bind by exact Eopen. cbv beta iota.
  by erewrite run_bind by done.
Qed.

(** The handler ran and the answer is sent. *)
Lemma init_command_run W WC w sid s msg id p net i :
  obeys W → socks w !! sid = Some s →
  GetCommandSerializationType (adapter s) = commands.SerializationTypeJSON →
  carries msg id (commands.Init p) → handlers s !! commands.InitCommandName = Some InitHandler →
  c_socket (env w) = Some sid → iface s = None → 0 <= wg s →
  ParseVPNNet (commands.IPAddress p) = inl net →
  water_New (opened (env w)) (client_settings (env w) (VPNModeFromString (commands.Mode p))) = inl i →
  W i → id ≠ ""%string → commands.utf8 id → 0 <= remoteProtocolVersion s →
  WC (adapter (told p net s)) →
  (∀ a, WC a → GetCommandSerializationType a = commands.SerializationTypeJSON
     ∧ takes_command a id (commands.Reply (commands.mkReply true "OK"))) →
  ∃ w' iid s' reply, controlMessageHandler sid msg w = Ret (w', true)
    ∧ socks w' !! sid = Some s' ∧ initialised W net p w' iid s'
    ∧ fragmentationEnabled s' = fragmentationEnabled (told p net s)
    ∧ sent_control (adapter s') = sent_control (adapter (told p net s)) ++ [reply]
    ∧ carries reply id (commands.Reply (commands.mkReply true "OK")).
Proof.
  intros Hob Hs Hj (c & Ed & Eid & Ename & Hp) Hh Hsid Hn Hwg Hnet Hopen Hw Hid Hu Hv HWC Hreply.
  destruct (init_handler_run W w sid s c p net i) as (w1 & iid & n & Erun & Hinit); try done.
  destruct (told_keeps p net s) as (_ & _ & Tv).
  set (s1 := (told p net s) <| packetBufferSize := GetPacketBufferSizeByMTU (commands.MTU p) |>
    <| iface := Some iid |> <| wg := n |>) in *.
  destruct (Hreply (adapter s1) HWC) as [Hj1 Htake].
  destruct (command_sent (put w1 sid s1) sid s1 (commands.Reply (commands.mkReply true "OK")) id id)
    as (reply & ad & Esend & Hsent & _ & Hcarry); try done.
  { apply lookup_insert_eq. }
  { unfold may_issue. rewrite (proj2 (Z.leb_le _ _)); [by destruct (IsServer _)|].
    change (0 <= remoteProtocolVersion (told p net s)). by rewrite Tv. }
  { unfold command_id. by rewrite bool_decide_eq_false_2. }
  exists (put w1 sid (s1 <| adapter := ad |>)), iid, (s1 <| adapter := ad |>), reply.
  split; [|split; [apply lookup_insert_eq|split; [by destruct Hinit|done]]].
  unfold controlMessageHandler. erewrite run_bind by (by apply run_sock_at). rewrite Hj, Ed.
  assert (Ehandler : (match handlers s !! commands.InCommand c with
      | Some h => run_handler sid h c
      | None => mret (Some (ErrText "unknown command")) end) w = Ret (put w1 sid s1, None)).
  { rewrite Ename. change (commands.command_name (commands.Init p)) with commands.InitCommandName. by rewrite Hh. }
  erewrite run_bind by exact Ehandler. cbv zeta. rewrite Ename, bool_decide_eq_false_2, Eid by done.
  erewrite run_bind by exact Esend. unfold after_draw. rewrite bool_decide_eq_false_2 by done.
  unfold put. simpl. by rewrite insert_insert_eq.
Qed.

End ClientSide.

(** ** The texts are UTF-8 *)

Definition is_ascii (c : Ascii.ascii) : bool := ascii_code c <? 128.

Lemma ascii_utf8 s : string_all is_ascii s = true → commands.utf8 s.
Proof.
  unfold commands.utf8. induction s as [|c s IH]; [done|]. cbn [string_all valid_utf8].
  intros [Hc Hs]%andb_true_iff. unfold is_ascii in Hc. destruct (decode_rune _) as [r size].
  rewrite Hc. by apply IH.
Qed.

Lemma v4_char_ascii c : v4_char c = true → is_ascii c = true.
Proof.
  unfold v4_char. intros [Hd|Hd]%orb_true_iff.
  - unfold is_digit, between in Hd. apply andb_true_iff in Hd as [_ Hd]. apply Z.leb_le in Hd.
    unfold is_ascii. apply Z.ltb_lt. lia.
  - apply bool_decide_eq_true in Hd. by subst.
Qed.

Lemma net_text_utf8 `{CidrSpec} r base ones k ip :
  wf_net base ones → ipNet r = v4_net base ones → GetIPAt r k = inl ip → 0 <= k →
  commands.utf8 (net_text ip (GetSize r)).
Proof.
  intros Hw Hr Hip Hk. unfold GetIPAt in Hip. rewrite Hr in Hip.
  pose proof (host_spec base ones k Hw Hk) as Hh. rewrite Hip in Hh. destruct Hh as [_ H4].
  unfold GetSize. rewrite Hr. cbn [v4_net NetMask]. rewrite mask_size_v4 by apply Hw. cbn [fst].
  unfold net_text. rewrite (print_of_v4 ip _ H4) by done. apply ascii_utf8.
  rewrite !string_all_app. apply andb_true_iff. split.
  - eapply string_all_weaken; [|apply print_v4_chars, v4_bytes_range]. apply v4_char_ascii.
  - apply andb_true_iff. split; [done|].
    assert (Hx : forallb (λ b, string_all is_ascii (itoa b)) (map Z.of_nat (seq 0 33)) = true)
      by (vm_compute; reflexivity).
    apply (forall_range _ 33 Hx). destruct Hw. lia.
Qed.

(** ** Both ends *)

Section Handshake.
Context {A I E : Type} `{SocketAdapterSpec A} `{WaterInterface I} `{!Configurable I} `{!NewInterface I}
  `{FindLowest} `{NewRandom} `{Cidr} `{!CidrSpec}
  `{Unregister E} `{!World.PacketHandler A I E} `{!ClientHandlers A I E}.
Import Server.

Abbreviation ok_reply := (commands.Reply (commands.mkReply true "OK")).

(** The server, where the socket of the connection is ready for commands and
    the client has the [n]-th address of the network. *)
Record server_ready (sw : SW A I E) (c : connection) (k : Socket A) (id : string) (base ones n : Z)
    : Prop := {
  sr_net : wf_net base ones ∧ ipNet (vpnNet (server sw)) = v4_net base ones;
  sr_address : 0 <= n ∧ GetIPAt (vpnNet (server sw)) n = inl (c_ip c);
  sr_socket : socks (world sw) !! c_sid c = Some k;
  sr_reply : handlers k !! commands.ReplyCommandName = Some ReplyHandler;
  sr_json : GetCommandSerializationType (adapter k) = commands.SerializationTypeJSON;
  sr_may : may_issue k (commands.Init (init_parameters (server sw) k c)) = true;
  sr_id : command_id (world sw) "" = inl id ∧ id ≠ ""%string ∧ commands.utf8 id;
  sr_values : commands.is_int64 (mtu (server sw)) ∧ commands.utf8 (serverID (server sw))
    ∧ commands.utf8 (c_clientID c);
  sr_takes : takes_command (adapter k) id (commands.Init (init_parameters (server sw) k c)) }.

(** The client, connected and without an interface yet; [i] is the one that it
    will open. *)
Record client_ready (W : I → Prop) (WC : A → Prop) (w : World A I Client) (sid : SocketId)
    (s : Socket A) (id : string) (p : commands.InitParameters) (i : I) : Prop := {
  cr_socket : socks w !! sid = Some s ∧ c_socket (env w) = Some sid;
  cr_json : GetCommandSerializationType (adapter s) = commands.SerializationTypeJSON;
  cr_handler : handlers s !! commands.InitCommandName = Some InitHandler;
  cr_fresh : iface s = None ∧ 0 <= wg s ∧ 0 <= remoteProtocolVersion s;
  cr_opens : water_New (Client.opened (env w)) (client_settings (env w) (VPNModeFromString (commands.Mode p)))
    = inl i ∧ W i;
  cr_works : WC s.(adapter) ∧ WC (RefreshFeatures s.(adapter));
  cr_takes a : WC a → GetCommandSerializationType a = commands.SerializationTypeJSON
    ∧ takes_command a id ok_reply }.

Lemma told_adapter p net (s : Socket A) :
  adapter (told p net s) = adapter s ∨ adapter (told p net s) = RefreshFeatures (adapter s).
Proof.
  unfold told, HandleInitPacketFragmentation. case_match; [by left|].
  unfold featureCheck. cbv zeta. repeat case_match; auto.
Qed.

Lemma reply_taken (w : World A I E) sid k msg id :
  socks w !! sid = Some k → handlers k !! commands.ReplyCommandName = Some ReplyHandler →
  GetCommandSerializationType (adapter k) = commands.SerializationTypeJSON →
  carries msg id ok_reply → controlMessageHandler sid msg w = Ret (w, true).
Proof.
  intros Hk Hh Hj (c & Ed & _ & Ename & Hr).
  rewrite (control_after_handler w sid k c msg k None); [|done|by rewrite Hj|].
  - rewrite Ename, bool_decide_eq_true_2 by done. erewrite run_bind by done. by rewrite put_lookup.
  - unfold default_handling. rewrite Ename. change (commands.command_name ok_reply) with commands.ReplyCommandName.
    rewrite Hh. simpl in Hr. by rewrite Hr.
Qed.


End Handshake.

(** ** A closed instance: a server of 10.0.0.0/29 and its first client *)

Import Server ServerState.

Definition greeted (h : string) (handler : CommandHandler) : Socket tape :=
  (MakeSocket (mkTape [] []) None true true)
    <| handlers := {[h := handler]} |> <| remoteProtocolVersion := 12 |>.
Definition greeting_server : SW tape unit unit :=
  mkSW (demo_server 0) (mkWorld {[3%nat := greeted commands.ReplyCommandName ReplyHandler]} ∅ tt [] [] 0 0) ∅.
Definition greeting_connection : connection :=
  mkConnection 3 1 None "client" "user" (v4_bytes 167772162).
Definition greeting_client : World tape unit Client :=
  mkWorld {[4%nat := greeted commands.InitCommandName InitHandler]} ∅
    (NewClient <| c_socket := Some 4%nat |>) [] [] 0 0.

Lemma tape_takes a id p : takes_command (A := tape) a id p.
Proof. done. Qed.

