(* ===== verification/Firewall.v ===== *)
(** * The firewall mark of the client's connections

    client/clients/connection_linux.go and dial.go: a socket option that routes a
    connection past the tunnel; and which connections of the two connectors get
    it.  Descriptors and their options belong to the operating system: a class. *)

From S2P Require Import Prelude Commands Adapter Socket World Net Negotiation Http Upgraders.
From S2P Require WebSocket WebTransport Client.
Import adapters negotiation.

(** ** client/clients/connection_linux.go *)

(** A [syscall.RawConn]: the descriptor that [Control] passes to its function, or
    the error with which it does not call it. *)
Abbreviation RawConn := (Z + error)%type.

(** The types a [net.Conn] is tested for; [SyscallConn] can fail. *)
Inductive net_Conn : Type :=
| SyscallConn (fd : RawConn + error)
| TLSConn (inner : net_Conn)
| OtherConn.

Class Sockopt (C : Type) := {
  net_conn : C → net_Conn;
  SetsockoptInt : Z → Z → Z → Z → C → C * option error }.

Definition fwmarkIoctl : Z := 36.
Definition SOL_SOCKET : Z := 1.
Definition ErrUnknownConnType : error := ErrText "not a known conn type".

Section Mark.
Context {C : Type} `{Sockopt C}.

Definition setFirewallMarkRaw (fd : RawConn) (mark : Z) (c : C) : C * option error :=
  match fd with
  | inr err => (c, Some err)
  | inl fd => SetsockoptInt fd SOL_SOCKET fwmarkIoctl mark c
  end.

Fixpoint setFirewallMark_on (conn : net_Conn) (mark : Z) (c : C) : C * option error :=
  match conn with
  | SyscallConn (inr err) => (c, Some err)
  | SyscallConn (inl fd) => setFirewallMarkRaw fd mark c
  | TLSConn inner => setFirewallMark_on inner mark c
  | OtherConn => (c, Some ErrUnknownConnType)
  end.

Definition setFirewallMark (mark : Z) (c : C) : C * option error :=
  setFirewallMark_on (net_conn c) mark c.

(** ** client/clients/dial.go: the dialer calls it before it connects. *)
Definition DialerControlFunc (client : Client.Client) (conn : RawConn) (c : C) : C * option error :=
  setFirewallMarkRaw conn (Client.FirewallMark client) c.

End Mark.

(** ** client/clients/connection_other.go: elsewhere no mark is set, and no error
    is given. *)
Definition other_setFirewallMark {C} (mark : Z) (c : C) : C * option error := (c, None).
Definition other_setFirewallMarkRaw {C} (fd : RawConn) (mark : Z) (c : C) : C * option error := (c, None).

(** What the operating system promises of an option. *)
Class SockoptSpec (C : Type) `{Sockopt C} := {
  getsockopt : Z → Z → Z → C → Z;
  set_ok fd level opt v c c' : SetsockoptInt fd level opt v c = (c', None) →
    getsockopt fd level opt c' = v ∧ net_conn c' = net_conn c;
  set_failed fd level opt v c c' e : SetsockoptInt fd level opt v c = (c', Some e) → c' = c }.

(** The descriptor under all layers of TLS. *)
Fixpoint descriptor (conn : net_Conn) : option Z :=
  match conn with
  | SyscallConn (inl (inl fd)) => Some fd
  | TLSConn inner => descriptor inner
  | _ => None
  end.

Section Spec.
Context {C : Type} `{SockoptSpec C}.
Implicit Types c : C.

Definition mark_of c : Z :=
  match descriptor (net_conn c) with Some fd => getsockopt fd SOL_SOCKET fwmarkIoctl c | None => 0 end.

(** Setting the mark works on the descriptor of the connection, whatever TLS there
    is around it, or changes nothing. *)
Lemma setFirewallMark_spec mark c c' err :
  setFirewallMark mark c = (c', err) →
  match err with
  | None => mark_of c' = mark ∧ is_Some (descriptor (net_conn c))
  | Some _ => c' = c
  end.
Proof.
  unfold setFirewallMark, mark_of.
  assert (Hon : ∀ conn, setFirewallMark_on conn mark c = (c', err) →
    match err with
    | None => ∃ fd, descriptor conn = Some fd ∧ net_conn c' = net_conn c
                ∧ getsockopt fd SOL_SOCKET fwmarkIoctl c' = mark
    | Some _ => c' = c
    end).
  { induction conn as [[[fd|e]|e]|inner IH|]; simpl; intros E; try (by injection E as <- <-).
    - destruct err; [by apply set_failed in E|]. apply set_ok in E as [? ?]. by exists fd.
    - by apply IH. }
  intros E. apply Hon in E. destruct err; [done|]. destruct E as (fd & Hd & Hn & Hg).
  rewrite Hn, Hd. by split.
Qed.

End Spec.

(** ** Which connections are marked *)

Section Connections.
Context {C D Q T : Type} `{SockoptSpec C} `{SockoptSpec Q} `{WebSocket.WSConn C} `{WSDialer C T}
  `{WTDialer D T Q} (client : Client.Client).

#[local] Instance enhance_C : EnhanceConn C := Client.Client_EnhanceConn setFirewallMark client.
#[local] Instance enhance_Q : EnhanceConn Q := Client.Client_EnhanceConn setFirewallMark client.

(** A connection of the enhanced dialer is one whose control function did not
    fail; the others have not been near it. *)
Definition dials_as_asked : Prop :=
  ∀ dial t h u conn reader resp, ws_Dial dial t h u = inl (conn, reader, resp) →
    mark_of conn = match dial with DialEnhanced => Client.FirewallMark client | _ => 0 end.


End Connections.

(** ** A closed instance: descriptors with one option *)

Record fd_conn := mkFd { fd_kind : net_Conn; fd_mark : Z; fd_wire : WebSocket.wire }.

#[local] Instance fd_sockopt : Sockopt fd_conn := {
  net_conn c := fd_kind c;
  SetsockoptInt fd level opt v c := (mkFd (fd_kind c) v (fd_wire c), None) }.
#[local] Instance fd_sockopt_spec : SockoptSpec fd_conn.
Proof.
  refine {| getsockopt _ _ _ c := fd_mark c |}; cbn.
  - by intros fd level opt v c c' [= <-].
  - done.
Defined.

#[local] Instance fd_ws : WebSocket.WSConn fd_conn := {
  WebSocket.WriteMessage _ _ c := (c, None); WebSocket.writer_Write _ c := (c, None);
  WebSocket.writer_Flush c := (c, None); WebSocket.conn_Close c := (c, None) }.

(** The client's mark is 7; its connections are TLS on descriptor 3. *)
Definition marked_client : Client.Client :=
  Client.mkClient 7 false None (Iface.mkInterfaceConfig EmptyString false EmptyString false) 0
    EmptyString EmptyString 0 false None None None None false ∅ 0 [].
#[local] Instance marked_enhance : EnhanceConn fd_conn := Client.Client_EnhanceConn setFirewallMark marked_client.
Definition fd_of (mark : Z) : fd_conn :=
  mkFd (TLSConn (SyscallConn (inl (inl 3)))) mark (WebSocket.mkWire [] [] true).

#[local] Instance fd_ws_dialer : WSDialer fd_conn unit := {
  proxy_FromURL _ := None;
  ws_Dial dial _ _ _ :=
    inl (fd_of (match dial with DialEnhanced => 7 | _ => 0 end), WebSocket.NoReader, []) }.
#[local] Instance fd_wt_dialer : WTDialer unit unit fd_conn := {
  ResolveUDPAddr addr := inl addr; ListenUDP := inl (fd_of 0); udp_Close c := c;
  quic_DialEarly c _ _ := inl c; wt_Dial _ _ _ _ := inr (ErrText "unreachable") }.

Definition proxied (proxy : option URL) : ConnectorConfig unit :=
  mkConnectorConfig proxy tt ∅ (mkURL "wss" None "example.com") true.

