(* ===== verification/Reload.v ===== *)
(** * Loading and reloading the server's configuration

    server/cli/base.go and shared/cli/tls.go: [reloadConfig], which runs once
    before the server starts and again at every SIGHUP while it serves.  Reading
    the YAML file is an input; files with keys and certificates are a class. *)

From S2P Require Import Prelude Json Commands Adapter Socket World Net IPText VPNNet Shared Server.
From S2P Require Import Negotiation Http Upgraders Auth Iface.
From S2P Require IPSwitch MACSwitch.
Import adapters negotiation.

#[local] Existing Instance MACSwitch.eta_macswitch.
#[local] Existing Instance IPSwitch.eta_ipswitch.

(** ** Programs that stop at the first error *)

Declare Scope reload_scope.
Local Open Scope reload_scope.

Definition ebind {W R R'} (m : prog W (R + error)) (k : R → prog W (R' + error))
    : prog W (R' + error) :=
  r ← m; match r with inl x => k x | inr err => mret (inr err) end.

Notation "x ←! m ; k" := (ebind m (λ x, k))
  (at level 20, m at level 100, k at level 200, right associativity) : reload_scope.

Definition ok {W} : prog W (unit + error) := mret (inl tt).
Definition fail {W R} (text : string) : prog W (R + error) := mret (inr (ErrText text)).
Definition done_ {W} (m : prog W unit) : prog W (unit + error) := m;; ok.

(** An operation whose result is its error. *)
Definition checked {W} (m : prog W (option error)) : prog W (unit + error) :=
  e ← m; mret (match e with Some err => inr err | None => inl tt end).

(** ** net/textproto: the canonical form of a header's name *)

Definition token_char (c : Ascii.ascii) : bool :=
  let z := ascii_code c in
  between 97 z 122 || between 65 z 90 || between 48 z 57
  || existsb (Z.eqb z) [33; 35; 36; 37; 38; 39; 42; 43; 45; 46; 94; 95; 96; 124; 126].

Fixpoint canonical_from (up : bool) (s : string) : string :=
  match s with
  | EmptyString => EmptyString
  | String c s =>
      String (if up then commands.upper c else commands.lower c)
        (canonical_from (ascii_code c =? 45) s)
  end.

Definition CanonicalHeaderKey (s : string) : string :=
  if string_all token_char s then canonical_from true s else s.

(** The loop over the configured headers, in the order the map gives them. *)
Definition load_headers (hs : list (string * list string)) : Header :=
  foldl (λ h '(name, values),
    foldl (λ h value, header_Add (CanonicalHeaderKey name) value h) h values) ∅ hs.

Definition default_header (key value : string) (h : Header) : Header :=
  if bool_decide (header_Get h key = EmptyString) then header_Set key value h else h.

(** ** shared/cli/tls.go *)

Record TLSFileConfig := mkTLSFile {
  MinVersion : string; MaxVersion : string; KeyLogFile : string; Insecure : bool }.

(** The fields of a [tls.Config] that the program sets; a certificate is named
    by its files, a pool by its file. *)
Record TLSSettings := mkTLS {
  Certificates : list (string * string);
  ClientCAs : option string;
  ClientAuth : Z;
  tls_MinVersion : Z;
  tls_MaxVersion : Z;
  KeyLogWriter : option string;
  InsecureSkipVerify : bool;
  ServerName : string;
  RootCAs : option string }.

#[export] Instance eta_tls : Etable TLSSettings := λ r,
  mkTLS (Certificates r) (ClientCAs r) (ClientAuth r) (tls_MinVersion r) (tls_MaxVersion r)
    (KeyLogWriter r) (InsecureSkipVerify r) (ServerName r) (RootCAs r).

Definition no_tls : TLSSettings := mkTLS [] None 0 0 0 None false EmptyString None.

(** What the file system and the parsers of certificates answer. *)
Class TLSFiles := {
  LoadX509KeyPair : string → string → option error;
  tls_ReadFile : string → string + error;
  AppendCertsFromPEM : string → bool;
  OpenKeyLog : string → option error }.

Definition TLSUseConfig `{TLSFiles} (fileConfig : TLSFileConfig) (t : TLSSettings)
    : TLSSettings * option error :=
  let t := t <| tls_MinVersion := TLSVersionNum (MinVersion fileConfig) |>
             <| tls_MaxVersion := TLSVersionNum (MaxVersion fileConfig) |> in
  if is_empty (KeyLogFile fileConfig) then (t, None)
  else match OpenKeyLog (KeyLogFile fileConfig) with
       | Some err => (t, Some err)
       | None => (t <| KeyLogWriter := Some (KeyLogFile fileConfig) |>, None)
       end.

(** ** The configuration *)

(** server/cli/config.go.  Maps are the lists of their entries in the order in
    which they are gone through. *)
Record Config := mkConfig {
  cfg_MTU : Z;
  Subnet : string;
  cfg_Mode : string;
  cfg_AllowClientToClient : bool;
  cfg_AllowIPSpoofing : bool;
  cfg_AllowUnknownEtherTypes : bool;
  cfg_AllowMACChanging : bool;
  cfg_AllowedMACsPerConnection : Z;
  Features : list (string * bool);
  IPConfigLocal : bool;
  IPConfigRemote : bool;
  Ping : Z * Z;
  cfg_Interface : InterfaceConfig;
  Scripts : EventConfig;
  Listen : string;
  EnableHTTP3 : bool;
  cfg_Headers : list (string * list string);
  TLS_ClientCA : string;
  TLS_Certificate : string;
  TLS_Key : string;
  TLS_Config : TLSFileConfig;
  AuthenticatorType : string;
  AuthenticatorConfig : string;
  cfg_PreauthorizeSecret : string;
  cfg_MaxConnectionsPerUser : Z;
  cfg_MaxConnectionsPerUserMode : string;
  cfg_WebsiteDirectory : string;
  API_Enabled : bool;
  API_Users : list string }.

(** The packet handler of the server, where it is kept. *)
Class SwitchState (E L : Type) := {
  get_switch : E → option (IPSwitch.IPSwitch + MACSwitch.MACSwitch L);
  set_switch : IPSwitch.IPSwitch + MACSwitch.MACSwitch L → E → E }.

(** The server process: what Server.v and Auth.v model of the struct, its other
    fields, and the package's [tlsConfig]. *)
Record Process (A I E F U : Type) := mkProcess {
  p_sw : SW A I E;
  p_access : Access F U;
  ListenAddr : string;
  HTTP3Enabled : bool;
  p_interface : InterfaceConfig;
  p_events : EventConfigHolder;
  tlsConfig : option TLSSettings }.

Arguments mkProcess {A I E F U}. Arguments p_sw {A I E F U}. Arguments p_access {A I E F U}.
Arguments ListenAddr {A I E F U}. Arguments HTTP3Enabled {A I E F U}.
Arguments p_interface {A I E F U}. Arguments p_events {A I E F U}.
Arguments tlsConfig {A I E F U}.

#[export] Instance eta_process {A I E F U} : Etable (Process A I E F U) := λ r,
  mkProcess (p_sw r) (p_access r) (ListenAddr r) (HTTP3Enabled r) (p_interface r) (p_events r)
    (tlsConfig r).

Section Reload.
Context {A I E F U L : Type} `{SocketAdapter A} `{WaterInterface I} `{!Unregister E} `{NewRandom}
  `{Cidr} `{MACSwitch.LRU L} `{!SwitchState E L} `{Htpasswd F} `{RadiusConfig} `{TLSFiles}
  `{SocketUpgrader U A}.
Abbreviation P := (prog (Process A I E F U)).
Abbreviation EP R := (P (R + error)).

Definition set (f : Process A I E F U → Process A I E F U) : EP unit := done_ (modify f).

Definition on_sw {R} (m : prog (SW A I E) R) : P R := λ p,
  match m (p_sw p) with
  | Ret (sw, r) => Ret (p <| p_sw := sw |>, r)
  | Panic why => Panic why
  | Exhausted => Exhausted
  end.

Definition set_server (f : Server → Server) : EP unit := done_ (on_sw (upd_server f)).
Definition set_access (f : Access F U → Access F U) : EP unit :=
  set (λ p, p <| p_access := f (p_access p) |>).
Definition the_server : EP Server := s ← on_sw (gets server); mret (inl s).
Definition reading {R} (f : Process A I E F U → R) : EP R := r ← gets f; mret (inl r).

(** The loop over the features. *)
Fixpoint load_features (fs : list (string * bool)) : EP unit :=
  match fs with
  | [] => ok
  | (feat, en) :: fs =>
      if negb (features.IsFeatureSupported feat) then fail ("unknown feature: " +:+ feat)
      else _ ←! set_server (Server.SetLocalFeature feat en); load_features fs
  end.

Definition load_net (config : Config) (initialConfig : bool) : EP unit :=
  newVPNNet ←! mret (ParseVPNNet (Subnet config));
  if initialConfig then set_server (λ s, s <| vpnNet := newVPNNet |>) else ok.

Definition load_mode (config : Config) : EP VPNMode :=
  let mode := to_upper (cfg_Mode config) in
  if bool_decide (mode = "TAP"%string) then mret (inl VPNModeTAP)
  else if bool_decide (mode = "TUN"%string) then mret (inl VPNModeTUN)
  else fail "invalid VPN mode selected".

Definition load_tunnel (config : Config) (initialConfig : bool) : EP unit :=
  _ ←! set_access (λ a, a <| WebsiteDirectory := cfg_WebsiteDirectory config |>);
  _ ←! set_server (λ s, s <| SocketConfigurator := Some (Ping config) |>
                          <| DoLocalIPConfig := IPConfigLocal config |>
                          <| DoRemoteIPConfig := IPConfigRemote config |>);
  _ ←! load_features (Features config);
  _ ←! set (λ p, p <| p_events := LoadEventConfig (Scripts config) (p_events p) |>);
  vpnMode ←! load_mode config;
  if initialConfig then
    _ ←! set (λ p, p <| ListenAddr := Listen config |> <| HTTP3Enabled := EnableHTTP3 config |>);
    set_server (λ s, s <| mode := vpnMode |>)
  else ok.

Definition setUpgraderHeaders (a : Access F U) : Access F U :=
  a <| upgraders := map (SetHeaders (headers a)) (upgraders a) |>.

Definition SetHeaders_ (h : Header) (a : Access F U) : Access F U :=
  setUpgraderHeaders (a <| headers := h |>).

Definition load_web (config : Config) : EP unit :=
  let apiUsers := foldl (λ m u, <[u := true]> m) ∅ (API_Users config) in
  _ ←! set_access (λ a, a <| APIEnabled := API_Enabled config |> <| APIUsers := apiUsers |>);
  let srvHeaders := default_header "Server" ("wsvpn/" +:+ SharedVersion)
                      (load_headers (cfg_Headers config)) in
  set_access (SetHeaders_ srvHeaders).

Definition load_limits (config : Config) : EP unit :=
  _ ←! set_server (λ s, s <| MaxConnectionsPerUser := cfg_MaxConnectionsPerUser config |>);
  if bool_decide (cfg_MaxConnectionsPerUserMode config = "kill-oldest"%string) then
    set_server (λ s, s <| MaxConnectionsPerUserMode := MaxConnectionsPerUserKillOldest |>)
  else if bool_decide (cfg_MaxConnectionsPerUserMode config = "prevent-new"%string) then
    set_server (λ s, s <| MaxConnectionsPerUserMode := MaxConnectionsPerUserPreventNew |>)
  else ok.

Definition the_switch : P (option (IPSwitch.IPSwitch + MACSwitch.MACSwitch L)) :=
  on_sw (gets (λ sw, get_switch (env (world sw)))).

Definition put_switch (g : IPSwitch.IPSwitch + MACSwitch.MACSwitch L) : EP unit :=
  done_ (on_sw (modify (λ sw, sw <| world := (world sw) <| env := set_switch g (env (world sw)) |> |>
                                 <| server := (server sw) <| PacketHandler := true |> |>))).

Definition configure_mac (config : Config) (g : MACSwitch.MACSwitch L) : MACSwitch.MACSwitch L :=
  g <| MACSwitch.AllowClientToClient := cfg_AllowClientToClient config |>
    <| MACSwitch.AllowIPSpoofing := cfg_AllowIPSpoofing config |>
    <| MACSwitch.AllowUnknownEtherTypes := cfg_AllowUnknownEtherTypes config |>
    <| MACSwitch.AllowMACChanging := cfg_AllowMACChanging config |>
    <| MACSwitch.AllowedMACsPerConnection := cfg_AllowedMACsPerConnection config |>.

(** The packet handler of the mode: a new one, or the one there is, whose type
    is asserted. *)
Definition load_switch (config : Config) (initialConfig : bool) : EP unit :=
  s ←! the_server;
  o ← the_switch;
  match mode s with
  | VPNModeTAP =>
      macSwitch ←! (if initialConfig then mret (inl MACSwitch.MakeMACSwitch)
                    else match o with
                         | Some (inr g) => mret (inl g)
                         | _ => panic "interface conversion"
                         end);
      match MACSwitch.ConfigUpdate (configure_mac config macSwitch) with
      | Ret g => put_switch (inr g)
      | Panic why => panic why
      | Exhausted => λ _, Exhausted
      end
  | _ =>
      ipSwitch ←! (if initialConfig then mret (inl IPSwitch.MakeIPSwitch)
                   else match o with
                        | Some (inl g) => mret (inl g)
                        | _ => panic "interface conversion"
                        end);
      put_switch (inl (ipSwitch <| IPSwitch.AllowClientToClient := cfg_AllowClientToClient config |>))
  end.

Definition load_interface (config : Config) (initialConfig : bool) : EP unit :=
  old ←! reading p_interface;
  let new := cfg_Interface config in
  if negb initialConfig
     && negb (eqb (if_OneInterfacePerConnection old) (if_OneInterfacePerConnection new))
  then ok
  else
    _ ←! set (λ p, p <| p_interface := new |>);
    _ ←! set_server (λ s, s <| OneInterfacePerConnection := if_OneInterfacePerConnection new |>);
    if if_OneInterfacePerConnection new then ok else load_switch config initialConfig.

Definition load_authenticator (config : Config) : EP unit :=
  a ←! mret (LoadAuthenticator (AuthenticatorType config) (AuthenticatorConfig config));
  set_access (λ acc, acc <| Authenticator := a |>).

(** The new TLS settings from the files. *)
Definition tls_settings (config : Config) : TLSSettings + error :=
  let cert := TLS_Certificate config in let key := TLS_Key config in let ca := TLS_ClientCA config in
  if is_empty cert && is_empty key then inr (ErrText "tls-client-ca requires tls-key and tls-cert")
  else if is_empty cert || is_empty key then
    inr (ErrText "provide either both tls-key and tls-cert or neither")
  else
    match LoadX509KeyPair cert key with
    | Some err => inr err
    | None =>
        let t := no_tls <| Certificates := [(cert, key)] |> in
        match (if is_empty ca then inl t
               else match tls_ReadFile ca with
                    | inr err => inr err
                    | inl pem =>
                        if AppendCertsFromPEM pem
                        then inl (t <| ClientCAs := Some ca |>
                                    <| ClientAuth := RequireAndVerifyClientCert |>)
                        else inr (ErrText "error reading tls-client-ca PEM")
                    end) with
        | inr err => inr err
        | inl t => match TLSUseConfig (TLS_Config config) t with
                   | (_, Some err) => inr err
                   | (t, None) => inl t
                   end
        end
    end.

(** The listener's own settings only ask for the package's. *)
Definition load_tls (config : Config) (initialConfig : bool) : EP unit :=
  if is_empty (TLS_Certificate config) && is_empty (TLS_Key config) && is_empty (TLS_ClientCA config)
  then ok
  else
    newTLSConfig ←! mret (tls_settings config);
    _ ←! set (λ p, p <| tlsConfig := Some newTLSConfig |>);
    acc ←! reading p_access;
    match TLSConfig acc with
    | None => if initialConfig then set_access (λ a, a <| TLSConfig := Some 0 |>) else ok
    | Some _ => ok
    end.

(** [order] is the order in which the server's map of sockets is gone through. *)
Definition reloadConfig (loaded : Config + error) (initialConfig : bool)
    (order : list (string * SocketId)) : EP unit :=
  config ←! mret loaded;
  _ ←! load_net config initialConfig;
  _ ←! load_tunnel config initialConfig;
  _ ←! load_web config;
  _ ←! checked (on_sw (Server.SetMTU (cfg_MTU config) order));
  _ ←! load_limits config;
  _ ←! load_interface config initialConfig;
  _ ←! load_authenticator config;
  _ ←! load_tls config initialConfig;
  _ ←! set_access (λ a, a <| PreauthorizeSecret := cfg_PreauthorizeSecret config |>);
  checked (on_sw (UpdateSocketConfig order)).

(** [getTLSConfig] and [getTLSCert]: what a handshake is given. *)
Definition getTLSConfig (p : Process A I E F U) : option TLSSettings := tlsConfig p.
Definition getTLSCert (p : Process A I E F U) : outcome (string * string) :=
  match tlsConfig p with
  | Some t => match Certificates t with c :: _ => Ret c | [] => Panic "index out of range" end
  | None => Panic "nil pointer dereference"
  end.

End Reload.
