(* ===== verification/Http3.v ===== *)
(** * The HTTP/3 server of the WebTransport upgrader

    server/upgraders/webtransport.go: what the upgrader is made from.  A
    [tls.Config] is shared by pointer between the listeners and, through the
    function that hands out the current one, with every reload; so the
    configurations are a store, and cloning one allocates.  quic-go and
    webtransport-go are a class. *)

From S2P Require Import Prelude Commands Socket World Net Shared Negotiation Http Upgraders Reload.
Import negotiation.

Module http3.

(** ** crypto/tls: configurations in a store *)

Abbreviation loc := nat.

(** The functions that are given to [GetConfigForClient]: the server's own
    [getTLSConfig], and the closure that the upgrader makes around one. *)
Inductive getter : Type :=
| FromPackage
| ForcingH3 (oldConfig : getter).

Record tls_Config := mkConfig {
  NextProtos : list string;
  tls_settings : TLSSettings;
  GetConfigForClient : option getter }.

#[export] Instance eta_tls_config : Etable tls_Config := λ r,
  mkConfig (NextProtos r) (tls_settings r) (GetConfigForClient r).

(** The store, and the variable [tlsConfig] of the package server/cli. *)
Record heap := mkHeap { configs : gmap loc tls_Config; package : option loc }.

#[export] Instance eta_heap : Etable heap := λ r, mkHeap (configs r) (package r).

Abbreviation P := (prog heap).

Definition nil_dereference {R} : P R := λ _, Panic "nil pointer dereference".

(** [c.Clone()]; the clone of a nil pointer is nil. *)
Definition Clone (c : option loc) : P (option loc) := λ h,
  match c ≫= λ l, configs h !! l with
  | None => Ret (h, None)
  | Some cfg =>
      let l := fresh (dom (configs h) : gset loc) in
      Ret (h <| configs := <[l := cfg]> (configs h) |>, Some l)
  end.

(** A write to a field through a pointer. *)
Definition assign (c : option loc) (f : tls_Config → tls_Config) : P unit := λ h,
  match c with
  | Some l =>
      match configs h !! l with
      | Some cfg => Ret (h <| configs := <[l := f cfg]> (configs h) |>, tt)
      | None => Panic "nil pointer dereference"
      end
  | None => Panic "nil pointer dereference"
  end.

Definition read (c : option loc) : P tls_Config := λ h,
  match c ≫= λ l, configs h !! l with
  | Some cfg => Ret (h, cfg)
  | None => Panic "nil pointer dereference"
  end.

Definition NextProtoH3 : string := "h3".
Definition force_h3 (cfg : tls_Config) : tls_Config := cfg <| NextProtos := [NextProtoH3] |>.

(** A call of one of the functions: what a handshake is given. *)
Fixpoint call_getter (g : getter) : P (option loc + error) :=
  match g with
  | FromPackage => λ h, Ret (h, inl (package h))
  | ForcingH3 oldConfig =>
      r ← call_getter oldConfig;
      match r with
      | inr err => mret (inr err)
      | inl cfg =>
          cfg ← Clone cfg;
          assign cfg force_h3;;
          mret (inl cfg)
      end
  end.

(** ** The upgrader *)

Record QuicServerConfig (H : Type) := mkQuic { Addr : string; TLSConfig : option loc; Handler : H }.
Arguments mkQuic {H}. Arguments Addr {H}. Arguments TLSConfig {H}. Arguments Handler {H}.

(** [webtransport.Server] with its [http3.Server]; [CheckOrigin] accepts every
    request; the period is in nanoseconds. *)
Record wt_server (H : Type) := mkServer {
  ApplicationProtocols : list string;
  H3_Addr : string;
  H3_TLSConfig : option loc;
  H3_Handler : H;
  H3_EnableDatagrams : bool;
  Quic_EnableStreamResetPartialDelivery : bool;
  Quic_EnableDatagrams : bool;
  Quic_KeepAlivePeriod : Z;
  CheckOrigin : bool }.
Arguments mkServer {H}. Arguments H3_TLSConfig {H}. Arguments H3_Handler {H}. Arguments H3_Addr {H}.

(** The servers of the libraries, of type [X], and what is asked of them. *)
Class WTServer (H X : Type) := {
  ConfigureHTTP3Server : wt_server H → X;
  H3_SetQUICHeaders : X → Header → X * (Header * option error);
  server_ListenAndServe : X → X * option error;
  server_Close : X → X * option error }.

Section Upgrader.
Context {H X : Type} `{WTServer H X}.

Definition NewWebTransportUpgrader (quicServer : QuicServerConfig H) : P X :=
  tlsConfig ← Clone (TLSConfig quicServer);
  assign tlsConfig force_h3;;
  cfg ← read tlsConfig;
  (match GetConfigForClient cfg with
   | Some oldConfig =>
       assign tlsConfig (λ cfg, cfg <| GetConfigForClient := Some (ForcingH3 oldConfig) |>)
   | None => mret tt
   end);;
  mret (ConfigureHTTP3Server (mkServer ["wsvpn"%string] (Addr quicServer) tlsConfig (Handler quicServer) true
    true true (10 * Second) true)).

Definition SetQUICHeaders (u : X) (header : Header) : X * (Header * option error) :=
  H3_SetQUICHeaders u header.
Definition ListenAndServe (u : X) : X * option error := server_ListenAndServe u.
Definition upgrader_Close (u : X) : X * option error := server_Close u.

End Upgrader.

(** ** Handshakes *)

Lemma clone_spec h l cfg :
  configs h !! l = Some cfg →
  ∃ l', Clone (Some l) h = Ret (h <| configs := <[l' := cfg]> (configs h) |>, Some l')
    ∧ configs h !! l' = None.
Proof.
  intros Hl. unfold Clone. simpl. rewrite Hl. eexists. split; [done|].
  apply not_elem_of_dom, is_fresh.
Qed.

Lemma assign_spec h l cfg f :
  configs h !! l = Some cfg →
  assign (Some l) f h = Ret (h <| configs := <[l := f cfg]> (configs h) |>, tt).
Proof. intros Hl. unfold assign. by rewrite Hl. Qed.

Lemma insert_twice (h : heap) l cfg cfg' :
  (h <| configs := <[l := cfg]> (configs h) |>)
    <| configs := <[l := cfg']> (configs (h <| configs := <[l := cfg]> (configs h) |>)) |>
  = h <| configs := <[l := cfg']> (configs h) |>.
Proof. simpl. by rewrite insert_insert_eq. Qed.

(** What one of the functions does: it hands out the settings that are in force,
    and leaves every configuration there is alone. *)
Definition hands_out (protos : list string → list string) (g : getter) : Prop :=
  ∀ h p cfg, package h = Some p → configs h !! p = Some cfg →
    ∃ h' q cfg', call_getter g h = Ret (h', inl (Some q))
      ∧ configs h' !! q = Some cfg' ∧ tls_settings cfg' = tls_settings cfg
      ∧ NextProtos cfg' = protos (NextProtos cfg)
      ∧ package h' = package h ∧ configs h ⊆ configs h'.

Lemma package_hands_out : hands_out (λ protos, protos) FromPackage.
Proof. intros h p cfg Hp Hc. exists h, p, cfg. split; [by simpl; rewrite Hp|done]. Qed.

Lemma forcing_hands_out protos g : hands_out protos g → hands_out (λ _, [NextProtoH3]) (ForcingH3 g).
Proof.
  intros Hg h p cfg Hp Hc. destruct (Hg h p cfg Hp Hc) as (h1 & q & cfg1 & E1 & Hq & Hset & _ & Hpk & Hsub).
  destruct (clone_spec h1 q cfg1 Hq) as (l & E2 & Hfresh).
  exists (h1 <| configs := <[l := force_h3 cfg1]> (configs h1) |>), l, (force_h3 cfg1).
  split_and!; try done.
  - cbn [call_getter]. erewrite run_bind by exact E1. cbv beta iota. erewrite run_bind by exact E2.
    erewrite run_bind by (apply assign_spec; simpl; apply lookup_insert_eq). by rewrite insert_twice.
  - simpl. apply lookup_insert_eq.
  - simpl. etransitivity; [exact Hsub|]. by apply insert_subseteq.
Qed.

Section Properties.
Context {H X : Type} `{WTServer H X}.

(** C28. The HTTP/3 server and the TLS server share their configuration without
    disturbing each other: making the upgrader changes no configuration there is,
    and every later handshake over QUIC, after any number of reloads, is given the
    settings that are then in force with "h3" as the only protocol, and leaves
    those of the TLS server as they are. *)
Theorem http3_handshake (quic : QuicServerConfig H) h c cfg :
  TLSConfig quic = Some c → configs h !! c = Some cfg → GetConfigForClient cfg = Some FromPackage →
  ∃ h1 c1 cfg1 g, NewWebTransportUpgrader quic h
      = Ret (h1, ConfigureHTTP3Server (mkServer ["wsvpn"%string] (Addr quic) (Some c1) (Handler quic)
          true true true (10 * Second) true))
    ∧ configs h ⊆ configs h1 ∧ package h1 = package h
    ∧ configs h1 !! c1 = Some cfg1 ∧ NextProtos cfg1 = [NextProtoH3]
    ∧ GetConfigForClient cfg1 = Some g
    ∧ ∀ h2 p current, package h2 = Some p → configs h2 !! p = Some current →
        ∃ h3 q given, call_getter g h2 = Ret (h3, inl (Some q)) ∧ configs h3 !! q = Some given
          ∧ tls_settings given = tls_settings current ∧ NextProtos given = [NextProtoH3]
          ∧ package h3 = package h2 ∧ configs h2 ⊆ configs h3.
Proof.
  intros Hc Hcfg Hg. destruct (clone_spec h c cfg Hcfg) as (l & E & Hfresh).
  set (cfg1 := (force_h3 cfg) <| GetConfigForClient := Some (ForcingH3 FromPackage) |>).
  exists (h <| configs := <[l := cfg1]> (configs h) |>), l, cfg1, (ForcingH3 FromPackage).
  split; [|split_and!; try done].
  - unfold NewWebTransportUpgrader. rewrite Hc. erewrite run_bind by exact E.
    erewrite run_bind by (apply assign_spec; simpl; apply lookup_insert_eq). rewrite insert_twice.
    set (h1 := h <| configs := <[l := force_h3 cfg]> (configs h) |>).
    assert (Hl : configs h1 !! l = Some (force_h3 cfg)) by apply lookup_insert_eq.
    assert (Er : read (Some l) h1 = Ret (h1, force_h3 cfg)) by (unfold read, mbind, option_bind; by rewrite Hl).
    erewrite run_bind by exact Er.
    change (GetConfigForClient (force_h3 cfg)) with (GetConfigForClient cfg). rewrite Hg.
    erewrite run_bind by (by apply assign_spec). unfold h1. by rewrite insert_twice.
  - simpl. by apply insert_subseteq.
  - simpl. apply lookup_insert_eq.
  - apply (forcing_hands_out (λ protos, protos)), package_hands_out.
Qed.

End Properties.

(** ** A closed instance *)

#[local] Instance plain_server : WTServer unit (wt_server unit) := {
  ConfigureHTTP3Server s := s;
  H3_SetQUICHeaders s header := (s, (header, None));
  server_ListenAndServe s := (s, None);
  server_Close s := (s, None) }.

Definition tls_heap : heap :=
  mkHeap {[0%nat := mkConfig [] no_tls (Some FromPackage); 1%nat := mkConfig [] no_tls None]} (Some 1%nat).

Lemma http3_handshake_witness :
  let quic := mkQuic ":443" (Some 0%nat) tt in
  ∃ h1 c1 cfg1 g, NewWebTransportUpgrader quic tls_heap
      = Ret (h1, mkServer ["wsvpn"%string] ":443" (Some c1) tt true true true (10 * Second) true)
    ∧ configs tls_heap ⊆ configs h1 ∧ package h1 = package tls_heap
    ∧ configs h1 !! c1 = Some cfg1 ∧ NextProtos cfg1 = [NextProtoH3]
    ∧ GetConfigForClient cfg1 = Some g
    ∧ ∀ h2 p current, package h2 = Some p → configs h2 !! p = Some current →
        ∃ h3 q given, call_getter g h2 = Ret (h3, inl (Some q)) ∧ configs h3 !! q = Some given
          ∧ tls_settings given = tls_settings current ∧ NextProtos given = [NextProtoH3]
          ∧ package h3 = package h2 ∧ configs h2 ⊆ configs h3.
Proof.
  exact (http3_handshake (mkQuic ":443" (Some 0%nat) tt) tls_heap 0 (mkConfig [] no_tls (Some FromPackage))
    eq_refl eq_refl eq_refl).
Defined.

End http3.
