(* ===== verification/ReloadSpec.v ===== *)
(** * Reloading while serving

    What a reload leaves alone, so that the rest of the process may go on relying
    on it, and why the type assertions on the packet handler never fail. *)

From S2P Require Import Prelude Json Commands Adapter Socket World Frame Net IPText VPNNet Shared Server.
From S2P Require Import Lifecycle ServerState Negotiation Http Upgraders Auth Iface Reload.
From S2P Require IPSwitch MACSwitch.
Import adapters negotiation.

Definition is_mac {L} (g : IPSwitch.IPSwitch + MACSwitch.MACSwitch L) : bool :=
  match g with inr _ => true | inl _ => false end.

(** What the kept packet handler promises: it reads back what was set, and
    unregistering a socket leaves it the type it has. *)
Class SwitchStateSpec (E L : Type) `{SwitchState E L} `{Unregister E} : Prop := {
  get_set g e : get_switch (set_switch g e) = Some g;
  unregister_kind sid ip e e' : UnregisterSocket sid ip e = Ret e' →
    is_mac <$> get_switch e' = is_mac <$> get_switch e }.

Section Spec.
Context {A I E F U L : Type} `{SocketAdapter A} `{WaterInterface I} `{!Unregister E} `{NewRandom}
  `{Cidr} `{MACSwitch.LRU L} `{!SwitchState E L} `{!SwitchStateSpec E L} `{Htpasswd F}
  `{RadiusConfig} `{TLSFiles} `{SocketUpgrader U A}.
Implicit Types p : Process A I E F U.
Abbreviation P := (prog (Process A I E F U)).

(** The kind of packet handler, and what it must agree with. *)
Definition kind p : option bool := is_mac <$> get_switch (env (world (p_sw p))).

Definition shape p : VPNMode * bool * bool * option bool :=
  (mode (server (p_sw p)), OneInterfacePerConnection (server (p_sw p)),
   if_OneInterfacePerConnection (p_interface p), kind p).

(** What the running process was started with. *)
Definition fixed p : VPNNet * string * bool * option Z * (VPNMode * bool * bool * option bool) :=
  (vpnNet (server (p_sw p)), ListenAddr p, HTTP3Enabled p, TLSConfig (p_access p), shape p).

Definition well_typed p : Prop :=
  match shape p with
  | (m, own, own', k) =>
      own = own' ∧ m ≠ VPNModeInvalid ∧ (own = false → k = Some (bool_decide (m = VPNModeTAP)))
  end.

Lemma fixed_shape p p' : fixed p' = fixed p → shape p' = shape p.
Proof. unfold fixed. congruence. Qed.

Lemma shape_typed p p' : shape p' = shape p → well_typed p → well_typed p'.
Proof. unfold well_typed. by intros ->. Qed.

(** [m] leaves [f] alone in a process that is well typed, and panics only as [Q] allows. *)
Definition stays {X R} (f : Process A I E F U → X) (Q : string → Prop) (m : P R) : Prop :=
  ∀ p, well_typed p →
    match m p with
    | Ret (p', _) => f p' = f p
    | Panic why => Q why
    | Exhausted => True
    end.

Section Rules.
Context {X : Type} (f : Process A I E F U → X) (f_shape : ∀ p p', f p' = f p → shape p' = shape p).
Context (Q : string → Prop).

Lemma stays_ret {R} (r : R) : stays f Q (mret r).
Proof. by intros p _. Qed.

Lemma stays_bind {R R'} (m : P R) (k : R → P R') :
  stays f Q m → (∀ r, stays f Q (k r)) → stays f Q (m ≫= k).
Proof.
  intros Hm Hk p Hp. specialize (Hm p Hp). unfold mbind, prog_bind.
  destruct (m p) as [[p1 r]|why|]; [|done|done].
  assert (Hp1 : well_typed p1) by (eapply shape_typed; [by apply f_shape|done]).
  specialize (Hk r p1 Hp1). destruct (k r p1) as [[p2 r2]|why|]; [|done|done]. congruence.
Qed.

Lemma stays_ebind {R R'} (m : P (R + error)) (k : R → P (R' + error)) :
  stays f Q m → (∀ r, stays f Q (k r)) → stays f Q (ebind m k).
Proof. intros Hm Hk. apply stays_bind; [done|]. intros [r|err]; [done|apply stays_ret]. Qed.

Lemma stays_gets {R} (g : Process A I E F U → R) : stays f Q (gets g).
Proof. by intros p _. Qed.

Lemma stays_modify g : (∀ p, f (g p) = f p) → stays f Q (modify g).
Proof. intros Hg p _. apply Hg. Qed.
End Rules.

(** ** The server's own operations *)

Definition sw_view (sw : SW A I E) : VPNNet * VPNMode * bool * option bool :=
  (vpnNet (server sw), mode (server sw), OneInterfacePerConnection (server sw),
   is_mac <$> get_switch (env (world sw))).

Definition keeps_view {R} (m : prog (SW A I E) R) : Prop :=
  ∀ c, preserves (λ sw, sw_view sw = c) m.

Definition keeps_kind {R} (m : prog (World A I E) R) : Prop :=
  ∀ c, preserves (env_inv (λ e, is_mac <$> get_switch e = c)) m.

Lemma unregister_keeps_kind c sid ip e e' : is_mac <$> get_switch e = c →
  UnregisterSocket sid ip e = Ret e' → is_mac <$> get_switch e' = c.
Proof. intros <-. apply unregister_kind. Qed.

Lemma view_lift {R} (m : prog (World A I E) R) : keeps_kind m → keeps_view (lift m).
Proof.
  intros Hm c sw sw' r Hc. unfold lift. destruct (m (world sw)) as [[w1 r1]| |] eqn:Em; [|done..].
  intros [= <- _]. pose proof (Hm _ _ _ _ (eq_refl : env_inv _ (world sw)) Em) as Hk.
  unfold sw_view, env_inv in *. simpl. congruence.
Qed.

Lemma view_upd_server f : (∀ s, vpnNet (f s) = vpnNet s ∧ mode (f s) = mode s
  ∧ OneInterfacePerConnection (f s) = OneInterfacePerConnection s) → keeps_view (upd_server f).
Proof.
  intros Hf c sw sw' r Hc. unfold upd_server, on_server. intros [= <- _]. unfold sw_view in *. simpl.
  destruct (Hf (server sw)) as (-> & -> & ->). done.
Qed.

Lemma kind_upd sid f : keeps_kind (upd sid f).
Proof. intros c. apply env_upd. Qed.
Lemma kind_sock sid : keeps_kind (sock sid).
Proof. intros c. apply env_sock. Qed.
Lemma kind_iface iid f : keeps_kind (iface_call iid f).
Proof. intros c. apply env_iface. Qed.
Lemma kind_command sid (c : commands.CommandParameters) : keeps_kind (MakeAndSendCommand sid c).
Proof. intros k. apply env_command, unregister_keeps_kind. Qed.

Lemma view_mtu_loop n order : keeps_view (mtu_loop n order).
Proof.
  intros c. induction order as [|[id sid] order IH]; cbn [mtu_loop]; frame.
  - apply view_lift, kind_upd.
  - apply view_lift, kind_sock.
  - apply view_lift, kind_iface.
  - apply view_lift, kind_command.
Qed.

Lemma view_SetMTU n order : keeps_view (Server.SetMTU n order).
Proof.
  intros c. unfold Server.SetMTU. frame.
  - apply view_lift, kind_iface.
  - by apply view_upd_server.
  - apply view_mtu_loop.
  - by apply view_upd_server.
Qed.

(** Configuring the sockets' pings cannot fail. *)
Lemma config_loop_runs config order sw :
  ∃ sw', config_loop config order sw = Ret (sw', None) ∧ sw_view sw' = sw_view sw.
Proof.
  revert sw. induction order as [|[id sid] order IH]; intros sw; cbn [config_loop].
  - by exists sw.
  - destruct (IH (sw <| world := (world sw) <| socks :=
      alter (ConfigurePing config.1 config.2) sid (socks (world sw)) |> |>)) as (sw' & E1 & Ev).
    exists sw'. split; [exact E1|]. by rewrite Ev.
Qed.

Lemma UpdateSocketConfig_runs order sw :
  ∃ sw', UpdateSocketConfig order sw = Ret (sw', None) ∧ sw_view sw' = sw_view sw.
Proof.
  unfold UpdateSocketConfig, mbind, prog_bind. cbn. destruct (SocketConfigurator (server sw)).
  - apply config_loop_runs.
  - by exists sw.
Qed.

(** ** Reloading *)

Lemma resize_all_panic tables (g : MACSwitch.MACSwitch L) why :
  MACSwitch.resize_all tables g = Panic why → why = "nil pointer dereference"%string.
Proof.
  revert g. induction tables as [|[sid [t|]] tables IH]; intros g; cbn [MACSwitch.resize_all]; [done|apply IH|].
  by intros [= <-].
Qed.

Lemma prog_run {R R'} (m : P R) (k : R → P R') p p' r :
  m p = Ret (p', r) → (m ≫= k) p = k r p'.
Proof. unfold mbind, prog_bind. by intros ->. Qed.

Lemma ebind_run {R R'} (m : P (R + error)) (k : R → P (R' + error)) p p' r :
  m p = Ret (p', inl r) → ebind m k p = k r p'.
Proof. unfold ebind, mbind, prog_bind. by intros ->. Qed.

Lemma set_run f p : set f p = Ret (f p, inl tt).
Proof. done. Qed.

Lemma set_server_run f p : set_server f p
  = Ret (p <| p_sw := (p_sw p) <| server := f (server (p_sw p)) |> |>, inl tt).
Proof. done. Qed.

Lemma server_run p : the_server p = Ret (p, inl (server (p_sw p))).
Proof. by destruct p. Qed.

Lemma switch_run p : the_switch p = Ret (p, get_switch (env (world (p_sw p)))).
Proof. by destruct p. Qed.

(** The type assertion that [load_switch] makes on a reload holds. *)
Lemma load_switch_typed config p : well_typed p → OneInterfacePerConnection (server (p_sw p)) = false →
  match load_switch config false p with
  | Ret (p', _) => fixed p' = fixed p
  | Panic why => why ≠ "interface conversion"%string
  | Exhausted => True
  end.
Proof.
  intros (_ & Hm & Hk) Hown. specialize (Hk Hown). unfold kind in Hk.
  assert (Hput : ∀ g, is_mac g = bool_decide (mode (server (p_sw p)) = VPNModeTAP) →
    match put_switch g p with Ret (p', _) => fixed p' = fixed p | Panic why => why ≠ "interface conversion"%string | Exhausted => True end).
  { intros g Hg. cbn. unfold fixed, shape, kind. simpl. rewrite get_set. simpl. by rewrite Hg, Hk. }
  unfold load_switch. rewrite (ebind_run _ _ _ _ _ (server_run p)), (prog_run _ _ _ _ _ (switch_run p)).
  destruct (mode (server (p_sw p))) eqn:Hmode; [| |done];
    destruct (get_switch (env (world (p_sw p)))) as [[g|g]|] eqn:Hg; try discriminate Hk;
    rewrite (ebind_run _ _ p p _ eq_refl).
  - by apply Hput.
  - destruct (MACSwitch.ConfigUpdate _) as [g'|why|] eqn:Hc; [by apply Hput| |done].
    unfold MACSwitch.ConfigUpdate in Hc. apply resize_all_panic in Hc as ->. discriminate.
Qed.

Section Reloading.
Context (Q : string → Prop) (HQ : ∀ why, why ≠ "interface conversion"%string → Q why).

Lemma stays_on_sw {R} (m : prog (SW A I E) R) :
  keeps_view m → (∀ sw why, m sw = Panic why → Q why) → stays fixed Q (on_sw m).
Proof.
  intros Hm Hp p _. unfold on_sw. destruct (m (p_sw p)) as [[sw r]|why|] eqn:Em; [|by eapply Hp|done].
  pose proof (Hm _ _ _ _ eq_refl Em) as Hv. unfold sw_view, fixed, shape, kind in *. simpl.
  by injection Hv as -> -> -> ->.
Qed.

Lemma stays_server f : (∀ s, vpnNet (f s) = vpnNet s ∧ mode (f s) = mode s
  ∧ OneInterfacePerConnection (f s) = OneInterfacePerConnection s) → stays fixed Q (set_server f).
Proof.
  intros Hf. apply stays_bind; [apply fixed_shape| |intros; apply stays_ret].
  apply stays_on_sw; [by apply view_upd_server|done].
Qed.

Lemma stays_set f : (∀ p, fixed (f p) = fixed p) → stays fixed Q (set f).
Proof. intros Hf. apply stays_bind; [apply fixed_shape|by apply stays_modify|intros; apply stays_ret]. Qed.

Ltac stay_step :=
  match goal with
  | |- stays _ _ (ebind _ _) => apply (stays_ebind _ fixed_shape); [|intros ?]
  | |- stays _ _ (match ?x with _ => _ end) => destruct x
  | |- stays _ _ (set_server _) => by apply stays_server
  | |- stays _ _ (set_access _) => by apply stays_set
  | |- stays _ _ (set _) => by apply stays_set
  | |- stays _ _ (mret _) => apply stays_ret
  | |- stays _ _ ok => apply stays_ret
  | |- stays _ _ (fail _) => apply stays_ret
  end.
Ltac stay := cbv zeta; repeat stay_step.

Lemma stays_features fs : stays fixed Q (load_features fs).
Proof. induction fs as [|[feat en] fs IH]; cbn [load_features]; stay; [|apply IH].
  apply stays_server. intros s. unfold Server.SetLocalFeature. by case_match.
Qed.

Lemma stays_net config : stays fixed Q (load_net config false).
Proof. unfold load_net. stay. Qed.

Lemma stays_tunnel config : stays fixed Q (load_tunnel config false).
Proof. unfold load_tunnel, load_mode. stay. apply stays_features. Qed.

Lemma stays_web config : stays fixed Q (load_web config).
Proof. unfold load_web. stay. Qed.

Lemma stays_limits config : stays fixed Q (load_limits config).
Proof. unfold load_limits. stay. Qed.

Lemma stays_authenticator config : stays fixed Q (load_authenticator config).
Proof. unfold load_authenticator. stay. Qed.

Lemma stays_tls config : stays fixed Q (load_tls config false).
Proof.
  unfold load_tls. stay. apply stays_bind; [apply fixed_shape|apply stays_gets|intros; apply stays_ret].
Qed.

Lemma stays_interface config : stays fixed Q (load_interface config false).
Proof.
  intros p Hp. unfold load_interface. rewrite (ebind_run _ _ p p (p_interface p) eq_refl). cbv zeta.
  destruct (_ && _) eqn:Hone; [done|]. cbn [negb andb] in Hone. apply negb_false_iff, eqb_prop in Hone.
  set (p0 := p <| p_interface := cfg_Interface config |>).
  set (p1 := p0 <| p_sw := (p_sw p0) <| server := (server (p_sw p0))
    <| OneInterfacePerConnection := if_OneInterfacePerConnection (cfg_Interface config) |> |> |>).
  rewrite (ebind_run _ _ _ _ _ (set_run _ p)), (ebind_run _ _ _ _ _ (set_server_run _ _)).
  fold p0. fold p1.
  assert (Hf : fixed p1 = fixed p).
  { destruct Hp as (Hown & _). unfold fixed, shape, kind, p1, p0. simpl. by rewrite <- Hone, <- Hown. }
  destruct (if_OneInterfacePerConnection (cfg_Interface config)) eqn:Hn in |- *; [exact Hf|].
  assert (Hp1 : well_typed p1) by (eapply shape_typed; [by apply fixed_shape|done]).
  pose proof (load_switch_typed config p1 Hp1 Hn) as Hl.
  destruct (load_switch config false p1) as [[p2 r]|why|]; [congruence|auto|done].
Qed.

Lemma stays_ping order : stays fixed Q (checked (on_sw (UpdateSocketConfig order))).
Proof.
  apply stays_bind; [apply fixed_shape| |intros; apply stays_ret].
  apply stays_on_sw.
  - intros c sw sw' r Hc Er. destruct (UpdateSocketConfig_runs order sw) as (sw1 & E1 & Ev).
    rewrite E1 in Er. injection Er as <- _. congruence.
  - intros sw why Er. destruct (UpdateSocketConfig_runs order sw) as (sw1 & E1 & _). congruence.
Qed.

Lemma stays_reload loaded order :
  (∀ n sw why, Server.SetMTU n order sw = Panic why → Q why) →
  stays fixed Q (reloadConfig loaded false order).
Proof.
  intros Hmtu. unfold reloadConfig. apply (stays_ebind _ fixed_shape); [apply stays_ret|intros config].
  apply (stays_ebind _ fixed_shape); [apply stays_net|intros _].
  apply (stays_ebind _ fixed_shape); [apply stays_tunnel|intros _].
  apply (stays_ebind _ fixed_shape); [apply stays_web|intros _].
  apply (stays_ebind _ fixed_shape).
  { apply stays_bind; [apply fixed_shape| |intros; apply stays_ret].
    apply stays_on_sw; [apply view_SetMTU|apply Hmtu]. }
  intros _. apply (stays_ebind _ fixed_shape); [apply stays_limits|intros _].
  apply (stays_ebind _ fixed_shape); [apply stays_interface|intros _].
  apply (stays_ebind _ fixed_shape); [apply stays_authenticator|intros _].
  apply (stays_ebind _ fixed_shape); [apply stays_tls|intros _].
  apply (stays_ebind _ fixed_shape); [by apply stays_set|intros _]. apply stays_ping.
Qed.
End Reloading.

(** ** The first load *)

Lemma ebind_ok {R R'} (m : P (R + error)) (k : R → P (R' + error)) p p' r :
  ebind m k p = Ret (p', inl r) → ∃ p1 x, m p = Ret (p1, inl x) ∧ k x p1 = Ret (p', inl r).
Proof.
  unfold ebind. intros E1. apply prog_bind_inv in E1 as (p1 & [x|err] & E1 & E2); [by exists p1, x|done].
Qed.

Definition has_mode p : Prop := mode (server (p_sw p)) ≠ VPNModeInvalid.

Lemma mode_view {R} (m : prog (SW A I E) R) : keeps_view m → preserves has_mode (on_sw m).
Proof.
  intros Hm p p' r Hp. unfold on_sw. destruct (m (p_sw p)) as [[sw r1]| |] eqn:Em; [|done..].
  intros [= <- _]. pose proof (Hm _ _ _ _ eq_refl Em) as Hv. unfold sw_view in Hv.
  unfold has_mode in *. simpl. by injection Hv as _ -> _ _.
Qed.

Lemma mode_set f : (∀ p, p_sw (f p) = p_sw p) → preserves has_mode (set f).
Proof.
  intros Hf. apply preserves_bind; [|intros; apply preserves_ret]. apply preserves_modify.
  intros p. unfold has_mode. by rewrite Hf.
Qed.

Lemma mode_server f : (∀ s, mode (f s) = mode s) → preserves has_mode (set_server f).
Proof.
  intros Hf p p' r Hp. rewrite set_server_run. intros [= <- _]. unfold has_mode. simpl. by rewrite Hf.
Qed.

Lemma mode_limits config : preserves has_mode (load_limits config).
Proof.
  unfold load_limits, ebind. frame; first [by apply mode_server|apply preserves_ret].
Qed.

Lemma mode_web config : preserves has_mode (load_web config).
Proof. unfold load_web, ebind. frame; by apply mode_set. Qed.

Lemma load_tunnel_mode config p p' :
  load_tunnel config true p = Ret (p', inl tt) → has_mode p'.
Proof.
  unfold load_tunnel. intros E1.
  do 4 (apply ebind_ok in E1 as (? & ? & _ & E1)).
  apply ebind_ok in E1 as (p1 & m & Em & E1). apply ebind_ok in E1 as (p2 & ? & _ & E1).
  rewrite set_server_run in E1. injection E1 as <-. unfold has_mode. simpl.
  unfold load_mode in Em. cbv zeta in Em. repeat case_bool_decide; simplify_eq/=; try done;
    by injection Em as _ <-.
Qed.

Lemma load_interface_typed config p p' :
  has_mode p → load_interface config true p = Ret (p', inl tt) → well_typed p'.
Proof.
  intros Hp. unfold load_interface. rewrite (ebind_run _ _ p p (p_interface p) eq_refl).
  cbn [negb andb]. rewrite (ebind_run _ _ _ _ _ (set_run _ p)), (ebind_run _ _ _ _ _ (set_server_run _ _)).
  set (p1 := _ <| p_sw := _ |>).
  assert (Hown : OneInterfacePerConnection (server (p_sw p1)) = if_OneInterfacePerConnection (p_interface p1)
    ∧ mode (server (p_sw p1)) = mode (server (p_sw p))) by done.
  destruct Hown as [Hown Hmode]. change (if_OneInterfacePerConnection (cfg_Interface config))
    with (if_OneInterfacePerConnection (p_interface p1)). unfold has_mode in Hp. rewrite <- Hmode in Hp.
  clearbody p1. clear Hmode.
  destruct (if_OneInterfacePerConnection (p_interface p1)) eqn:Hn.
  { intros [= <-]. unfold well_typed, shape. by rewrite Hown, Hn. }
  assert (Hput : ∀ g, is_mac g = bool_decide (mode (server (p_sw p1)) = VPNModeTAP) →
    put_switch g p1 = Ret (p', inl tt) → well_typed p').
  { intros g Hg E1. injection E1 as <-. unfold well_typed, shape, kind. simpl.
    rewrite Hown, Hn, get_set. split_and!; [done|done|]. intros _. by rewrite <- Hg. }
  unfold load_switch. rewrite (ebind_run _ _ _ _ _ (server_run p1)), (prog_run _ _ _ _ _ (switch_run p1)).
  destruct (mode (server (p_sw p1))); [| |done]; rewrite (ebind_run _ _ p1 p1 _ eq_refl).
  - by apply Hput.
  - destruct (MACSwitch.ConfigUpdate _); [by apply Hput|done|done].
Qed.

Lemma load_tls_shape config p p' r :
  load_tls config true p = Ret (p', r) → shape p' = shape p.
Proof.
  unfold load_tls. destruct (_ && _); [intros E1; by injection E1 as <- _|].
  destruct (tls_settings config) as [t|err]; [|intros E1; by injection E1 as <- _].
  rewrite (ebind_run _ _ p p t eq_refl), (ebind_run _ _ _ _ _ (set_run _ p)).
  set (p1 := p <| tlsConfig := Some t |>). rewrite (ebind_run _ _ p1 p1 (p_access p1) eq_refl).
  destruct (TLSConfig (p_access p1)); intros E1; by injection E1 as <- _.
Qed.

Lemma initial_typed loaded order p p' :
  reloadConfig loaded true order p = Ret (p', inl tt) → well_typed p'.
Proof.
  unfold reloadConfig. intros E1. apply ebind_ok in E1 as (p1 & config & _ & E1).
  apply ebind_ok in E1 as (p2 & [] & _ & E1). apply ebind_ok in E1 as (p3 & [] & E3 & E1).
  apply ebind_ok in E1 as (p4 & [] & E4 & E1). apply ebind_ok in E1 as (p5 & [] & E5 & E1).
  apply ebind_ok in E1 as (p6 & [] & E6 & E1). apply ebind_ok in E1 as (p7 & [] & E7 & E1).
  apply ebind_ok in E1 as (p8 & [] & E8 & E1). apply ebind_ok in E1 as (p9 & [] & E9 & E1).
  apply ebind_ok in E1 as (p10 & [] & E10 & E1).
  apply load_tunnel_mode in E3. apply (mode_web _ _ _ _ E3) in E4.
  apply prog_bind_inv in E5 as (p5' & err & E5 & E5'). apply (mode_view _ (view_SetMTU _ _) _ _ _ E4) in E5.
  injection E5' as <- _. apply (mode_limits _ _ _ _ E5) in E6. apply (load_interface_typed _ _ _ E6) in E7.
  assert (Hst : ∀ {R} (m : P R) q q' r, stays fixed (λ _, True) m → well_typed q → m q = Ret (q', r) → well_typed q').
  { intros R m q q' r Hm Hq Eq. specialize (Hm q Hq). rewrite Eq in Hm.
    eapply shape_typed; [by apply fixed_shape|done]. }
  assert (Ht8 : well_typed p8) by (eapply Hst; [|exact E7|exact E8]; by apply stays_authenticator).
  assert (Ht9 : well_typed p9) by (eapply shape_typed; [by eapply load_tls_shape|done]).
  assert (Ht10 : well_typed p10) by (eapply Hst; [|exact Ht9|exact E10]; by apply stays_set).
  eapply Hst; [|exact Ht10|exact E1]. by apply stays_ping.
Qed.

(** What a serving process does to these fields: it reloads, with or without
    success; nothing else that it does writes to them. *)
Inductive serving_step p p' : Prop :=
| serving_reload loaded order r :
    reloadConfig loaded false order p = Ret (p', r) → serving_step p p'
| serving_other : fixed p' = fixed p → serving_step p p'.

(** C40. After a first load that succeeded, the network, the address listened on,
    HTTP/3, the mode, the use of one interface per connection, TLS being on or
    off and the type of the packet handler stay as they were through any number
    of reloads, of any configurations and also failing ones; and no reload
    panics in the assertion of the packet handler's type (a panic of that text
    could only be one of sending the MTU to the clients). *)
Theorem reload_is_safe loaded0 order0 p0 p1 p :
  reloadConfig loaded0 true order0 p0 = Ret (p1, inl tt) → rtc serving_step p1 p →
  fixed p = fixed p1
  ∧ ∀ loaded order, reloadConfig loaded false order p = Panic "interface conversion" →
      ∃ n sw, Server.SetMTU (I := I) (E := E) n order sw = Panic "interface conversion".
Proof.
  intros Ht%initial_typed Hr. revert Ht.
  assert (Hstep : ∀ q q', serving_step q q' → well_typed q → fixed q' = fixed q).
  { intros q q' [loaded order r Er|Hf] Hq; [|done].
    pose proof (stays_reload (λ _, True) ltac:(done) loaded order ltac:(done) q Hq) as Hs.
    by rewrite Er in Hs. }
  induction Hr as [q|q1 q2 q3 Hst _ IH]; intros Ht.
  - split; [done|]. intros loaded order Ep.
    pose (Q := λ why, why = "interface conversion"%string →
      ∃ n (sw : SW A I E), Server.SetMTU n order sw = Panic "interface conversion").
    assert (HQ : ∀ why, why ≠ "interface conversion"%string → Q why).
    { intros why Hne Hw. by destruct Hne. }
    assert (Hmtu : ∀ n (sw : SW A I E) why, Server.SetMTU n order sw = Panic why → Q why).
    { intros n sw why Em ->. by exists n, sw. }
    pose proof (stays_reload Q HQ loaded order Hmtu q Ht) as Hs. rewrite Ep in Hs. by apply Hs.
  - pose proof (Hstep _ _ Hst Ht) as E1.
    destruct IH as [E2 Hp]; [eapply shape_typed; [by apply fixed_shape|done]|]. by rewrite E2.
Qed.
End Spec.

(** ** A closed instance *)

#[export] Instance kept_switch {L} : SwitchState (option (IPSwitch.IPSwitch + MACSwitch.MACSwitch L)) L := {
  get_switch e := e; set_switch g _ := Some g }.

(** The interface call of [UnregisterSocket]. *)
#[export] Instance switch_unregister {L} `{MACSwitch.LRU L} :
  Unregister (option (IPSwitch.IPSwitch + MACSwitch.MACSwitch L)) := λ sid ip e,
  Ret match e with
      | Some (inl g) => Some (inl (IPSwitch.UnregisterSocket sid ip g))
      | Some (inr g) => Some (inr (MACSwitch.UnregisterSocket sid g))
      | None => None
      end.

#[export] Instance kept_switch_spec {L} `{MACSwitch.LRU L} :
  SwitchStateSpec (option (IPSwitch.IPSwitch + MACSwitch.MACSwitch L)) L.
Proof. split; [done|]. by intros sid ip [[]|] e' [= <-]. Qed.

#[export] Instance no_files : TLSFiles := {
  LoadX509KeyPair _ _ := None; tls_ReadFile x := inl x; AppendCertsFromPEM _ := true;
  OpenKeyLog _ := None }.
#[export] Instance no_radius_config : RadiusConfig := λ _, inr (ErrText "no file").
#[export] Instance no_passwords : Htpasswd unit := {
  htpasswd_New _ := inl tt; htpasswd_Match _ _ _ := false }.
#[export] Instance no_upgrader : SocketUpgrader unit recorder := {
  Matches _ _ := false; Upgrade _ w r st := (st, w, inr (ErrText "no")); SetHeaders _ u := u }.

Definition tap_config : Config :=
  mkConfig 1400 "10.0.0.0/29" "tap" true false false false 2 [("fragmentation", true)]%string true true
    (30, 5) (mkInterfaceConfig "" false "" false) (mkEventConfig [] [] []) ":9000" false [] "" "" ""
    (mkTLSFile "1.2" "1.3" "" false) "allow-all" "" "" 1 "kill-oldest" "" true [].

(** The same in the other mode, which a reload ignores, and a bad authenticator. *)
Definition tun_config : Config :=
  mkConfig 1300 "10.1.0.0/29" "tun" true false false false 2 []%string true true
    (30, 5) (mkInterfaceConfig "" false "" false) (mkEventConfig [] [] []) ":9001" true [] "" "" ""
    (mkTLSFile "1.2" "1.3" "" false) "nonsense" "" "" 1 "kill-oldest" "" true [].

Abbreviation demo_env := (option (IPSwitch.IPSwitch + MACSwitch.MACSwitch MACSwitch.list_cache)).

Definition blank_process : Process recorder unit demo_env unit unit :=
  mkProcess
    (mkSW ((demo_server 0) <| mode := VPNModeInvalid |> <| PacketHandler := false |>)
       (mkWorld ∅ {[7%nat := tt]} None [] [] 0 0) ∅)
    (mkAccess None AllowAllAuthenticator "" "" false ∅ ∅ []) "" false
    (mkInterfaceConfig "" false "" false) (mkEvents [] [] []) None.

#[local] Existing Instance MACSwitch.list_lru.

Definition loaded_process := (ret_of (reloadConfig (L := MACSwitch.list_cache) (inl tap_config) true [] blank_process) (blank_process, inl tt)).1.
Definition reloaded_process := ret_of (reloadConfig (L := MACSwitch.list_cache) (inl tun_config) false [] loaded_process) (loaded_process, inl tt).

Lemma reload_is_safe_witness :
  reloaded_process.2 = inr (ErrText "invalid authenticator selected")
  ∧ mtu (server (p_sw reloaded_process.1)) = 1300
  ∧ fixed reloaded_process.1 = fixed loaded_process.
Proof.
  split; [vm_compute; reflexivity|]. split; [vm_compute; reflexivity|].
  apply (reload_is_safe (L := MACSwitch.list_cache) (inl tap_config) [] blank_process loaded_process reloaded_process.1);
    [vm_compute; reflexivity|].
  eapply rtc_l; [apply (serving_reload _ _ (inl tun_config) [] reloaded_process.2); vm_compute; reflexivity|].
  apply rtc_refl.
Defined.
