(* ===== verification/ClientReload.v ===== *)
(** * Loading and reloading the client's configuration

    client/cli/base.go: [reloadConfig] of the client, before its loop starts and
    at every SIGHUP.  Reading the YAML file is an input; reading files and
    parsing URLs are a class. *)

From S2P Require Import Prelude Json Commands Adapter Socket World Net IPText VPNNet Shared.
From S2P Require Import Negotiation Http Upgraders Iface Client Reload.
Import adapters negotiation.
Local Open Scope reload_scope.

Class ClientFiles := {
  os_ReadFile : string → string + error;
  url_Parse : string → URL + error }.

(** client/cli/config.go *)
Record ClientConfig := mkClientConfig {
  cc_SetDefaultGateway : bool;
  cc_Ping : Z * Z;
  cc_Features : list (string * bool);
  cc_Interface : InterfaceConfig;
  cc_FirewallMark : Z;
  cc_Scripts : EventConfig;
  cc_Server : string;
  cc_Headers : list (string * list string);
  cc_Proxy : string;
  cc_AuthFile : string;
  cc_AutoReconnectDelay : Z;
  cc_CA : string;
  cc_Certificate : string;
  cc_Key : string;
  cc_ServerName : string;
  cc_TLS : TLSFileConfig }.

(** The client with what its connectors and scripts are configured by. *)
Record ClientProcess (A I : Type) := mkClientProcess {
  cp_world : World A I Client;
  cp_headers : Header;
  cp_tls : TLSSettings;
  cp_proxy : option URL;
  cp_server : option URL;
  cp_events : EventConfigHolder }.

Arguments mkClientProcess {A I}. Arguments cp_world {A I}. Arguments cp_headers {A I}.
Arguments cp_tls {A I}. Arguments cp_proxy {A I}. Arguments cp_server {A I}.
Arguments cp_events {A I}.

#[export] Instance eta_clientprocess {A I} : Etable (ClientProcess A I) := λ r,
  mkClientProcess (cp_world r) (cp_headers r) (cp_tls r) (cp_proxy r) (cp_server r) (cp_events r).

(** strings.Trim with the cut set of line breaks, tabs and spaces *)
Definition blank (c : Ascii.ascii) : bool := existsb (Z.eqb (ascii_code c)) [9; 10; 13; 32].

Fixpoint trim_blank_left (s : string) : string :=
  match s with
  | String c r => if blank c then trim_blank_left r else s
  | EmptyString => s
  end.
Fixpoint trim_blank_right (s : string) : string :=
  match s with
  | EmptyString => EmptyString
  | String c r =>
      let r := trim_blank_right r in
      if blank c && is_empty r then EmptyString else String c r
  end.
Definition trim_blanks (s : string) : string := trim_blank_right (trim_blank_left s).

(** The user of an authentication file. *)
Definition auth_user (data : string) : Userinfo :=
  let text := trim_blanks data in
  match cut colon text with
  | Some (u, p) => url_UserPassword u p
  | None => url_User text
  end.

Section Reload.
Context {A I : Type} `{ClientFiles} `{TLSFiles}.
Abbreviation P := (prog (ClientProcess A I)).
Abbreviation EP R := (P (R + error)).

Definition cset (f : ClientProcess A I → ClientProcess A I) : EP unit := done_ (modify f).
Definition cset_client (f : Client → Client) : EP unit :=
  cset (λ p, p <| cp_world := (cp_world p) <| env := f (env (cp_world p)) |> |>).

(** The server's URL without its user, and the user, from the file if there is one. *)
Definition load_user (config : ClientConfig) (dest : URL) : (URL * option Userinfo) + error :=
  if is_empty (cc_AuthFile config) then inl (dest <| User := None |>, User dest)
  else match os_ReadFile (cc_AuthFile config) with
       | inr err => inr err
       | inl data => inl (dest, Some (auth_user data))
       end.

Definition load_client_headers (config : ClientConfig) (userInfo : option Userinfo) : Header :=
  default_header "User-Agent" ("wsvpn/" +:+ SharedVersion)
    (SetBasicAuthFromUserInfo userInfo (load_headers (cc_Headers config))).

Definition load_client_tls (config : ClientConfig) : EP unit :=
  _ ←! cset (λ p, p <| cp_tls := (cp_tls p) <| InsecureSkipVerify := Insecure (cc_TLS config) |>
                                          <| ServerName := cc_ServerName config |> |>);
  p ←! (r ← gets (λ p, p); mret (inl r));
  let '(t, err) := TLSUseConfig (cc_TLS config) (cp_tls p) in
  _ ←! cset (λ p, p <| cp_tls := t |>);
  _ ←! mret (match err with Some err => inr err | None => inl tt end);
  _ ←! (if is_empty (cc_CA config) then ok
        else match tls_ReadFile (cc_CA config) with
             | inr err => mret (inr err)
             | inl data =>
                 if AppendCertsFromPEM data
                 then cset (λ p, p <| cp_tls := (cp_tls p) <| RootCAs := Some (cc_CA config) |> |>)
                 else fail "error loading root CA file"
             end);
  if is_empty (cc_Certificate config) && is_empty (cc_Key config) then ok
  else if is_empty (cc_Certificate config) || is_empty (cc_Key config) then
    fail "provide either both tls.key and tls.certificate or neither"
  else match LoadX509KeyPair (cc_Certificate config) (cc_Key config) with
       | Some err => mret (inr err)
       | None => cset (λ p, p <| cp_tls := (cp_tls p)
                   <| Certificates := [(cc_Certificate config, cc_Key config)] |> |>)
       end.

Fixpoint load_client_features (fs : list (string * bool)) : EP unit :=
  match fs with
  | [] => ok
  | (feat, en) :: fs =>
      if negb (features.IsFeatureSupported feat) then fail ("unknown feature: " +:+ feat)
      else _ ←! cset_client (Client_SetLocalFeature feat en); load_client_features fs
  end.

(** [client.UpdateSocketConfig()] *)
Definition update_sockets : EP unit := λ p,
  match Client_UpdateSocketConfig (cp_world p) with
  | Ret (w, err) =>
      Ret (p <| cp_world := w |>, match err with Some err => inr err | None => inl tt end)
  | Panic why => Panic why
  | Exhausted => Exhausted
  end.

Definition reloadClientConfig (loaded : ClientConfig + error) : EP unit :=
  config ←! mret loaded;
  dest ←! mret (url_Parse (cc_Server config));
  user ←! mret (load_user config dest);
  _ ←! cset (λ p, p <| cp_headers := load_client_headers config user.2 |>);
  _ ←! load_client_tls config;
  _ ←! (if is_empty (cc_Proxy config) then ok
        else proxyURL ←! mret (url_Parse (cc_Proxy config));
             cset (λ p, p <| cp_proxy := Some proxyURL |>));
  _ ←! cset_client (λ c, c <| ClientConfigurator := Some (cc_Ping config) |>);
  _ ←! load_client_features (cc_Features config);
  _ ←! cset_client (λ c, c <| FirewallMark := cc_FirewallMark config |>
                           <| SetDefaultGateway := cc_SetDefaultGateway config |>
                           <| ClientInterface := (cc_Interface config)
                                <| if_OneInterfacePerConnection := false |> |>
                           <| AutoReconnectDelay := cc_AutoReconnectDelay config |>);
  _ ←! cset (λ p, p <| cp_server := Some user.1 |>
                    <| cp_events := LoadEventConfig (cc_Scripts config) (cp_events p) |>);
  update_sockets.

(** What a connector is told of it: connection.go. *)
Definition connector_config (p : ClientProcess A I) (url : URL) : ConnectorConfig TLSSettings :=
  mkConnectorConfig (cp_proxy p) (cp_tls p) (cp_headers p) url (Reload_dialer (env (cp_world p))).

(** What [Serve] says of a connection before it dials, clients/base.go: with what
    the client authenticates, and the two warnings; [redacted] is the text of the
    URL without its password. *)
Definition authentications (p : ClientProcess A I) : list string :=
  (if 0 <? len (Certificates (cp_tls p)) then ["mTLS"%string] else [])
  ++ (if bool_decide (header_Get (cp_headers p) "Authorization" = EmptyString) then []
      else ["HTTP"%string]).

Definition Serve_says (p : ClientProcess A I) (redacted : string) : list string :=
  let isWarning := bool_decide (authentications p = []) in
  let authText := if isWarning then "NONE"%string else join ", " (authentications p) in
  (if InsecureSkipVerify (cp_tls p)
   then ["WARNING: TLS verification disabled! This can cause security issues!"%string] else [])
  ++ [BoolIfString isWarning "WARNING: " +:+ "Connecting to " +:+ redacted
      +:+ " with authentications: " +:+ authText].

End Reload.
