(* ===== verification/ClientReloadSpec.v ===== *)
(** * What a reload of the client does

    A reload never disturbs the connection that is up, and after a successful one
    the settings are those of the new configuration, whatever they were; but for
    what the configuration leaves out, of which some settings stay. *)

From S2P Require Import Prelude Json Commands Adapter Socket World Net IPText VPNNet Shared.
From S2P Require Import Negotiation Http Upgraders Iface Client Reload ClientReload.
Import adapters negotiation.
Local Open Scope reload_scope.

(** ** What a reload must leave alone *)

(** A socket but for the settings of its pings. *)
Definition without_ping {A} (s : Socket A) : Socket A := s <| pingInterval := 0 |> <| pingTimeout := 0 |>.

(** The state of a client's connection. *)
Definition connection_of (c : Client) :=
  (clientID c, serverID c, c_mtu c, doIPConfig c, c_iface c, remoteNet c, c_socket c, adapterOf c,
   sentUpEvent c, opened c, scripts c).

Definition running {A I} (p : ClientProcess A I) :=
  (without_ping <$> socks (cp_world p), ifaces (cp_world p), tasks (cp_world p),
   events (cp_world p), connection_of (env (cp_world p))).

(** What the configuration decides, and what it may leave to the one before. *)
Definition settings {A I} (p : ClientProcess A I) :=
  let c := env (cp_world p) in let t := cp_tls p in
  (cp_headers p, cp_server p, cp_events p,
   (FirewallMark c, SetDefaultGateway c, ClientConfigurator c, ClientInterface c, AutoReconnectDelay c),
   (InsecureSkipVerify t, ServerName t, tls_MinVersion t, tls_MaxVersion t)).

Definition leftovers {A I} (p : ClientProcess A I) :=
  (RootCAs (cp_tls p), Certificates (cp_tls p), KeyLogWriter (cp_tls p), cp_proxy p).

Section Spec.
Context {A I : Type} `{ClientFiles} `{TLSFiles}.
Abbreviation proc := (ClientProcess A I).
Abbreviation EP R := (prog proc (R + error)).

(** ** A reload returns, and leaves the connection alone *)

Definition quiet {R} (m : EP R) : Prop := ∀ p, ∃ p' r, m p = Ret (p', r) ∧ running p' = running p.

Lemma quiet_ret {R} (r : R + error) : quiet (mret r).
Proof. intros p. by exists p, r. Qed.

Lemma quiet_bind {R R'} (m : EP R) (k : R → EP R') :
  quiet m → (∀ r, quiet (k r)) → quiet (ebind m k).
Proof.
  intros Hm Hk p. destruct (Hm p) as (p1 & r & E1 & H1). unfold ebind. rewrite (run_bind _ _ _ _ _ E1).
  destruct r as [r|err]; [|by exists p1, (inr err)].
  destruct (Hk r p1) as (p2 & r2 & E2 & H2). exists p2, r2. split; [done|]. congruence.
Qed.

Lemma quiet_set f : (∀ p : proc, running (f p) = running p) → quiet (cset f).
Proof. intros Hf p. exists (f p), (inl tt). by split. Qed.

Lemma quiet_set_client f : (∀ c, connection_of (f c) = connection_of c) → quiet (cset_client f).
Proof. intros Hf. apply quiet_set. intros p. unfold running. simpl. by rewrite Hf. Qed.

Lemma quiet_features fs : quiet (load_client_features fs).
Proof.
  induction fs as [|[feat en] fs IH]; [apply quiet_ret|]. simpl.
  destruct (negb _); [apply quiet_ret|]. apply quiet_bind; [|done].
  apply quiet_set_client. intros c. by destruct en.
Qed.

Lemma quiet_tls config : quiet (load_client_tls config).
Proof.
  unfold load_client_tls. apply quiet_bind; [by apply quiet_set|]. intros _.
  apply quiet_bind; [intros p; by eexists _, _|]. intros p0.
  destruct (TLSUseConfig _ _) as [t err]. apply quiet_bind; [by apply quiet_set|]. intros _.
  apply quiet_bind; [apply quiet_ret|]. intros _. apply quiet_bind; [|intros _];
    repeat case_match; (apply quiet_ret || by apply quiet_set).
Qed.

Lemma quiet_update : quiet update_sockets.
Proof.
  intros p. unfold update_sockets, Client_UpdateSocketConfig.
  erewrite run_bind by reflexivity.
  destruct (c_socket _) as [sid|]; [|by eexists _, _]. destruct (ClientConfigurator _) as [config|]; [|by eexists _, _].
  erewrite run_bind by reflexivity. eexists _, _. split; [reflexivity|]. unfold running. simpl.
  do 4 f_equal. apply map_eq. intros j. rewrite !lookup_fmap. destruct (decide (j = sid)) as [->|Hne].
  - rewrite lookup_alter_eq. by destruct (socks _ !! sid).
  - by rewrite lookup_alter_ne.
Qed.

Lemma quiet_reload loaded : quiet (reloadClientConfig loaded).
Proof.
  unfold reloadClientConfig. apply quiet_bind; [apply quiet_ret|]. intros config.
  apply quiet_bind; [apply quiet_ret|]. intros dest.
  apply quiet_bind; [apply quiet_ret|]. intros user.
  apply quiet_bind; [by apply quiet_set|]. intros _.
  apply quiet_bind; [apply quiet_tls|]. intros _.
  apply quiet_bind.
  { destruct (is_empty _); [apply quiet_ret|]. apply quiet_bind; [apply quiet_ret|]. intros u. by apply quiet_set. }
  intros _. apply quiet_bind; [by apply quiet_set_client|]. intros _.
  apply quiet_bind; [apply quiet_features|]. intros _.
  apply quiet_bind; [by apply quiet_set_client|]. intros _.
  apply quiet_bind; [by apply quiet_set|]. intros _. apply quiet_update.
Qed.

(** ** What a successful reload sets *)

Lemma ebind_inv {R R'} (m : EP R) (k : R → EP R') p p' x :
  ebind m k p = Ret (p', inl x) → ∃ p1 r, m p = Ret (p1, inl r) ∧ k r p1 = Ret (p', inl x).
Proof.
  unfold ebind. intros Hx. apply prog_bind_inv in Hx as (p1 & [r|err] & E1 & Hx); [|done].
  by exists p1, r.
Qed.

Lemma update_keeps (p p' : proc) r :
  update_sockets p = Ret (p', r) → settings p' = settings p ∧ leftovers p' = leftovers p.
Proof.
  unfold update_sockets, Client_UpdateSocketConfig. erewrite run_bind by reflexivity.
  destruct (c_socket _) as [sid|]; [destruct (ClientConfigurator _)|];
    try erewrite run_bind by reflexivity; by intros [= <- _].
Qed.

Lemma features_keep fs (p p' : proc) x :
  load_client_features fs p = Ret (p', inl x) →
  settings p' = settings p ∧ leftovers p' = leftovers p.
Proof.
  revert p. induction fs as [|[feat en] fs IH]; intros p; [by intros [= <- _]|]. simpl.
  destruct (negb _); [done|]. intros (p1 & r & [= <- _] & Hx)%ebind_inv.
  apply IH in Hx as [-> ->]. by destruct en.
Qed.

(** The TLS settings after a reload from [t]. *)
Definition tls_after (config : ClientConfig) (t : TLSSettings) : TLSSettings :=
  let f := cc_TLS config in
  mkTLS (if is_empty (cc_Certificate config) && is_empty (cc_Key config) then Certificates t
         else [(cc_Certificate config, cc_Key config)])
    (ClientCAs t) (ClientAuth t) (TLSVersionNum (MinVersion f)) (TLSVersionNum (MaxVersion f))
    (if is_empty (KeyLogFile f) then KeyLogWriter t else Some (KeyLogFile f))
    (Insecure f) (cc_ServerName config)
    (if is_empty (cc_CA config) then RootCAs t else Some (cc_CA config)).

Lemma tls_loaded config (p p' : proc) x :
  load_client_tls config p = Ret (p', inl x) → p' = p <| cp_tls := tls_after config (cp_tls p) |>.
Proof.
  unfold load_client_tls. intros (p1 & [] & [= <-] & Hx)%ebind_inv.
  apply ebind_inv in Hx as (p2 & q & E2 & Hx). injection E2 as <- <-. cbn [cp_tls] in Hx.
  assert (Hfile : ∃ key, TLSUseConfig (cc_TLS config) (cp_tls (p <| cp_tls := (cp_tls p)
      <| InsecureSkipVerify := Insecure (cc_TLS config) |> <| ServerName := cc_ServerName config |> |>))
    = key) by by eexists.
  destruct Hfile as [[t err] Ek]. simpl in Hx, Ek. rewrite Ek in Hx.
  apply ebind_inv in Hx as (p3 & [] & [= <-] & Hx).
  apply ebind_inv in Hx as (p4 & [] & E4 & Hx).
  destruct err as [err|]; [done|]. injection E4 as <-.
  apply ebind_inv in Hx as (p5 & [] & E5 & Hx).
  unfold TLSUseConfig in Ek. unfold tls_after. destruct p as [? ? t0 ? ? ?], t0; simpl in *.
  destruct (is_empty (KeyLogFile _)); [|destruct (OpenKeyLog _); [done|]]; injection Ek as <-;
    destruct (is_empty (cc_CA config)); repeat case_match; try done;
    try injection E5 as <-; injection Hx as <- _; reflexivity.
Qed.

(** What the configuration sets. *)
Definition settings_of (config : ClientConfig) (user : URL * option Userinfo) :=
  let f := cc_TLS config in
  (load_client_headers config user.2, Some user.1,
   LoadEventConfig (cc_Scripts config) (mkEvents [] [] []),
   (cc_FirewallMark config, cc_SetDefaultGateway config, Some (cc_Ping config),
    (cc_Interface config) <| if_OneInterfacePerConnection := false |>, cc_AutoReconnectDelay config),
   (Insecure f, cc_ServerName config, TLSVersionNum (MinVersion f), TLSVersionNum (MaxVersion f))).

Lemma settled loaded (p p' : proc) :
  reloadClientConfig loaded p = Ret (p', inl tt) →
  ∃ config dest user, loaded = inl config ∧ url_Parse (cc_Server config) = inl dest
    ∧ load_user config dest = inl user ∧ settings p' = settings_of config user
    ∧ let t := tls_after config (cp_tls p) in
      ∃ proxy, leftovers p' = (RootCAs t, Certificates t, KeyLogWriter t, proxy)
        ∧ (is_empty (cc_Proxy config) = true → proxy = cp_proxy p).
Proof.
  unfold reloadClientConfig. intros (p0 & config & E0 & Hx)%ebind_inv. injection E0 as <- ->.
  apply ebind_inv in Hx as (p1 & dest & E1 & Hx). injection E1 as <- Hdest.
  apply ebind_inv in Hx as (p2 & user & E2 & Hx). injection E2 as <- Huser.
  apply ebind_inv in Hx as (p3 & [] & [= <-] & Hx).
  apply ebind_inv in Hx as (p4 & [] & E4%tls_loaded & Hx). cbn [cp_tls] in E4.
  apply ebind_inv in Hx as (p5 & [] & E5 & Hx).
  assert (Hp : ∃ proxy, p5 = p4 <| cp_proxy := proxy |>
    ∧ (is_empty (cc_Proxy config) = true → proxy = cp_proxy p)).
  { destruct (is_empty (cc_Proxy config)).
    - injection E5 as <-. exists (cp_proxy p4). by rewrite E4; destruct p.
    - apply ebind_inv in E5 as (p6 & u & [= <- _] & [= <-]). by exists (Some u). }
  destruct Hp as (proxy & -> & Hproxy). rewrite E4 in Hx. clear E4 E5 p4.
  apply ebind_inv in Hx as (p6 & [] & [= <-] & Hx).
  apply ebind_inv in Hx as (p7 & [] & [Hs7 Hl7]%features_keep & Hx).
  apply ebind_inv in Hx as (p8 & [] & [= <-] & Hx).
  apply ebind_inv in Hx as (p9 & [] & [= <-] & [Hs9 Hl9]%update_keeps).
  exists config, dest, user. split_and!; try done.
  - rewrite Hs9. unfold settings in Hs7 |- *. injection Hs7 as Hh _ _ _ _ Hc _ _ H1 H2 H3 H4.
    simpl in *. by rewrite Hh, Hc, H1, H2, H3, H4.
  - exists proxy. split; [|done]. rewrite Hl9. unfold leftovers in Hl7 |- *.
    injection Hl7 as H1 H2 H3 H4. simpl in *. by rewrite H1, H2, H3, H4.
Qed.


End Spec.

(** ** A closed instance: a reload that leaves out the proxy *)

#[export] Instance plain_files : ClientFiles := {
  os_ReadFile _ := inr (ErrText "no such file"); url_Parse x := inl (mkURL "wss" None x) }.
#[export] Instance any_tls_files : TLSFiles := {
  LoadX509KeyPair _ _ := None; tls_ReadFile x := inl x; AppendCertsFromPEM _ := true;
  OpenKeyLog _ := None }.

Definition client_config (proxy : string) (delay : Z) : ClientConfig :=
  mkClientConfig false (30, 5) [("fragmentation", true)]%string (mkInterfaceConfig "" false "" false) 0
    (mkEventConfig [] [] []) "vpn.example.com" [] proxy "" delay "" "" "" ""
    (mkTLSFile "1.2" "1.3" "" false).

Definition new_client : ClientProcess recorder unit :=
  mkClientProcess (mkWorld ∅ ∅ NewClient [] [] 0 0) ∅ no_tls None None (mkEvents [] [] []).

Definition reloaded (config : ClientConfig) (p : ClientProcess recorder unit) : ClientProcess recorder unit :=
  match reloadClientConfig (inl config) p with Ret (p, _) => p | _ => p end.

