(* ===== verification/Entry.v ===== *)
(** * The programs: flags, start, signals and end

    src/wsvpn, src/server and src/client with shared/cli/flags.go and
    shutdown.go, and the two functions [Main].  What the flags say, the
    configurations that are read and the signals that arrive are inputs; each
    goroutine of [Main] runs its reaction as a whole. *)

From S2P Require Import Prelude Json Commands Adapter Socket World Lifecycle Frame Net IPText VPNNet.
From S2P Require Import Shared Server.
From S2P Require Import Negotiation Http Upgraders Auth Iface Client Reload ReloadSpec ClientReload.
From S2P Require IPSwitch MACSwitch.
Import adapters negotiation.

Module entry.

(** ** Flags *)

(** The values of [-config] and [-print-default-config], if they are given. *)
Record flags := mkFlags { flag_config : option string; flag_print : bool }.

Definition LoadFlags (configName : string) (given : flags) : string * bool :=
  (default configName (flag_config given), flag_print given).

(** Which [Main] a binary calls, with the file and whether to only print the
    default configuration. *)
Inductive program : Type :=
| ClientMain (config : string) (print : bool)
| ServerMain (config : string) (print : bool).

(** src/server/main.go, src/client/main.go *)
Definition server_main (given : flags) : program :=
  let '(config, print) := LoadFlags "server.yml" given in ServerMain config print.
Definition client_main (given : flags) : program :=
  let '(config, print) := LoadFlags "client.yml" given in ClientMain config print.

(** src/wsvpn/main.go; [mode] is the value of [-mode], empty if not given. *)
Definition wsvpn_main (mode : string) (given : flags) : outcome program :=
  let '(config, print) := LoadFlags "MODE.yml" given in
  let config := if bool_decide (config = "MODE.yml"%string) then mode +:+ ".yml" else config in
  if bool_decide (mode = "client"%string) then Ret (ClientMain config print)
  else if bool_decide (mode = "server"%string) then Ret (ServerMain config print)
  else Panic "please choose a valid mode: client or server".

(** The combined binary is the two others. *)
Lemma one_binary given :
  flag_config given ≠ Some "MODE.yml"%string →
  wsvpn_main "client" given = Ret (client_main given)
  ∧ wsvpn_main "server" given = Ret (server_main given).
Proof.
  destruct given as [[config|] print]; intros Hc; [|done].
  unfold wsvpn_main, client_main, server_main, LoadFlags. simpl.
  rewrite bool_decide_eq_false_2; [done|]. simpl in Hc. congruence.
Qed.

(** ** Configurations *)

(** Files, and gopkg.in/yaml.v3 on the structure of type [X]: decoding, where
    unknown fields are an error, changes the fields that the text names. *)
Class Yaml (X : Type) := {
  os_Open : string → string + error;
  yaml_Decode : string → X → X + error;
  zero_config : X;
  defaultConfig : string }.

(** What the decoder promises of a text that names no field. *)
Class YamlSpec (X : Type) `{Yaml X} := {
  names_nothing : string → Prop;
  decode_nothing text x : names_nothing text → yaml_Decode text x = inl x }.

Section Load.
Context {X : Type} `{Yaml X}.

Definition LoadConfigReader (reader : string) (out : X) : X + error := yaml_Decode reader out.

Definition LoadConfigFile (file : string) (out : X) : X + error :=
  match os_Open file with
  | inr err => inr err
  | inl fh => LoadConfigReader fh out
  end.

Definition GetDefaultConfig : string := defaultConfig.

(** The file over the embedded default. *)
Definition load (file : string) : X + error :=
  match LoadConfigReader defaultConfig zero_config with
  | inr err => inr err
  | inl out => LoadConfigFile file out
  end.

End Load.

(** server/cli/config.go and client/cli/config.go *)
Definition server_Load `{Yaml Config} (file : string) : Config + error := load file.
Definition client_Load `{Yaml ClientConfig} (file : string) : ClientConfig + error := load file.

(** An empty file stands for the default configuration. *)
Lemma load_default {X} `{YamlSpec X} file text :
  os_Open file = inl text → names_nothing text →
  load file = LoadConfigReader defaultConfig zero_config.
Proof.
  intros Hf Hn. unfold load, LoadConfigFile. destruct (LoadConfigReader _ _) as [out|err]; [|done].
  rewrite Hf. by apply decode_nothing.
Qed.

(** shared/cli/ping.go: half a minute, and five seconds. *)
Definition MakeDefaultPingConfig : Z * Z := (30 * Second, 5 * Second).

(** ** server/servers/base.go *)

Definition NewServer (vpnNet : VPNNet) (mode : VPNMode) : Server :=
  mkServer false vpnNet false false mode None false 0 MaxConnectionsPerUserKillOldest ∅ 0 0 None
    EmptyString [] ∅ ∅ false None ∅.

(** ** server/cli/base.go *)

Section Server.
Context {A I E F U L : Type} `{SocketAdapter A} `{WaterInterface I} `{!Unregister E} `{NewRandom}
  `{Cidr} `{MACSwitch.LRU L} `{!SwitchState E L} `{Htpasswd F} `{RadiusConfig} `{TLSFiles}
  `{SocketUpgrader U A}.
Implicit Types p : Process A I E F U.
Abbreviation P := (prog (Process A I E F U)).

(** shared/cli/shutdown.go: what runs at the first SIGINT or SIGTERM, on a
    goroutine of its own. *)
Definition RegisterShutdownSignals {W R} (callback : prog W R) : prog W R := callback.

(** How a process ends. *)
Inductive exit : Type :=
| ExitCode (code : Z)
| Panicked (err : error).

Definition error_panic {R} (err : error) : P R := λ _, Panic (error_text err).

(** [Main] up to [server.Serve]: the identifier and the first configuration. *)
Definition Main_start (serverUUID : string + error) (loaded : Config + error)
    (order : list (string * SocketId)) : P unit :=
  match serverUUID with
  | inr err => error_panic err
  | inl id =>
      on_sw (upd_server (SetServerID id));;
      err ← reloadConfig loaded true order;
      match err with
      | inr err => error_panic err
      | inl _ => mret tt
      end
  end.

(** All of it before the server serves; or the default configuration, printed. *)
Definition Main `{Yaml Config} (serverUUID : string + error) (config : string) (print : bool)
    (order : list (string * SocketId)) : P (option string) :=
  if print then mret (Some GetDefaultConfig)
  else Main_start serverUUID (server_Load config) order;; mret None.

(** What reaches [Main] while the server serves: a SIGHUP with what the file then
    holds, SIGINT or SIGTERM, and the end of [Serve]. *)
Inductive happening : Type :=
| Hangup (loaded : Config + error) (order : list (string * SocketId))
| Shutdown
| ServeReturned (err : option error).

(** The goroutine of SIGHUP only logs an error; the one of
    [RegisterShutdownSignals] closes the server and exits; [Main] itself closes
    it on its way out, also when it panics. *)
Definition react (h : happening) : P (option exit) :=
  match h with
  | Hangup loaded order => reloadConfig loaded false order;; mret None
  | Shutdown => RegisterShutdownSignals (on_sw Server_Close;; mret (Some (ExitCode 0)))
  | ServeReturned err =>
      on_sw Server_Close;;
      mret (Some (match err with Some err => Panicked err | None => ExitCode 0 end))
  end.

(** ** The runs of a server process *)

Inductive main_step : option exit * Process A I E F U → option exit * Process A I E F U → Prop :=
| main_reacts h p p' x : react h p = Ret (p', x) → main_step (None, p) (x, p')
| main_serves p p' : fixed p' = fixed p → main_step (None, p) (None, p').

(** Closing the server again changes nothing. *)
Definition closed (s : Server) : Prop := closers s = [] ∧ is_Some (serveError s).

Lemma Server_Close_closes (sw sw' : SW A I E) r :
  Server_Close sw = Ret (sw', r) → closed (server sw').
Proof.
  unfold Server_Close. intros (sw1 & [] & E1 & E2)%prog_bind_inv. unfold closeAll in E1.
  apply prog_bind_inv in E1 as (sw2 & s2 & _ & E1). apply prog_bind_inv in E1 as (sw3 & [] & _ & E1).
  unfold upd_server, on_server in E1. injection E1 as <-.
  unfold on_server, setServeError in E2. simpl in E2.
  destruct (serveError (server sw3)) eqn:Es; [|destruct (serveErrorChannel _); [done|]];
    injection E2 as <- _; split; simpl; try done; by rewrite Es.
Qed.

Lemma Server_Close_again (sw : SW A I E) : closed (server sw) → Server_Close sw = Ret (sw, tt).
Proof.
  intros [Hc [e He]]. unfold Server_Close, closeAll. destruct sw as [s w pend]. simpl in *.
  unfold mbind, prog_bind, gets. cbn [server]. rewrite Hc. cbn [close_all mret prog_ret upd_server on_server].
  unfold upd_server, on_server. cbn [server]. unfold setServeError. simpl. rewrite He.
  destruct s; simpl in *. by subst.
Qed.

End Server.

(** ** What holds of a server process *)

Section Spec.
Context {A I E F U L : Type} `{SocketAdapter A} `{WaterInterface I} `{!Unregister E} `{NewRandom}
  `{Cidr} `{MACSwitch.LRU L} `{!SwitchState E L} `{!SwitchStateSpec E L} `{Htpasswd F}
  `{RadiusConfig} `{TLSFiles} `{SocketUpgrader U A}.
Implicit Types p : Process A I E F U.

Lemma view_close_adapter sid : keeps_view (close_adapter (A := A) (I := I) (E := E) sid).
Proof.
  intros c sw sw' u Hc. unfold close_adapter. destruct (pending sw !! sid); [by intros [= <- _]|].
  intros (sw1 & e & E1 & [= <- _])%prog_bind_inv. refine (view_lift _ _ c _ _ _ Hc E1).
  intros k. apply env_adapter.
Qed.

Lemma view_close_all cs : keeps_view (close_all (A := A) (I := I) (E := E) cs).
Proof.
  intros c. induction cs as [|[sid|iid|] cs IH]; cbn [close_all]; frame.
  - apply view_close_adapter.
  - apply view_lift, kind_iface.
Qed.

Lemma view_Server_Close : keeps_view (Server_Close (A := A) (I := I) (E := E)).
Proof.
  intros c. unfold Server_Close, closeAll. frame.
  - apply view_close_all.
  - by apply view_upd_server.
  - intros sw sw' u Hc. unfold on_server, setServeError.
    repeat case_match; try done; intros Hr; simplify_eq/=; by destruct sw.
Qed.

Lemma closing_reaction (x : exit) p p' r :
  (on_sw Server_Close;; mret (Some x)) p = Ret (p', r) → fixed p' = fixed p ∧ closed (server (p_sw p')).
Proof.
  unfold mbind, prog_bind, on_sw. destruct (Server_Close (p_sw p)) as [[sw []]| |] eqn:Ec; [|done..].
  intros [= <- _]. split; [|by eapply Server_Close_closes].
  pose proof (view_Server_Close _ _ _ _ eq_refl Ec) as Hv. unfold sw_view, fixed, shape, kind in *. simpl.
  by injection Hv as -> -> -> ->.
Qed.

Lemma react_keeps h p p' x : well_typed p → react h p = Ret (p', x) →
  fixed p' = fixed p ∧ (is_Some x → closed (server (p_sw p'))).
Proof.
  intros Hp. destruct h as [loaded order| |err]; cbn [react].
  - intros (p1 & r & E1 & [= <- <-])%prog_bind_inv. split; [|by intros []].
    pose proof (stays_reload (λ _, True) ltac:(done) loaded order ltac:(done) p Hp) as Hs.
    by rewrite E1 in Hs.
  - intros [? ?]%closing_reaction. by split.
  - intros [? ?]%closing_reaction. by split.
Qed.


End Spec.

(** ** client/cli/base.go *)

(** The client with what [Reload] of client/clients/base.go sets: whether it has
    a dialer of its own, which the resolver then uses as well. *)
Record client_process (A I : Type) := mkClientMain {
  cm_client : ClientProcess A I;
  cm_dialer : bool;
  cm_resolver : bool }.
Arguments mkClientMain {A I}. Arguments cm_client {A I}. Arguments cm_dialer {A I}.
Arguments cm_resolver {A I}.

Section Client.
Context {A I : Type} `{SocketAdapter A} `{WaterInterface I} `{!Configurable I} `{ClientFiles} `{TLSFiles}.
Abbreviation P := (prog (client_process A I)).

Definition on_client {R} (m : prog (ClientProcess A I) R) : P R := λ c,
  match m (cm_client c) with
  | Ret (p, r) => Ret (mkClientMain p (cm_dialer c) (cm_resolver c), r)
  | Panic why => Panic why
  | Exhausted => Exhausted
  end.

Definition Client_Reload : P unit := λ c,
  let marks := Reload_dialer (env (cp_world (cm_client c))) in
  Ret (mkClientMain (cm_client c) marks marks, tt).

Definition Client_close : P unit := on_client (λ p,
  match Client_Close (cp_world p) with
  | Ret (w, _) => Ret (p <| cp_world := w |>, tt)
  | Panic why => Panic why
  | Exhausted => Exhausted
  end).

(** [Main] up to [client.ServeLoop]. *)
Definition Client_Main_start (loaded : ClientConfig + error) : P unit :=
  err ← on_client (reloadClientConfig loaded);
  match err with
  | inr err => λ _, Panic (error_text err)
  | inl _ => Client_Reload
  end.

Definition Client_Main `{Yaml ClientConfig} (config : string) (print : bool) : P (option string) :=
  if print then mret (Some GetDefaultConfig)
  else Client_Main_start (client_Load config);; mret None.

(** What reaches it then: a SIGHUP, also a failing one, and SIGINT or SIGTERM. *)
Definition client_hangup (loaded : ClientConfig + error) : P unit :=
  on_client (reloadClientConfig loaded);; Client_Reload.
Definition client_shutdown : P exit :=
  RegisterShutdownSignals (Client_close;; mret (ExitCode 0)).

(** New connections are marked as the settings in force say, after the start and
    after every SIGHUP, whether it could be followed or not. *)
Definition dials_as_set (c : client_process A I) : Prop :=
  let marks := Reload_dialer (env (cp_world (cm_client c))) in cm_dialer c = marks ∧ cm_resolver c = marks.

Lemma hangup_dials loaded c c' r : client_hangup loaded c = Ret (c', r) → dials_as_set c'.
Proof. intros (c1 & x & _ & [= <- _])%prog_bind_inv. done. Qed.

Lemma start_dials loaded c c' : Client_Main_start loaded c = Ret (c', tt) → dials_as_set c'.
Proof. intros (c1 & [x|err] & _ & E1)%prog_bind_inv; [by injection E1 as <-|done]. Qed.

End Client.

(** ** A closed instance: a start, a SIGHUP with a bad file, SIGTERM *)

#[local] Existing Instance MACSwitch.list_lru.
Abbreviation demo := (Process recorder unit demo_env unit unit).

Definition ret_of {X} (o : outcome X) (d : X) : X := match o with Ret x => x | _ => d end.
Definition started : demo :=
  (ret_of (Main_start (L := MACSwitch.list_cache) (inl "server-1") (inl tap_config) [] blank_process)
    (blank_process, tt)).1.
Definition hung_up : demo :=
  (ret_of (react (L := MACSwitch.list_cache) (Hangup (inl tun_config) []) started) (started, None)).1.
Definition shut_down : demo :=
  (ret_of (react (L := MACSwitch.list_cache) Shutdown hung_up) (hung_up, None)).1.


End entry.
